(** * Vendoring and compatibility gating of the CUE package cache ([pkg/pkg.go])

    A shallow embedding of [EnsureCompatibility], [Vendor], [extractModules],
    [GetCueModParent] and [CueModInit], together with the part of the Go
    standard library, of [gofrs/flock] and of [hashicorp/go-version] that
    these functions call, and the properties of the package that follow.

    Layout: byte strings and Go's [strings], [strconv] and [fmt] helpers;
    lexical paths ([path], [path/filepath] on Unix); the file tree and the
    [os] calls over it; the [pkg] functions; then the lemmas and theorems. *)

From Stdlib Require Import List String Ascii ZArith NArith Bool Lia Arith.
From Stdlib Require Import Permutation.
Import ListNotations.

Local Open Scope string_scope.

(* ===================================================================== *)
(** ** Byte strings: [strings], [strconv], [fmt]                          *)
(* ===================================================================== *)

(** A Go [string] and a [[]byte] are both modelled by [string], a list of
    bytes. *)

Module Strings.

Definition slash : ascii := "/"%char.
Definition dquote : ascii := "034"%char.
Definition backslash : ascii := "\"%char.

(** [strings.HasPrefix(s, prefix)] *)
Fixpoint HasPrefix (s prefix : string) : bool :=
  match prefix, s with
  | EmptyString, _ => true
  | String _ _, EmptyString => false
  | String a p', String b s' => Ascii.eqb a b && HasPrefix s' p'
  end.

(** [strings.Contains(s, substr)] *)
Fixpoint Contains (s substr : string) : bool :=
  HasPrefix s substr ||
  match s with
  | EmptyString => false
  | String _ s' => Contains s' substr
  end.

(** The ASCII part of Go's white space table: ['\t'], ['\n'], ['\v'],
    ['\f'], ['\r'], [' ']. *)
Definition isSpace (c : ascii) : bool :=
  let n := nat_of_ascii c in
  ((9 <=? n)%nat && (n <=? 13)%nat) || (n =? 32)%nat.

Fixpoint TrimLeft (s : string) : string :=
  match s with
  | EmptyString => EmptyString
  | String c s' => if isSpace c then TrimLeft s' else s
  end.

Fixpoint TrimRight (s : string) : string :=
  match s with
  | EmptyString => EmptyString
  | String c s' =>
      match TrimRight s' with
      | EmptyString => if isSpace c then EmptyString else String c EmptyString
      | r => String c r
      end
  end.

(** [strings.TrimSpace(s)], on the ASCII white space of the table above
    (the multi-byte Unicode spaces are left in place). *)
Definition TrimSpace (s : string) : string := TrimRight (TrimLeft s).

(** [strings.Split(s, "/")]: never empty, one more element than there
    are separators. *)
Fixpoint SplitSlash (s : string) : list string :=
  match s with
  | EmptyString => [EmptyString]
  | String c r =>
      if Ascii.eqb c slash then EmptyString :: SplitSlash r
      else match SplitSlash r with
           | h :: t => String c h :: t
           | [] => [String c EmptyString]
           end
  end.

(** [strings.Join(elems, "/")] *)
Fixpoint JoinSlash (elems : list string) : string :=
  match elems with
  | [] => EmptyString
  | [e] => e
  | e :: rest => e ++ String slash (JoinSlash rest)
  end.

Fixpoint hasSlash (s : string) : bool :=
  match s with
  | EmptyString => false
  | String c r => Ascii.eqb c slash || hasSlash r
  end.

(** Last byte of a string, if any. *)
Fixpoint lastByte (s : string) : option ascii :=
  match s with
  | EmptyString => None
  | String c EmptyString => Some c
  | String _ r => lastByte r
  end.

(** Decimal digits of a natural number, most significant first
    ([strconv.FormatInt(n, 10)] and [itoa.Uitoa] on non-negative
    arguments). *)
Definition digit (n : N) : ascii := ascii_of_N (48 + n).

Fixpoint uitoa_fuel (fuel : nat) (n : N) (acc : string) : string :=
  match fuel with
  | O => acc
  | S fuel' =>
      let acc' := String (digit (N.modulo n 10)) acc in
      if (n <? 10)%N then acc' else uitoa_fuel fuel' (N.div n 10) acc'
  end.

Definition Uitoa (n : N) : string :=
  uitoa_fuel (S (N.to_nat (N.log2 n))) n EmptyString.

Definition hexdigit (n : N) : ascii :=
  if (n <? 10)%N then ascii_of_N (48 + n) else ascii_of_N (87 + n).

(** [strconv.Quote] one byte at a time: the escapes of Go's string
    literals for the ASCII range; bytes from 0x80 on are copied (they are
    taken to be parts of printable UTF-8 sequences). *)
Definition quoteByte (c : ascii) : string :=
  let n := N_of_ascii c in
  if Ascii.eqb c dquote then String backslash (String dquote EmptyString)
  else if Ascii.eqb c backslash then String backslash (String backslash EmptyString)
  else if (n =? 7)%N then String backslash "a"
  else if (n =? 8)%N then String backslash "b"
  else if (n =? 12)%N then String backslash "f"
  else if (n =? 10)%N then String backslash "n"
  else if (n =? 13)%N then String backslash "r"
  else if (n =? 9)%N then String backslash "t"
  else if (n =? 11)%N then String backslash "v"
  else if (n <? 32)%N || (n =? 127)%N then
    String backslash (String "x"%char
      (String (hexdigit (N.div n 16)) (String (hexdigit (N.modulo n 16)) EmptyString)))
  else String c EmptyString.

Fixpoint quoteBody (s : string) : string :=
  match s with
  | EmptyString => EmptyString
  | String c r => quoteByte c ++ quoteBody r
  end.

(** The verb [%q] of [fmt] on a string argument. *)
Definition Quote (s : string) : string :=
  String dquote (quoteBody s ++ String dquote EmptyString).

End Strings.

(* ===================================================================== *)
(** ** Lexical paths: [path] and [path/filepath] on Unix                  *)
(* ===================================================================== *)

Module Path.
Import Strings.

(** A cleaned path: whether it is rooted, and its name elements. *)
Definition parsed : Type := (bool * list string)%type.

Definition IsAbs (s : string) : bool :=
  match s with
  | String c _ => Ascii.eqb c slash
  | EmptyString => false
  end.

(** One element of [Clean]'s scan, on the stack of elements kept so far
    (innermost first): empty and [.] elements are dropped, [..] removes
    the element before it, is dropped at the root and is kept at the
    start of a relative path. *)
Definition step (rooted : bool) (st : list string) (c : string) : list string :=
  if String.eqb c EmptyString then st
  else if String.eqb c "." then st
  else if String.eqb c ".." then
    match st with
    | top :: rest => if String.eqb top ".." then c :: st else rest
    | [] => if rooted then [] else [c]
    end
  else c :: st.

Definition parse (s : string) : parsed :=
  (IsAbs s, rev (fold_left (step (IsAbs s)) (SplitSlash s) [])).

Definition render (p : parsed) : string :=
  match p with
  | (true, cs) => String slash (JoinSlash cs)
  | (false, []) => "."
  | (false, cs) => JoinSlash cs
  end.

(** [path.Clean], [filepath.Clean] *)
Definition Clean (s : string) : string := render (parse s).

(** [path.Join]: the empty elements are ignored, the rest joined with
    slashes and cleaned; no element left gives the empty string. *)
Definition Join (elems : list string) : string :=
  match filter (fun e => negb (String.eqb e EmptyString)) elems with
  | [] => EmptyString
  | es => Clean (JoinSlash es)
  end.

(** The part of a path up to and including its last slash. *)
Fixpoint dirPrefix (s : string) : string :=
  match s with
  | EmptyString => EmptyString
  | String c r =>
      if hasSlash r then String c (dirPrefix r)
      else if Ascii.eqb c slash then String slash EmptyString
      else EmptyString
  end.

(** [filepath.Dir] *)
Definition Dir (s : string) : string := Clean (dirPrefix s).

(** [filepath.VolumeName]: empty on Unix. *)
Definition VolumeName (_ : string) : string := EmptyString.

Definition PathSeparator : string := String slash EmptyString.

(** [filepath.Abs], given the working directory. *)
Definition Abs (wd s : string) : string :=
  if IsAbs s then Clean s else Join [wd; s].

(** The absolute name elements a path denotes from working directory
    [wd]. *)
Definition resolve (wd s : string) : list string :=
  if IsAbs s then snd (parse s)
  else rev (fold_left (step true) (SplitSlash s)
              (fold_left (step true) (SplitSlash wd) [])).

End Path.

(* ===================================================================== *)
(** ** The file tree                                                     *)
(* ===================================================================== *)

(** Error numbers of the system calls, with [syscall.Errno.Error]'s text. *)
Inductive Errno : Type :=
| ENOENT | ENOTDIR | EISDIR | EEXIST | ENOTEMPTY | ELOOP | EINVAL | EACCES | EBUSY.

Definition Errno_eqb (a b : Errno) : bool :=
  match a, b with
  | ENOENT, ENOENT | ENOTDIR, ENOTDIR | EISDIR, EISDIR | EEXIST, EEXIST
  | ENOTEMPTY, ENOTEMPTY | ELOOP, ELOOP | EINVAL, EINVAL | EACCES, EACCES
  | EBUSY, EBUSY => true
  | _, _ => false
  end.

Definition Errno_text (e : Errno) : string :=
  match e with
  | ENOENT => "no such file or directory"
  | ENOTDIR => "not a directory"
  | EISDIR => "is a directory"
  | EEXIST => "file exists"
  | ENOTEMPTY => "directory not empty"
  | ELOOP => "too many levels of symbolic links"
  | EINVAL => "invalid argument"
  | EACCES => "permission denied"
  | EBUSY => "device or resource busy"
  end.

Inductive result (E A : Type) : Type :=
| Ok (a : A)
| Err (e : E).
Arguments Ok {E A} a.
Arguments Err {E A} e.

Module Tree.

(** A file, a symbolic link or a directory with its entries.  A link is a
    leaf holding its target text: the tree does not resolve links, a call
    that the kernel would carry out on a link's target is refused with
    [ELOOP] and a path that runs through a link with [ENOTDIR]. *)
#[warnings="-register-all"]
Inductive node : Type :=
| File (perm : N) (data : string)
| Symlink (target : string)
| Dir (perm : N) (entries : list (string * node)).

Definition ents_get (k : string) (es : list (string * node)) : option node :=
  match find (fun e => String.eqb (fst e) k) es with
  | Some e => Some (snd e)
  | None => None
  end.

Definition ents_del (k : string) (es : list (string * node)) : list (string * node) :=
  filter (fun e => negb (String.eqb (fst e) k)) es.

Definition ents_set (k : string) (n : node) (es : list (string * node))
  : list (string * node) :=
  (k, n) :: ents_del k es.

(** The node a list of name elements leads to, from [t]. *)
Fixpoint lookup (t : node) (cs : list string) : result Errno node :=
  match cs with
  | [] => Ok t
  | c :: rest =>
      match t with
      | Dir _ es =>
          match ents_get c es with
          | Some n => lookup n rest
          | None => Err ENOENT
          end
      | _ => Err ENOTDIR
      end
  end.

(** Change the entry a path names in its parent directory: [f] sees the
    entry (or its absence) and answers with the new entry, with its
    removal, or with an error.  The root has no parent: [root] is the
    error for it. *)
Fixpoint alter (f : option node -> result Errno (option node)) (root : Errno)
         (t : node) (cs : list string) : result Errno node :=
  match cs with
  | [] => Err root
  | c :: rest =>
      match t with
      | Dir p es =>
          match rest with
          | [] =>
              match f (ents_get c es) with
              | Ok (Some n) => Ok (Dir p (ents_set c n es))
              | Ok None => Ok (Dir p (ents_del c es))
              | Err e => Err e
              end
          | _ :: _ =>
              match ents_get c es with
              | Some n =>
                  match alter f root n rest with
                  | Ok n' => Ok (Dir p (ents_set c n' es))
                  | Err e => Err e
                  end
              | None => Err ENOENT
              end
          end
      | _ => Err ENOTDIR
      end
  end.

(** open(2) with [O_WRONLY|O_CREATE|O_TRUNC] followed by the write: a new
    file gets [perm], an existing one keeps its own. *)
Definition f_write (perm : N) (data : string) (o : option node)
  : result Errno (option node) :=
  match o with
  | None => Ok (Some (File perm data))
  | Some (File p _) => Ok (Some (File p data))
  | Some (Dir _ _) => Err EISDIR
  | Some (Symlink _) => Err ELOOP
  end.

(** open(2) with [O_CREATE|O_RDONLY]. *)
Definition f_create (perm : N) (o : option node) : result Errno (option node) :=
  match o with
  | None => Ok (Some (File perm EmptyString))
  | Some (File p d) => Ok (Some (File p d))
  | Some (Dir _ _) => Err EISDIR
  | Some (Symlink _) => Err ELOOP
  end.

(** mkdir(2) *)
Definition f_mkdir (perm : N) (o : option node) : result Errno (option node) :=
  match o with
  | None => Ok (Some (Dir perm []))
  | Some _ => Err EEXIST
  end.

(** unlink(2), then rmdir(2): [os.Remove] *)
Definition f_remove (o : option node) : result Errno (option node) :=
  match o with
  | None => Err ENOENT
  | Some (Dir _ (_ :: _)) => Err ENOTEMPTY
  | Some _ => Ok None
  end.

(** Removal of an entry with all it contains. *)
Definition f_removeAll (_ : option node) : result Errno (option node) := Ok None.

(** Placement of a node under a name, whatever is there. *)
Definition f_put (n : node) (_ : option node) : result Errno (option node) :=
  Ok (Some n).

Definition write (perm : N) (data : string) := alter (f_write perm data) EISDIR.
Definition create (perm : N) := alter (f_create perm) EISDIR.
Definition mkdir (perm : N) := alter (f_mkdir perm) EEXIST.
Definition remove := alter f_remove EBUSY.
Definition put (n : node) := alter (f_put n) EBUSY.

(** [os.RemoveAll]: a path that does not exist is not an error. *)
Definition removeAll (t : node) (cs : list string) : result Errno node :=
  match alter f_removeAll EBUSY t cs with
  | Err ENOENT => Ok t
  | r => r
  end.

(** [os.MkdirAll]: every missing directory of the path is created with
    [perm]; an element that is not a directory is [ENOTDIR]. *)
Fixpoint mkdirAll (perm : N) (t : node) (cs : list string) : result Errno node :=
  match t with
  | Dir p es =>
      match cs with
      | [] => Ok t
      | c :: rest =>
          let child :=
            match ents_get c es with
            | Some n => n
            | None => Dir perm []
            end in
          match mkdirAll perm child rest with
          | Ok n' => Ok (Dir p (ents_set c n' es))
          | Err e => Err e
          end
      end
  | _ => Err ENOTDIR
  end.

Fixpoint is_prefix (a b : list string) : bool :=
  match a, b with
  | [], _ => true
  | _ :: _, [] => false
  | x :: a', y :: b' => String.eqb x y && is_prefix a' b'
  end.

Definition path_eqb (a b : list string) : bool :=
  is_prefix a b && is_prefix b a.

Definition is_dir (n : node) : bool :=
  match n with Dir _ _ => true | _ => false end.

(** rename(2): the old name must exist; a directory does not move below
    itself, replaces only an empty directory and never a file; a file
    does not replace a directory; the entry moves with all it contains. *)
Definition rename2 (t : node) (a b : list string) : result Errno node :=
  match lookup t a with
  | Err e => Err e
  | Ok n =>
      if path_eqb a b then Ok t
      else if is_prefix a b then Err EINVAL
      else
        let move :=
          match alter f_removeAll EBUSY t a with
          | Ok t1 => put n t1 b
          | Err e => Err e
          end in
        match lookup t b, n with
        | Ok (Dir _ (_ :: _)), Dir _ _ => Err ENOTEMPTY
        | Ok (Dir _ []), Dir _ _ => move
        | Ok (Dir _ _), _ => Err EISDIR
        | Ok _, Dir _ _ => Err ENOTDIR
        | _, _ => move
        end
  end.

(** [os.Rename] on Unix.  Go looks at the new name first and refuses an
    existing directory with [EEXIST], unless both names are one file
    under two spellings; then rename(2).  [same_name] says whether the two
    path strings are equal. *)
Definition rename (same_name : bool) (t : node) (a b : list string)
  : result Errno node :=
  match lookup t b with
  | Ok (Dir _ _) =>
      match lookup t a with
      | Err e => Err e
      | Ok _ =>
          if same_name || negb (path_eqb a b) then Err EEXIST
          else rename2 t a b
      end
  | _ => rename2 t a b
  end.

End Tree.

(* ===================================================================== *)
(** ** Go errors                                                          *)
(* ===================================================================== *)

(** The error values the package meets: [os.PathError], [os.LinkError],
    the plain errors of [errors.New] and of [fmt.Errorf] without [%w], and
    the wrapping errors of [fmt.Errorf] with [%w] (the text is the whole
    formatted message). *)
Inductive error : Type :=
| PathError (op path : string) (e : Errno)
| LinkError (op old new : string) (e : Errno)
| ErrorString (msg : string)
| WrapError (msg : string) (err : error).

(** [err.Error()] *)
Definition Error (err : error) : string :=
  match err with
  | PathError op path e => op ++ " " ++ path ++ ": " ++ Errno_text e
  | LinkError op old new e => op ++ " " ++ old ++ " " ++ new ++ ": " ++ Errno_text e
  | ErrorString msg => msg
  | WrapError msg _ => msg
  end.

(** [errors.Is(err, os.ErrNotExist)] *)
Fixpoint Is_ErrNotExist (err : error) : bool :=
  match err with
  | PathError _ _ e => Errno_eqb e ENOENT
  | LinkError _ _ _ e => Errno_eqb e ENOENT
  | ErrorString _ => false
  | WrapError _ err' => Is_ErrNotExist err'
  end.

(** [errors.Is(err, os.ErrExist)] *)
Fixpoint Is_ErrExist (err : error) : bool :=
  match err with
  | PathError _ _ e => Errno_eqb e EEXIST || Errno_eqb e ENOTEMPTY
  | LinkError _ _ _ e => Errno_eqb e EEXIST || Errno_eqb e ENOTEMPTY
  | ErrorString _ => false
  | WrapError _ err' => Is_ErrExist err'
  end.

(** The type assertion of [err] to a pointer to [os.PathError]. *)
Definition is_PathError (err : error) : bool :=
  match err with PathError _ _ _ => true | _ => false end.

Definition res (A : Type) : Type := result error A.

(* ===================================================================== *)
(** ** The process and its system calls: [os], [flock]                    *)
(* ===================================================================== *)

Module Os.
Import Tree.

(** [os.FileMode] bits. *)
Definition ModeDir : N := 2147483648.      (* 1 << 31 *)
Definition ModeSymlink : N := 134217728.   (* 1 << 27 *)
Definition ModeType : N := 2401763328.
  (* ModeDir | ModeSymlink | ModeNamedPipe | ModeSocket | ModeDevice
     | ModeCharDevice | ModeIrregular *)
Definition ModePerm : N := 511.            (* 0777 *)

Record FileInfo : Type := { Mode : N }.

Definition info (n : node) : FileInfo :=
  match n with
  | File p _ => {| Mode := N.land p ModePerm |}
  | Symlink _ => {| Mode := N.lor ModeSymlink ModePerm |}
  | Dir p _ => {| Mode := N.lor ModeDir (N.land p ModePerm) |}
  end.

(** [fi.Mode()&os.ModeSymlink == os.ModeSymlink] *)
Definition isSymlink (fi : FileInfo) : bool :=
  N.eqb (N.land (Mode fi) ModeSymlink) ModeSymlink.

(** [m.IsRegular()] *)
Definition IsRegular (m : N) : bool := N.eqb (N.land m ModeType) 0.

(** The calls that change the file tree or the locks. *)
Inductive Call : Type :=
| CMkdir (name : string) (perm : N)
| CMkdirAll (name : string) (perm : N)
| CWriteFile (name data : string) (perm : N)
| CRemove (name : string)
| CRemoveAll (name : string)
| CRename (old new : string)
| CLock (name : string)
| CUnlock (name : string).

(** One call of the run, its outcome and the tree it left. *)
Record event : Type :=
  { call : Call; outcome : option Errno; after : node }.

(** The process: the file tree, the working directory, the locks held,
    the source of random numbers and how many were drawn, and the calls
    made so far. *)
Record World : Type :=
  { fs : node;
    wd : string;
    held : list (list string);
    rand : nat -> N;
    rpos : nat;
    log : list event }.

Definition M (A : Type) : Type := World -> A * World.

Definition ret {A} (a : A) : M A := fun w => (a, w).
Definition bind {A B} (m : M A) (k : A -> M B) : M B :=
  fun w => let (a, w') := m w in k a w'.

Definition at_path (w : World) (name : string) : list string :=
  Path.resolve (wd w) name.

(** A call on the tree: the new tree on success, the old one and the
    error otherwise; logged either way. *)
Definition mutate (c : Call) (mk : Errno -> error)
           (f : World -> result Errno node) : M (option error) :=
  fun w =>
    match f w with
    | Ok t' =>
        (None,
         {| fs := t'; wd := wd w; held := held w; rand := rand w; rpos := rpos w;
            log := (log w ++ [{| call := c; outcome := None; after := t' |}])%list |})
    | Err e =>
        (Some (mk e),
         {| fs := fs w; wd := wd w; held := held w; rand := rand w; rpos := rpos w;
            log := (log w ++ [{| call := c; outcome := Some e; after := fs w |}])%list |})
    end.

Definition Getwd : M string := fun w => (wd w, w).

Definition Lstat (name : string) : M (res FileInfo) :=
  fun w =>
    (match lookup (fs w) (at_path w name) with
     | Ok n => Ok (info n)
     | Err e => Err (PathError "lstat" name e)
     end, w).

(** [os.Stat].  At a link, and on a path through one, the tree answers
    with an error where the kernel goes on to the target: what is proved
    of a probe is proved where no link is on the path probed. *)
Definition Stat (name : string) : M (res FileInfo) :=
  fun w =>
    (match lookup (fs w) (at_path w name) with
     | Ok (Symlink _) => Err (PathError "stat" name ELOOP)
     | Ok n => Ok (info n)
     | Err e => Err (PathError "stat" name e)
     end, w).

(** [os.ReadFile], with the same treatment of links as [Stat]. *)
Definition ReadFile (name : string) : M (res string) :=
  fun w =>
    (match lookup (fs w) (at_path w name) with
     | Ok (File _ data) => Ok data
     | Ok (Dir _ _) => Err (PathError "read" name EISDIR)
     | Ok (Symlink _) => Err (PathError "open" name ELOOP)
     | Err e => Err (PathError "open" name e)
     end, w).

Definition WriteFile (name data : string) (perm : N) : M (option error) :=
  mutate (CWriteFile name data perm) (PathError "open" name)
         (fun w => write perm data (fs w) (at_path w name)).

Definition Mkdir (name : string) (perm : N) : M (option error) :=
  mutate (CMkdir name perm) (PathError "mkdir" name)
         (fun w => mkdir perm (fs w) (at_path w name)).

(** [os.MkdirAll].  The error carries the whole [name]; the package [os]
    names the element of the path that is in the way. *)
Definition MkdirAll (name : string) (perm : N) : M (option error) :=
  mutate (CMkdirAll name perm) (PathError "mkdir" name)
         (fun w => mkdirAll perm (fs w) (at_path w name)).

Definition Remove (name : string) : M (option error) :=
  mutate (CRemove name) (PathError "remove" name)
         (fun w => remove (fs w) (at_path w name)).

Definition RemoveAll (name : string) : M (option error) :=
  mutate (CRemoveAll name) (PathError "unlinkat" name)
         (fun w => removeAll (fs w) (at_path w name)).

Definition Rename (old new : string) : M (option error) :=
  mutate (CRename old new) (LinkError "rename" old new)
         (fun w => rename (String.eqb new old) (fs w) (at_path w old) (at_path w new)).

(** The next random number of [os.MkdirTemp]: a [uint32] in decimal. *)
Definition nextRandom : M string :=
  fun w =>
    (Strings.Uitoa (N.modulo (rand w (rpos w)) 4294967296),
     {| fs := fs w; wd := wd w; held := held w; rand := rand w;
        rpos := S (rpos w); log := log w |}).

(** [prefixAndSuffix]: the pattern around its last [*]. *)
Fixpoint hasStar (s : string) : bool :=
  match s with
  | EmptyString => false
  | String c r => Ascii.eqb c "*"%char || hasStar r
  end.

Fixpoint prefixAndSuffix (pattern : string) : string * string :=
  match pattern with
  | EmptyString => (EmptyString, EmptyString)
  | String c r =>
      if hasStar r then let (p, s) := prefixAndSuffix r in (String c p, s)
      else if Ascii.eqb c "*"%char then (EmptyString, r)
      else let (p, s) := prefixAndSuffix r in (String c p, s)
  end.

(** [joinPath(dir, name)] of package [os] *)
Definition joinPath (dir name : string) : string :=
  match Strings.lastByte dir with
  | Some c => if Ascii.eqb c Strings.slash then dir ++ name
              else dir ++ String Strings.slash name
  | None => dir ++ String Strings.slash name
  end.

Fixpoint mkdirTemp_loop (tries : nat) (dir prefix suffix : string)
  : M (res string) :=
  match tries with
  | O => ret (Err (PathError "mkdirtemp"
                     (dir ++ Path.PathSeparator ++ prefix ++ "*" ++ suffix) EEXIST))
  | S tries' =>
      bind nextRandom (fun r =>
      let name := prefix ++ r ++ suffix in
      bind (Mkdir name 448) (fun err =>
      match err with
      | None => ret (Ok name)
      | Some e =>
          if Is_ErrExist e then mkdirTemp_loop tries' dir prefix suffix
          else ret (Err e)
      end))
  end.

(** [os.MkdirTemp(dir, pattern)]: up to 10000 names are tried.  An empty
    [dir] stands for the default temporary directory, taken to be
    [/tmp]. *)
Definition MkdirTemp (dir pattern : string) : M (res string) :=
  let dir := if String.eqb dir EmptyString then "/tmp" else dir in
  let (prefix, suffix) := prefixAndSuffix pattern in
  mkdirTemp_loop (N.to_nat 10000) dir (joinPath dir prefix) suffix.

Fixpoint remove_first (x : list string) (l : list (list string))
  : list (list string) :=
  match l with
  | [] => []
  | y :: l' => if path_eqb x y then l' else y :: remove_first x l'
  end.

(** [flock.New(name).Lock()]: the file is opened, created with mode 0600
    if it is missing, and the exclusive lock taken.  Other processes are
    not part of the model, so the lock is granted once the file is
    open. *)
Definition Lock (name : string) : M (option error) :=
  fun w =>
    match mutate (CLock name) (PathError "open" name)
                 (fun w => create 384 (fs w) (at_path w name)) w with
    | (None, w') =>
        (None,
         {| fs := fs w'; wd := wd w'; held := at_path w name :: held w';
            rand := rand w'; rpos := rpos w'; log := log w' |})
    | r => r
    end.

(** [l.Unlock()]: the lock is dropped and the file closed; its error is
    not looked at by the caller. *)
Definition Unlock (name : string) : M unit :=
  fun w =>
    (tt,
     {| fs := fs w; wd := wd w; held := remove_first (at_path w name) (held w);
        rand := rand w; rpos := rpos w;
        log := (log w ++ [{| call := CUnlock name; outcome := None; after := fs w |}])%list |}).

End Os.

Notation "x <- m ;; k" := (Os.bind m (fun x => k))
  (at level 61, m at next level, right associativity).
Notation "m ;;; k" := (Os.bind m (fun _ => k))
  (at level 61, right associativity).

(* ===================================================================== *)
(** ** The embedded bundle: [embed.FS], [io/fs]                           *)
(* ===================================================================== *)

Module Embed.

(** An embedded tree holds regular files and directories only. *)
#[warnings="-register-all"]
Inductive bnode : Type :=
| BFile (data : string)
| BDir (entries : list (string * bnode)).

(** [entry.Type()]: embedded files have mode 0444, directories
    [ModeDir|0555]; the type bits are those of [os.ModeType]. *)
Definition Type_ (d : bnode) : N :=
  match d with
  | BFile _ => 0
  | BDir _ => Os.ModeDir
  end.

Definition bget (k : string) (es : list (string * bnode)) : option bnode :=
  match find (fun e => String.eqb (fst e) k) es with
  | Some e => Some (snd e)
  | None => None
  end.

Fixpoint blookup (t : bnode) (cs : list string) : result Errno bnode :=
  match cs with
  | [] => Ok t
  | c :: rest =>
      match t with
      | BDir es =>
          match bget c es with
          | Some n => blookup n rest
          | None => Err ENOENT
          end
      | BFile _ => Err ENOENT
      end
  end.

(** The name of one element of a valid [io/fs] path. *)
Definition validElem (c : string) : bool :=
  negb (String.eqb c EmptyString) && negb (String.eqb c ".")
  && negb (String.eqb c "..").

(** [fs.ValidPath] and the elements of the path ([.] is the root). *)
Definition elems (name : string) : option (list string) :=
  if String.eqb name "." then Some []
  else let cs := Strings.SplitSlash name in
       if forallb validElem cs then Some cs else None.

(** [fs.ReadFile(FS, name)] *)
Definition ReadFile (FS : bnode) (name : string) : res string :=
  match elems name with
  | None => Err (PathError "open" name EINVAL)
  | Some cs =>
      match blookup FS cs with
      | Ok (BFile data) => Ok data
      | Ok (BDir _) => Err (PathError "read" name EISDIR)
      | Err e => Err (PathError "open" name e)
      end
  end.

(** [fs.WalkDir]'s [walkDir]: the callback on the entry, then on the
    entries of a directory in their order, until an error.  (The
    callback of this package never answers [SkipDir], and reading an
    embedded directory does not fail.) *)
Fixpoint walkDir (fn : string -> bnode -> Os.M (option error))
         (name : string) (d : bnode) {struct d} : Os.M (option error) :=
  e <- fn name d ;;
  match e with
  | Some err => Os.ret (Some err)
  | None =>
      match d with
      | BFile _ => Os.ret None
      | BDir es =>
          (fix walkList (es : list (string * bnode)) : Os.M (option error) :=
             match es with
             | [] => Os.ret None
             | (n1, d1) :: rest =>
                 e1 <- walkDir fn (Path.Join [name; n1]) d1 ;;
                 match e1 with
                 | Some err => Os.ret (Some err)
                 | None => walkList rest
                 end
             end) es
      end
  end.

(** [fs.WalkDir(FS, root, fn)] *)
Definition WalkDir (FS : bnode) (root : string)
           (fn : string -> bnode -> Os.M (option error)) : Os.M (option error) :=
  match elems root with
  | None => Os.ret (Some (PathError "stat" root EINVAL))
  | Some cs =>
      match blookup FS cs with
      | Ok d => walkDir fn root d
      | Err e => Os.ret (Some (PathError "stat" root e))
      end
  end.

End Embed.

(* ===================================================================== *)
(** ** Versions: [hashicorp/go-version]                                   *)
(* ===================================================================== *)

(** What the package uses of the library: parsing, the three-way
    comparison and printing. *)
Class GoVersion : Type :=
  { Version : Type;
    NewVersion : string -> res Version;
    Compare : Version -> Version -> comparison;
    VersionString : Version -> string }.

Definition LessThan {gv : GoVersion} (v o : Version) : bool :=
  match Compare v o with Lt => true | _ => false end.

Definition GreaterThan {gv : GoVersion} (v o : Version) : bool :=
  match Compare v o with Gt => true | _ => false end.

(** The library on plain dotted decimal versions, [1.2.3] or [v1.2.3]:
    the segments, padded to three; versions with a pre-release or metadata
    part are outside this instance and rejected by it. *)
Module Dotted.

Definition isDigit (c : ascii) : bool :=
  let n := N_of_ascii c in (48 <=? n)%N && (n <=? 57)%N.

Fixpoint parseUint (s : string) (acc : N) : option N :=
  match s with
  | EmptyString => Some acc
  | String c r =>
      if isDigit c then parseUint r (10 * acc + (N_of_ascii c - 48))%N
      else None
  end.

(** [strconv.ParseInt(str, 10, 64)] on a non-empty run of digits. *)
Definition parseSegment (s : string) : option N :=
  match s with
  | EmptyString => None
  | _ =>
      match parseUint s 0%N with
      | Some n => if (n <? 9223372036854775808)%N then Some n else None
      | None => None
      end
  end.

Fixpoint splitDot (s : string) : list string :=
  match s with
  | EmptyString => [EmptyString]
  | String c r =>
      if Ascii.eqb c "."%char then EmptyString :: splitDot r
      else match splitDot r with
           | h :: t => String c h :: t
           | [] => [String c EmptyString]
           end
  end.

Fixpoint parseSegments (l : list string) : option (list N) :=
  match l with
  | [] => Some []
  | s :: rest =>
      match parseSegment s, parseSegments rest with
      | Some n, Some ns => Some (n :: ns)
      | _, _ => None
      end
  end.

Definition pad3 (l : list N) : list N :=
  match l with
  | [] => [0; 0; 0]%N
  | [a] => [a; 0; 0]%N
  | [a; b] => [a; b; 0]%N
  | _ => l
  end.

Definition newVersion (s : string) : res (list N) :=
  let body := match s with
              | String c r => if Ascii.eqb c "v"%char then r else s
              | EmptyString => s
              end in
  match parseSegments (splitDot body) with
  | Some segs => Ok (pad3 segs)
  | None => Err (ErrorString ("Malformed version: " ++ s))
  end.

Definition allZero (l : list N) : bool := forallb (N.eqb 0) l.

(** [Compare] on the segments: the longer list decides only if its
    extra segments are not all zero. *)
Fixpoint compareSegments (a b : list N) : comparison :=
  match a, b with
  | [], [] => Eq
  | [], _ => if allZero b then Eq else Lt
  | _, [] => if allZero a then Eq else Gt
  | x :: a', y :: b' =>
      match (x ?= y)%N with
      | Eq => compareSegments a' b'
      | c => c
      end
  end.

Fixpoint joinDot (l : list N) : string :=
  match l with
  | [] => EmptyString
  | [a] => Strings.Uitoa a
  | a :: rest => Strings.Uitoa a ++ "." ++ joinDot rest
  end.

#[export] Instance dotted : GoVersion :=
  {| Version := list N;
     NewVersion := newVersion;
     Compare := compareSegments;
     VersionString := joinDot |}.

End Dotted.

(* ===================================================================== *)
(** ** Package [pkg]                                                      *)
(* ===================================================================== *)

(** What a call comes to: it returns its error (or [nil]), it panics, or
    the walk of [GetCueModParent] is still going after the steps it was
    given. *)
Inductive outcome : Type :=
| Return (err : option error)
| Panic
| OutOfFuel.

Definition DaggerModule : string := "dagger.io".
Definition UniverseModule : string := "universe.dagger.io".

(** The literal of [ModuleRequirements], in the order it is written. *)
Definition ModuleRequirementsLiteral : list (string * string) :=
  [(DaggerModule, "0.2.11"); (UniverseModule, "0.2.9")].

Definition lockFilePath : string := "dagger.lock".
Definition versionFilePath : string := Path.Join ["cue.mod"; "version.txt"].

Definition newline : string := String "010"%char EmptyString.

Section Pkg.

Context {gv : GoVersion}.

(** [version.Version] and [version.DevelopmentVersion], of package
    [go.dagger.io/dagger/version]. *)
Variable version_Version : string.
Variable version_DevelopmentVersion : string.

(** The embedded [FS]. *)
Variable FS : Embed.bnode.

(** [ModuleRequirements]: [gv.Must] panics on a version that does not
    parse, which would end the program when the package is loaded. *)
Fixpoint mustAll (l : list (string * string)) : option (list (string * Version)) :=
  match l with
  | [] => Some []
  | (m, s) :: rest =>
      match NewVersion s, mustAll rest with
      | Ok v, Some vs => Some ((m, v) :: vs)
      | _, _ => None
      end
  end.

Definition ModuleRequirements : option (list (string * Version)) :=
  mustAll ModuleRequirementsLiteral.

(** The loop of [GetCueModParent], for at most [fuel] directories. *)
Fixpoint GetCueModParent_loop (fuel : nat) (cwd parentDir : string)
  : Os.M (option (string * bool)) :=
  match fuel with
  | O => Os.ret None
  | S fuel' =>
      r <- Os.Stat (Path.Join [parentDir; "cue.mod"]) ;;
      if negb (match r with
               | Err err => Is_ErrNotExist err
               | Ok _ => false
               end)
      then Os.ret (Some (parentDir, true))
      else
        let parentDir := Path.Dir parentDir in
        if String.eqb parentDir (Path.VolumeName parentDir ++ Path.PathSeparator)
        then Os.ret (Some (cwd, false))
        else GetCueModParent_loop fuel' cwd parentDir
  end.

Definition GetCueModParent (fuel : nat) (args : list string)
  : Os.M (option (string * bool)) :=
  cwd <- Os.Getwd ;;
  let parentDir := match args with
                   | [a] => a
                   | _ => cwd
                   end in
  GetCueModParent_loop fuel cwd parentDir.

(** [if p == "" { p, _ = GetCueModParent() }] *)
Definition projectRoot (fuel : nat) (p : string) : Os.M (option string) :=
  if String.eqb p EmptyString then
    r <- GetCueModParent fuel [] ;;
    Os.ret (option_map fst r)
  else Os.ret (Some p).

Definition errMissingVersionMarker (module : string) (minimumVersion : Version)
  : error :=
  ErrorString
    ("package " ++ Strings.Quote module
     ++ " is incompatible with this version of dagger-cue (requires "
     ++ VersionString minimumVersion
     ++ " or newer). Run `dagger-cue project update` to resolve this").

Definition errIncompatibleModule (module : string)
           (vendoredVersion minimumVersion : Version) : error :=
  ErrorString
    ("package " ++ Strings.Quote module ++ " (version "
     ++ VersionString vendoredVersion
     ++ ") is incompatible with this version of dagger-cue (requires "
     ++ VersionString minimumVersion
     ++ " or newer). Run `dagger-cue project update` to resolve this").

Definition errNeedsUpgrade (vendoredVersion : Version) : error :=
  ErrorString
    ("this plan requires dagger-cue " ++ VersionString vendoredVersion
     ++ " or newer. Run `dagger-cue version --check` to check for latest version").

Definition errFailedToRead (versionFile : string) (err : error) : error :=
  WrapError ("failed to read " ++ Strings.Quote versionFile ++ ": " ++ Error err) err.

Definition errFailedToParse (versionFile : string) (err : error) : error :=
  WrapError ("failed to parse " ++ Strings.Quote versionFile ++ ": " ++ Error err) err.

(** One iteration of the loop of [EnsureCompatibility]: the error it
    returns with, or [None] to go on with the next module. *)
Definition checkModule (daggerVersion : Version) (cuePkgDir : string)
           (entry : string * Version) : Os.M (option error) :=
  let (module, minimumVersion) := entry in
  let moduleDir := Path.Join [cuePkgDir; module] in
  fi <- Os.Lstat moduleDir ;;
  if match fi with
     | Ok fi => Os.isSymlink fi
     | Err _ => false
     end
  then Os.ret None
  else
    let versionFile := Path.Join [moduleDir; versionFilePath] in
    data <- Os.ReadFile versionFile ;;
    match data with
    | Err err =>
        if negb (Is_ErrNotExist err)
        then Os.ret (Some (errFailedToRead versionFile err))
        else Os.ret (Some (errMissingVersionMarker module minimumVersion))
    | Ok data =>
        match NewVersion (Strings.TrimSpace data) with
        | Err err => Os.ret (Some (errFailedToParse versionFile err))
        | Ok vendoredVersion =>
            if LessThan vendoredVersion minimumVersion
            then Os.ret (Some (errIncompatibleModule module vendoredVersion
                                                     minimumVersion))
            else if GreaterThan vendoredVersion daggerVersion
            then Os.ret (Some (errNeedsUpgrade vendoredVersion))
            else Os.ret None
        end
    end.

(** [for module, minimumVersion := range ModuleRequirements]: [order] is
    the sequence in which the map yields its entries. *)
Fixpoint checkModules (daggerVersion : Version) (cuePkgDir : string)
         (order : list (string * Version)) : Os.M (option error) :=
  match order with
  | [] => Os.ret None
  | entry :: rest =>
      e <- checkModule daggerVersion cuePkgDir entry ;;
      match e with
      | Some err => Os.ret (Some err)
      | None => checkModules daggerVersion cuePkgDir rest
      end
  end.

Definition EnsureCompatibility (fuel : nat) (order : list (string * Version))
           (p : string) : Os.M outcome :=
  if String.eqb version_Version version_DevelopmentVersion
  then Os.ret (Return None)
  else
    match NewVersion version_Version with
    | Err _ => Os.ret Panic
    | Ok daggerVersion =>
        root <- projectRoot fuel p ;;
        match root with
        | None => Os.ret OutOfFuel
        | Some p =>
            let cuePkgDir := Path.Join [p; "cue.mod"; "pkg"] in
            e <- checkModules daggerVersion cuePkgDir order ;;
            Os.ret (Return e)
        end
    end.

Definition CueModInit (parentDir module : string) : Os.M (option error) :=
  wd <- Os.Getwd ;;
  let absParentDir := Path.Abs wd parentDir in
  let modDir := Path.Join [absParentDir; "cue.mod"] in
  e <- Os.MkdirAll modDir 493 ;;
  match (match e with
         | Some err => if negb (Is_ErrExist err) then Some err else None
         | None => None
         end) with
  | Some err => Os.ret (Some err)
  | None =>
      let modFile := Path.Join [modDir; "module.cue"] in
      st <- Os.Stat modFile ;;
      e <- match st with
           | Err err =>
               if negb (is_PathError err)
               then Os.ret (Some err)   (* not reached: Stat fails with a PathError *)
               else
                 let contents :=
                   "module: " ++ String Strings.dquote
                                   (module ++ String Strings.dquote EmptyString) in
                 Os.WriteFile modFile contents 384
           | Ok _ => Os.ret None
           end ;;
      match e with
      | Some err => Os.ret (Some err)
      | None =>
          e <- Os.Mkdir (Path.Join [modDir; "pkg"]) 493 ;;
          match e with
          | Some err => if negb (Is_ErrExist err) then Os.ret (Some err)
                        else Os.ret None
          | None => Os.ret None
          end
      end
  end.

(** The callback of [extractModules]. *)
Definition extractEntry (dest p : string) (entry : Embed.bnode)
  : Os.M (option error) :=
  if negb (Os.IsRegular (Embed.Type_ entry)) then Os.ret None
  else if Strings.Contains p "cue.mod/pkg" then Os.ret None
  else
    match Embed.ReadFile FS p with
    | Err err => Os.ret (Some (WrapError (p ++ ": " ++ Error err) err))
    | Ok contents =>
        let overlayPath := Path.Join [dest; p] in
        e <- Os.MkdirAll (Path.Dir overlayPath) 493 ;;
        match e with
        | Some err => Os.ret (Some err)
        | None => Os.WriteFile overlayPath contents 448
        end
    end.

Definition extractModules (dest : string) : Os.M (option error) :=
  Embed.WalkDir FS "." (extractEntry dest).

(** One iteration of the swap loop of [Vendor]: the backup directories
    whose removal it deferred, and the error it returns with, if any. *)
Definition vendorModule (cuePkgDir unpackDir module : string)
  : Os.M (list string * option error) :=
  let newModuleDir := Path.Join [unpackDir; module] in
  let moduleDir := Path.Join [cuePkgDir; module] in
  let backupModuleDir := moduleDir ++ ".old" in
  fi <- Os.Lstat moduleDir ;;
  if match fi with
     | Ok fi => Os.isSymlink fi
     | Err _ => false
     end
  then Os.ret ([], None)
  else
    e <- (if negb (String.eqb version_Version version_DevelopmentVersion)
          then Os.WriteFile (Path.Join [newModuleDir; versionFilePath])
                            version_Version 384
          else Os.ret None) ;;
    match e with
    | Some err => Os.ret ([], Some err)
    | None =>
        e <- Os.RemoveAll backupModuleDir ;;
        match (match e with
               | Some err => if negb (Is_ErrNotExist err) then Some err else None
               | None => None
               end) with
        | Some err => Os.ret ([], Some err)
        | None =>
            e <- Os.Rename moduleDir backupModuleDir ;;
            match (match e with
                   | Some err => if negb (Is_ErrNotExist err) then Some err else None
                   | None => None
                   end) with
            | Some err => Os.ret ([], Some err)
            | None =>
                e <- Os.Rename newModuleDir moduleDir ;;
                Os.ret ([backupModuleDir], e)
            end
        end
    end.

(** [for module := range ModuleRequirements], in the order the map
    yields its keys. *)
Fixpoint vendorModules (cuePkgDir unpackDir : string) (modules : list string)
  : Os.M (list string * option error) :=
  match modules with
  | [] => Os.ret ([], None)
  | module :: rest =>
      r <- vendorModule cuePkgDir unpackDir module ;;
      match snd r with
      | Some err => Os.ret r
      | None =>
          r' <- vendorModules cuePkgDir unpackDir rest ;;
          Os.ret ((fst r ++ fst r')%list, snd r')
      end
  end.

(** The deferred [os.RemoveAll] calls, given last registered first. *)
Fixpoint runDeferred (dirs : list string) : Os.M unit :=
  match dirs with
  | [] => Os.ret tt
  | d :: rest => Os.RemoveAll d ;;; runDeferred rest
  end.

(** [Vendor] from the point where the staging directory exists, up to
    the deferred removals of the backups. *)
Definition Vendor_staged (order : list string) (cuePkgDir unpackDir : string)
  : Os.M (option error) :=
  e <- extractModules unpackDir ;;
  match e with
  | Some err => Os.ret (Some err)
  | None =>
      r <- vendorModules cuePkgDir unpackDir order ;;
      runDeferred (rev (fst r)) ;;;
      Os.ret (snd r)
  end.

(** [Vendor] from the point where the lock is held, up to the deferred
    removal of the staging directory. *)
Definition Vendor_locked (order : list string) (p cuePkgDir : string)
  : Os.M (option error) :=
  e <- CueModInit p EmptyString ;;
  match e with
  | Some err => Os.ret (Some err)
  | None =>
      let gitignorePath := Path.Join [cuePkgDir; ".gitignore"] in
      contents <- Os.ReadFile gitignorePath ;;
      (match contents with
       | Ok contents =>
           if Strings.HasPrefix contents "# generated by dagger"
           then Os.Remove gitignorePath ;;; Os.ret tt
           else Os.ret tt
       | Err _ => Os.ret tt
       end) ;;;
      e <- Os.WriteFile (Path.Join [cuePkgDir; ".gitattributes"])
                        ("# generated by dagger" ++ newline
                         ++ "** linguist-generated=true" ++ newline) 384 ;;
      match e with
      | Some err => Os.ret (Some err)
      | None =>
          u <- Os.MkdirTemp cuePkgDir "vendor-*" ;;
          match u with
          | Err err => Os.ret (Some err)
          | Ok unpackDir =>
              r <- Vendor_staged order cuePkgDir unpackDir ;;
              Os.RemoveAll unpackDir ;;;
              Os.ret r
          end
      end
  end.

Definition Vendor (fuel : nat) (order : list string) (p : string)
  : Os.M outcome :=
  root <- projectRoot fuel p ;;
  match root with
  | None => Os.ret OutOfFuel
  | Some p =>
      let cuePkgDir := Path.Join [p; "cue.mod"; "pkg"] in
      e <- Os.MkdirAll cuePkgDir 493 ;;
      match e with
      | Some err => Os.ret (Return (Some err))
      | None =>
          let lockFile := Path.Join [cuePkgDir; lockFilePath] in
          e <- Os.Lock lockFile ;;
          match e with
          | Some err => Os.ret (Return (Some err))
          | None =>
              r <- Vendor_locked order p cuePkgDir ;;
              Os.Unlock lockFile ;;;
              Os.Remove lockFile ;;;
              Os.ret (Return r)
          end
      end
  end.

End Pkg.

(** A byte that [strconv.Quote] copies unchanged, and a string of such
    bytes. *)
Definition plainByte (c : ascii) : bool :=
  String.eqb (Strings.quoteByte c) (String c EmptyString).

Fixpoint isPlain (s : string) : bool :=
  match s with
  | EmptyString => true
  | String c r => plainByte c && isPlain r
  end.

(** The directory [GetCueModParent] starts from, and the one it looks at
    after [k] steps up. *)
Definition startDir (w : Os.World) (args : list string) : string :=
  match args with
  | [a] => a
  | _ => Os.wd w
  end.

Fixpoint iterDir (k : nat) (s : string) : string :=
  match k with
  | O => s
  | S k' => iterDir k' (Path.Dir s)
  end.

(** What [Lstat] says about a name being a symbolic link, as the loops of
    [EnsureCompatibility] and [Vendor] read it. *)
Definition lstatSymlink (w : Os.World) (name : string) : bool :=
  match fst (Os.Lstat name w) with
  | Ok fi => Os.isSymlink fi
  | Err _ => false
  end.

(** The probe of [GetCueModParent] in one directory: [true] when the
    marker is reported to be missing. *)
Definition markerMissing (w : Os.World) (dir : string) : bool :=
  match fst (Os.Stat (Path.Join [dir; "cue.mod"]) w) with
  | Err err => Is_ErrNotExist err
  | Ok _ => false
  end.

(** The directories below the one reached after [k] steps report no
    marker and are not followed by the root. *)
Definition walkReaches (w : Os.World) (start : string) (k : nat) : Prop :=
  forall j, j < k ->
            markerMissing w (iterDir j start) = true
            /\ String.eqb (iterDir (S j) start) "/" = false.

(** A name element proper: not empty, without slash, neither [.] nor
    [..]. *)
Definition simple (c : string) : bool :=
  negb (Strings.hasSlash c) && negb (String.eqb c EmptyString)
  && negb (String.eqb c ".") && negb (String.eqb c "..").

(** The stacks [Path.step] builds: no empty or [.] element, no slash in an
    element, and [..] only at the bottom of a relative path. *)
Fixpoint good (rooted : bool) (st : list string) : Prop :=
  match st with
  | [] => True
  | c :: st' =>
      c <> EmptyString /\ c <> "." /\ Strings.hasSlash c = false
      /\ (c = ".." ->
          rooted = false /\ match st' with
                            | [] => True
                            | d :: _ => d = ".."
                            end)
      /\ good rooted st'
  end.

(** The stack of the working directory, and the absolute elements of a
    parsed path seen from it. *)
Definition base (wd : string) : list string :=
  fold_left (Path.step true) (Strings.SplitSlash wd) [].

Definition absolutize (wd : string) (p : Path.parsed) : list string :=
  if fst p then snd p else rev (fold_left (Path.step true) (snd p) (base wd)).

(** A cleaned path with at least one element: how it is spelled. *)
Definition renderPrefix (r : bool) (cs : list string) : string :=
  match cs with
  | [] => if r then String Strings.slash EmptyString else EmptyString
  | _ => Path.render (r, cs) ++ String Strings.slash EmptyString
  end.

(** A node that is not a directory. *)
Definition leaf (n : Tree.node) : bool := negb (Tree.is_dir n).

(** An entry function that refuses a directory with entries. *)
Definition rejectsDirs (f : option Tree.node -> result Errno (option Tree.node)) : Prop :=
  forall p e es, exists err, f (Some (Tree.Dir p (e :: es))) = Err err.

Definition optOf (r : result Errno Tree.node) : option Tree.node :=
  match r with
  | Ok n => Some n
  | Err _ => None
  end.

Definition resOf (o : option Tree.node) : result Errno Tree.node :=
  match o with
  | Some n => Ok n
  | None => Err ENOENT
  end.

(** ** Specifications of runs                                             *)

(** From a world that satisfies [Pre], the run [m] ends in a world and
    with a result that satisfy [Post]. *)
Definition triple {A : Type} (Pre : Os.World -> Prop) (m : Os.M A)
           (Post : A -> Os.World -> Prop) : Prop :=
  forall w, Pre w -> Post (fst (m w)) (snd (m w)).

(** A node of kind [k] sits at path [q]. *)
Definition holds (k : Tree.node -> bool) (q : list string) (t : Tree.node) : Prop :=
  exists n, Tree.lookup t q = Ok n /\ k n = true.

Definition isFileNode (n : Tree.node) : bool :=
  match n with
  | Tree.File _ _ => true
  | _ => false
  end.

Definition isLinkTo (target : string) (n : Tree.node) : bool :=
  match n with
  | Tree.Symlink t => String.eqb t target
  | _ => false
  end.

(** The working directory and the locks are as given, the tree satisfies
    [P], and every entry of the log satisfies [E]. *)
Definition Inv (wd0 : string) (held0 : list (list string)) (P : Tree.node -> Prop)
           (E : Os.event -> Prop) (w : Os.World) : Prop :=
  Os.wd w = wd0 /\ Os.held w = held0 /\ P (Os.fs w) /\ Forall E (Os.log w).

(** An entry of the log is fine when its call with its outcome is, the
    tree it left satisfying [P]. *)
Definition logged (P : Tree.node -> Prop) (C : Os.Call -> option Errno -> Prop)
           (E : Os.event -> Prop) : Prop :=
  forall c o t, P t -> C c o ->
                E {| Os.call := c; Os.outcome := o; Os.after := t |}.

(** A call that neither creates a staging directory nor takes a lock. *)
Definition ordinary (c : Os.Call) : Prop :=
  (forall n, c <> Os.CMkdir n 448) /\ (forall n, c <> Os.CLock n).

(** The call that creates the staging directory, when it succeeds. *)
Definition isStaging (name : string) (c : Os.Call) (o : option Errno) : Prop :=
  c = Os.CMkdir name 448 /\ o = None.

(** The entries of the log for a lock taken and for a staging directory
    created. *)
Definition lockEvent (name : string) (t : Tree.node) : Os.event :=
  {| Os.call := Os.CLock name; Os.outcome := None; Os.after := t |}.

Definition stagingEvent (name : string) (t : Tree.node) : Os.event :=
  {| Os.call := Os.CMkdir name 448; Os.outcome := None; Os.after := t |}.

(** No staging directory has been created; the only one created is [U];
    the only lock file named is [L]. *)
Definition noStaging (c : Os.Call) (o : option Errno) : Prop :=
  forall n, ~ isStaging n c o.

Definition stagingIs (U : string) (c : Os.Call) (o : option Errno) : Prop :=
  forall n, isStaging n c o -> n = U.

Definition lockIs (L : string) (c : Os.Call) : Prop :=
  forall n, c = Os.CLock n -> n = L.

(** The module names of the requirement table. *)
Definition tableNames : list string := map fst ModuleRequirementsLiteral.

(* ===================================================================== *)
(** The entries visited before a point all pass. *)
Definition allPass {gv : GoVersion} (tool : Version) (dir : string) (w : Os.World)
           (pre : list (string * Version)) : Prop :=
  Forall (fun e => fst (checkModule tool dir e w) = None) pre.

(** ** Example worlds                                                     *)

(** A project [/proj] whose package directory holds [entries]. *)
Definition projectWorld (entries : list (string * Tree.node)) : Os.World :=
  {| Os.fs := Tree.Dir 493
                [("proj", Tree.Dir 493
                    [("cue.mod", Tree.Dir 493 [("pkg", Tree.Dir 493 entries)]);
                     ("sub", Tree.Dir 493 [])])];
     Os.wd := "/proj";
     Os.held := [];
     Os.rand := fun n => N.of_nat (7 + n);
     Os.rpos := 0;
     Os.log := [] |}.

(** A small bundle: two modules, one of which carries its own
    [cue.mod/pkg]. *)
Definition exampleBundle : Embed.bnode :=
  Embed.BDir
    [("dagger.io",
      Embed.BDir
        [("cue.mod",
          Embed.BDir [("module.cue", Embed.BFile "module: dagger.io");
                      ("pkg", Embed.BDir [(".gitignore", Embed.BFile "x")])]);
         ("dagger", Embed.BDir [("plan.cue", Embed.BFile "package dagger")])]);
     ("universe.dagger.io",
      Embed.BDir
        [("bash", Embed.BDir [("bash.cue", Embed.BFile "package bash")]);
         ("cue.mod", Embed.BDir [("module.cue", Embed.BFile "module: universe")])])].

(** A vendored module directory with the given text in its marker. *)
Definition vendoredModule (marker : string) : Tree.node :=
  Tree.Dir 493 [("cue.mod", Tree.Dir 493 [("version.txt", Tree.File 384 marker)])].

(** A module directory that holds sources and no marker. *)
Definition unmarkedModule : Tree.node :=
  Tree.Dir 493 [("cue.mod", Tree.Dir 493 [("module.cue", Tree.File 384 "module: m")])].

Definition dottedTable : list (string * list N) :=
  [(DaggerModule, [0; 2; 11]%N); (UniverseModule, [0; 2; 9]%N)].

(** The first module has a marker below its minimum; the second is a
    link. *)
Definition worldOldTool : Os.World :=
  projectWorld [(DaggerModule, vendoredModule ("0.2.5" ++ newline));
                (UniverseModule, Tree.Symlink "/src/universe.dagger.io")].

(** Both modules lack their marker. *)
Definition worldUnmarked : Os.World :=
  projectWorld [(DaggerModule, unmarkedModule); (UniverseModule, unmarkedModule)].

(** A marker above the tool's version. *)
Definition worldNewerModule : Os.World :=
  projectWorld [(DaggerModule, vendoredModule "0.3.0");
                (UniverseModule, vendoredModule "0.2.36")].

(** A tree without any marker; the process works in [/home/u]. *)
Definition bareWorld : Os.World :=
  {| Os.fs := Tree.Dir 493
                [("home", Tree.Dir 493 [("u", Tree.Dir 493 [])]);
                 ("srv", Tree.Dir 493 [("app", Tree.Dir 493 []);
                                       ("data", Tree.File 420 "x")])];
     Os.wd := "/home/u";
     Os.held := [];
     Os.rand := fun n => N.of_nat n;
     Os.rpos := 0;
     Os.log := [] |}.

(** What the swap loop needs of a module name [m], when the entry [x] of
    the package directory is watched for a node of kind [k]: the name and the name of its
    backup are name elements, the backup is not the entry watched, and
    the module is not the entry watched unless that is a link. *)
Definition moduleApart (k : Tree.node -> bool) (x m : string) : Prop :=
  simple m = true /\ simple (m ++ ".old") = true
  /\ String.eqb (m ++ ".old") x = false
  /\ (String.eqb m x = false
      \/ forall n, k n = true -> Os.isSymlink (Os.info n) = true).

(** ** Extraction of the bundle                                          *)

(** What a node is, without the entries of a directory. *)
Definition shape (n : Tree.node) : Tree.node :=
  match n with
  | Tree.Dir p _ => Tree.Dir p []
  | _ => n
  end.

Definition shapeAt (t : Tree.node) (r : list string) : option Tree.node :=
  match Tree.lookup t r with
  | Ok n => Some (shape n)
  | Err _ => None
  end.

(** The name the walk gives the entry at elements [cs] of the bundle. *)
Definition walkName (cs : list string) : string := Path.render (false, cs).

(** No string occurs twice. *)
Fixpoint nodupb (l : list string) : bool :=
  match l with
  | [] => true
  | x :: r => negb (existsb (String.eqb x) r) && nodupb r
  end.

(** What [embed.FS] guarantees of its tree: in every directory the names
    are valid path elements and no name occurs twice. *)
Fixpoint wellFormed (d : Embed.bnode) : bool :=
  match d with
  | Embed.BFile _ => true
  | Embed.BDir es =>
      nodupb (map fst es)
      && forallb (fun e => simple (fst e) && wellFormed (snd e)) es
  end.

(** The test [extractModules] makes on the name of a regular file. *)
Definition vendored (cs : list string) : bool :=
  negb (Strings.Contains (walkName cs) "cue.mod/pkg").

(** The destination [D] mirrors the files of the bundle [FS] that are
    [done]: each of them that passes the test is a file with mode 0700
    and the bundle's bytes, and nothing else is below [D] but the
    directories, of mode 0755, that lead to them. *)
Definition mirrored (FS : Embed.bnode) (D : list string)
           (done : list string -> Prop) (t : Tree.node) : Prop :=
  (exists pd, shapeAt t D = Some (Tree.Dir pd []))
  /\ (forall cs data,
         done cs -> Embed.blookup FS cs = Ok (Embed.BFile data) ->
         vendored cs = true ->
         shapeAt t (D ++ cs)%list = Some (Tree.File 448 data))
  /\ (forall cs s,
         cs <> [] -> shapeAt t (D ++ cs)%list = Some s ->
         (exists data,
             s = Tree.File 448 data
             /\ Embed.blookup FS cs = Ok (Embed.BFile data)
             /\ vendored cs = true /\ done cs)
         \/ (s = Tree.Dir 493 []
             /\ exists cs' data,
                 cs' <> []
                 /\ Embed.blookup FS (cs ++ cs')%list = Ok (Embed.BFile data)
                 /\ vendored (cs ++ cs')%list = true /\ done (cs ++ cs')%list)).

Definition extracting (FS : Embed.bnode) (wd0 dest : string)
           (done : list string -> Prop) (w : Os.World) : Prop :=
  Os.wd w = wd0 /\ mirrored FS (Path.resolve wd0 dest) done (Os.fs w).

(** The specification's wording, a path that falls under a subtree: the
    elements [sub] occur, one after the other, in the path [cs]. *)
Fixpoint fallsUnder (sub cs : list string) : bool :=
  Tree.is_prefix sub cs
  || match cs with
     | [] => false
     | _ :: rest => fallsUnder sub rest
     end.

(** A bundle with a file next to its [cue.mod/pkg] directory whose name
    starts like the directory's. *)
Definition bundleWithLookalike : Embed.bnode :=
  Embed.BDir
    [("dagger.io",
      Embed.BDir
        [("cue.mod",
          Embed.BDir [("module.cue", Embed.BFile "module: dagger.io");
                      ("pkg", Embed.BDir [("a.cue", Embed.BFile "package a")]);
                      ("pkgs.cue", Embed.BFile "package pkgs")]);
         ("docs", Embed.BDir []);
         ("plan.cue", Embed.BFile "package dagger")])].

(** ** Version markers in the log                                         *)

(** A call that is not the write of a version marker as [Vendor] makes
    it: of a file [cue.mod/version.txt] in some directory, with mode
    0600. *)
Definition notMarkerWrite (c : Os.Call) : Prop :=
  forall dir data, c <> Os.CWriteFile (Path.Join [dir; versionFilePath]) data 384.

(** A call that writes no file [cue.mod/version.txt], in whatever
    directory and with whatever mode. *)
Definition notMarkerPath (c : Os.Call) : Prop :=
  forall dir data perm,
    c <> Os.CWriteFile (Path.Join [dir; versionFilePath]) data perm.

(** Every call of the log satisfies [ok]. *)
Definition everyCall (ok : Os.Call -> Prop) (w : Os.World) : Prop :=
  Forall (fun e => ok (Os.call e)) (Os.log w).

(** Whether the bundle holds a regular file named [x]. *)
Fixpoint namesFile (x : string) (d : Embed.bnode) : bool :=
  match d with
  | Embed.BFile _ => false
  | Embed.BDir es =>
      existsb (fun e => match snd e with
                        | Embed.BFile _ => String.eqb (fst e) x
                        | Embed.BDir _ => namesFile x (snd e)
                        end) es
  end.

(** The first module has a marker that is no version; the marker of the
    second is a directory. *)
Definition worldBadMarkers : Os.World :=
  projectWorld
    [(DaggerModule, vendoredModule "latest");
     (UniverseModule,
      Tree.Dir 493 [("cue.mod", Tree.Dir 493 [("version.txt", Tree.Dir 493 [])])])].

(** Neither path is above the other, and they differ. *)
Definition apart (a b : list string) : Prop :=
  Tree.is_prefix a b = false /\ Tree.is_prefix b a = false.

(** A project directory [/proj] that is empty, and one that is a file. *)
Definition worldEmptyProject : Os.World :=
  {| Os.fs := Tree.Dir 493 [("proj", Tree.Dir 493 []); ("notes", Tree.File 420 "x")];
     Os.wd := "/";
     Os.held := [];
     Os.rand := fun n => N.of_nat n;
     Os.rpos := 0;
     Os.log := [] |}.

(** A project [/proj] that has its module file and package directory. *)
Definition worldInitialised : Os.World :=
  {| Os.fs := Tree.Dir 493
                [("proj",
                  Tree.Dir 493
                    [("cue.mod",
                      Tree.Dir 493 [("module.cue", Tree.File 420 "module: mine");
                                    ("pkg", Tree.Dir 493 [])])])];
     Os.wd := "/";
     Os.held := [];
     Os.rand := fun n => N.of_nat n;
     Os.rpos := 0;
     Os.log := [] |}.

(** The destination kept apart: working directory [wd0], a directory at
    [D], and outside [D] the shapes of the tree [t0]. *)
Definition outsideKept (wd0 : string) (D : list string) (pd : N) (t0 : Tree.node)
           (w : Os.World) : Prop :=
  Os.wd w = wd0
  /\ shapeAt (Os.fs w) D = Some (Tree.Dir pd [])
  /\ forall r, Tree.is_prefix D r = false -> shapeAt (Os.fs w) r = shapeAt t0 r.

(** A project in which a file is where the bundle has a directory. *)
Definition worldBlockedDest : Os.World :=
  {| Os.fs := Tree.Dir 493
                [("out", Tree.Dir 448 [("dagger.io", Tree.File 420 "in the way")]);
                 ("keep", Tree.File 420 "k")];
     Os.wd := "/";
     Os.held := [];
     Os.rand := fun n => N.of_nat n;
     Os.rpos := 0;
     Os.log := [] |}.

(** A package directory with two modules in place, a staging directory
    [vendor-1] that holds a complete [dagger.io] and a
    [universe.dagger.io] without [cue.mod], and an empty staging
    directory [vendor-2]. *)
Definition worldStaged : Os.World :=
  {| Os.fs :=
       Tree.Dir 493
         [("proj",
           Tree.Dir 493
             [("cue.mod",
               Tree.Dir 493
                 [("pkg",
                   Tree.Dir 493
                     [("dagger.io", Tree.Dir 493 [("old.cue", Tree.File 420 "old")]);
                      ("universe.dagger.io", Tree.Dir 493 [("u.cue", Tree.File 420 "u")]);
                      ("vendor-1",
                       Tree.Dir 448
                         [("dagger.io",
                           Tree.Dir 493
                             [("cue.mod",
                               Tree.Dir 493
                                 [("module.cue", Tree.File 448 "module: dagger.io")]);
                              ("plan.cue", Tree.File 448 "package dagger")]);
                          ("universe.dagger.io",
                           Tree.Dir 493 [("bash.cue", Tree.File 448 "package bash")])]);
                      ("vendor-2", Tree.Dir 448 [])])])])];
     Os.wd := "/";
     Os.held := [];
     Os.rand := fun n => N.of_nat n;
     Os.rpos := 0;
     Os.log := [] |}.

(** The working directory is [wd0] and the path [r] leads to [s], or
    nowhere. *)
Definition watched (wd0 : string) (r : list string) (s : option Tree.node)
           (w : Os.World) : Prop :=
  Os.wd w = wd0 /\ shapeAt (Os.fs w) r = s.

(** The names the loop body of [Vendor] touches for module [m] are off
    the path [r]: none of them is [r] or above it. *)
Definition swapOffPath (wd0 : string) (r : list string) (cuePkgDir unpackDir m : string)
  : Prop :=
  simple m = true /\ simple (m ++ ".old") = true
  /\ Tree.is_prefix (Path.resolve wd0 cuePkgDir ++ [m])%list r = false
  /\ Tree.is_prefix (Path.resolve wd0 cuePkgDir ++ [(m ++ ".old")%string])%list r = false
  /\ Tree.is_prefix (Path.resolve wd0 unpackDir ++ [m])%list r = false.

(** Module [m] of the package directory [D] is as the check wants it
    from a tool of version [ver]: a link, or a directory whose marker
    reads [ver]. *)
Definition vendoredAt (D : list string) (ver m : string) (t : Tree.node) : Prop :=
  (exists tg, shapeAt t (D ++ [m])%list = Some (Tree.Symlink tg))
  \/ ((exists pd, shapeAt t (D ++ [m])%list = Some (Tree.Dir pd []))
      /\ exists pm, shapeAt t (D ++ [m; "cue.mod"; "version.txt"])%list
                    = Some (Tree.File pm ver)).

Definition wdIs (wd0 : string) (w : Os.World) : Prop := Os.wd w = wd0.

(** The names the swap loop uses below the package directory are
    pairwise different: the modules, their backups and the staging
    directory [vn]. *)
Definition swapNames (vn : string) (modules : list string) : Prop :=
  NoDup modules
  /\ Forall (fun m => simple m = true /\ simple (m ++ ".old") = true
                      /\ String.eqb vn m = false
                      /\ String.eqb vn (m ++ ".old") = false
                      /\ String.eqb lockFilePath m = false
                      /\ Forall (fun m' => String.eqb (m' ++ ".old") m = false) modules)
            modules.

(** ** Symbolic links                                                   *)

(** The tree model leaves links unresolved, so it stands for the kernel
    only where no call acts on a link's target.  These tests say where
    that is. *)
Definition isLink (n : Tree.node) : bool :=
  match n with
  | Tree.Symlink _ => true
  | _ => false
  end.

(** No link in or below a node. *)
Fixpoint linkFree (n : Tree.node) : bool :=
  match n with
  | Tree.File _ _ => true
  | Tree.Symlink _ => false
  | Tree.Dir _ es =>
      (fix all (es : list (string * Tree.node)) : bool :=
         match es with
         | [] => true
         | (_, c) :: rest => linkFree c && all rest
         end) es
  end.

Definition linkAt (t : Tree.node) (q : list string) : bool :=
  match Tree.lookup t q with
  | Ok n => isLink n
  | Err _ => false
  end.

(** None of the directories from the root down to [P] is a link. *)
Definition noLinkDownTo (t : Tree.node) (P : list string) : bool :=
  forallb (fun k => negb (linkAt t (firstn k P))) (seq 0 (S (List.length P))).

(** The names that [Vendor] has the kernel resolve, below the directory
    [C] that is the project's [cue.mod]: the directories down to
    [cue.mod/pkg], and the files [module.cue], [dagger.lock] and
    [.gitattributes].  (A module directory or a backup may be a link:
    [Lstat], [Rename] and [RemoveAll] act on the link itself.) *)
Definition vendorFollowsNoLink (t : Tree.node) (C : list string) : bool :=
  noLinkDownTo t (C ++ ["pkg"])%list
  && negb (linkAt t (C ++ ["module.cue"])%list)
  && negb (linkAt t (C ++ ["pkg"; lockFilePath])%list)
  && negb (linkAt t (C ++ ["pkg"; ".gitattributes"])%list).

(** The name [os.MkdirTemp] makes from the pattern [vendor-*] and the
    number drawn. *)
Definition stagingName (n : N) : string := "vendor-" ++ Strings.Uitoa n ++ EmptyString.

(** A project with a plan and, in [cue.mod], a module file and packages
    of the user's own beside the package directory. *)
Definition worldUserFiles : Os.World :=
  {| Os.fs := Tree.Dir 493
                [("proj", Tree.Dir 493
                    [("cue.mod",
                      Tree.Dir 493
                        [("module.cue", Tree.File 420 "module: example.com");
                         ("pkg", Tree.Dir 493 []);
                         ("usr", Tree.Dir 493 [("own.cue", Tree.File 420 "package own")])]);
                     ("plan.cue", Tree.File 420 "package main")])];
     Os.wd := "/proj";
     Os.held := [];
     Os.rand := fun n => N.of_nat (7 + n);
     Os.rpos := 0;
     Os.log := [] |}.

(** The entries of [cue.mod/pkg] that [Vendor] works at: the lock file,
    the two git files, the staging directories, the modules of the table
    and their backups. *)
Definition vendorOwns (x : string) : bool :=
  String.eqb x lockFilePath
  || String.eqb x ".gitignore"
  || String.eqb x ".gitattributes"
  || Strings.HasPrefix x "vendor-"
  || existsb (fun m => String.eqb x m || String.eqb x (m ++ ".old")) tableNames.

(** What [Vendor] leaves at [cue.mod/pkg/.gitignore], given what it
    finds there. *)
Definition gitignoreAfter (found : option Tree.node) : option Tree.node :=
  match found with
  | Some (Tree.File pm data) =>
      if Strings.HasPrefix data "# generated by dagger" then None
      else Some (Tree.File pm data)
  | other => other
  end.

(** The text of [.gitattributes]. *)
Definition gitattributesText : string :=
  "# generated by dagger" ++ newline ++ "** linguist-generated=true" ++ newline.

(** A package directory with a generated [.gitignore] of an old release
    and a package of the user's own. *)
Definition worldOwnPackage : Os.World :=
  projectWorld
    [(".gitignore", Tree.File 420 ("# generated by dagger" ++ newline ++ "dagger.io"));
     ("example.com", Tree.Dir 493 [("x.cue", Tree.File 420 "package x")])].

(** Text of bytes below 0x80.  On such text [Strings.TrimSpace] is
    [strings.TrimSpace]: the white space of Unicode outside ASCII
    (U+0085, U+00A0 and the like) takes bytes from 0x80 on. *)
Fixpoint asciiText (s : string) : bool :=
  match s with
  | EmptyString => true
  | String c r => (nat_of_ascii c <? 128)%nat && asciiText r
  end.

(** The first module has a regular file where its directory [cue.mod]
    should be; the second has no marker. *)
Definition worldCueModFile : Os.World :=
  projectWorld
    [(DaggerModule, Tree.Dir 493 [("cue.mod", Tree.File 420 "x")]);
     (UniverseModule, unmarkedModule)].

(** * Properties                                                          *)

(** ** Computed examples                                                  *)

Example Clean_ex1 : Path.Clean "/a/b/../c/./d//" = "/a/c/d".
Proof. reflexivity. Qed.
Example Clean_ex2 : Path.Clean "../../a/.." = "../..".
Proof. reflexivity. Qed.
Example Clean_ex3 : Path.Clean EmptyString = "." /\ Path.Clean "/.." = "/".
Proof. split; reflexivity. Qed.
Example Join_ex1 : Path.Join [EmptyString; "cue.mod"; "pkg"] = "cue.mod/pkg".
Proof. reflexivity. Qed.
Example Dir_ex1 : Path.Dir "/a/b" = "/a" /\ Path.Dir "/a" = "/" /\ Path.Dir "a" = "."
                  /\ Path.Dir "." = "." /\ Path.Dir "/" = "/".
Proof. repeat split; reflexivity. Qed.
Example Uitoa_ex : Strings.Uitoa 0 = "0" /\ Strings.Uitoa 2011 = "2011".
Proof. split; reflexivity. Qed.
Example Quote_ex : Strings.Quote "dagger.io" =
                   String Strings.dquote ("dagger.io" ++ String Strings.dquote EmptyString).
Proof. reflexivity. Qed.

Example newVersion_ex :
  Dotted.newVersion "0.2.11" = Ok [0; 2; 11]%N /\
  Dotted.newVersion "v1.2" = Ok [1; 2; 0]%N /\
  Dotted.joinDot [0; 2; 11]%N = "0.2.11" /\
  Dotted.compareSegments [0; 2; 9]%N [0; 2; 11]%N = Lt.
Proof. repeat split; reflexivity. Qed.
(* ===================================================================== *)

(** ** Calls that only look                                               *)

Lemma Lstat_pure (name : string) (w : Os.World) : snd (Os.Lstat name w) = w.
Proof. reflexivity. Qed.

Lemma Stat_pure (name : string) (w : Os.World) : snd (Os.Stat name w) = w.
Proof. reflexivity. Qed.

Lemma ReadFile_pure (name : string) (w : Os.World) : snd (Os.ReadFile name w) = w.
Proof. reflexivity. Qed.

Section CheckerFacts.

Context {gv : GoVersion}.
Variable version_Version : string.
Variable version_DevelopmentVersion : string.

Lemma GetCueModParent_loop_pure (fuel : nat) (cwd dir : string) (w : Os.World) :
  snd (GetCueModParent_loop fuel cwd dir w) = w.
Proof.
  revert dir; induction fuel as [|fuel IH]; intros dir; simpl; [reflexivity|].
  unfold Os.bind. simpl.
  destruct (negb _); [reflexivity|].
  destruct (String.eqb _ _); [reflexivity|]. apply IH.
Qed.

Lemma GetCueModParent_pure (fuel : nat) (args : list string) (w : Os.World) :
  snd (GetCueModParent fuel args w) = w.
Proof.
  unfold GetCueModParent, Os.bind, Os.Getwd. apply GetCueModParent_loop_pure.
Qed.

Lemma projectRoot_pure (fuel : nat) (p : string) (w : Os.World) :
  snd (projectRoot fuel p w) = w.
Proof.
  unfold projectRoot. destruct (String.eqb p EmptyString); [|reflexivity].
  unfold Os.bind.
  pose proof (GetCueModParent_pure fuel [] w) as H.
  destruct (GetCueModParent fuel [] w) as [r w']. simpl in *. exact H.
Qed.

Lemma checkModule_pure (tool : Version) (dir : string) (entry : string * Version)
      (w : Os.World) :
  snd (checkModule tool dir entry w) = w.
Proof.
  destruct entry as [m mv]. unfold checkModule, Os.bind, Os.Lstat, Os.ReadFile, Os.ret.
  simpl.
  repeat match goal with
         | |- context [match ?x with _ => _ end] => destruct x; simpl; try reflexivity
         end.
Qed.

Lemma checkModules_pure (tool : Version) (dir : string)
      (order : list (string * Version)) (w : Os.World) :
  snd (checkModules tool dir order w) = w.
Proof.
  induction order as [|e rest IH]; simpl; [reflexivity|].
  unfold Os.bind.
  pose proof (checkModule_pure tool dir e w) as H.
  destruct (checkModule tool dir e w) as [r w']. simpl in H. subst w'.
  destruct r; [reflexivity|]. exact IH.
Qed.

Lemma checkModules_cons (tool : Version) (dir : string) (e : string * Version)
      (rest : list (string * Version)) (w : Os.World) :
  fst (checkModules tool dir (e :: rest) w) =
  match fst (checkModule tool dir e w) with
  | Some err => Some err
  | None => fst (checkModules tool dir rest w)
  end.
Proof.
  simpl. unfold Os.bind.
  pose proof (checkModule_pure tool dir e w) as H.
  destruct (checkModule tool dir e w) as [r w']. simpl in *. subst w'.
  destruct r; reflexivity.
Qed.

Lemma checkModules_skip (tool : Version) (dir : string) (w : Os.World)
      (pre rest : list (string * Version)) :
  allPass tool dir w pre ->
  fst (checkModules tool dir (pre ++ rest)%list w) = fst (checkModules tool dir rest w).
Proof.
  induction 1 as [|e pre He _ IH]; [reflexivity|].
  change (((e :: pre) ++ rest)%list) with (e :: (pre ++ rest))%list.
  rewrite checkModules_cons, He. exact IH.
Qed.

Lemma checkModules_first_failure (tool : Version) (dir : string) (w : Os.World)
      (pre post : list (string * Version)) (e : string * Version) (err : error) :
  allPass tool dir w pre ->
  fst (checkModule tool dir e w) = Some err ->
  fst (checkModules tool dir (pre ++ e :: post)%list w) = Some err.
Proof.
  intros Hpre He. rewrite (checkModules_skip _ _ _ _ _ Hpre), checkModules_cons, He.
  reflexivity.
Qed.

Lemma checkModules_pass_through (tool : Version) (dir : string) (w : Os.World)
      (pre post : list (string * Version)) (e : string * Version) :
  fst (checkModule tool dir e w) = None ->
  fst (checkModules tool dir (pre ++ e :: post)%list w) =
  fst (checkModules tool dir (pre ++ post)%list w).
Proof.
  intros He. induction pre as [|x pre IH].
  - simpl app. rewrite checkModules_cons, He. reflexivity.
  - change (((x :: pre) ++ e :: post)%list) with (x :: (pre ++ e :: post))%list.
    change (((x :: pre) ++ post)%list) with (x :: (pre ++ post))%list.
    rewrite !checkModules_cons, IH. reflexivity.
Qed.

(** [EnsureCompatibility] past its two guards: the verdict is that of
    the loop. *)
Lemma EnsureCompatibility_run (fuel : nat) (order : list (string * Version))
      (p root : string) (tool : Version) (w : Os.World) :
  String.eqb version_Version version_DevelopmentVersion = false ->
  NewVersion version_Version = Ok tool ->
  fst (projectRoot fuel p w) = Some root ->
  fst (EnsureCompatibility version_Version version_DevelopmentVersion fuel order p w) =
  Return (fst (checkModules tool (Path.Join [root; "cue.mod"; "pkg"]) order w)).
Proof.
  intros Hdev Htool Hroot. unfold EnsureCompatibility. rewrite Hdev, Htool.
  unfold Os.bind.
  pose proof (projectRoot_pure fuel p w) as Hw.
  destruct (projectRoot fuel p w) as [r w']. simpl in *. subst.
  destruct (checkModules _ _ _ _); reflexivity.
Qed.

Lemma EnsureCompatibility_pure (fuel : nat) (order : list (string * Version))
      (p : string) (w : Os.World) :
  snd (EnsureCompatibility version_Version version_DevelopmentVersion fuel order p w) = w.
Proof.
  unfold EnsureCompatibility.
  destruct (String.eqb _ _); [reflexivity|].
  destruct (NewVersion version_Version); [|reflexivity].
  unfold Os.bind.
  pose proof (projectRoot_pure fuel p w) as Hw.
  destruct (projectRoot fuel p w) as [r w']. simpl in Hw. subst w'.
  destruct r; [|reflexivity].
  pose proof (checkModules_pure a (Path.Join [s; "cue.mod"; "pkg"]) order w) as Hc.
  destruct (checkModules _ _ _ _). simpl in *. exact Hc.
Qed.

(** The verdict of one iteration, by cases on what it reads. *)
Lemma checkModule_symlink (tool : Version) (dir module : string) (mv : Version)
      (w : Os.World) :
  lstatSymlink w (Path.Join [dir; module]) = true ->
  fst (checkModule tool dir (module, mv) w) = None.
Proof.
  unfold lstatSymlink, checkModule, Os.bind. intros H.
  destruct (Os.Lstat (Path.Join [dir; module]) w) as [fi w'] eqn:E.
  simpl in H. rewrite H. reflexivity.
Qed.

Lemma checkModule_read (tool : Version) (dir module : string) (mv : Version)
      (w : Os.World) :
  lstatSymlink w (Path.Join [dir; module]) = false ->
  fst (checkModule tool dir (module, mv) w) =
  let versionFile := Path.Join [Path.Join [dir; module]; versionFilePath] in
  match fst (Os.ReadFile versionFile w) with
  | Err err =>
      if negb (Is_ErrNotExist err) then Some (errFailedToRead versionFile err)
      else Some (errMissingVersionMarker module mv)
  | Ok data =>
      match NewVersion (Strings.TrimSpace data) with
      | Err err => Some (errFailedToParse versionFile err)
      | Ok v =>
          if LessThan v mv then Some (errIncompatibleModule module v mv)
          else if GreaterThan v tool then Some (errNeedsUpgrade v)
          else None
      end
  end.
Proof.
  unfold lstatSymlink, checkModule, Os.bind. intros H.
  destruct (Os.Lstat (Path.Join [dir; module]) w) as [fi w'] eqn:E.
  simpl in H. rewrite H.
  assert (w' = w) by (pose proof (Lstat_pure (Path.Join [dir; module]) w) as P;
                      rewrite E in P; exact P).
  subst w'. cbv zeta.
  destruct (Os.ReadFile _ w) as [d w''] eqn:E2. simpl.
  destruct d as [data|err].
  - destruct (NewVersion _); [|reflexivity].
    destruct (LessThan _ _); [reflexivity|].
    destruct (GreaterThan _ _); reflexivity.
  - destruct (negb _); reflexivity.
Qed.

End CheckerFacts.

Lemma ModuleRequirements_dotted :
  ModuleRequirements (gv := Dotted.dotted) = Some dottedTable.
Proof. reflexivity. Qed.

(** ** The compatibility gate                                            *)

Section Gate.

Context {gv : GoVersion}.
Variable version_Version : string.
Variable version_DevelopmentVersion : string.

(** C1 (amended).  The tool is not a development build and its version
    parses; the module is not a symbolic link and its marker parses to
    [v]; the entries visited before it pass.  Then the check fails with
    the incompatible-module error when [v] is below the minimum, with
    the needs-upgrade error when [v] is not below the minimum and above
    the tool's version, and otherwise gives the verdict of the remaining
    entries. *)
Theorem check_gates_version (fuel : nat) (p root module data : string)
        (tool mv v : Version) (pre post : list (string * Version))
        (w : Os.World) :
  let cuePkgDir := Path.Join [root; "cue.mod"; "pkg"] in
  let moduleDir := Path.Join [cuePkgDir; module] in
  let check := fun order =>
    fst (EnsureCompatibility version_Version version_DevelopmentVersion
                             fuel order p w) in
  String.eqb version_Version version_DevelopmentVersion = false ->
  NewVersion version_Version = Ok tool ->
  fst (projectRoot fuel p w) = Some root ->
  allPass tool cuePkgDir w pre ->
  lstatSymlink w moduleDir = false ->
  fst (Os.ReadFile (Path.Join [moduleDir; versionFilePath]) w) = Ok data ->
  NewVersion (Strings.TrimSpace data) = Ok v ->
  (LessThan v mv = true ->
   check (pre ++ (module, mv) :: post)%list =
   Return (Some (errIncompatibleModule module v mv)))
  /\ (LessThan v mv = false -> GreaterThan v tool = true ->
      check (pre ++ (module, mv) :: post)%list = Return (Some (errNeedsUpgrade v)))
  /\ (LessThan v mv = false -> GreaterThan v tool = false ->
      check (pre ++ (module, mv) :: post)%list = check (pre ++ post)%list).
Proof.
  intros cuePkgDir moduleDir check Hdev Htool Hroot Hpre Hsym Hread Hparse.
  assert (Hstep : fst (checkModule tool cuePkgDir (module, mv) w) =
                  if LessThan v mv then Some (errIncompatibleModule module v mv)
                  else if GreaterThan v tool then Some (errNeedsUpgrade v)
                  else None).
  { rewrite (checkModule_read tool cuePkgDir module mv w Hsym). cbv zeta.
    fold moduleDir. rewrite Hread, Hparse. reflexivity. }
  unfold check.
  rewrite !(EnsureCompatibility_run _ _ fuel _ p root tool w Hdev Htool Hroot). fold cuePkgDir.
  repeat split.
  - intros Hlt. rewrite Hlt in Hstep.
    rewrite (checkModules_first_failure tool cuePkgDir w pre post _ _ Hpre Hstep). reflexivity.
  - intros Hlt Hgt. rewrite Hlt, Hgt in Hstep.
    rewrite (checkModules_first_failure tool cuePkgDir w pre post _ _ Hpre Hstep). reflexivity.
  - intros Hlt Hgt. rewrite Hlt, Hgt in Hstep.
    rewrite (checkModules_pass_through tool cuePkgDir w pre post _ Hstep).
    reflexivity.
Qed.

End Gate.

(** A marker below the minimum and above the tool's version: the module is
    reported as incompatible, not as needing an upgrade of the tool. *)
Lemma check_gates_version_counterexample :
  let moduleDir := Path.Join [Path.Join ["/proj"; "cue.mod"; "pkg"]; DaggerModule] in
  let check := fun order =>
    fst (EnsureCompatibility (gv := Dotted.dotted) "0.2.0" "devel" 0 order "/proj"
                             worldOldTool) in
  In (DaggerModule, [0; 2; 11]%N) dottedTable
  /\ String.eqb "0.2.0" "devel" = false
  /\ lstatSymlink worldOldTool moduleDir = false
  /\ fst (Os.ReadFile (Path.Join [moduleDir; versionFilePath]) worldOldTool)
     = Ok ("0.2.5" ++ newline)
  /\ @NewVersion Dotted.dotted (Strings.TrimSpace ("0.2.5" ++ newline)) = Ok [0; 2; 5]%N
  /\ @NewVersion Dotted.dotted "0.2.0" = Ok [0; 2; 0]%N
  /\ GreaterThan (gv := Dotted.dotted) [0; 2; 5]%N [0; 2; 0]%N = true
  /\ check dottedTable
     = Return (Some (errIncompatibleModule (gv := Dotted.dotted) DaggerModule [0; 2; 5]%N [0; 2; 11]%N))
  /\ check (rev dottedTable)
     = Return (Some (errIncompatibleModule (gv := Dotted.dotted) DaggerModule [0; 2; 5]%N [0; 2; 11]%N))
  /\ errIncompatibleModule (gv := Dotted.dotted) DaggerModule [0; 2; 5]%N [0; 2; 11]%N
     <> errNeedsUpgrade (gv := Dotted.dotted) [0; 2; 5]%N.
Proof.
  cbv zeta. repeat split; try reflexivity.
  - left; reflexivity.
  - vm_compute. discriminate.
Qed.

Lemma check_gates_version_witness :
  let w := projectWorld [(DaggerModule, vendoredModule ("0.2.20" ++ newline));
                         (UniverseModule, vendoredModule "0.2.8")] in
  let check := fun order =>
    fst (EnsureCompatibility (gv := Dotted.dotted) "0.2.36" "devel" 0 order "/proj" w) in
  (LessThan (gv := Dotted.dotted) [0; 2; 8]%N [0; 2; 9]%N = true ->
   check dottedTable
   = Return (Some (errIncompatibleModule (gv := Dotted.dotted) UniverseModule [0; 2; 8]%N [0; 2; 9]%N)))
  /\ (LessThan (gv := Dotted.dotted) [0; 2; 8]%N [0; 2; 9]%N = false ->
      GreaterThan (gv := Dotted.dotted) [0; 2; 8]%N [0; 2; 36]%N = true ->
      check dottedTable = Return (Some (errNeedsUpgrade (gv := Dotted.dotted) [0; 2; 8]%N)))
  /\ (LessThan (gv := Dotted.dotted) [0; 2; 8]%N [0; 2; 9]%N = false ->
      GreaterThan (gv := Dotted.dotted) [0; 2; 8]%N [0; 2; 36]%N = false ->
      check dottedTable = check [(DaggerModule, [0; 2; 11]%N)]).
Proof.
  cbv zeta.
  apply (check_gates_version (gv := Dotted.dotted) "0.2.36" "devel" 0 "/proj"
           "/proj" UniverseModule "0.2.8" [0; 2; 36]%N [0; 2; 9]%N [0; 2; 8]%N
           [(DaggerModule, [0; 2; 11]%N)] []).
  - reflexivity.
  - reflexivity.
  - reflexivity.
  - constructor; [reflexivity | constructor].
  - reflexivity.
  - reflexivity.
  - reflexivity.
Defined.

(** ** Substrings                                                         *)

Lemma HasPrefix_app (b c : string) : Strings.HasPrefix (b ++ c) b = true.
Proof.
induction b as [|a b IH]; simpl.
- destruct c; reflexivity.
- rewrite Ascii.eqb_refl. exact IH.
Qed.

Lemma Contains_unfold (s x : string) :
  Strings.Contains s x =
  Strings.HasPrefix s x
  || match s with
     | EmptyString => false
     | String _ s' => Strings.Contains s' x
     end.
Proof. destruct s; reflexivity. Qed.

Lemma Contains_here (b c : string) : Strings.Contains (b ++ c) b = true.
Proof. rewrite Contains_unfold, HasPrefix_app. reflexivity. Qed.

Lemma Contains_later (a s x : string) :
  Strings.Contains s x = true -> Strings.Contains (a ++ s) x = true.
Proof.
intros H. induction a as [|c a IH]; simpl; [exact H|].
rewrite IH. apply orb_true_r.
Qed.

Lemma HasPrefix_split (s x : string) :
  Strings.HasPrefix s x = true -> exists c, s = x ++ c.
Proof.
revert s; induction x as [|a x IH]; intros s H.
- exists s; reflexivity.
- destruct s as [|b s]; simpl in H; [discriminate|].
  apply andb_true_iff in H. destruct H as [Hab H].
  apply Ascii.eqb_eq in Hab. subst b.
  destruct (IH s H) as [c Hc]. exists c. simpl. rewrite <- Hc. reflexivity.
Qed.

Lemma Contains_split (s x : string) :
  Strings.Contains s x = true -> exists a c, s = a ++ x ++ c.
Proof.
induction s as [|b s IH]; intros H; rewrite Contains_unfold in H;
  apply orb_true_iff in H; destruct H as [H|H].
- destruct (HasPrefix_split _ _ H) as [c Hc]. exists EmptyString, c. exact Hc.
- discriminate.
- destruct (HasPrefix_split _ _ H) as [c Hc]. exists EmptyString, c. exact Hc.
- destruct (IH H) as [a [c Hc]]. exists (String b a), c. simpl. rewrite <- Hc.
  reflexivity.
Qed.

Lemma append_assoc (a b c : string) : (a ++ b) ++ c = a ++ b ++ c.
Proof. induction a as [|x a IH]; simpl; [reflexivity|]. rewrite IH. reflexivity. Qed.

Lemma Contains_inside (a s c x : string) :
  Strings.Contains s x = true -> Strings.Contains (a ++ s ++ c) x = true.
Proof.
intros H. destruct (Contains_split _ _ H) as [u [v Huv]]. subst s.
rewrite !append_assoc. rewrite <- append_assoc.
apply Contains_later with (a := a ++ u). apply Contains_here.
Qed.

Lemma Contains_refl (x : string) : Strings.Contains x x = true.
Proof.
assert (H : forall y, Strings.HasPrefix y y = true).
{ induction y as [|c y IH]; simpl; [reflexivity|]. rewrite Ascii.eqb_refl. exact IH. }
rewrite Contains_unfold, H. reflexivity.
Qed.

(** A string whose bytes [strconv.Quote] copies unchanged. *)
Lemma quoteBody_plain (s : string) : isPlain s = true -> Strings.quoteBody s = s.
Proof.
induction s as [|c s IH]; simpl; [reflexivity|].
intros H. apply andb_true_iff in H. destruct H as [Hc Hs].
unfold plainByte in Hc. apply String.eqb_eq in Hc. rewrite Hc, (IH Hs). reflexivity.
Qed.

Lemma Quote_contains (s : string) :
  isPlain s = true -> Strings.Contains (Strings.Quote s) s = true.
Proof.
intros H. unfold Strings.Quote. rewrite (quoteBody_plain _ H).
apply Contains_later with (a := String Strings.dquote EmptyString).
apply Contains_here.
Qed.

(** ** File modes                                                         *)

Lemma isSymlink_Dir (p : N) (es : list (string * Tree.node)) :
  Os.isSymlink (Os.info (Tree.Dir p es)) = false.
Proof.
unfold Os.isSymlink, Os.info, Os.Mode. apply N.eqb_neq. intros H.
apply (f_equal (fun x => N.testbit x 27)) in H.
rewrite N.land_spec, N.lor_spec, N.land_spec in H.
change (N.testbit Os.ModeDir 27) with false in H.
change (N.testbit Os.ModePerm 27) with false in H.
change (N.testbit Os.ModeSymlink 27) with true in H.
rewrite andb_false_r in H. discriminate.
Qed.

Lemma isSymlink_File (p : N) (d : string) :
  Os.isSymlink (Os.info (Tree.File p d)) = false.
Proof.
unfold Os.isSymlink, Os.info, Os.Mode. apply N.eqb_neq. intros H.
apply (f_equal (fun x => N.testbit x 27)) in H.
rewrite !N.land_spec in H.
change (N.testbit Os.ModePerm 27) with false in H.
change (N.testbit Os.ModeSymlink 27) with true in H.
rewrite andb_false_r in H. discriminate.
Qed.

Lemma isSymlink_Symlink (t : string) :
  Os.isSymlink (Os.info (Tree.Symlink t)) = true.
Proof. reflexivity. Qed.

Lemma lstatSymlink_lookup (w : Os.World) (name : string) :
  lstatSymlink w name =
  match Tree.lookup (Os.fs w) (Os.at_path w name) with
  | Ok (Tree.Symlink _) => true
  | _ => false
  end.
Proof.
unfold lstatSymlink, Os.Lstat. simpl.
destruct (Tree.lookup _ _) as [n|e]; [|reflexivity].
destruct n; [apply isSymlink_File | apply isSymlink_Symlink | apply isSymlink_Dir].
Qed.

(** ** The gate, continued                                                *)

Section Gate2.

Context {gv : GoVersion}.
Variable version_Version : string.
Variable version_DevelopmentVersion : string.

(** C2 (amended).  The loop visits the entries in the order in which the
    map yields them and returns with the error of the first entry that
    fails, whatever the entries after it would give. *)
Theorem check_reports_first_failure (fuel : nat) (p root : string) (tool : Version)
        (pre post : list (string * Version)) (entry : string * Version)
        (err : error) (w : Os.World) :
  let cuePkgDir := Path.Join [root; "cue.mod"; "pkg"] in
  String.eqb version_Version version_DevelopmentVersion = false ->
  NewVersion version_Version = Ok tool ->
  fst (projectRoot fuel p w) = Some root ->
  allPass tool cuePkgDir w pre ->
  fst (checkModule tool cuePkgDir entry w) = Some err ->
  fst (EnsureCompatibility version_Version version_DevelopmentVersion fuel
                           (pre ++ entry :: post)%list p w)
  = Return (Some err).
Proof.
intros cuePkgDir Hdev Htool Hroot Hpre He.
rewrite (EnsureCompatibility_run _ _ fuel _ p root tool w Hdev Htool Hroot).
fold cuePkgDir.
rewrite (checkModules_first_failure tool cuePkgDir w pre post _ _ Hpre He).
reflexivity.
Qed.

(** C4 (amended).  The tool is not a development build and its version
    parses.  A module whose path is a directory and whose marker file
    does not exist: once the entries visited before it have passed, the
    check fails with the missing-marker error, whose text names the
    module and its minimum version and tells to run the project update;
    it is not a parse error. *)
Theorem missing_marker_reported (fuel : nat) (p root module : string)
        (tool mv : Version) (pre post : list (string * Version))
        (perm : N) (entries : list (string * Tree.node)) (w : Os.World) :
  let cuePkgDir := Path.Join [root; "cue.mod"; "pkg"] in
  let moduleDir := Path.Join [cuePkgDir; module] in
  let versionFile := Path.Join [moduleDir; versionFilePath] in
  let r := fst (EnsureCompatibility version_Version version_DevelopmentVersion fuel
                                    (pre ++ (module, mv) :: post)%list p w) in
  String.eqb version_Version version_DevelopmentVersion = false ->
  NewVersion version_Version = Ok tool ->
  fst (projectRoot fuel p w) = Some root ->
  allPass tool cuePkgDir w pre ->
  Tree.lookup (Os.fs w) (Os.at_path w moduleDir) = Ok (Tree.Dir perm entries) ->
  Tree.lookup (Os.fs w) (Os.at_path w versionFile) = Err ENOENT ->
  r = Return (Some (errMissingVersionMarker module mv))
  /\ Strings.Contains (Error (errMissingVersionMarker module mv))
                      (Strings.Quote module) = true
  /\ Strings.Contains (Error (errMissingVersionMarker module mv))
                      (VersionString mv) = true
  /\ Strings.Contains (Error (errMissingVersionMarker module mv))
                      "Run `dagger-cue project update`" = true
  /\ (forall vf e, r <> Return (Some (errFailedToParse vf e))).
Proof.
intros cuePkgDir moduleDir versionFile r Hdev Htool Hroot Hpre Hdir Hfile.
assert (Hsym : lstatSymlink w moduleDir = false).
{ rewrite lstatSymlink_lookup, Hdir. reflexivity. }
assert (Hstep : fst (checkModule tool cuePkgDir (module, mv) w) =
                Some (errMissingVersionMarker module mv)).
{ rewrite (checkModule_read tool cuePkgDir module mv w Hsym). cbv zeta.
  fold moduleDir. fold versionFile. unfold Os.ReadFile. simpl.
  rewrite Hfile. reflexivity. }
assert (Hr : r = Return (Some (errMissingVersionMarker module mv))).
{ unfold r.
  rewrite (EnsureCompatibility_run _ _ fuel _ p root tool w Hdev Htool Hroot).
  fold cuePkgDir.
  rewrite (checkModules_first_failure tool cuePkgDir w pre post _ _ Hpre Hstep).
  reflexivity. }
split; [exact Hr|].
split.
{ unfold errMissingVersionMarker, Error.
  apply Contains_later. apply Contains_here. }
split.
{ unfold errMissingVersionMarker, Error.
  apply Contains_later, Contains_later, Contains_later. apply Contains_here. }
split.
{ unfold errMissingVersionMarker, Error.
  apply Contains_later, Contains_later, Contains_later, Contains_later.
  reflexivity. }
intros vf e. rewrite Hr. unfold errMissingVersionMarker, errFailedToParse.
discriminate.
Qed.

(** C7 (amended).  The missing-marker and the incompatible-module errors
    name the module, the versions they compare and the project update
    command; the needs-upgrade error names the vendored version and the
    version check command. *)
Theorem gate_messages (module : string) (vendored mv : Version) :
  isPlain module = true ->
  let missing := Error (errMissingVersionMarker module mv) in
  let incompatible := Error (errIncompatibleModule module vendored mv) in
  let upgrade := Error (errNeedsUpgrade vendored) in
  (Strings.Contains missing module = true
   /\ Strings.Contains missing (VersionString mv) = true
   /\ Strings.Contains missing "dagger-cue project update" = true)
  /\ (Strings.Contains incompatible module = true
      /\ Strings.Contains incompatible (VersionString vendored) = true
      /\ Strings.Contains incompatible (VersionString mv) = true
      /\ Strings.Contains incompatible "dagger-cue project update" = true)
  /\ (Strings.Contains upgrade (VersionString vendored) = true
      /\ Strings.Contains upgrade "dagger-cue version --check" = true).
Proof.
intros Hplain. cbv zeta.
unfold errMissingVersionMarker, errIncompatibleModule, errNeedsUpgrade, Error.
pose proof (Quote_contains module Hplain) as Hq.
repeat split.
- apply Contains_inside with (a := "package "). exact Hq.
- apply Contains_later, Contains_later, Contains_later. apply Contains_here.
- apply Contains_later, Contains_later, Contains_later, Contains_later.
  reflexivity.
- apply Contains_inside with (a := "package "). exact Hq.
- apply Contains_later, Contains_later, Contains_later. apply Contains_here.
- apply Contains_later, Contains_later, Contains_later, Contains_later, Contains_later.
  apply Contains_here.
- apply Contains_later, Contains_later, Contains_later, Contains_later, Contains_later,
    Contains_later.
  reflexivity.
- apply Contains_later. apply Contains_here.
- apply Contains_later, Contains_later.
  reflexivity.
Qed.

End Gate2.

(** With both modules failing on their own, the error reported is that of
    the module the map yields first, here the second of the table. *)
Lemma check_reports_first_failure_counterexample :
  let cuePkgDir := Path.Join ["/proj"; "cue.mod"; "pkg"] in
  let check := fun order =>
    fst (EnsureCompatibility (gv := Dotted.dotted) "0.2.36" "devel" 0 order "/proj"
                             worldUnmarked) in
  let errDagger :=
    errMissingVersionMarker (gv := Dotted.dotted) DaggerModule [0; 2; 11]%N in
  let errUniverse :=
    errMissingVersionMarker (gv := Dotted.dotted) UniverseModule [0; 2; 9]%N in
  ModuleRequirements (gv := Dotted.dotted) = Some dottedTable
  /\ Permutation (rev dottedTable) dottedTable
  /\ fst (checkModule (gv := Dotted.dotted) [0; 2; 36]%N cuePkgDir
                      (DaggerModule, [0; 2; 11]%N) worldUnmarked) = Some errDagger
  /\ fst (checkModule (gv := Dotted.dotted) [0; 2; 36]%N cuePkgDir
                      (UniverseModule, [0; 2; 9]%N) worldUnmarked) = Some errUniverse
  /\ check (rev dottedTable) = Return (Some errUniverse)
  /\ check (rev dottedTable) <> Return (Some errDagger).
Proof.
cbv zeta. repeat split; try reflexivity.
- apply Permutation_sym, Permutation_rev.
- vm_compute. discriminate.
Qed.

Lemma check_reports_first_failure_witness :
  let cuePkgDir := Path.Join ["/proj"; "cue.mod"; "pkg"] in
  allPass (gv := Dotted.dotted) [0; 2; 36]%N cuePkgDir worldOldTool
          [(UniverseModule, [0; 2; 9]%N)]
  /\ fst (EnsureCompatibility (gv := Dotted.dotted) "0.2.36" "devel" 0
            ([(UniverseModule, [0; 2; 9]%N)] ++ [(DaggerModule, [0; 2; 11]%N)])%list
            "/proj" worldOldTool)
     = Return (Some (errIncompatibleModule (gv := Dotted.dotted) DaggerModule
                       [0; 2; 5]%N [0; 2; 11]%N)).
Proof.
cbv zeta.
assert (H : allPass (gv := Dotted.dotted) [0; 2; 36]%N
                    (Path.Join ["/proj"; "cue.mod"; "pkg"]) worldOldTool
                    [(UniverseModule, [0; 2; 9]%N)]).
{ constructor; [reflexivity | constructor]. }
split; [exact H|].
apply (check_reports_first_failure (gv := Dotted.dotted) "0.2.36" "devel" 0 "/proj"
         "/proj" [0; 2; 36]%N [(UniverseModule, [0; 2; 9]%N)] []
         (DaggerModule, [0; 2; 11]%N)).
- reflexivity.
- reflexivity.
- reflexivity.
- exact H.
- reflexivity.
Defined.

Lemma missing_marker_reported_witness :
  let r := fst (EnsureCompatibility (gv := Dotted.dotted) "0.2.36" "devel" 0
                  ([] ++ (DaggerModule, [0; 2; 11]%N) :: [(UniverseModule, [0; 2; 9]%N)])%list
                  "/proj" worldUnmarked) in
  let e := errMissingVersionMarker (gv := Dotted.dotted) DaggerModule [0; 2; 11]%N in
  r = Return (Some e)
  /\ Strings.Contains (Error e) (Strings.Quote DaggerModule) = true
  /\ Strings.Contains (Error e) "0.2.11" = true
  /\ Strings.Contains (Error e) "Run `dagger-cue project update`" = true
  /\ (forall vf e', r <> Return (Some (errFailedToParse vf e'))).
Proof.
cbv zeta.
apply (missing_marker_reported (gv := Dotted.dotted) "0.2.36" "devel" 0 "/proj"
         "/proj" DaggerModule [0; 2; 36]%N [0; 2; 11]%N []
         [(UniverseModule, [0; 2; 9]%N)] 493
         [("cue.mod", Tree.Dir 493 [("module.cue", Tree.File 384 "module: m")])]
         worldUnmarked).
- reflexivity.
- reflexivity.
- reflexivity.
- constructor.
- reflexivity.
- reflexivity.
Defined.

(** C4 as first stated fails in three ways.  A module directory in which
    [cue.mod] is a regular file has no marker file, and the check fails
    with the failed-to-read error; a module without marker that comes
    after another failing module is not the one reported; and a
    development build reports nothing at all. *)
Lemma missing_marker_reported_counterexample :
  let check := fun version w =>
    fst (EnsureCompatibility (gv := Dotted.dotted) version "devel" 0 dottedTable
                             "/proj" w) in
  let daggerDir := ["proj"; "cue.mod"; "pkg"; "dagger.io"] in
  let universeDir := ["proj"; "cue.mod"; "pkg"; "universe.dagger.io"] in
  let marker := "/proj/cue.mod/pkg/dagger.io/cue.mod/version.txt" in
  (Tree.lookup (Os.fs worldCueModFile) daggerDir
   = Ok (Tree.Dir 493 [("cue.mod", Tree.File 420 "x")])
   /\ Tree.lookup (Os.fs worldCueModFile) (daggerDir ++ ["cue.mod"; "version.txt"])%list
      = Err ENOTDIR
   /\ check "0.2.36" worldCueModFile
      = Return (Some (errFailedToRead marker (PathError "open" marker ENOTDIR)))
   /\ check "0.2.36" worldCueModFile
      <> Return (Some (errMissingVersionMarker (gv := Dotted.dotted)
                         DaggerModule [0; 2; 11]%N)))
  /\ (Tree.lookup (Os.fs worldUnmarked) universeDir = Ok unmarkedModule
      /\ Tree.lookup (Os.fs worldUnmarked) (universeDir ++ ["cue.mod"; "version.txt"])%list
         = Err ENOENT
      /\ check "0.2.36" worldUnmarked
         <> Return (Some (errMissingVersionMarker (gv := Dotted.dotted)
                            UniverseModule [0; 2; 9]%N)))
  /\ check "devel" worldUnmarked = Return None.
Proof.
cbv zeta. repeat split; try (vm_compute; reflexivity); vm_compute; discriminate.
Qed.

(** The needs-upgrade error does not name the module whose marker is above
    the tool's version. *)
Lemma gate_messages_counterexample :
  let check := fun order =>
    fst (EnsureCompatibility (gv := Dotted.dotted) "0.2.36" "devel" 0 order "/proj"
                             worldNewerModule) in
  let e := errNeedsUpgrade (gv := Dotted.dotted) [0; 3; 0]%N in
  check dottedTable = Return (Some e)
  /\ check (rev dottedTable) = Return (Some e)
  /\ Error e = "this plan requires dagger-cue 0.3.0 or newer. Run `dagger-cue version --check` to check for latest version"
  /\ Strings.Contains (Error e) DaggerModule = false
  /\ Strings.Contains (Error e) "0.2.36" = false.
Proof. cbv zeta. repeat split; reflexivity. Qed.

Lemma gate_messages_witness :
  isPlain DaggerModule = true
  /\ let missing :=
       Error (errMissingVersionMarker (gv := Dotted.dotted) DaggerModule [0; 2; 11]%N) in
     let incompatible :=
       Error (errIncompatibleModule (gv := Dotted.dotted) DaggerModule
                                    [0; 2; 5]%N [0; 2; 11]%N) in
     let upgrade := Error (errNeedsUpgrade (gv := Dotted.dotted) [0; 2; 5]%N) in
     (Strings.Contains missing DaggerModule = true
      /\ Strings.Contains missing "0.2.11" = true
      /\ Strings.Contains missing "dagger-cue project update" = true)
     /\ (Strings.Contains incompatible DaggerModule = true
         /\ Strings.Contains incompatible "0.2.5" = true
         /\ Strings.Contains incompatible "0.2.11" = true
         /\ Strings.Contains incompatible "dagger-cue project update" = true)
     /\ (Strings.Contains upgrade "0.2.5" = true
         /\ Strings.Contains upgrade "dagger-cue version --check" = true).
Proof.
split; [reflexivity|].
apply (gate_messages (gv := Dotted.dotted) DaggerModule [0; 2; 5]%N [0; 2; 11]%N).
reflexivity.
Defined.

(** ** The search for the project root                                    *)

Section Locate.

Lemma GetCueModParent_loop_S (fuel : nat) (cwd dir : string) (w : Os.World) :
  GetCueModParent_loop (S fuel) cwd dir w =
  if negb (markerMissing w dir) then (Some (dir, true), w)
  else if String.eqb (Path.Dir dir) "/" then (Some (cwd, false), w)
       else GetCueModParent_loop fuel cwd (Path.Dir dir) w.
Proof.
change (GetCueModParent_loop (S fuel) cwd dir w) with
  ((if negb (markerMissing w dir) then Os.ret (Some (dir, true))
    else if String.eqb (Path.Dir dir) "/" then Os.ret (Some (cwd, false))
         else GetCueModParent_loop fuel cwd (Path.Dir dir)) w).
destruct (negb _); [reflexivity|].
destruct (String.eqb _ _); reflexivity.
Qed.

Lemma GetCueModParent_loop_found (fuel : nat) (cwd dir : string) (w : Os.World) :
  markerMissing w dir = false ->
  GetCueModParent_loop (S fuel) cwd dir w = (Some (dir, true), w).
Proof. intros H. rewrite GetCueModParent_loop_S, H. reflexivity. Qed.

Lemma GetCueModParent_loop_root (fuel : nat) (cwd dir : string) (w : Os.World) :
  markerMissing w dir = true ->
  String.eqb (Path.Dir dir) "/" = true ->
  GetCueModParent_loop (S fuel) cwd dir w = (Some (cwd, false), w).
Proof. intros H Hroot. rewrite GetCueModParent_loop_S, H, Hroot. reflexivity. Qed.

Lemma GetCueModParent_loop_up (fuel : nat) (cwd dir : string) (w : Os.World) :
  markerMissing w dir = true ->
  String.eqb (Path.Dir dir) "/" = false ->
  GetCueModParent_loop (S fuel) cwd dir w =
  GetCueModParent_loop fuel cwd (Path.Dir dir) w.
Proof. intros H Hroot. rewrite GetCueModParent_loop_S, H, Hroot. reflexivity. Qed.

Lemma GetCueModParent_loop_walk (k fuel : nat) (cwd start : string) (w : Os.World) :
  walkReaches w start k ->
  GetCueModParent_loop (k + fuel) cwd start w =
  GetCueModParent_loop fuel cwd (iterDir k start) w.
Proof.
revert start. induction k as [|k IH]; intros start H; [reflexivity|].
destruct (H 0 (Nat.lt_0_succ k)) as [Hm Hr]. simpl in Hm, Hr.
change (S k + fuel) with (S (k + fuel)).
rewrite (GetCueModParent_loop_up _ _ _ _ Hm Hr).
simpl iterDir. apply IH.
intros j Hj. apply (H (S j)). apply (proj1 (Nat.succ_lt_mono j k)). exact Hj.
Qed.

End Locate.

Lemma iterDir_up (k : nat) (s : string) :
  iterDir (S k) s = Path.Dir (iterDir k s).
Proof.
revert s. induction k as [|k IH]; intros s; [reflexivity|].
change (iterDir (S (S k)) s) with (iterDir (S k) (Path.Dir s)).
rewrite IH. reflexivity.
Qed.

Lemma GetCueModParent_unfold (fuel : nat) (args : list string) (w : Os.World) :
  GetCueModParent fuel args w =
  GetCueModParent_loop fuel (Os.wd w) (startDir w args) w.
Proof. reflexivity. Qed.


(** C3 (amended).  When the walk reaches the root of the file system and
    no directory on the way reports the marker, the answer is the working
    directory of the process with [found = false], and nothing has
    changed. *)
Theorem locate_not_found (k fuel : nat) (args : list string) (w : Os.World) :
  let start := startDir w args in
  walkReaches w start k ->
  markerMissing w (iterDir k start) = true ->
  String.eqb (iterDir (S k) start) "/" = true ->
  GetCueModParent (k + S fuel) args w = (Some (Os.wd w, false), w).
Proof.
intros start Hwalk Hlast Hroot.
rewrite GetCueModParent_unfold. fold start.
rewrite (GetCueModParent_loop_walk k (S fuel) (Os.wd w) start w Hwalk).
apply GetCueModParent_loop_root; [exact Hlast|].
rewrite <- iterDir_up. exact Hroot.
Qed.

(** From [/srv/app], with no marker anywhere, the answer is the working
    directory [/home/u], not the directory the search started from. *)
Lemma locate_not_found_counterexample :
  markerMissing bareWorld "/srv/app" = true
  /\ markerMissing bareWorld "/srv" = true
  /\ markerMissing bareWorld "/" = true
  /\ GetCueModParent 3 ["/srv/app"] bareWorld = (Some ("/home/u", false), bareWorld)
  /\ fst (GetCueModParent 3 ["/srv/app"] bareWorld) <> Some ("/srv/app", false).
Proof. repeat split; try reflexivity. vm_compute. discriminate. Qed.

Lemma locate_not_found_witness :
  walkReaches bareWorld (startDir bareWorld ["/srv/app"]) 1
  /\ GetCueModParent (1 + 1) ["/srv/app"] bareWorld
     = (Some (Os.wd bareWorld, false), bareWorld).
Proof.
assert (H : walkReaches bareWorld (startDir bareWorld ["/srv/app"]) 1).
{ intros j Hj. assert (j = 0) by lia. subst j. split; reflexivity. }
split; [exact H|].
apply (locate_not_found 1 0 ["/srv/app"] bareWorld H); reflexivity.
Defined.


(** From a relative directory without marker the walk stays at [.] and
    does not return. *)
Lemma locate_relative_never_returns (fuel : nat) :
  fst (GetCueModParent fuel ["sub"] bareWorld) = None.
Proof.
rewrite GetCueModParent_unfold.
change (startDir bareWorld ["sub"]) with "sub".
destruct fuel as [|fuel]; [reflexivity|].
rewrite GetCueModParent_loop_up; [|reflexivity|reflexivity].
change (Path.Dir "sub") with ".".
induction fuel as [|fuel IH]; [reflexivity|].
rewrite GetCueModParent_loop_up; [|reflexivity|reflexivity].
exact IH.
Qed.

(** ** Paths                                                              *)

Lemma SplitSlash_nonempty (s : string) : Strings.SplitSlash s <> [].
Proof.
destruct s as [|c r]; simpl; [discriminate|].
destruct (Ascii.eqb c Strings.slash); [discriminate|].
destruct (Strings.SplitSlash r); discriminate.
Qed.

Lemma SplitSlash_app (a b : string) :
  Strings.SplitSlash (a ++ String Strings.slash b)
  = (Strings.SplitSlash a ++ Strings.SplitSlash b)%list.
Proof.
induction a as [|c a IH]; simpl.
- reflexivity.
- destruct (Ascii.eqb c Strings.slash).
  + rewrite IH. reflexivity.
  + rewrite IH. destruct (Strings.SplitSlash a) as [|h t] eqn:E.
    * exfalso. exact (SplitSlash_nonempty a E).
    * reflexivity.
Qed.

Lemma SplitSlash_noslash (s : string) :
  Strings.hasSlash s = false -> Strings.SplitSlash s = [s].
Proof.
induction s as [|c r IH]; simpl; [reflexivity|].
intros H. apply orb_false_iff in H. destruct H as [Hc Hr].
rewrite Hc, (IH Hr). reflexivity.
Qed.

Lemma SplitSlash_elems_noslash (s : string) :
  Forall (fun c => Strings.hasSlash c = false) (Strings.SplitSlash s).
Proof.
induction s as [|c r IH]; simpl.
- constructor; [reflexivity | constructor].
- destruct (Ascii.eqb c Strings.slash) eqn:Ec.
  + constructor; [reflexivity | exact IH].
  + destruct (Strings.SplitSlash r) as [|h t].
    * constructor; [simpl; rewrite Ec; reflexivity | constructor].
    * inversion IH as [|? ? Hh Ht]; subst.
      constructor; [simpl; rewrite Ec; exact Hh | exact Ht].
Qed.

Lemma JoinSlash_cons (e : string) (rest : list string) :
  rest <> [] ->
  Strings.JoinSlash (e :: rest) = e ++ String Strings.slash (Strings.JoinSlash rest).
Proof. destruct rest; [congruence | reflexivity]. Qed.

Lemma SplitSlash_JoinSlash (es : list string) :
  es <> [] ->
  Strings.SplitSlash (Strings.JoinSlash es) = List.concat (map Strings.SplitSlash es).
Proof.
induction es as [|e rest IH]; [congruence|]. intros _.
destruct rest as [|e' rest'].
- simpl. rewrite app_nil_r. reflexivity.
- rewrite JoinSlash_cons by discriminate. rewrite SplitSlash_app, IH by discriminate.
  reflexivity.
Qed.

Lemma concat_map_singleton (cs : list string) :
  Forall (fun c => Strings.hasSlash c = false) cs ->
  List.concat (map Strings.SplitSlash cs) = cs.
Proof.
induction 1 as [|c cs Hc _ IH]; [reflexivity|].
simpl. rewrite (SplitSlash_noslash _ Hc), IH. reflexivity.
Qed.

Lemma simple_spec (c : string) :
  simple c = true ->
  Strings.hasSlash c = false /\ c <> EmptyString /\ c <> "." /\ c <> "..".
Proof.
unfold simple. intros H.
repeat (apply andb_true_iff in H; destruct H as [H ?]).
repeat match goal with
       | H : negb _ = true |- _ => apply negb_true_iff in H
       end.
repeat split; try assumption; apply String.eqb_neq; assumption.
Qed.

Lemma step_simple (r : bool) (st : list string) (c : string) :
  simple c = true -> Path.step r st c = c :: st.
Proof.
intros H. destruct (simple_spec _ H) as [_ [H1 [H2 H3]]].
unfold Path.step.
rewrite (proj2 (String.eqb_neq _ _) H1), (proj2 (String.eqb_neq _ _) H2),
  (proj2 (String.eqb_neq _ _) H3). reflexivity.
Qed.

Lemma fold_step_simple (r : bool) (cs st : list string) :
  Forall (fun c => simple c = true) cs ->
  fold_left (Path.step r) cs st = (rev cs ++ st)%list.
Proof.
intros H. revert st. induction H as [|c cs Hc _ IH]; intros st; [reflexivity|].
simpl. rewrite (step_simple r st c Hc), IH, <- app_assoc. reflexivity.
Qed.

Lemma step_good (r : bool) (st : list string) (c : string) :
  Strings.hasSlash c = false -> good r st -> good r (Path.step r st c).
Proof.
intros Hc Hst. unfold Path.step.
destruct (String.eqb c EmptyString) eqn:E1; [exact Hst|].
destruct (String.eqb c ".") eqn:E2; [exact Hst|].
apply String.eqb_neq in E1. apply String.eqb_neq in E2.
destruct (String.eqb c "..") eqn:E3.
- apply String.eqb_eq in E3. subst c.
  destruct st as [|top rest].
  + destruct r; simpl; [exact I|]. repeat split; try assumption; try discriminate.
  + destruct (String.eqb top "..") eqn:E4.
    * apply String.eqb_eq in E4. subst top. simpl in Hst.
      destruct Hst as [H1 [H2 [H3 [H4 H5]]]].
      destruct (H4 eq_refl) as [Hr _].
      simpl. split; [discriminate|]. split; [discriminate|]. split; [reflexivity|].
      split; [intros _; split; [exact Hr | reflexivity]|].
      exact (conj H1 (conj H2 (conj H3 (conj H4 H5)))).
    * simpl in Hst. destruct Hst as [_ [_ [_ [_ H5]]]]. exact H5.
- apply String.eqb_neq in E3. simpl.
  split; [exact E1|]. split; [exact E2|]. split; [exact Hc|].
  split; [intros E; contradiction | exact Hst].
Qed.

Lemma fold_step_good (r : bool) (cs st : list string) :
  Forall (fun c => Strings.hasSlash c = false) cs ->
  good r st -> good r (fold_left (Path.step r) cs st).
Proof.
intros H. revert st. induction H as [|c cs Hc _ IH]; intros st Hst; [exact Hst|].
simpl. apply IH. apply step_good; assumption.
Qed.

Lemma good_step_push (r : bool) (st : list string) (c : string) :
  good r (c :: st) -> Path.step r st c = c :: st.
Proof.
simpl. intros [H1 [H2 [_ [H4 _]]]]. unfold Path.step.
rewrite (proj2 (String.eqb_neq _ _) H1), (proj2 (String.eqb_neq _ _) H2).
destruct (String.eqb c "..") eqn:E3; [|reflexivity].
apply String.eqb_eq in E3. destruct (H4 E3) as [Hr Hb]. subst c r.
destruct st as [|d st']; [reflexivity|]. subst d. reflexivity.
Qed.

Lemma good_tail (r : bool) (c : string) (st : list string) :
  good r (c :: st) -> good r st.
Proof. simpl. intros [_ [_ [_ [_ H]]]]. exact H. Qed.

Lemma fold_rev_good (r : bool) (st : list string) :
  good r st -> fold_left (Path.step r) (rev st) [] = st.
Proof.
induction st as [|c st IH]; intros H; [reflexivity|].
simpl rev. rewrite fold_left_app. simpl.
rewrite (IH (good_tail _ _ _ H)). apply good_step_push. exact H.
Qed.

Lemma good_noslash (r : bool) (st : list string) :
  good r st -> Forall (fun c => Strings.hasSlash c = false) st.
Proof.
induction st as [|c st IH]; intros H; constructor.
- simpl in H. tauto.
- apply IH. exact (good_tail _ _ _ H).
Qed.

Lemma good_nonempty (r : bool) (st : list string) :
  good r st -> Forall (fun c => c <> EmptyString) st.
Proof.
induction st as [|c st IH]; intros H; constructor.
- simpl in H. tauto.
- apply IH. exact (good_tail _ _ _ H).
Qed.

Lemma parse_good (s : string) :
  good (Path.IsAbs s) (fold_left (Path.step (Path.IsAbs s)) (Strings.SplitSlash s) []).
Proof. apply fold_step_good; [apply SplitSlash_elems_noslash | exact I]. Qed.

Lemma IsAbs_noslash (c : string) :
  Strings.hasSlash c = false -> Path.IsAbs c = false.
Proof.
destruct c as [|x c]; [reflexivity|]. simpl. intros H.
apply orb_false_iff in H. tauto.
Qed.

Lemma IsAbs_app (a b : string) :
  a <> EmptyString -> Path.IsAbs (a ++ b) = Path.IsAbs a.
Proof. destruct a; [congruence | reflexivity]. Qed.

Lemma IsAbs_JoinSlash (c : string) (cs : list string) :
  Strings.hasSlash c = false -> c <> EmptyString ->
  Path.IsAbs (Strings.JoinSlash (c :: cs)) = false.
Proof.
intros Hs Hn. destruct cs as [|d cs].
- apply IsAbs_noslash. exact Hs.
- rewrite JoinSlash_cons by discriminate. rewrite (IsAbs_app _ _ Hn).
  apply IsAbs_noslash. exact Hs.
Qed.

Lemma parse_render (r : bool) (cs : list string) :
  good r (rev cs) -> Path.parse (Path.render (r, cs)) = (r, cs).
Proof.
intros Hg.
assert (Hns : Forall (fun c => Strings.hasSlash c = false) cs).
{ rewrite <- (rev_involutive cs). apply Forall_rev. exact (good_noslash _ _ Hg). }
assert (Hne : Forall (fun c => c <> EmptyString) cs).
{ rewrite <- (rev_involutive cs). apply Forall_rev. exact (good_nonempty _ _ Hg). }
assert (Hfold : fold_left (Path.step r) cs [] = rev cs).
{ rewrite <- (rev_involutive cs) at 1. apply fold_rev_good. exact Hg. }
destruct r.
- unfold Path.render, Path.parse.
  change (Path.IsAbs (String Strings.slash (Strings.JoinSlash cs))) with true.
  change (Strings.SplitSlash (String Strings.slash (Strings.JoinSlash cs)))
    with (EmptyString :: Strings.SplitSlash (Strings.JoinSlash cs)).
  change (fold_left (Path.step true)
            (EmptyString :: Strings.SplitSlash (Strings.JoinSlash cs)) [])
    with (fold_left (Path.step true) (Strings.SplitSlash (Strings.JoinSlash cs)) []).
  destruct cs as [|c cs']; [reflexivity|].
  rewrite SplitSlash_JoinSlash by discriminate.
  rewrite (concat_map_singleton _ Hns), Hfold, rev_involutive. reflexivity.
- destruct cs as [|c cs']; [reflexivity|].
  unfold Path.render, Path.parse.
  inversion Hns as [|? ? Hc _]; subst. inversion Hne as [|? ? Hc' _]; subst.
  rewrite (IsAbs_JoinSlash c cs' Hc Hc').
  rewrite SplitSlash_JoinSlash by discriminate.
  rewrite (concat_map_singleton _ Hns), Hfold, rev_involutive. reflexivity.
Qed.

Lemma parse_Clean (s : string) : Path.parse (Path.Clean s) = Path.parse s.
Proof.
unfold Path.Clean. unfold Path.parse at 2 3.
apply parse_render. rewrite rev_involutive. apply parse_good.
Qed.

Lemma Clean_render (s : string) : Path.Clean s = Path.render (Path.parse s).
Proof. reflexivity. Qed.

Lemma step_push (r : bool) (st : list string) (x : string) :
  x <> EmptyString -> x <> "." -> x <> ".." -> Path.step r st x = x :: st.
Proof.
intros H1 H2 H3. unfold Path.step.
rewrite (proj2 (String.eqb_neq _ _) H1), (proj2 (String.eqb_neq _ _) H2),
  (proj2 (String.eqb_neq _ _) H3). reflexivity.
Qed.

Lemma step_dotdot (r : bool) (st : list string) :
  Path.step r st ".." =
  match st with
  | top :: rest => if String.eqb top ".." then ".." :: st else rest
  | [] => if r then [] else [".."]
  end.
Proof. reflexivity. Qed.

Lemma relative_then_absolute_step (st b : list string) (x : string) :
  good false st ->
  Path.step true (fold_left (Path.step true) (rev st) b) x
  = fold_left (Path.step true) (rev (Path.step false st x)) b.
Proof.
intros Hst.
destruct (String.eqb x EmptyString) eqn:E1.
{ apply String.eqb_eq in E1. subst x. reflexivity. }
destruct (String.eqb x ".") eqn:E2.
{ apply String.eqb_eq in E2. subst x. reflexivity. }
apply String.eqb_neq in E1. apply String.eqb_neq in E2.
destruct (String.eqb x "..") eqn:E3.
- apply String.eqb_eq in E3. subst x.
  rewrite (step_dotdot false st).
  destruct st as [|top rest]; [reflexivity|].
  destruct (String.eqb top "..") eqn:E4.
  + change (rev (".." :: top :: rest)) with (rev (top :: rest) ++ [".."])%list.
    rewrite (fold_left_app _ _ [".."]). reflexivity.
  + apply String.eqb_neq in E4. simpl in Hst. destruct Hst as [H1 [H2 _]].
    simpl rev. rewrite fold_left_app.
    change (fold_left (Path.step true) [top] ?z) with (Path.step true z top).
    rewrite (step_push true _ top H1 H2 E4).
    rewrite step_dotdot. rewrite (proj2 (String.eqb_neq _ _) E4). reflexivity.
- apply String.eqb_neq in E3.
  rewrite (step_push false st x E1 E2 E3).
  simpl rev. rewrite fold_left_app. reflexivity.
Qed.

Lemma relative_then_absolute (xs st b : list string) :
  Forall (fun c => Strings.hasSlash c = false) xs ->
  good false st ->
  fold_left (Path.step true) (rev st ++ xs)%list b
  = fold_left (Path.step true) (rev (fold_left (Path.step false) xs st)) b.
Proof.
intros Hxs. revert st. induction Hxs as [|x xs Hx _ IH]; intros st Hst.
- rewrite app_nil_r. reflexivity.
- change (fold_left (Path.step false) (x :: xs) st)
    with (fold_left (Path.step false) xs (Path.step false st x)).
  rewrite <- (IH _ (step_good false st x Hx Hst)).
  rewrite !fold_left_app.
  change (fold_left (Path.step true) (x :: xs) ?z)
    with (fold_left (Path.step true) xs (Path.step true z x)).
  rewrite (relative_then_absolute_step st b x Hst). reflexivity.
Qed.

Lemma resolve_absolutize (wd s : string) :
  Path.resolve wd s = absolutize wd (Path.parse s).
Proof.
unfold Path.resolve, absolutize, Path.parse. simpl fst. simpl snd.
destruct (Path.IsAbs s); [reflexivity|].
f_equal. unfold base.
exact (relative_then_absolute (Strings.SplitSlash s) [] _
         (SplitSlash_elems_noslash s) I).
Qed.

Lemma absolutize_snoc (wd : string) (r : bool) (cs names : list string) :
  Forall (fun c => simple c = true) names ->
  absolutize wd (r, cs ++ names)%list = (absolutize wd (r, cs) ++ names)%list.
Proof.
intros H. unfold absolutize. simpl. destruct r; [reflexivity|].
rewrite fold_left_app, (fold_step_simple true names _ H), rev_app_distr,
  rev_involutive. reflexivity.
Qed.

Lemma simple_nonempty (c : string) : simple c = true -> String.eqb c EmptyString = false.
Proof.
intros H. destruct (simple_spec _ H) as [_ [H1 _]]. apply String.eqb_neq. exact H1.
Qed.

Lemma simple_noslash_all (names : list string) :
  Forall (fun c => simple c = true) names ->
  Forall (fun c => Strings.hasSlash c = false) names.
Proof.
induction 1 as [|c cs Hc _ IH]; constructor; [|exact IH].
destruct (simple_spec _ Hc) as [H _]. exact H.
Qed.

(** The parse of a directory with more elements after it. *)
Lemma parse_under (dir rest : string) :
  Forall (fun c => simple c = true) (Strings.SplitSlash rest) ->
  Path.parse (if String.eqb dir EmptyString then rest
              else dir ++ String Strings.slash rest)
  = (Path.IsAbs dir, (snd (Path.parse dir) ++ Strings.SplitSlash rest)%list).
Proof.
intros Hrest.
destruct (String.eqb dir EmptyString) eqn:Ed.
- apply String.eqb_eq in Ed. subst dir. unfold Path.parse.
  assert (Hrel : Path.IsAbs rest = false).
  { destruct rest as [|x rest']; [reflexivity|]. simpl.
    destruct (Ascii.eqb x Strings.slash) eqn:Ex; [|reflexivity].
    simpl in Hrest. rewrite Ex in Hrest. inversion Hrest as [|? ? Hbad _].
    discriminate. }
  rewrite Hrel, (fold_step_simple false _ [] Hrest), app_nil_r, rev_involutive.
  reflexivity.
- apply String.eqb_neq in Ed. unfold Path.parse.
  rewrite (IsAbs_app _ _ Ed), SplitSlash_app, fold_left_app.
  rewrite (fold_step_simple _ _ _ Hrest), rev_app_distr, rev_involutive.
  reflexivity.
Qed.

Lemma parse_Join2 (dir rel : string) :
  Forall (fun c => simple c = true) (Strings.SplitSlash rel) ->
  Path.parse (Path.Join [dir; rel])
  = (Path.IsAbs dir, (snd (Path.parse dir) ++ Strings.SplitSlash rel)%list).
Proof.
intros Hrel.
assert (Hne : String.eqb rel EmptyString = false).
{ destruct rel; [|reflexivity]. inversion Hrel as [|? ? Hbad _]. discriminate. }
rewrite <- (parse_under dir rel Hrel).
unfold Path.Join. simpl filter. rewrite Hne. simpl negb.
destruct (String.eqb dir EmptyString); simpl; rewrite parse_Clean; reflexivity.
Qed.

Lemma parse_Join3 (dir a b : string) :
  simple a = true -> simple b = true ->
  Path.parse (Path.Join [dir; a; b])
  = (Path.IsAbs dir, (snd (Path.parse dir) ++ [a; b])%list).
Proof.
intros Ha Hb.
assert (Hsplit : Strings.SplitSlash (a ++ String Strings.slash b) = [a; b]).
{ rewrite SplitSlash_app.
  destruct (simple_spec _ Ha) as [Ha' _]. destruct (simple_spec _ Hb) as [Hb' _].
  rewrite (SplitSlash_noslash _ Ha'), (SplitSlash_noslash _ Hb'). reflexivity. }
assert (Hrest : Forall (fun c => simple c = true)
                       (Strings.SplitSlash (a ++ String Strings.slash b))).
{ rewrite Hsplit. repeat constructor; assumption. }
transitivity (Path.parse (if String.eqb dir EmptyString
                          then a ++ String Strings.slash b
                          else dir ++ String Strings.slash
                                        (a ++ String Strings.slash b))).
- unfold Path.Join. simpl filter.
  rewrite (simple_nonempty _ Ha), (simple_nonempty _ Hb). simpl negb.
  destruct (String.eqb dir EmptyString); simpl; rewrite parse_Clean; reflexivity.
- rewrite (parse_under dir _ Hrest), Hsplit. reflexivity.
Qed.

Lemma resolve_Join2 (wd dir rel : string) :
  Forall (fun c => simple c = true) (Strings.SplitSlash rel) ->
  Path.resolve wd (Path.Join [dir; rel])
  = (Path.resolve wd dir ++ Strings.SplitSlash rel)%list.
Proof.
intros H. rewrite !resolve_absolutize, (parse_Join2 dir rel H).
rewrite (absolutize_snoc wd _ _ _ H).
unfold absolutize, Path.parse. reflexivity.
Qed.

Lemma resolve_Join3 (wd dir a b : string) :
  simple a = true -> simple b = true ->
  Path.resolve wd (Path.Join [dir; a; b]) = (Path.resolve wd dir ++ [a; b])%list.
Proof.
intros Ha Hb. rewrite !resolve_absolutize, (parse_Join3 dir a b Ha Hb).
rewrite (absolutize_snoc wd _ _ [a; b]) by (repeat constructor; assumption).
unfold absolutize, Path.parse. reflexivity.
Qed.

Lemma JoinSlash_snoc (cs : list string) (x : string) :
  cs <> [] ->
  Strings.JoinSlash (cs ++ [x])
  = Strings.JoinSlash cs ++ String Strings.slash x.
Proof.
induction cs as [|c cs IH]; [congruence|]. intros _.
destruct cs as [|d cs'].
- reflexivity.
- change ((c :: d :: cs') ++ [x])%list with (c :: ((d :: cs') ++ [x]))%list.
  rewrite JoinSlash_cons by (simpl; discriminate).
  rewrite IH by discriminate.
  rewrite (JoinSlash_cons c (d :: cs')) by discriminate.
  rewrite append_assoc. reflexivity.
Qed.

Lemma render_snoc (r : bool) (cs : list string) (x : string) :
  Path.render (r, (cs ++ [x])%list) = renderPrefix r cs ++ x.
Proof.
destruct cs as [|c cs'].
- destruct r; reflexivity.
- unfold renderPrefix.
  assert (Hj := JoinSlash_snoc (c :: cs') x ltac:(discriminate)).
  destruct r; unfold Path.render.
  + rewrite Hj. simpl. rewrite append_assoc. reflexivity.
  + change ((c :: cs') ++ [x])%list with (c :: (cs' ++ [x]))%list in *.
    rewrite Hj. rewrite append_assoc. reflexivity.
Qed.

Lemma good_replace_top (r : bool) (m m' : string) (st : list string) :
  good r (m :: st) -> simple m' = true -> good r (m' :: st).
Proof.
intros Hg Hs. destruct (simple_spec _ Hs) as [H1 [H2 [H3 H4]]].
simpl. split; [exact H2|]. split; [exact H3|]. split; [exact H1|].
split; [intros E; contradiction | exact (good_tail _ _ _ Hg)].
Qed.

Lemma Join_rendered (es : list string) :
  filter (fun e => negb (String.eqb e EmptyString)) es <> [] ->
  Path.Join es = Path.render (Path.parse (Path.Join es)).
Proof.
intros H. unfold Path.Join.
destruct (filter _ es) as [|e es']; [congruence|].
rewrite parse_Clean. reflexivity.
Qed.

(** Text appended to a joined path goes to its last element. *)
Lemma parse_Join2_suffix (dir m suffix : string) :
  simple m = true -> simple (m ++ suffix) = true ->
  Path.parse (Path.Join [dir; m] ++ suffix)
  = (Path.IsAbs dir, (snd (Path.parse dir) ++ [(m ++ suffix)%string])%list).
Proof.
intros Hm Hms.
assert (Hsp : Strings.SplitSlash m = [m]).
{ apply SplitSlash_noslash. destruct (simple_spec _ Hm) as [H _]. exact H. }
assert (Hall : Forall (fun c => simple c = true) (Strings.SplitSlash m)).
{ rewrite Hsp. repeat constructor. exact Hm. }
pose proof (parse_Join2 dir m Hall) as HP. rewrite Hsp in HP.
assert (Hjoin : Path.Join [dir; m]
                = Path.render (Path.IsAbs dir, (snd (Path.parse dir) ++ [m])%list)).
{ rewrite <- HP. apply Join_rendered. simpl filter.
  rewrite (simple_nonempty _ Hm). simpl negb.
  destruct (negb (String.eqb dir EmptyString)); discriminate. }
assert (Hgood : good (Path.IsAbs dir) (rev (snd (Path.parse dir) ++ [m]))).
{ pose proof (parse_good (Path.Join [dir; m])) as G.
  assert (HA : Path.IsAbs (Path.Join [dir; m]) = Path.IsAbs dir)
    by exact (f_equal fst HP).
  assert (HB : rev (fold_left (Path.step (Path.IsAbs (Path.Join [dir; m])))
                              (Strings.SplitSlash (Path.Join [dir; m])) [])
               = (snd (Path.parse dir) ++ [m])%list)
    by exact (f_equal snd HP).
  rewrite <- HB, rev_involutive, <- HA. exact G. }
rewrite Hjoin, render_snoc, append_assoc, <- render_snoc.
apply parse_render.
rewrite rev_app_distr in *. simpl in *.
exact (good_replace_top _ _ _ _ Hgood Hms).
Qed.

Lemma resolve_Join2_suffix (wd dir m suffix : string) :
  simple m = true -> simple (m ++ suffix) = true ->
  Path.resolve wd (Path.Join [dir; m] ++ suffix)
  = (Path.resolve wd dir ++ [(m ++ suffix)%string])%list.
Proof.
intros Hm Hms.
rewrite !resolve_absolutize, (parse_Join2_suffix dir m suffix Hm Hms).
rewrite (absolutize_snoc wd _ _ [m ++ suffix]) by (repeat constructor; assumption).
unfold absolutize, Path.parse. reflexivity.
Qed.

(** ** The file tree: what a change leaves alone                          *)

Section TreeFacts.

Import Tree.

Lemma ents_get_cons (k k' : string) (n : node) (es : list (string * node)) :
  ents_get k ((k', n) :: es) = if String.eqb k' k then Some n else ents_get k es.
Proof. unfold ents_get. simpl. destruct (String.eqb k' k); reflexivity. Qed.

Lemma ents_get_del_same (k : string) (es : list (string * node)) :
  ents_get k (ents_del k es) = None.
Proof.
induction es as [|[k' n] es IH]; [reflexivity|].
unfold ents_del in *. simpl.
destruct (String.eqb k' k) eqn:E; simpl; [exact IH|].
rewrite ents_get_cons, E. exact IH.
Qed.

Lemma ents_get_del_other (k x : string) (es : list (string * node)) :
  String.eqb k x = false -> ents_get x (ents_del k es) = ents_get x es.
Proof.
intros Hkx. induction es as [|[k' n] es IH]; [reflexivity|].
unfold ents_del in *. simpl. rewrite ents_get_cons.
destruct (String.eqb k' k) eqn:E; simpl.
- apply String.eqb_eq in E. subst k'. rewrite Hkx. exact IH.
- rewrite ents_get_cons. rewrite IH. reflexivity.
Qed.

Lemma ents_get_set_same (k : string) (n : node) (es : list (string * node)) :
  ents_get k (ents_set k n es) = Some n.
Proof. unfold ents_set. rewrite ents_get_cons, String.eqb_refl. reflexivity. Qed.

Lemma ents_get_set_other (k x : string) (n : node) (es : list (string * node)) :
  String.eqb k x = false -> ents_get x (ents_set k n es) = ents_get x es.
Proof.
intros H. unfold ents_set. rewrite ents_get_cons, H.
apply ents_get_del_other. exact H.
Qed.

Lemma is_prefix_split (a b : list string) :
  is_prefix a b = true -> exists rest, b = (a ++ rest)%list.
Proof.
revert b. induction a as [|x a IH]; intros b H.
- exists b. reflexivity.
- destruct b as [|y b]; [discriminate|]. simpl in H.
  apply andb_true_iff in H. destruct H as [Hxy H].
  apply String.eqb_eq in Hxy. subst y.
  destruct (IH b H) as [rest Hr]. exists rest. simpl. rewrite Hr. reflexivity.
Qed.

Lemma is_prefix_app (a rest : list string) : is_prefix a (a ++ rest)%list = true.
Proof.
induction a as [|x a IH]; [reflexivity|]. simpl.
rewrite String.eqb_refl. exact IH.
Qed.

Lemma is_prefix_refl (a : list string) : is_prefix a a = true.
Proof. rewrite <- (app_nil_r a) at 2. apply is_prefix_app. Qed.

Lemma path_eqb_eq (a b : list string) : path_eqb a b = true <-> a = b.
Proof.
unfold path_eqb. split.
- intros H. apply andb_true_iff in H. destruct H as [H1 H2].
  destruct (is_prefix_split _ _ H1) as [r1 E1].
  destruct (is_prefix_split _ _ H2) as [r2 E2].
  subst b. rewrite <- app_assoc in E2.
  rewrite <- (app_nil_r a) in E2 at 1.
  apply app_inv_head in E2. symmetry in E2.
  apply app_eq_nil in E2. destruct E2 as [E2 _]. subst r1.
  rewrite app_nil_r. reflexivity.
- intros ->. rewrite is_prefix_refl. reflexivity.
Qed.

(** Two paths that part ways below a common directory. *)
Lemma is_prefix_fork (d : list string) (x y : string) (r1 r2 : list string) :
  String.eqb x y = false ->
  is_prefix (d ++ x :: r1)%list (d ++ y :: r2)%list = false.
Proof.
intros H. induction d as [|c d IH]; simpl.
- rewrite H. reflexivity.
- rewrite String.eqb_refl. exact IH.
Qed.

Lemma is_prefix_longer (d rest : list string) (x : string) :
  is_prefix (d ++ x :: rest)%list d = false.
Proof.
induction d as [|c d IH]; simpl; [reflexivity|].
rewrite String.eqb_refl. exact IH.
Qed.

Lemma alter_cons1 (f : option node -> result Errno (option node)) (root : Errno)
      (p : N) (es : list (string * node)) (c : string) :
  alter f root (Dir p es) [c] =
  match f (ents_get c es) with
  | Ok (Some n) => Ok (Dir p (ents_set c n es))
  | Ok None => Ok (Dir p (ents_del c es))
  | Err e => Err e
  end.
Proof. reflexivity. Qed.

Lemma alter_cons2 (f : option node -> result Errno (option node)) (root : Errno)
      (p : N) (es : list (string * node)) (c c2 : string) (rest : list string) :
  alter f root (Dir p es) (c :: c2 :: rest) =
  match ents_get c es with
  | Some n =>
      match alter f root n (c2 :: rest) with
      | Ok n' => Ok (Dir p (ents_set c n' es))
      | Err e => Err e
      end
  | None => Err ENOENT
  end.
Proof. reflexivity. Qed.

Lemma lookup_cons (p : N) (es : list (string * node)) (c : string)
      (rest : list string) :
  lookup (Dir p es) (c :: rest) =
  match ents_get c es with
  | Some n => lookup n rest
  | None => Err ENOENT
  end.
Proof. reflexivity. Qed.

(** A change at a path leaves every path alone that is neither above nor
    below it. *)
Lemma alter_frame (f : option node -> result Errno (option node)) (root : Errno)
      (cs : list string) :
  forall (t t' : node) (q : list string),
    alter f root t cs = Ok t' ->
    is_prefix cs q = false -> is_prefix q cs = false ->
    lookup t' q = lookup t q.
Proof.
induction cs as [|c rest IH]; intros t t' q Halt Hcq Hqc; [discriminate|].
destruct q as [|x q']; [discriminate|].
destruct t as [| |p es]; try discriminate.
simpl in Hcq, Hqc.
destruct (String.eqb c x) eqn:Ecx.
- apply String.eqb_eq in Ecx. subst x. rewrite String.eqb_refl in Hqc.
  simpl in Hcq, Hqc.
  destruct rest as [|c2 rest']; [discriminate|].
  rewrite alter_cons2 in Halt.
  destruct (ents_get c es) as [n0|] eqn:Eg; [|discriminate].
  destruct (alter f root n0 (c2 :: rest')) as [n'|e] eqn:Ea; [|discriminate].
  injection Halt as <-. rewrite !lookup_cons, ents_get_set_same, Eg.
  exact (IH n0 n' q' Ea Hcq Hqc).
- assert (Hget : forall es', (exists n, es' = ents_set c n es) \/ es' = ents_del c es ->
                             ents_get x es' = ents_get x es).
  { intros es' [[n ->]| ->];
      [apply ents_get_set_other | apply ents_get_del_other]; exact Ecx. }
  destruct rest as [|c2 rest'].
  + rewrite alter_cons1 in Halt.
    destruct (f (ents_get c es)) as [[n|]|e]; try discriminate;
      injection Halt as <-; rewrite !lookup_cons, Hget; eauto.
  + rewrite alter_cons2 in Halt.
    destruct (ents_get c es) as [n0|]; [|discriminate].
    destruct (alter f root n0 (c2 :: rest')) as [n'|e]; [|discriminate].
    injection Halt as <-. rewrite !lookup_cons, Hget; eauto.
Qed.

(** What a change leaves at its own path. *)
Lemma alter_at (f : option node -> result Errno (option node)) (root : Errno)
      (cs : list string) :
  forall (t t' : node),
    alter f root t cs = Ok t' ->
    exists o, f (optOf (lookup t cs)) = Ok o /\ lookup t' cs = resOf o.
Proof.
induction cs as [|c rest IH]; intros t t' Halt; [discriminate|].
destruct t as [| |p es]; try discriminate.
destruct rest as [|c2 rest'].
- rewrite alter_cons1 in Halt.
  assert (Hold : optOf (lookup (Dir p es) [c]) = ents_get c es).
  { rewrite lookup_cons. destruct (ents_get c es); reflexivity. }
  rewrite Hold.
  destruct (f (ents_get c es)) as [[n|]|e] eqn:Ef; try discriminate;
    injection Halt as <-.
  + exists (Some n). split; [reflexivity|].
    rewrite lookup_cons, ents_get_set_same. reflexivity.
  + exists None. split; [reflexivity|].
    rewrite lookup_cons, ents_get_del_same. reflexivity.
- rewrite alter_cons2 in Halt.
  destruct (ents_get c es) as [n0|] eqn:Eg; [|discriminate].
  destruct (alter f root n0 (c2 :: rest')) as [n'|e] eqn:Ea; [|discriminate].
  injection Halt as <-.
  destruct (IH n0 n' Ea) as [o [Ho Hl]]. exists o.
  rewrite !lookup_cons, Eg, ents_get_set_same. split; [exact Ho | exact Hl].
Qed.

(** No change goes through a file or a link. *)
Lemma alter_through_leaf (f : option node -> result Errno (option node))
      (root : Errno) (q : list string) :
  forall (t n : node) (c : string) (rest : list string),
    lookup t q = Ok n -> leaf n = true ->
    alter f root t (q ++ c :: rest)%list = Err ENOTDIR.
Proof.
induction q as [|x q' IH]; intros t n c rest Hl Hleaf.
- simpl in Hl. injection Hl as ->. destruct n; try discriminate; reflexivity.
- destruct t as [| |p es]; try discriminate.
  simpl in Hl. destruct (ents_get x es) as [n0|] eqn:Eg; [|discriminate].
  change ((x :: q') ++ c :: rest)%list with (x :: (q' ++ c :: rest))%list.
  simpl. rewrite Eg.
  destruct (q' ++ c :: rest)%list as [|y l] eqn:El.
  + destruct q'; discriminate.
  + rewrite <- El. rewrite (IH n0 n c rest Hl Hleaf). reflexivity.
Qed.

(** What lies above an existing node is a directory with entries. *)
Lemma lookup_above (cs : list string) :
  forall (t n : node) (x : string) (rest : list string),
    lookup t (cs ++ x :: rest)%list = Ok n ->
    exists p e es, lookup t cs = Ok (Dir p (e :: es)).
Proof.
induction cs as [|c cs' IH]; intros t n x rest Hl.
- destruct t as [| |p es]; try discriminate.
  simpl in Hl. unfold ents_get in Hl.
  destruct es as [|e es']; [discriminate|]. exists p, e, es'. reflexivity.
- destruct t as [| |p es]; try discriminate.
  simpl in Hl. simpl. destruct (ents_get c es) as [n0|]; [|discriminate].
  exact (IH n0 n x rest Hl).
Qed.

Lemma alter_keeps_leaf_outside (f : option node -> result Errno (option node))
      (root : Errno) (t t' n : node) (cs q : list string) :
  lookup t q = Ok n -> leaf n = true ->
  alter f root t cs = Ok t' ->
  is_prefix cs q = false ->
  lookup t' q = Ok n.
Proof.
intros Hl Hleaf Halt Hcq.
destruct (is_prefix q cs) eqn:Hqc.
- destruct (is_prefix_split _ _ Hqc) as [rest ->].
  destruct rest as [|c rest].
  + rewrite app_nil_r, is_prefix_refl in Hcq. discriminate.
  + rewrite (alter_through_leaf f root q t n c rest Hl Hleaf) in Halt. discriminate.
- rewrite (alter_frame f root cs t t' q Halt Hcq Hqc). exact Hl.
Qed.

Lemma alter_keeps_leaf (f : option node -> result Errno (option node))
      (root : Errno) (t t' n : node) (cs q : list string) :
  rejectsDirs f ->
  lookup t q = Ok n -> leaf n = true ->
  alter f root t cs = Ok t' ->
  cs <> q ->
  lookup t' q = Ok n.
Proof.
intros Hrej Hl Hleaf Halt Hne.
destruct (is_prefix cs q) eqn:Hcq.
- destruct (is_prefix_split _ _ Hcq) as [rest ->].
  destruct rest as [|x rest]; [rewrite app_nil_r in Hne; congruence|].
  destruct (lookup_above cs t n x rest Hl) as [p [e [es Hd]]].
  destruct (alter_at f root cs t t' Halt) as [o [Ho _]].
  rewrite Hd in Ho. simpl in Ho.
  destruct (Hrej p e es) as [err Herr]. rewrite Herr in Ho. discriminate.
- exact (alter_keeps_leaf_outside f root t t' n cs q Hl Hleaf Halt Hcq).
Qed.

Lemma mkdirAll_keeps_leaf (perm : N) (cs : list string) :
  forall (t t' n : node) (q : list string),
    lookup t q = Ok n -> leaf n = true ->
    mkdirAll perm t cs = Ok t' ->
    lookup t' q = Ok n.
Proof.
induction cs as [|c rest IH]; intros t t' n q Hl Hleaf Hmk.
- destruct t; try discriminate. simpl in Hmk. injection Hmk as <-. exact Hl.
- destruct t as [| |p es]; try discriminate.
  simpl in Hmk.
  destruct (mkdirAll perm _ rest) as [n'|e] eqn:Em; [|discriminate].
  injection Hmk as <-.
  destruct q as [|x q'].
  + simpl in Hl. injection Hl as <-. discriminate.
  + simpl in Hl. simpl.
    destruct (String.eqb c x) eqn:Ecx.
    * apply String.eqb_eq in Ecx. subst x. rewrite ents_get_set_same.
      destruct (ents_get c es) as [n0|] eqn:Eg; [|discriminate].
      exact (IH n0 n' n q' Hl Hleaf Em).
    * rewrite (ents_get_set_other c x n' es Ecx). exact Hl.
Qed.

End TreeFacts.

(** ** Rules for runs                                                     *)

Lemma triple_ret {A : Type} (Pre : Os.World -> Prop) (a : A)
      (Post : A -> Os.World -> Prop) :
  (forall w, Pre w -> Post a w) -> triple Pre (Os.ret a) Post.
Proof. intros H w Hw. exact (H w Hw). Qed.

Lemma triple_bind {A B : Type} (Pre : Os.World -> Prop) (m : Os.M A)
      (Mid : A -> Os.World -> Prop) (k : A -> Os.M B)
      (Post : B -> Os.World -> Prop) :
  triple Pre m Mid ->
  (forall a, triple (Mid a) (k a) Post) ->
  triple Pre (Os.bind m k) Post.
Proof.
intros Hm Hk w Hw. unfold Os.bind.
specialize (Hm w Hw). destruct (m w) as [a w1]. simpl in Hm.
exact (Hk a w1 Hm).
Qed.

Lemma triple_weaken {A : Type} (Pre Pre' : Os.World -> Prop) (m : Os.M A)
      (Post Post' : A -> Os.World -> Prop) :
  triple Pre' m Post' ->
  (forall w, Pre w -> Pre' w) ->
  (forall a w, Post' a w -> Post a w) ->
  triple Pre m Post.
Proof. intros H H1 H2 w Hw. apply H2, H, H1, Hw. Qed.

Lemma triple_assume {A : Type} (Pre : Os.World -> Prop) (fact : Prop) (m : Os.M A)
      (Post : A -> Os.World -> Prop) :
  (fact -> triple Pre m Post) -> triple (fun w => Pre w /\ fact) m Post.
Proof. intros H w [Hw Hf]. exact (H Hf w Hw). Qed.

Lemma triple_pure {A : Type} (Pre : Os.World -> Prop) (m : Os.M A) :
  (forall w, snd (m w) = w) -> triple Pre m (fun _ => Pre).
Proof. intros H w Hw. rewrite H. exact Hw. Qed.

Section InvariantRules.

Variable wd0 : string.
Variable held0 : list (list string).
Variable P : Tree.node -> Prop.
Variable E : Os.event -> Prop.
Variable C : Os.Call -> option Errno -> Prop.

Hypothesis E_intro : logged P C E.

Local Abbreviation I := (Inv wd0 held0 P E).

Lemma Inv_mutate (c : Os.Call) (mk : Errno -> error)
      (f : Os.World -> result Errno Tree.node) :
  (forall w t', I w -> f w = Ok t' -> P t' /\ C c None) ->
  (forall w e, I w -> f w = Err e -> C c (Some e)) ->
  triple I (Os.mutate c mk f) (fun _ => I).
Proof.
intros Hok Herr w Hw. unfold Os.mutate.
destruct (f w) as [t'|e] eqn:Ef; simpl.
- destruct (Hok w t' Hw Ef) as [HP HC].
  destruct Hw as [H1 [H2 [H3 H4]]].
  repeat split; try assumption. simpl.
  apply Forall_app. split; [exact H4|]. constructor; [|constructor].
  apply E_intro; assumption.
- pose proof (Herr w e Hw Ef) as HC.
  destruct Hw as [H1 [H2 [H3 H4]]].
  repeat split; try assumption. simpl.
  apply Forall_app. split; [exact H4|]. constructor; [|constructor].
  apply E_intro; assumption.
Qed.

Lemma Inv_nextRandom : triple I Os.nextRandom (fun _ => I).
Proof. intros w Hw. exact Hw. Qed.

Lemma Inv_Unlock (name : string) :
  (forall o, C (Os.CUnlock name) o) ->
  triple (fun w => I w) (Os.Unlock name)
         (fun _ w' => Os.wd w' = wd0 /\ P (Os.fs w')
                      /\ Forall E (Os.log w')
                      /\ Os.held w' = Os.remove_first (Path.resolve wd0 name) held0).
Proof.
intros HC w [H1 [H2 [H3 H4]]]. simpl. unfold Os.at_path. rewrite H1, H2.
repeat split; try assumption.
apply Forall_app. split; [exact H4|]. constructor; [|constructor].
apply E_intro; [exact H3 | apply HC].
Qed.

End InvariantRules.

(** ** A file or a link that the run leaves in place                      *)

Lemma rejectsDirs_write (perm : N) (data : string) : rejectsDirs (Tree.f_write perm data).
Proof. intros p e es. eexists. reflexivity. Qed.

Lemma rejectsDirs_create (perm : N) : rejectsDirs (Tree.f_create perm).
Proof. intros p e es. eexists. reflexivity. Qed.

Lemma rejectsDirs_mkdir (perm : N) : rejectsDirs (Tree.f_mkdir perm).
Proof. intros p e es. eexists. reflexivity. Qed.

Lemma rejectsDirs_remove : rejectsDirs Tree.f_remove.
Proof. intros p e es. eexists. reflexivity. Qed.

Lemma list_string_dec (a b : list string) : {a = b} + {a <> b}.
Proof. apply list_eq_dec. apply string_dec. Qed.

(** Induction on an embedded tree, with the entries of a directory. *)
Lemma bnode_induction (Q : Embed.bnode -> Prop) :
  (forall data, Q (Embed.BFile data)) ->
  (forall es, Forall (fun e => Q (snd e)) es -> Q (Embed.BDir es)) ->
  forall d, Q d.
Proof.
intros HF HD.
exact (fix IH (d : Embed.bnode) : Q d :=
         match d with
         | Embed.BFile data => HF data
         | Embed.BDir es =>
             HD es ((fix go (es : list (string * Embed.bnode))
                     : Forall (fun e => Q (snd e)) es :=
                       match es with
                       | [] => Forall_nil _
                       | e :: es' => Forall_cons e (IH (snd e)) (go es')
                       end) es)
         end).
Qed.

(** A property that the callback keeps is kept by the walk. *)
Lemma triple_walkDir (J : Os.World -> Prop)
      (fn : string -> Embed.bnode -> Os.M (option error)) :
  (forall name d, triple J (fn name d) (fun _ => J)) ->
  forall d name, triple J (Embed.walkDir fn name d) (fun _ => J).
Proof.
intros Hfn d. induction d as [data|es IH] using bnode_induction; intros name.
- simpl. eapply triple_bind; [apply Hfn | intros e].
  destruct e; apply triple_ret; auto.
- simpl. eapply triple_bind; [apply Hfn | intros e].
  destruct e as [err|]; [apply triple_ret; auto|].
  induction IH as [|[n1 d1] es' Hd1 _ IHes]; [apply triple_ret; auto|].
  eapply triple_bind; [apply Hd1 | intros e1].
  destruct e1 as [err|]; [apply triple_ret; auto | exact IHes].
Qed.

Section KindAt.

Variable wd0 : string.
Variable held0 : list (list string).
Variable k : Tree.node -> bool.
Variable q : list string.
Variable E : Os.event -> Prop.
Variable C : Os.Call -> option Errno -> Prop.

Hypothesis k_leaf : forall n, k n = true -> leaf n = true.
Hypothesis k_data : forall p d d', k (Tree.File p d) = true -> k (Tree.File p d') = true.
Hypothesis E_intro : logged (holds k q) C E.
Hypothesis C_other : forall c o, ordinary c -> C c o.

Local Abbreviation I := (Inv wd0 held0 (holds k q) E).

Lemma holds_alter (f : option Tree.node -> result Errno (option Tree.node))
      (root : Errno) (t t' : Tree.node) (cs : list string) :
  rejectsDirs f ->
  (forall n o, k n = true -> f (Some n) = Ok o -> exists n', o = Some n' /\ k n' = true) ->
  holds k q t -> Tree.alter f root t cs = Ok t' -> holds k q t'.
Proof.
intros Hrej Hf [n [Hl Hk]] Halt.
destruct (list_string_dec cs q) as [->|Hne].
- destruct (alter_at f root q t t' Halt) as [o [Ho Hl']].
  rewrite Hl in Ho. simpl in Ho.
  destruct (Hf n o Hk Ho) as [n' [-> Hk']].
  exists n'. split; assumption.
- exists n. split; [|exact Hk].
  exact (alter_keeps_leaf f root t t' n cs q Hrej Hl (k_leaf n Hk) Halt Hne).
Qed.

Lemma holds_write (perm : N) (data : string) (t t' : Tree.node) (cs : list string) :
  holds k q t -> Tree.write perm data t cs = Ok t' -> holds k q t'.
Proof.
apply holds_alter; [apply rejectsDirs_write|].
intros n o Hk Hf. destruct n as [p d|tg|p es]; simpl in Hf; try discriminate.
injection Hf as <-. eexists. split; [reflexivity|]. exact (k_data p d data Hk).
Qed.

Lemma holds_create (perm : N) (t t' : Tree.node) (cs : list string) :
  holds k q t -> Tree.create perm t cs = Ok t' -> holds k q t'.
Proof.
apply holds_alter; [apply rejectsDirs_create|].
intros n o Hk Hf. destruct n as [p d|tg|p es]; simpl in Hf; try discriminate.
injection Hf as <-. eexists. split; [reflexivity|]. exact Hk.
Qed.

Lemma holds_mkdir (perm : N) (t t' : Tree.node) (cs : list string) :
  holds k q t -> Tree.mkdir perm t cs = Ok t' -> holds k q t'.
Proof.
apply holds_alter; [apply rejectsDirs_mkdir|].
intros n o Hk Hf. discriminate.
Qed.

Lemma holds_mkdirAll (perm : N) (t t' : Tree.node) (cs : list string) :
  holds k q t -> Tree.mkdirAll perm t cs = Ok t' -> holds k q t'.
Proof.
intros [n [Hl Hk]] Hmk. exists n. split; [|exact Hk].
exact (mkdirAll_keeps_leaf perm cs t t' n q Hl (k_leaf n Hk) Hmk).
Qed.

Lemma holds_remove (t t' : Tree.node) (cs : list string) :
  cs <> q -> holds k q t -> Tree.remove t cs = Ok t' -> holds k q t'.
Proof.
intros Hne [n [Hl Hk]] Hrm. exists n. split; [|exact Hk].
exact (alter_keeps_leaf Tree.f_remove EBUSY t t' n cs q rejectsDirs_remove
         Hl (k_leaf n Hk) Hrm Hne).
Qed.

Lemma holds_outside (f : option Tree.node -> result Errno (option Tree.node))
      (root : Errno) (t t' : Tree.node) (cs : list string) :
  Tree.is_prefix cs q = false ->
  holds k q t -> Tree.alter f root t cs = Ok t' -> holds k q t'.
Proof.
intros Hpre [n [Hl Hk]] Halt. exists n. split; [|exact Hk].
exact (alter_keeps_leaf_outside f root t t' n cs q Hl (k_leaf n Hk) Halt Hpre).
Qed.

Lemma holds_removeAll (t t' : Tree.node) (cs : list string) :
  Tree.is_prefix cs q = false ->
  holds k q t -> Tree.removeAll t cs = Ok t' -> holds k q t'.
Proof.
intros Hpre Hh Hrm. unfold Tree.removeAll in Hrm.
destruct (Tree.alter Tree.f_removeAll EBUSY t cs) as [t1|e] eqn:Ea.
- injection Hrm as <-. exact (holds_outside _ _ t t1 cs Hpre Hh Ea).
- destruct e; try discriminate. injection Hrm as <-. exact Hh.
Qed.

Lemma holds_rename2 (t t' : Tree.node) (a b : list string) :
  Tree.is_prefix a q = false -> Tree.is_prefix b q = false ->
  holds k q t -> Tree.rename2 t a b = Ok t' -> holds k q t'.
Proof.
intros Ha Hb Hh Hrn. unfold Tree.rename2 in Hrn.
destruct (Tree.lookup t a) as [n|e]; [|discriminate].
destruct (Tree.path_eqb a b); [injection Hrn as <-; exact Hh|].
destruct (Tree.is_prefix a b); [discriminate|].
assert (Hmove : forall t2,
           match Tree.alter Tree.f_removeAll EBUSY t a with
           | Ok t1 => Tree.put n t1 b
           | Err e => Err e
           end = Ok t2 -> holds k q t2).
{ intros t2 H. destruct (Tree.alter Tree.f_removeAll EBUSY t a) as [t1|e] eqn:Ea;
    [|discriminate].
  apply (holds_outside (Tree.f_put n) EBUSY t1 t2 b Hb); [|exact H].
  exact (holds_outside Tree.f_removeAll EBUSY t t1 a Ha Hh Ea). }
destruct (Tree.lookup t b) as [[| |p [|e es]]|e]; destruct n;
  try discriminate; try (exact (Hmove t' Hrn)).
Qed.

Lemma holds_rename (sn : bool) (t t' : Tree.node) (a b : list string) :
  Tree.is_prefix a q = false -> Tree.is_prefix b q = false ->
  holds k q t -> Tree.rename sn t a b = Ok t' -> holds k q t'.
Proof.
intros Ha Hb Hh Hrn. unfold Tree.rename in Hrn.
destruct (Tree.lookup t b) as [[| |p es]|e];
  try exact (holds_rename2 t t' a b Ha Hb Hh Hrn).
destruct (Tree.lookup t a); [|discriminate].
destruct (sn || negb (Tree.path_eqb a b)); [discriminate|].
exact (holds_rename2 t t' a b Ha Hb Hh Hrn).
Qed.

(** The calls of package [os]. *)

Lemma Inv_WriteFile (name data : string) (perm : N) :
  triple I (Os.WriteFile name data perm) (fun _ => I).
Proof.
apply (Inv_mutate wd0 held0 (holds k q) E C E_intro).
- intros w t' [_ [_ [HP _]]] Hf. split; [exact (holds_write _ _ _ _ _ HP Hf)|].
  apply C_other. split; discriminate.
- intros. apply C_other. split; discriminate.
Qed.

Lemma Inv_MkdirAll (name : string) (perm : N) :
  triple I (Os.MkdirAll name perm) (fun _ => I).
Proof.
apply (Inv_mutate wd0 held0 (holds k q) E C E_intro).
- intros w t' [_ [_ [HP _]]] Hf. split; [exact (holds_mkdirAll _ _ _ _ HP Hf)|].
  apply C_other. split; discriminate.
- intros. apply C_other. split; discriminate.
Qed.

Lemma Inv_Mkdir (name : string) (perm : N) :
  perm <> 448%N ->
  triple I (Os.Mkdir name perm) (fun _ => I).
Proof.
intros Hperm. apply (Inv_mutate wd0 held0 (holds k q) E C E_intro).
- intros w t' [_ [_ [HP _]]] Hf. split; [exact (holds_mkdir _ _ _ _ HP Hf)|].
  apply C_other.
  split; [intros n Heq; injection Heq as _ Heq; contradiction | discriminate].
- intros. apply C_other.
  split; [intros n Heq; injection Heq as _ Heq; contradiction | discriminate].
Qed.

Lemma Inv_Remove (name : string) :
  Path.resolve wd0 name <> q ->
  triple I (Os.Remove name) (fun _ => I).
Proof.
intros Hne. apply (Inv_mutate wd0 held0 (holds k q) E C E_intro).
- intros w t' [Hwd [_ [HP _]]] Hf. unfold Os.at_path in Hf. rewrite Hwd in Hf.
  split; [exact (holds_remove _ _ _ Hne HP Hf)|].
  apply C_other. split; discriminate.
- intros. apply C_other. split; discriminate.
Qed.

Lemma Inv_RemoveAll (name : string) :
  Tree.is_prefix (Path.resolve wd0 name) q = false ->
  triple I (Os.RemoveAll name) (fun _ => I).
Proof.
intros Hpre. apply (Inv_mutate wd0 held0 (holds k q) E C E_intro).
- intros w t' [Hwd [_ [HP _]]] Hf. unfold Os.at_path in Hf. rewrite Hwd in Hf.
  split; [exact (holds_removeAll _ _ _ Hpre HP Hf)|].
  apply C_other. split; discriminate.
- intros. apply C_other. split; discriminate.
Qed.

Lemma Inv_Rename (old new : string) :
  Tree.is_prefix (Path.resolve wd0 old) q = false ->
  Tree.is_prefix (Path.resolve wd0 new) q = false ->
  triple I (Os.Rename old new) (fun _ => I).
Proof.
intros Ha Hb. apply (Inv_mutate wd0 held0 (holds k q) E C E_intro).
- intros w t' [Hwd [_ [HP _]]] Hf. unfold Os.at_path in Hf. rewrite Hwd in Hf.
  split; [exact (holds_rename _ _ _ _ _ Ha Hb HP Hf)|].
  apply C_other. split; discriminate.
- intros. apply C_other. split; discriminate.
Qed.

Lemma Inv_Stat (name : string) : triple I (Os.Stat name) (fun _ => I).
Proof. apply triple_pure. reflexivity. Qed.

Lemma Inv_Lstat (name : string) : triple I (Os.Lstat name) (fun _ => I).
Proof. apply triple_pure. reflexivity. Qed.

Lemma Inv_ReadFile (name : string) : triple I (Os.ReadFile name) (fun _ => I).
Proof. apply triple_pure. reflexivity. Qed.

Lemma Inv_Getwd : triple I Os.Getwd (fun _ => I).
Proof. apply triple_pure. reflexivity. Qed.

(** The functions of the package, as far as they keep the node in place
    wherever they are told to work. *)

Lemma Inv_ret {A : Type} (a : A) : triple I (Os.ret a) (fun _ => I).
Proof. apply triple_ret. auto. Qed.

Lemma Inv_CueModInit (p module : string) :
  triple I (CueModInit p module) (fun _ => I).
Proof.
unfold CueModInit.
eapply triple_bind; [apply Inv_Getwd | intros wd].
eapply triple_bind; [apply Inv_MkdirAll | intros e].
destruct (match e with Some _ => _ | None => _ end); [apply Inv_ret|].
eapply triple_bind; [apply Inv_Stat | intros st].
eapply triple_bind.
{ destruct st as [fi|err]; [apply Inv_ret|].
  destruct (negb _); [apply Inv_ret | apply Inv_WriteFile]. }
intros e2. destruct e2; [apply Inv_ret|].
eapply triple_bind; [apply Inv_Mkdir; discriminate | intros e3].
destruct e3 as [err|]; [destruct (negb _)|]; apply Inv_ret.
Qed.

Lemma Inv_extractEntry (FS : Embed.bnode) (dest p : string) (entry : Embed.bnode) :
  triple I (extractEntry FS dest p entry) (fun _ => I).
Proof.
unfold extractEntry.
destruct (negb _); [apply Inv_ret|].
destruct (Strings.Contains _ _); [apply Inv_ret|].
destruct (Embed.ReadFile FS p); [|apply Inv_ret].
eapply triple_bind; [apply Inv_MkdirAll | intros e].
destruct e; [apply Inv_ret | apply Inv_WriteFile].
Qed.

Lemma Inv_extractModules (FS : Embed.bnode) (dest : string) :
  triple I (extractModules FS dest) (fun _ => I).
Proof.
change (extractModules FS dest)
  with (Embed.walkDir (extractEntry FS dest) "." FS).
apply triple_walkDir. intros name d. apply Inv_extractEntry.
Qed.

Lemma Inv_runDeferred (dirs : list string) :
  Forall (fun d => Tree.is_prefix (Path.resolve wd0 d) q = false) dirs ->
  triple I (runDeferred dirs) (fun _ => I).
Proof.
induction 1 as [|d dirs Hd _ IH]; [apply Inv_ret|].
simpl. eapply triple_bind; [apply (Inv_RemoveAll d Hd) | intros u; exact IH].
Qed.

End KindAt.

(** ** Names of staging directories                                       *)

Lemma hasSlash_app (a b : string) :
  Strings.hasSlash (a ++ b) = Strings.hasSlash a || Strings.hasSlash b.
Proof.
induction a as [|c a IH]; simpl; [reflexivity|].
rewrite IH, orb_assoc. reflexivity.
Qed.

Lemma digit_not_slash (m : N) :
  (m < 10)%N -> Ascii.eqb (Strings.digit m) Strings.slash = false.
Proof.
intros H.
assert (Hm : (m = 0 \/ m = 1 \/ m = 2 \/ m = 3 \/ m = 4 \/ m = 5 \/ m = 6
              \/ m = 7 \/ m = 8 \/ m = 9)%N) by lia.
repeat (destruct Hm as [->|Hm]; [reflexivity|]). subst m. reflexivity.
Qed.

Lemma uitoa_fuel_noslash (fuel : nat) :
  forall (n : N) (acc : string),
    Strings.hasSlash acc = false ->
    Strings.hasSlash (Strings.uitoa_fuel fuel n acc) = false.
Proof.
induction fuel as [|fuel IH]; intros n acc Hacc; [exact Hacc|].
simpl.
assert (Hacc' : Strings.hasSlash (String (Strings.digit (n mod 10)) acc) = false).
{ simpl. rewrite Hacc, orb_false_r. apply digit_not_slash.
  apply N.mod_lt. discriminate. }
destruct (n <? 10)%N; [exact Hacc'|]. apply IH. exact Hacc'.
Qed.

Lemma Uitoa_noslash (n : N) : Strings.hasSlash (Strings.Uitoa n) = false.
Proof. apply uitoa_fuel_noslash. reflexivity. Qed.

Lemma simple_vendor (r : string) :
  Strings.hasSlash r = false -> simple ("vendor-" ++ r ++ EmptyString) = true.
Proof.
intros H. unfold simple.
assert (Hs : Strings.hasSlash ("vendor-" ++ r ++ EmptyString) = false).
{ rewrite !hasSlash_app, H. reflexivity. }
rewrite Hs. reflexivity.
Qed.

Lemma lastByte_app (a b : string) :
  b <> EmptyString -> Strings.lastByte (a ++ b) = Strings.lastByte b.
Proof.
intros Hb. induction a as [|c a IH]; [reflexivity|].
simpl. destruct (a ++ b) eqn:E; [|exact IH].
destruct a; [simpl in E; congruence | discriminate].
Qed.

Lemma joinPath_pkg (pre name : string) :
  Os.joinPath (pre ++ "pkg") name = (pre ++ "pkg") ++ String Strings.slash name.
Proof.
unfold Os.joinPath. rewrite lastByte_app by discriminate. reflexivity.
Qed.

Lemma resolve_under (wd dir rest : string) :
  dir <> EmptyString ->
  Forall (fun c => simple c = true) (Strings.SplitSlash rest) ->
  Path.resolve wd (dir ++ String Strings.slash rest)
  = (Path.resolve wd dir ++ Strings.SplitSlash rest)%list.
Proof.
intros Hd Hrest. rewrite !resolve_absolutize.
pose proof (parse_under dir rest Hrest) as HP.
rewrite (proj2 (String.eqb_neq _ _) Hd) in HP. rewrite HP.
rewrite (absolutize_snoc wd _ _ _ Hrest).
unfold absolutize, Path.parse. reflexivity.
Qed.

(** The package directory ends in [pkg]. *)
Lemma cuePkgDir_spelled (p : string) :
  exists pre, Path.Join [p; "cue.mod"; "pkg"] = pre ++ "pkg".
Proof.
rewrite Join_rendered.
- rewrite (parse_Join3 p "cue.mod" "pkg" eq_refl eq_refl).
  change (snd (Path.parse p) ++ ["cue.mod"; "pkg"])%list
    with (snd (Path.parse p) ++ ["cue.mod"] ++ ["pkg"])%list.
  rewrite app_assoc, render_snoc. eexists. reflexivity.
- simpl. destruct (negb (String.eqb p EmptyString)); discriminate.
Qed.

(** ** The swap loop and the staging directory                            *)

Lemma triple_Lstat_result (J : Os.World -> Prop) (name : string) :
  triple J (Os.Lstat name)
         (fun r w' => J w' /\ lstatSymlink w' name
                              = match r with
                                | Ok fi => Os.isSymlink fi
                                | Err _ => false
                                end).
Proof. intros w Hw. split; [exact Hw | reflexivity]. Qed.

Lemma Inv_weaken (wd0 : string) (held0 : list (list string)) (P : Tree.node -> Prop)
      (E E' : Os.event -> Prop) (w : Os.World) :
  (forall e, E e -> E' e) ->
  Inv wd0 held0 P E w -> Inv wd0 held0 P E' w.
Proof.
intros HEE [H1 [H2 [H3 H4]]]. repeat split; try assumption.
eapply Forall_impl; [|exact H4]. exact HEE.
Qed.

Section VendorAt.

Variable version_Version : string.
Variable version_DevelopmentVersion : string.
Variable FS : Embed.bnode.

Variable wd0 : string.
Variable held0 : list (list string).
Variable k : Tree.node -> bool.
Variable E : Os.event -> Prop.
Variable C : Os.Call -> option Errno -> Prop.
Variable cuePkgDir : string.

(** The node watched is the entry [x] of the package directory. *)
Variable x : string.

Hypothesis k_leaf : forall n, k n = true -> leaf n = true.
Hypothesis k_data : forall p d d', k (Tree.File p d) = true -> k (Tree.File p d') = true.
Hypothesis E_intro :
  logged (holds k (Path.resolve wd0 cuePkgDir ++ [x])%list) C E.
Hypothesis C_other : forall c o, ordinary c -> C c o.

Local Abbreviation D := (Path.resolve wd0 cuePkgDir).
Local Abbreviation q := (Path.resolve wd0 cuePkgDir ++ [x])%list.
Local Abbreviation I := (Inv wd0 held0 (holds k q) E).

Lemma resolve_in_pkg (name : string) :
  simple name = true ->
  Path.resolve wd0 (Path.Join [cuePkgDir; name]) = (D ++ [name])%list.
Proof.
intros H. rewrite resolve_Join2.
- rewrite (SplitSlash_noslash name); [reflexivity|].
  destruct (simple_spec _ H) as [Hs _]. exact Hs.
- rewrite (SplitSlash_noslash name).
  + repeat constructor. exact H.
  + destruct (simple_spec _ H) as [Hs _]. exact Hs.
Qed.

Lemma sibling_apart (name : string) (rest : list string) :
  String.eqb name x = false ->
  Tree.is_prefix (D ++ name :: rest)%list q = false.
Proof. intros H. apply is_prefix_fork. exact H. Qed.

Lemma backup_apart (m : string) :
  moduleApart k x m ->
  Tree.is_prefix (Path.resolve wd0 (Path.Join [cuePkgDir; m] ++ ".old")) q = false.
Proof.
intros [Hm [Hold [Holdx _]]].
rewrite (resolve_Join2_suffix wd0 cuePkgDir m ".old" Hm Hold).
apply is_prefix_fork with (r1 := []) (r2 := []). exact Holdx.
Qed.

Lemma Inv_vendorModule (unpackDir vn m : string) :
  Path.resolve wd0 unpackDir = (D ++ [vn])%list ->
  String.eqb vn x = false ->
  moduleApart k x m ->
  triple I (vendorModule version_Version version_DevelopmentVersion
                         cuePkgDir unpackDir m)
         (fun r w' => I w'
                      /\ Forall (fun d => d = Path.Join [cuePkgDir; m] ++ ".old") (fst r)).
Proof.
intros HU Hvn Hmod. pose proof Hmod as [Hm [Hold [Holdx Hmx]]]. unfold vendorModule.
eapply triple_bind; [apply triple_Lstat_result | intros fi].
destruct (match fi with Ok fi0 => Os.isSymlink fi0 | Err _ => false end) eqn:Esym.
{ apply triple_ret. intros w [Hw _]. split; [exact Hw | constructor]. }
destruct (String.eqb m x) eqn:Emx.
- destruct Hmx as [Hmx|Hlink]; [discriminate|].
  intros w [Hw Hl]. exfalso.
  apply String.eqb_eq in Emx. subst m.
  rewrite lstatSymlink_lookup in Hl.
  destruct Hw as [Hwd [_ [[n [Hn Hk]] _]]].
  unfold Os.at_path in Hl. rewrite Hwd, (resolve_in_pkg x Hm), Hn in Hl.
  pose proof (Hlink n Hk) as Hs.
  destruct n; simpl in Hl; try congruence.
  + rewrite isSymlink_File in Hs. discriminate.
  + rewrite isSymlink_Dir in Hs. discriminate.
- assert (Hmod_dir : Tree.is_prefix (Path.resolve wd0 (Path.Join [cuePkgDir; m])) q
                     = false).
  { rewrite (resolve_in_pkg m Hm).
    apply is_prefix_fork with (r1 := []) (r2 := []). exact Emx. }
  assert (Hnew : Tree.is_prefix (Path.resolve wd0 (Path.Join [unpackDir; m])) q = false).
  { rewrite resolve_Join2, HU, <- app_assoc.
    - apply (is_prefix_fork _ vn x _ []). exact Hvn.
    - rewrite (SplitSlash_noslash m); [repeat constructor; exact Hm|].
      destruct (simple_spec _ Hm) as [Hs _]. exact Hs. }
  eapply triple_weaken with (Pre' := I)
    (Post' := fun r w' =>
                I w' /\ Forall (fun d => d = Path.Join [cuePkgDir; m] ++ ".old") (fst r));
    [|intros w [Hw _]; exact Hw | intros a w H; exact H].
  eapply triple_bind with (Mid := fun _ => I).
  { destruct (negb _); [eapply Inv_WriteFile; eassumption | apply Inv_ret]. }
  intros e. destruct e as [err|].
  { apply triple_ret. intros w Hw. split; [exact Hw | constructor]. }
  eapply triple_bind;
    [eapply Inv_RemoveAll; try eassumption; apply backup_apart; exact Hmod|].
  intros e.
  destruct (match e with Some _ => _ | None => _ end).
  { apply triple_ret. intros w Hw. split; [exact Hw | constructor]. }
  eapply triple_bind;
    [eapply Inv_Rename; try eassumption; apply backup_apart; exact Hmod|].
  intros e2.
  destruct (match e2 with Some _ => _ | None => _ end).
  { apply triple_ret. intros w Hw. split; [exact Hw | constructor]. }
  eapply triple_bind; [eapply Inv_Rename; eassumption|].
  intros e3. apply triple_ret. intros w Hw. split; [exact Hw|].
  constructor; [reflexivity | constructor].
Qed.

Lemma Inv_vendorModules (unpackDir vn : string) (modules : list string) :
  Path.resolve wd0 unpackDir = (D ++ [vn])%list ->
  String.eqb vn x = false ->
  Forall (moduleApart k x) modules ->
  triple I (vendorModules version_Version version_DevelopmentVersion
                          cuePkgDir unpackDir modules)
         (fun r w' =>
            I w'
            /\ Forall (fun d => Tree.is_prefix (Path.resolve wd0 d) q = false) (fst r)).
Proof.
intros HU Hvn Hall. induction Hall as [|m modules Hm _ IH].
- apply triple_ret. intros w Hw. split; [exact Hw | constructor].
- simpl. eapply triple_bind; [apply (Inv_vendorModule unpackDir vn m HU Hvn Hm)|].
  intros r.
  assert (Hr : forall d, d = Path.Join [cuePkgDir; m] ++ ".old" ->
                         Tree.is_prefix (Path.resolve wd0 d) q = false).
  { intros d ->. apply backup_apart. exact Hm. }
  destruct (snd r) as [err|].
  + apply triple_ret. intros w [Hw Hf]. split; [exact Hw|].
    eapply Forall_impl; [|exact Hf]. exact Hr.
  + intros w [Hw Hf]. unfold Os.bind.
    specialize (IH w Hw). destruct (vendorModules _ _ _ _ _ w) as [r' w'].
    simpl in *. destruct IH as [Hw' Hf']. split; [exact Hw'|].
    apply Forall_app. split; [|exact Hf'].
    eapply Forall_impl; [|exact Hf]. exact Hr.
Qed.

Lemma Inv_Vendor_staged (unpackDir vn : string) (modules : list string) :
  Path.resolve wd0 unpackDir = (D ++ [vn])%list ->
  String.eqb vn x = false ->
  Forall (moduleApart k x) modules ->
  triple I (Vendor_staged version_Version version_DevelopmentVersion FS
                          modules cuePkgDir unpackDir)
         (fun _ => I).
Proof.
intros HU Hvn Hall. unfold Vendor_staged.
eapply triple_bind; [eapply Inv_extractModules; eassumption | intros e].
destruct e as [err|]; [apply Inv_ret|].
eapply triple_bind; [apply (Inv_vendorModules unpackDir vn modules HU Hvn Hall)|].
intros r. intros w [Hw Hf]. unfold Os.bind.
pose proof (Inv_runDeferred wd0 held0 k q E C k_leaf E_intro C_other (rev (fst r))
              (Forall_rev Hf) w Hw) as H.
destruct (runDeferred (rev (fst r)) w) as [u w']. exact H.
Qed.

End VendorAt.

(** An existing directory accepts the removal of any of its entries. *)
Lemma alter_in_dir (f : option Tree.node -> result Errno (option Tree.node))
      (root : Errno) (d : list string) :
  forall (t : Tree.node) (p : N) (es : list (string * Tree.node)) (y : string)
         (o : option Tree.node),
    Tree.lookup t d = Ok (Tree.Dir p es) ->
    f (Tree.ents_get y es) = Ok o ->
    exists t', Tree.alter f root t (d ++ [y])%list = Ok t'.
Proof.
induction d as [|c d IH]; intros t p es y o Hl Hf.
- simpl in Hl. injection Hl as ->. simpl app. rewrite alter_cons1, Hf.
  destruct o; eexists; reflexivity.
- destruct t as [| |p0 es0]; try discriminate.
  rewrite lookup_cons in Hl.
  destruct (Tree.ents_get c es0) as [n0|] eqn:Eg; [|discriminate].
  destruct (IH n0 p es y o Hl Hf) as [t' Ht'].
  change ((c :: d) ++ [y])%list with (c :: (d ++ [y]))%list.
  destruct (d ++ [y])%list as [|c2 rest] eqn:E; [destruct d; discriminate|].
  rewrite alter_cons2, Eg, Ht'. eexists. reflexivity.
Qed.

Lemma removeAll_sibling (t n : Tree.node) (d : list string) (x y : string) :
  Tree.lookup t (d ++ [x])%list = Ok n ->
  exists t', Tree.removeAll t (d ++ [y])%list = Ok t'
             /\ Tree.lookup t' (d ++ [y])%list = Err ENOENT.
Proof.
intros Hl.
destruct (lookup_above d t n x [] Hl) as [p [e [es Hd]]].
destruct (alter_in_dir Tree.f_removeAll EBUSY d t p (e :: es) y None Hd eq_refl)
  as [t' Ht'].
exists t'. unfold Tree.removeAll. rewrite Ht'. split; [reflexivity|].
destruct (alter_at _ _ _ _ _ Ht') as [o [Ho Hl']].
unfold Tree.f_removeAll in Ho. injection Ho as <-. exact Hl'.
Qed.

Section LockedAt.

Variable version_Version : string.
Variable version_DevelopmentVersion : string.
Variable FS : Embed.bnode.

Variable wd0 : string.
Variable held0 : list (list string).
Variable k : Tree.node -> bool.
Variable p : string.
Variable x : string.
Variable modules : list string.

(** What is asked of the calls before the staging directory exists, and
    after, when it is [U]. *)
Variable Ea : Os.event -> Prop.
Variable Eb : string -> Os.event -> Prop.
Variable Ca : Os.Call -> option Errno -> Prop.
Variable Cb : string -> Os.Call -> option Errno -> Prop.

Hypothesis k_leaf : forall n, k n = true -> leaf n = true.
Hypothesis k_data : forall p d d', k (Tree.File p d) = true -> k (Tree.File p d') = true.
Hypothesis Ca_other : forall c o, ordinary c -> Ca c o.
Hypothesis Cb_other : forall U c o, ordinary c -> Cb U c o.
Hypothesis Ea_Eb : forall U e, Ea e -> Eb U e.
Hypothesis Ea_intro :
  logged (holds k (Path.resolve wd0 (Path.Join [p; "cue.mod"; "pkg"]) ++ [x])%list) Ca Ea.
Hypothesis Eb_intro :
  forall U,
    logged (holds k (Path.resolve wd0 (Path.Join [p; "cue.mod"; "pkg"]) ++ [x])%list)
           (Cb U) (Eb U).
Hypothesis Ca_failed : forall n e, Ca (Os.CMkdir n 448) (Some e).
Hypothesis Cb_created : forall U, Cb U (Os.CMkdir U 448) None.

Hypothesis x_gitignore : String.eqb ".gitignore" x = false.
Hypothesis x_vendor : forall s, String.eqb ("vendor-" ++ s) x = false.
Hypothesis modules_apart : Forall (moduleApart k x) modules.

Local Abbreviation cuePkgDir := (Path.Join [p; "cue.mod"; "pkg"]).
Local Abbreviation D := (Path.resolve wd0 (Path.Join [p; "cue.mod"; "pkg"])).
Local Abbreviation q := (Path.resolve wd0 (Path.Join [p; "cue.mod"; "pkg"]) ++ [x])%list.
Local Abbreviation Ia := (Inv wd0 held0 (holds k q) Ea).
Local Abbreviation Ib := (fun U => Inv wd0 held0 (holds k q) (Eb U)).

Lemma Inv_Mkdir_staging (name : string) :
  triple Ia (Os.Mkdir name 448)
         (fun r w' => match r with
                      | None => Ib name w'
                      | Some _ => Ia w'
                      end).
Proof.
intros w Hw. unfold Os.Mkdir, Os.mutate.
destruct (Tree.mkdir 448 (Os.fs w) (Os.at_path w name)) as [t'|e] eqn:Ef; simpl.
- pose proof (Inv_weaken wd0 held0 _ Ea (Eb name) w (Ea_Eb name) Hw) as Hw'.
  destruct Hw' as [H1 [H2 [H3 H4]]].
  assert (HP : holds k q t') by exact (holds_mkdir k q k_leaf _ _ _ _ H3 Ef).
  repeat split; try assumption. simpl.
  apply Forall_app. split; [exact H4|]. constructor; [|constructor].
  apply Eb_intro; [exact HP | apply Cb_created].
- destruct Hw as [H1 [H2 [H3 H4]]].
  repeat split; try assumption. simpl.
  apply Forall_app. split; [exact H4|]. constructor; [|constructor].
  apply Ea_intro; [exact H3 | apply Ca_failed].
Qed.

Lemma Inv_mkdirTemp_loop (tries : nat) (dir prefix suffix : string) :
  triple Ia (Os.mkdirTemp_loop tries dir prefix suffix)
         (fun r w' => match r with
                      | Ok U => Ib U w' /\ exists n, U = prefix ++ Strings.Uitoa n ++ suffix
                      | Err _ => Ia w'
                      end).
Proof.
induction tries as [|tries IH]; [apply triple_ret; auto|].
simpl.
eapply triple_bind with
  (Mid := fun r w' => Ia w' /\ exists n, r = Strings.Uitoa n).
{ intros w Hw. split; [exact Hw | eexists; reflexivity]. }
intros r. apply triple_assume. intros [n ->].
eapply triple_bind; [apply Inv_Mkdir_staging | intros e].
destruct e as [err|].
- destruct (Is_ErrExist err); [exact IH | apply triple_ret; auto].
- apply triple_ret. intros w Hw. split; [exact Hw | eexists; reflexivity].
Qed.

Lemma Inv_MkdirTemp :
  triple Ia (Os.MkdirTemp cuePkgDir "vendor-*")
         (fun r w' => match r with
                      | Ok U => Ib U w'
                                /\ exists vn, Path.resolve wd0 U = (D ++ [vn])%list
                                              /\ String.eqb vn x = false
                      | Err _ => Ia w'
                      end).
Proof.
destruct (cuePkgDir_spelled p) as [pre Hpre].
unfold Os.MkdirTemp.
assert (Hne : cuePkgDir <> EmptyString).
{ rewrite Hpre. destruct pre; discriminate. }
rewrite (proj2 (String.eqb_neq _ _) Hne).
change (Os.prefixAndSuffix "vendor-*") with ("vendor-", EmptyString).
cbv iota.
eapply triple_weaken; [apply Inv_mkdirTemp_loop | auto |].
intros r w. destruct r as [U|e]; [|auto].
intros [HI [n HU]]. split; [exact HI|].
exists ("vendor-" ++ Strings.Uitoa n ++ EmptyString). split; [|apply x_vendor].
rewrite HU. rewrite Hpre at 1. rewrite joinPath_pkg, <- Hpre.
rewrite append_assoc.
change (String Strings.slash "vendor-" ++ Strings.Uitoa n ++ EmptyString)
  with (String Strings.slash ("vendor-" ++ Strings.Uitoa n ++ EmptyString)).
assert (Hs : simple ("vendor-" ++ Strings.Uitoa n ++ EmptyString) = true)
  by (apply simple_vendor, Uitoa_noslash).
assert (Hsplit : Strings.SplitSlash ("vendor-" ++ Strings.Uitoa n ++ EmptyString)
                 = ["vendor-" ++ Strings.Uitoa n ++ EmptyString]).
{ apply SplitSlash_noslash. destruct (simple_spec _ Hs) as [H _]. exact H. }
rewrite (resolve_under wd0 cuePkgDir _ Hne); rewrite Hsplit.
- reflexivity.
- repeat constructor. exact Hs.
Qed.

Lemma RemoveAll_gone (U vn : string) :
  Path.resolve wd0 U = (D ++ [vn])%list ->
  String.eqb vn x = false ->
  triple (Ib U) (Os.RemoveAll U)
         (fun _ w' => Ib U w' /\ Tree.lookup (Os.fs w') (D ++ [vn])%list = Err ENOENT).
Proof.
intros HU Hvn w Hw.
assert (Hpre : Tree.is_prefix (Path.resolve wd0 U) q = false).
{ rewrite HU. apply is_prefix_fork with (r1 := []) (r2 := []). exact Hvn. }
pose proof (Inv_RemoveAll wd0 held0 k q (Eb U) (Cb U) k_leaf (Eb_intro U)
              (Cb_other U) U Hpre w Hw) as HI.
split; [exact HI|].
destruct Hw as [Hwd [_ [[n [Hn _]] _]]].
destruct (removeAll_sibling (Os.fs w) n D x vn Hn) as [t' [Ht' Hl']].
unfold Os.RemoveAll, Os.mutate, Os.at_path. rewrite Hwd, HU, Ht'. simpl. exact Hl'.
Qed.

Lemma Inv_Vendor_locked :
  triple Ia (Vendor_locked version_Version version_DevelopmentVersion FS
                           modules p cuePkgDir)
         (fun _ w' =>
            Ia w'
            \/ exists U vn,
                Path.resolve wd0 U = (D ++ [vn])%list
                /\ String.eqb vn x = false
                /\ Ib U w'
                /\ Tree.lookup (Os.fs w') (D ++ [vn])%list = Err ENOENT).
Proof.
unfold Vendor_locked.
eapply triple_bind with (Mid := fun _ => Ia).
{ eapply Inv_CueModInit; eassumption. }
intros e. destruct e as [err|]; [apply triple_ret; auto|].
eapply triple_bind with (Mid := fun _ => Ia); [apply Inv_ReadFile|].
intros contents.
eapply triple_bind with (Mid := fun _ => Ia).
{ destruct contents as [c|err]; [|apply triple_ret; auto].
  destruct (Strings.HasPrefix c _); [|apply triple_ret; auto].
  eapply triple_bind with (Mid := fun _ => Ia); [|intros u; apply triple_ret; auto].
  eapply Inv_Remove; try eassumption.
  rewrite (resolve_Join2 wd0 cuePkgDir ".gitignore")
    by (repeat constructor).
  simpl Strings.SplitSlash. intros E. apply app_inv_head in E.
  injection E as E. rewrite <- E in x_gitignore. discriminate. }
intros u.
eapply triple_bind with (Mid := fun _ => Ia); [eapply Inv_WriteFile; eassumption|].
intros e. destruct e as [err|]; [apply triple_ret; auto|].
eapply triple_bind; [apply Inv_MkdirTemp|].
intros r. destruct r as [U|err]; [|apply triple_ret; auto].
intros w [Hw [vn [HU Hvn]]]. unfold Os.bind.
pose proof (Inv_Vendor_staged version_Version version_DevelopmentVersion FS
              wd0 held0 k (Eb U) (Cb U) cuePkgDir x k_leaf k_data (Eb_intro U)
              (Cb_other U)
              U vn modules HU Hvn modules_apart w Hw) as HS.
destruct (Vendor_staged _ _ _ _ _ _ w) as [r1 w1]. simpl in HS.
pose proof (RemoveAll_gone U vn HU Hvn w1 HS) as HR.
destruct (Os.RemoveAll U w1) as [r2 w2]. simpl in HR. simpl.
right. exists U, vn. tauto.
Qed.

End LockedAt.

(** ** The whole run                                                      *)

Lemma alter_existing (f : option Tree.node -> result Errno (option Tree.node))
      (root : Errno) (cs : list string) :
  forall (t n : Tree.node) (o : option Tree.node),
    Tree.lookup t cs = Ok n -> cs <> [] -> f (Some n) = Ok o ->
    exists t', Tree.alter f root t cs = Ok t'.
Proof.
induction cs as [|c rest IH]; intros t n o Hl Hne Hf; [congruence|].
destruct t as [| |p es]; try discriminate.
rewrite lookup_cons in Hl.
destruct (Tree.ents_get c es) as [n0|] eqn:Eg; [|discriminate].
destruct rest as [|c2 rest'].
- simpl in Hl. injection Hl as ->. rewrite alter_cons1, Eg, Hf.
  destruct o; eexists; reflexivity.
- destruct (IH n0 n o Hl ltac:(discriminate) Hf) as [t' Ht'].
  rewrite alter_cons2, Eg, Ht'. eexists. reflexivity.
Qed.

(** What a call on the tree leaves of the world. *)
Lemma mutate_world (c : Os.Call) (mk : Errno -> error)
      (f : Os.World -> result Errno Tree.node) (w : Os.World) :
  Os.wd (snd (Os.mutate c mk f w)) = Os.wd w
  /\ Os.held (snd (Os.mutate c mk f w)) = Os.held w
  /\ ((exists t', f w = Ok t'
                  /\ fst (Os.mutate c mk f w) = None
                  /\ Os.fs (snd (Os.mutate c mk f w)) = t'
                  /\ Os.log (snd (Os.mutate c mk f w))
                     = (Os.log w ++ [{| Os.call := c; Os.outcome := None;
                                        Os.after := t' |}])%list)
      \/ (exists e, f w = Err e
                    /\ fst (Os.mutate c mk f w) = Some (mk e)
                    /\ Os.fs (snd (Os.mutate c mk f w)) = Os.fs w
                    /\ Os.log (snd (Os.mutate c mk f w))
                       = (Os.log w ++ [{| Os.call := c; Os.outcome := Some e;
                                          Os.after := Os.fs w |}])%list)).
Proof.
unfold Os.mutate. destruct (f w) as [t'|e]; simpl.
- split; [reflexivity|]. split; [reflexivity|]. left. exists t'. tauto.
- split; [reflexivity|]. split; [reflexivity|]. right. exists e. tauto.
Qed.

Lemma remove_first_head (a : list string) (l : list (list string)) :
  Os.remove_first a (a :: l) = l.
Proof.
simpl. rewrite (proj2 (path_eqb_eq a a) eq_refl). reflexivity.
Qed.

Lemma tableNames_apart_lock (order : list string) :
  Forall (fun m => In m tableNames) order ->
  Forall (moduleApart isFileNode lockFilePath) order.
Proof.
intros H. eapply Forall_impl; [|exact H].
intros m [<-|[<-|[]]]; unfold moduleApart;
  (split; [reflexivity|]); (split; [reflexivity|]); (split; [reflexivity|]);
  left; reflexivity.
Qed.

Section Cleanup.

Variable version_Version : string.
Variable version_DevelopmentVersion : string.
Variable FS : Embed.bnode.

Lemma create_makes_file (perm : N) (t t' : Tree.node) (cs : list string) :
  Tree.create perm t cs = Ok t' -> holds isFileNode cs t'.
Proof.
intros H. destruct (alter_at _ _ _ _ _ H) as [o [Ho Hl]].
destruct (optOf (Tree.lookup t cs)) as [[p d|tg|p es]|]; simpl in Ho;
  try discriminate; injection Ho as <-; eexists; (split; [exact Hl | reflexivity]).
Qed.

Lemma remove_file (t : Tree.node) (cs : list string) :
  holds isFileNode cs t -> cs <> [] ->
  exists t', Tree.remove t cs = Ok t' /\ Tree.lookup t' cs = Err ENOENT.
Proof.
intros [n [Hl Hk]] Hne. destruct n as [p d| |]; try discriminate.
destruct (alter_existing Tree.f_remove EBUSY cs t (Tree.File p d) None Hl Hne eq_refl)
  as [t' Ht'].
exists t'. split; [exact Ht'|].
destruct (alter_at _ _ _ _ _ Ht') as [o [Ho Hl']].
rewrite Hl in Ho. simpl in Ho. injection Ho as <-. exact Hl'.
Qed.

(** The end of [Vendor]: the deferred unlock and removal of the lock
    file, from a world in which the lock file is there. *)
Lemma Vendor_tail (wd0 : string) (held0 : list (list string)) (p U : string)
      (w3 : Os.World) :
  let cuePkgDir := Path.Join [p; "cue.mod"; "pkg"] in
  let lockFile := Path.Join [cuePkgDir; lockFilePath] in
  let L := (Path.resolve wd0 cuePkgDir ++ [lockFilePath])%list in
  let w5 := snd (Os.Remove lockFile (snd (Os.Unlock lockFile w3))) in
  Os.wd w3 = wd0 ->
  Os.held w3 = L :: held0 ->
  holds isFileNode L (Os.fs w3) ->
  Os.wd w5 = wd0
  /\ Os.held w5 = held0
  /\ Tree.lookup (Os.fs w5) L = Err ENOENT
  /\ (forall q, Tree.is_prefix L q = false -> Tree.is_prefix q L = false ->
                Tree.lookup (Os.fs w5) q = Tree.lookup (Os.fs w3) q)
  /\ exists e1 e2, Os.log w5 = (Os.log w3 ++ [e1; e2])%list
                   /\ ordinary (Os.call e1) /\ ordinary (Os.call e2).
Proof.
intros cuePkgDir lockFile L w5 Hwd Hheld Hfile.
assert (HL : Path.resolve wd0 lockFile = L).
{ unfold lockFile, L. rewrite resolve_Join2 by (repeat constructor). reflexivity. }
assert (HLne : L <> []).
{ unfold L. destruct (Path.resolve wd0 cuePkgDir); discriminate. }
destruct (remove_file _ _ Hfile HLne) as [t' [Hrm Hgone]].
unfold w5, Os.Unlock, Os.Remove, Os.mutate, Os.at_path. simpl.
rewrite Hwd, HL, Hrm. simpl.
split; [reflexivity|]. split; [rewrite Hheld; apply remove_first_head|].
split; [exact Hgone|]. split.
- intros q Hq1 Hq2. exact (alter_frame _ _ _ _ _ q Hrm Hq1 Hq2).
- eexists. eexists. split.
  + rewrite <- app_assoc. reflexivity.
  + split; split; discriminate.
Qed.

End Cleanup.

(** [Vendor], stage by stage. *)
Lemma Vendor_stages (version_Version version_DevelopmentVersion : string)
      (FS : Embed.bnode) (fuel : nat) (order : list string) (p root : string)
      (w : Os.World) :
  let cuePkgDir := Path.Join [root; "cue.mod"; "pkg"] in
  let lockFile := Path.Join [cuePkgDir; lockFilePath] in
  fst (projectRoot fuel p w) = Some root ->
  Vendor version_Version version_DevelopmentVersion FS fuel order p w =
  match Os.MkdirAll cuePkgDir 493 w with
  | (Some err, w1) => (Return (Some err), w1)
  | (None, w1) =>
      match Os.Lock lockFile w1 with
      | (Some err, w2) => (Return (Some err), w2)
      | (None, w2) =>
          (Return (fst (Vendor_locked version_Version version_DevelopmentVersion FS
                                      order root cuePkgDir w2)),
           snd (Os.Remove lockFile
                  (snd (Os.Unlock lockFile
                          (snd (Vendor_locked version_Version
                                              version_DevelopmentVersion FS
                                              order root cuePkgDir w2))))))
      end
  end.
Proof.
intros cuePkgDir lockFile Hroot. unfold Vendor, Os.bind.
pose proof (projectRoot_pure fuel p w) as Hp.
destruct (projectRoot fuel p w) as [r w0]. simpl in Hp, Hroot. subst w0 r.
fold cuePkgDir. fold lockFile.
destruct (Os.MkdirAll cuePkgDir 493 w) as [[err|] w1]; [reflexivity|].
destruct (Os.Lock lockFile w1) as [[err|] w2]; [reflexivity|].
destruct (Vendor_locked _ _ _ _ _ _ w2) as [r3 w3]. simpl.
destruct (Os.Remove lockFile _) as [r5 w5]. reflexivity.
Qed.

Lemma Vendor_out_of_fuel (version_Version version_DevelopmentVersion : string)
      (FS : Embed.bnode) (fuel : nat) (order : list string) (p : string)
      (w : Os.World) :
  fst (projectRoot fuel p w) = None ->
  Vendor version_Version version_DevelopmentVersion FS fuel order p w = (OutOfFuel, w).
Proof.
intros Hroot. unfold Vendor, Os.bind.
pose proof (projectRoot_pure fuel p w) as Hp.
destruct (projectRoot fuel p w) as [r w0]. simpl in Hp, Hroot. subst w0 r.
reflexivity.
Qed.

(** [Lock] on the world. *)
Lemma Lock_world (name : string) (w : Os.World) :
  Os.wd (snd (Os.Lock name w)) = Os.wd w
  /\ ((exists t', Tree.create 384 (Os.fs w) (Os.at_path w name) = Ok t'
                  /\ fst (Os.Lock name w) = None
                  /\ Os.fs (snd (Os.Lock name w)) = t'
                  /\ Os.held (snd (Os.Lock name w)) = Os.at_path w name :: Os.held w
                  /\ Os.log (snd (Os.Lock name w))
                     = (Os.log w ++ [lockEvent name t'])%list)
      \/ (exists e, fst (Os.Lock name w) = Some (PathError "open" name e)
                    /\ Os.fs (snd (Os.Lock name w)) = Os.fs w
                    /\ Os.held (snd (Os.Lock name w)) = Os.held w
                    /\ Os.log (snd (Os.Lock name w))
                       = (Os.log w ++ [{| Os.call := Os.CLock name;
                                          Os.outcome := Some e;
                                          Os.after := Os.fs w |}])%list)).
Proof.
unfold Os.Lock, Os.mutate.
destruct (Tree.create 384 (Os.fs w) (Os.at_path w name)) as [t'|e]; simpl.
- split; [reflexivity|]. left. exists t'. repeat split; reflexivity.
- split; [reflexivity|]. right. exists e. repeat split; reflexivity.
Qed.

Lemma MkdirAll_world (name : string) (perm : N) (w : Os.World) :
  Os.wd (snd (Os.MkdirAll name perm w)) = Os.wd w
  /\ Os.held (snd (Os.MkdirAll name perm w)) = Os.held w
  /\ exists o t, Os.log (snd (Os.MkdirAll name perm w))
                 = (Os.log w ++ [{| Os.call := Os.CMkdirAll name perm;
                                    Os.outcome := o; Os.after := t |}])%list.
Proof.
unfold Os.MkdirAll.
destruct (mutate_world (Os.CMkdirAll name perm) (PathError "mkdir" name)
            (fun w0 => Tree.mkdirAll perm (Os.fs w0) (Os.at_path w0 name)) w)
  as [H1 [H2 [[t' [_ [_ [_ H3]]]]|[e [_ [_ [_ H3]]]]]]];
  (split; [exact H1|]); (split; [exact H2|]); eexists; eexists; exact H3.
Qed.

Lemma isFileNode_leaf (n : Tree.node) : isFileNode n = true -> leaf n = true.
Proof. destruct n; simpl; intros H; try discriminate; reflexivity. Qed.

Lemma isFileNode_data (p : N) (d d' : string) :
  isFileNode (Tree.File p d) = true -> isFileNode (Tree.File p d') = true.
Proof. reflexivity. Qed.

Lemma ordinary_noStaging (c : Os.Call) (o : option Errno) :
  ordinary c -> noStaging c o.
Proof. intros [H _] n [Hc _]. exact (H n Hc). Qed.

Lemma ordinary_lockIs (L : string) (c : Os.Call) : ordinary c -> lockIs L c.
Proof. intros [_ H] n Hc. exfalso. exact (H n Hc). Qed.

(** C9.  In a run of [Vendor] that starts with an empty log: if the lock
    was taken, then at the end the lock file is gone and the locks held
    are those held before; if a staging directory was created, then at the
    end it is gone.  This holds whatever the run returns. *)
Theorem vendor_cleans_up (version_Version version_DevelopmentVersion : string)
        (FS : Embed.bnode) (fuel : nat) (order : list string) (p : string)
        (w : Os.World) :
  Os.log w = [] ->
  Forall (fun m => In m tableNames) order ->
  let w' := snd (Vendor version_Version version_DevelopmentVersion FS fuel order p w) in
  (forall name t,
      In (lockEvent name t) (Os.log w') ->
      Tree.lookup (Os.fs w') (Os.at_path w' name) = Err ENOENT
      /\ Os.held w' = Os.held w)
  /\ (forall name t,
         In (stagingEvent name t) (Os.log w') ->
         Tree.lookup (Os.fs w') (Os.at_path w' name) = Err ENOENT).
Proof.
intros Hlog Horder. cbv zeta.
destruct (fst (projectRoot fuel p w)) as [root|] eqn:Hroot.
2:{ rewrite (Vendor_out_of_fuel _ _ _ _ _ _ _ Hroot). simpl. rewrite Hlog.
    split; intros name t []. }
rewrite (Vendor_stages _ _ _ _ _ _ _ _ Hroot).
set (cuePkgDir := Path.Join [root; "cue.mod"; "pkg"]).
set (lockFile := Path.Join [cuePkgDir; lockFilePath]).
set (wd0 := Os.wd w).
set (D := Path.resolve wd0 cuePkgDir).
set (L := (D ++ [lockFilePath])%list).
assert (HL : Path.resolve wd0 lockFile = L).
{ unfold lockFile, L, D. rewrite resolve_Join2 by (repeat constructor). reflexivity. }
destruct (MkdirAll_world cuePkgDir 493 w) as [Hwd1 [Hheld1 [o1 [t1 Hlog1]]]].
destruct (Os.MkdirAll cuePkgDir 493 w) as [[err|] w1]; simpl in Hwd1, Hheld1, Hlog1.
{ simpl. rewrite Hlog1, Hlog. split; intros name t [Hin|[]]; discriminate. }
destruct (Lock_world lockFile w1)
  as [Hwd2 [[t2 [Hcr [Hr2 [Hfs2 [Hheld2 Hlog2]]]]]|[e [Hr2 [Hfs2 [Hheld2 Hlog2]]]]]].
2:{ destruct (Os.Lock lockFile w1) as [r2 w2]. simpl in *. subst r2. simpl.
    rewrite Hlog2, Hlog1, Hlog. split; intros name t [Hin|[Hin|[]]]; discriminate. }
destruct (Os.Lock lockFile w1) as [r2 w2]. simpl in Hwd2, Hr2, Hfs2, Hheld2, Hlog2.
subst r2.
set (Ca := fun c o => noStaging c o /\ lockIs lockFile c).
set (Cb := fun (U : string) c o => stagingIs U c o /\ lockIs lockFile c).
set (Ea := fun e => Ca (Os.call e) (Os.outcome e)).
set (Eb := fun (U : string) e => Cb U (Os.call e) (Os.outcome e)).
assert (Hat : Os.at_path w1 lockFile = L).
{ unfold Os.at_path. rewrite Hwd1. exact HL. }
assert (HIa : Inv wd0 (L :: Os.held w) (holds isFileNode L) Ea w2).
{ split; [rewrite Hwd2; exact Hwd1|].
  split; [rewrite Hheld2, Hat, Hheld1; reflexivity|].
  split; [rewrite Hfs2; rewrite Hat in Hcr; exact (create_makes_file _ _ _ _ Hcr)|].
  rewrite Hlog2, Hlog1, Hlog. simpl.
  constructor; [|constructor; [|constructor]].
  - split; [apply ordinary_noStaging | apply ordinary_lockIs]; split; discriminate.
  - split.
    + intros n [Hc _]. discriminate.
    + intros n Hc. injection Hc as <-. reflexivity. }
pose proof (Inv_Vendor_locked version_Version version_DevelopmentVersion FS
              wd0 (L :: Os.held w) isFileNode root lockFilePath order Ea Eb Ca Cb
              isFileNode_leaf isFileNode_data) as HVL.
specialize (HVL (fun c o H => conj (ordinary_noStaging c o H) (ordinary_lockIs _ c H))).
specialize (HVL (fun U c o H =>
                   conj (fun n Hs => match ordinary_noStaging c o H n Hs with end)
                        (ordinary_lockIs _ c H))).
specialize (HVL (fun U e He => conj (fun n Hs => match proj1 He n Hs with end)
                                    (proj2 He))).
specialize (HVL (fun c o t _ HC => HC)).
specialize (HVL (fun U c o t _ HC => HC)).
assert (Hfailed : forall n e, Ca (Os.CMkdir n 448) (Some e)).
{ intros n e. split; [intros n' [_ Ho]; discriminate | intros n' Hc; discriminate]. }
assert (Hcreated : forall U, Cb U (Os.CMkdir U 448) None).
{ intros U. split; [|intros n' Hc; discriminate].
  intros n [Hc _]. injection Hc as <-. reflexivity. }
specialize (HVL Hfailed Hcreated eq_refl (fun s => eq_refl)
                (tableNames_apart_lock order Horder) w2 HIa).
fold cuePkgDir in HVL. fold D in HVL. fold L in HVL.
destruct (Vendor_locked version_Version version_DevelopmentVersion FS
                        order root cuePkgDir w2) as [r3 w3].
cbn [fst snd] in HVL.
assert (Hbase : Os.wd w3 = wd0 /\ Os.held w3 = L :: Os.held w
                /\ holds isFileNode L (Os.fs w3)).
{ destruct HVL as [[H1 [H2 [H3 _]]]|[U [vn [_ [_ [[H1 [H2 [H3 _]]] _]]]]]]; tauto. }
destruct Hbase as [Hwd3 [Hheld3 Hfile3]].
destruct (Vendor_tail wd0 (Os.held w) root EmptyString w3 Hwd3 Hheld3 Hfile3)
  as [Hwd5 [Hheld5 [Hgone [Hframe [e1 [e2 [Hlog5 [Ho1 Ho2]]]]]]]].
fold cuePkgDir in Hwd5, Hheld5, Hgone, Hframe, Hlog5.
fold lockFile in Hwd5, Hheld5, Hgone, Hframe, Hlog5.
cbn [snd].
set (w5 := snd (Os.Remove lockFile (snd (Os.Unlock lockFile w3)))) in *.
fold D in Hgone, Hframe. fold L in Hgone, Hframe.
assert (Hall : exists U vn,
           Forall (Eb U) (Os.log w5)
           /\ (forall name t, In (stagingEvent name t) (Os.log w5) ->
                              Path.resolve wd0 name = (D ++ [vn])%list
                              /\ String.eqb vn lockFilePath = false
                              /\ Tree.lookup (Os.fs w3) (D ++ [vn])%list = Err ENOENT)).
{ assert (Hlast : forall U, Forall (Eb U) [e1; e2]).
  { intros U. constructor; [|constructor; [|constructor]].
    - split; [intros n Hs; destruct (ordinary_noStaging _ (Os.outcome e1) Ho1 n Hs)
             | apply ordinary_lockIs; exact Ho1].
    - split; [intros n Hs; destruct (ordinary_noStaging _ (Os.outcome e2) Ho2 n Hs)
             | apply ordinary_lockIs; exact Ho2]. }
  destruct HVL as [[_ [_ [_ HEa]]]|[U [vn [HU [Hvn [[_ [_ [_ HEb]]] Habs]]]]]].
  - exists EmptyString, EmptyString. split.
    + rewrite Hlog5. apply Forall_app. split; [|apply Hlast].
      eapply Forall_impl; [|exact HEa].
      intros e [He1 He2]. split; [intros n Hs; destruct (He1 n Hs) | exact He2].
    + intros name t Hin. exfalso. rewrite Hlog5 in Hin.
      apply in_app_or in Hin. destruct Hin as [Hin|Hin].
      * rewrite Forall_forall in HEa. destruct (HEa _ Hin) as [Hns _].
        apply (Hns name). split; reflexivity.
      * pose proof (Hlast EmptyString) as HF. rewrite Forall_forall in HF.
        destruct (HF _ Hin) as [Hs _].
        destruct Ho1 as [Ho1 _]. destruct Ho2 as [Ho2 _].
        destruct Hin as [Hin|[Hin|[]]];
          [apply (Ho1 name) | apply (Ho2 name)]; rewrite Hin; reflexivity.
  - exists U, vn. split.
    + rewrite Hlog5. apply Forall_app. split; [exact HEb | apply Hlast].
    + intros name t Hin.
      assert (HF : Forall (Eb U) (Os.log w5)).
      { rewrite Hlog5. apply Forall_app. split; [exact HEb | apply Hlast]. }
      rewrite Forall_forall in HF. destruct (HF _ Hin) as [Hs _].
      assert (Hn : name = U) by (apply Hs; split; reflexivity).
      subst name. tauto. }
destruct Hall as [U [vn [HEb Hstaging]]].
split.
- intros name t Hin. rewrite Forall_forall in HEb.
  destruct (HEb _ Hin) as [_ Hlk]. rewrite (Hlk name eq_refl).
  unfold Os.at_path. rewrite Hwd5, HL. split; [exact Hgone | exact Hheld5].
- intros name t Hin. destruct (Hstaging name t Hin) as [Hname [Hvn Habs]].
  unfold Os.at_path. rewrite Hwd5, Hname.
  rewrite Hframe; [exact Habs | |].
  + unfold L. apply is_prefix_fork with (r1 := []) (r2 := []).
    rewrite String.eqb_sym. exact Hvn.
  + unfold L. apply is_prefix_fork with (r1 := []) (r2 := []). exact Hvn.
Qed.

Lemma Inv_Lock (wd0 : string) (held0 : list (list string)) (k : Tree.node -> bool)
      (q : list string) (E : Os.event -> Prop) (name : string) :
  (forall n, k n = true -> leaf n = true) ->
  (forall c o t, holds k q t -> E {| Os.call := c; Os.outcome := o; Os.after := t |}) ->
  triple (Inv wd0 held0 (holds k q) E) (Os.Lock name)
         (fun r w' => match r with
                      | None => Inv wd0 (Path.resolve wd0 name :: held0) (holds k q) E w'
                      | Some _ => Inv wd0 held0 (holds k q) E w'
                      end).
Proof.
intros k_leaf HE w [H1 [H2 [H3 H4]]]. unfold Os.Lock, Os.mutate.
destruct (Tree.create 384 (Os.fs w) (Os.at_path w name)) as [t'|e] eqn:Ef; simpl.
- assert (HP : holds k q t').
  { apply (holds_alter k q k_leaf (Tree.f_create 384) EISDIR (Os.fs w) t'
             (Os.at_path w name) (rejectsDirs_create 384)); [|exact H3|exact Ef].
    intros n o Hk Hf. destruct n as [p d|tg|p es]; simpl in Hf; try discriminate.
    injection Hf as <-. eexists. split; [reflexivity | exact Hk]. }
  split; [exact H1|]. split; [unfold Os.at_path; rewrite H1, H2; reflexivity|].
  split; [exact HP|].
  apply Forall_app. split; [exact H4|]. constructor; [|constructor].
  apply HE. exact HP.
- split; [exact H1|]. split; [exact H2|]. split; [exact H3|].
  apply Forall_app. split; [exact H4|]. constructor; [|constructor].
  apply HE. exact H3.
Qed.

Lemma isLinkTo_spec (tg : string) (n : Tree.node) :
  isLinkTo tg n = true <-> n = Tree.Symlink tg.
Proof.
split.
- destruct n as [| t |]; simpl; try discriminate.
  intros H. apply String.eqb_eq in H. subst t. reflexivity.
- intros ->. simpl. apply String.eqb_refl.
Qed.

Lemma holds_isLinkTo (tg : string) (q : list string) (t : Tree.node) :
  holds (isLinkTo tg) q t <-> Tree.lookup t q = Ok (Tree.Symlink tg).
Proof.
split.
- intros [n [Hl Hk]]. apply isLinkTo_spec in Hk. subst n. exact Hl.
- intros H. exists (Tree.Symlink tg). split; [exact H | apply String.eqb_refl].
Qed.

Lemma isLinkTo_leaf (tg : string) (n : Tree.node) :
  isLinkTo tg n = true -> leaf n = true.
Proof. intros H. apply isLinkTo_spec in H. subst n. reflexivity. Qed.

Lemma isLinkTo_data (tg : string) (p : N) (d d' : string) :
  isLinkTo tg (Tree.File p d) = true -> isLinkTo tg (Tree.File p d') = true.
Proof. simpl. congruence. Qed.

Lemma tableNames_apart_link (tg m : string) (order : list string) :
  In m tableNames ->
  Forall (fun m' => In m' tableNames) order ->
  Forall (moduleApart (isLinkTo tg) m) order.
Proof.
intros Hm H. eapply Forall_impl; [|exact H].
assert (Hlink : forall n, isLinkTo tg n = true -> Os.isSymlink (Os.info n) = true).
{ intros n Hn. apply isLinkTo_spec in Hn. subst n. reflexivity. }
destruct Hm as [<-|[<-|[]]]; intros m' [<-|[<-|[]]]; unfold moduleApart;
  (split; [reflexivity|]); (split; [reflexivity|]); (split; [reflexivity|]);
  right; exact Hlink.
Qed.

(** The run of [Vendor] keeps a link that stands for a module of the
    table: at the end and after every call on the way. *)
Lemma Vendor_keeps_link (version_Version version_DevelopmentVersion : string)
      (FS : Embed.bnode) (fuel : nat) (order : list string) (p root m tg : string)
      (w : Os.World) :
  let cuePkgDir := Path.Join [root; "cue.mod"; "pkg"] in
  let S := (Path.resolve (Os.wd w) cuePkgDir ++ [m])%list in
  let w' := snd (Vendor version_Version version_DevelopmentVersion FS fuel order p w) in
  Os.log w = [] ->
  fst (projectRoot fuel p w) = Some root ->
  In m tableNames ->
  Forall (fun m' => In m' tableNames) order ->
  Tree.lookup (Os.fs w) S = Ok (Tree.Symlink tg) ->
  Os.wd w' = Os.wd w
  /\ Tree.lookup (Os.fs w') S = Ok (Tree.Symlink tg)
  /\ Forall (fun e => Tree.lookup (Os.after e) S = Ok (Tree.Symlink tg)) (Os.log w').
Proof.
intros cuePkgDir S w' Hlog Hroot Hm Horder Hlink.
set (wd0 := Os.wd w).
set (E := fun e => holds (isLinkTo tg) S (Os.after e)).
assert (HE : forall c o t, holds (isLinkTo tg) S t ->
                           E {| Os.call := c; Os.outcome := o; Os.after := t |}).
{ intros c o t H. exact H. }
assert (Hgoal : exists h, Inv wd0 h (holds (isLinkTo tg) S) E w').
{ unfold w'. rewrite (Vendor_stages _ _ _ _ _ _ _ _ Hroot). fold cuePkgDir.
  set (lockFile := Path.Join [cuePkgDir; lockFilePath]).
  assert (H0 : Inv wd0 (Os.held w) (holds (isLinkTo tg) S) E w).
  { split; [reflexivity|]. split; [reflexivity|].
    split; [apply holds_isLinkTo; exact Hlink|]. rewrite Hlog. constructor. }
  pose proof (Inv_MkdirAll wd0 (Os.held w) (isLinkTo tg) S E (fun _ _ => True)
                (isLinkTo_leaf tg) (fun c o t H _ => HE c o t H) (fun _ _ _ => I)
                cuePkgDir 493 w H0) as H1.
  destruct (Os.MkdirAll cuePkgDir 493 w) as [[err|] w1]; cbn [fst snd] in H1 |- *.
  { eexists. exact H1. }
  pose proof (Inv_Lock wd0 (Os.held w) (isLinkTo tg) S E lockFile
                (isLinkTo_leaf tg) HE w1 H1) as H2.
  destruct (Os.Lock lockFile w1) as [[err|] w2]; cbn [fst snd] in H2 |- *.
  { eexists. exact H2. }
  pose proof (Inv_Vendor_locked version_Version version_DevelopmentVersion FS
                wd0 (Path.resolve wd0 lockFile :: Os.held w) (isLinkTo tg)
                root m order E (fun _ => E) (fun _ _ => True) (fun _ _ _ => True)
                (isLinkTo_leaf tg) (isLinkTo_data tg)
                (fun _ _ _ => I) (fun _ _ _ _ => I) (fun _ _ H => H)
                (fun c o t H _ => HE c o t H) (fun _ c o t H _ => HE c o t H)
                (fun _ _ => I) (fun _ => I)) as HVL.
  assert (Hgit : String.eqb ".gitignore" m = false)
    by (destruct Hm as [<-|[<-|[]]]; reflexivity).
  assert (Hven : forall s, String.eqb ("vendor-" ++ s) m = false)
    by (intros s; destruct Hm as [<-|[<-|[]]]; reflexivity).
  specialize (HVL Hgit Hven (tableNames_apart_link tg m order Hm Horder) w2 H2).
  fold cuePkgDir in HVL.
  destruct (Vendor_locked version_Version version_DevelopmentVersion FS
                          order root cuePkgDir w2) as [r3 w3].
  cbn [fst snd] in HVL |- *.
  assert (H3 : Inv wd0 (Path.resolve wd0 lockFile :: Os.held w)
                   (holds (isLinkTo tg) S) E w3).
  { destruct HVL as [H|[U [vn [_ [_ [H _]]]]]]; exact H. }
  destruct (Inv_Unlock wd0 (Path.resolve wd0 lockFile :: Os.held w)
              (holds (isLinkTo tg) S) E (fun _ _ => True)
              (fun c o t H _ => HE c o t H) lockFile (fun _ => I) w3 H3)
    as [H4a [H4b [H4c H4d]]].
  assert (H4 : Inv wd0 (Os.held (snd (Os.Unlock lockFile w3)))
                   (holds (isLinkTo tg) S) E (snd (Os.Unlock lockFile w3))).
  { split; [exact H4a|]. split; [reflexivity|]. split; assumption. }
  assert (Hne : Path.resolve wd0 lockFile <> S).
  { unfold lockFile, S. rewrite resolve_Join2 by (repeat constructor).
    fold wd0. simpl Strings.SplitSlash. intros Heq. apply app_inv_head in Heq.
    injection Heq as Heq. destruct Hm as [<-|[<-|[]]]; discriminate. }
  pose proof (Inv_Remove wd0 _ (isLinkTo tg) S E (fun _ _ => True)
                (isLinkTo_leaf tg) (fun c o t H _ => HE c o t H) (fun _ _ _ => I)
                lockFile Hne _ H4) as H5.
  eexists. exact H5. }
destruct Hgoal as [h [H1 [_ [H3 H4]]]].
split; [exact H1|]. split; [apply holds_isLinkTo; exact H3|].
eapply Forall_impl; [|exact H4]. intros e He. apply holds_isLinkTo. exact He.
Qed.

Lemma tableNames_simple (m : string) : In m tableNames -> simple m = true.
Proof. intros [<-|[<-|[]]]; reflexivity. Qed.

Lemma at_moduleDir (w : Os.World) (cuePkgDir m : string) :
  In m tableNames ->
  Os.at_path w (Path.Join [cuePkgDir; m])
  = (Path.resolve (Os.wd w) cuePkgDir ++ [m])%list.
Proof.
intros Hm. pose proof (tableNames_simple m Hm) as Hs.
destruct (simple_spec _ Hs) as [Hns _].
unfold Os.at_path. rewrite resolve_Join2; rewrite (SplitSlash_noslash m Hns).
- reflexivity.
- repeat constructor. exact Hs.
Qed.

Lemma vendorModule_skips_link (version_Version version_DevelopmentVersion : string)
      (cuePkgDir unpackDir m tg : string) (w : Os.World) :
  Tree.lookup (Os.fs w) (Os.at_path w (Path.Join [cuePkgDir; m])) = Ok (Tree.Symlink tg) ->
  vendorModule version_Version version_DevelopmentVersion cuePkgDir unpackDir m w
  = (([], None), w).
Proof.
intros H. unfold vendorModule, Os.bind, Os.Lstat. rewrite H. reflexivity.
Qed.

Section SymlinkedModule.

Context {gv : GoVersion}.
Variable version_Version : string.
Variable version_DevelopmentVersion : string.
Variable FS : Embed.bnode.

Lemma EnsureCompatibility_skips (fuel : nat) (p m : string) (mv : Version)
      (pre post : list (string * Version)) (w : Os.World) (root : string) :
  fst (projectRoot fuel p w) = Some root ->
  lstatSymlink w (Path.Join [Path.Join [root; "cue.mod"; "pkg"]; m]) = true ->
  fst (EnsureCompatibility version_Version version_DevelopmentVersion fuel
                           (pre ++ (m, mv) :: post)%list p w)
  = fst (EnsureCompatibility version_Version version_DevelopmentVersion fuel
                             (pre ++ post)%list p w).
Proof.
intros Hroot Hsym.
destruct (String.eqb version_Version version_DevelopmentVersion) eqn:Hdev.
{ unfold EnsureCompatibility. rewrite Hdev. reflexivity. }
destruct (NewVersion version_Version) as [tool|err] eqn:Htool.
2:{ unfold EnsureCompatibility. rewrite Hdev, Htool. reflexivity. }
rewrite !(EnsureCompatibility_run _ _ fuel _ p root tool w Hdev Htool Hroot).
rewrite (checkModules_pass_through tool _ w pre post (m, mv)); [reflexivity|].
apply checkModule_symlink. exact Hsym.
Qed.

(** C6.  A module of the table whose directory is a symbolic link when
    [Vendor] starts: the link with its target is in place after every call
    of the run and at its end; the swap step for that module calls nothing
    and so writes no marker for it; the gate skips the module, gives the
    verdict it would give without it, and changes nothing. *)
Theorem symlinked_module_left_alone (fuel : nat) (order : list string)
        (p root m tg : string) (w : Os.World) :
  let cuePkgDir := Path.Join [root; "cue.mod"; "pkg"] in
  let moduleDir := Path.Join [cuePkgDir; m] in
  let w' := snd (Vendor version_Version version_DevelopmentVersion FS fuel order p w) in
  Os.log w = [] ->
  fst (projectRoot fuel p w) = Some root ->
  In m tableNames ->
  Forall (fun m' => In m' tableNames) order ->
  Tree.lookup (Os.fs w) (Os.at_path w moduleDir) = Ok (Tree.Symlink tg) ->
  (Tree.lookup (Os.fs w') (Os.at_path w' moduleDir) = Ok (Tree.Symlink tg)
   /\ Forall (fun e => Tree.lookup (Os.after e) (Os.at_path w moduleDir)
                       = Ok (Tree.Symlink tg)) (Os.log w'))
  /\ (forall unpackDir w1,
         Tree.lookup (Os.fs w1) (Os.at_path w1 moduleDir) = Ok (Tree.Symlink tg) ->
         vendorModule version_Version version_DevelopmentVersion
                      cuePkgDir unpackDir m w1 = (([], None), w1))
  /\ (forall tool mv, checkModule tool cuePkgDir (m, mv) w = (None, w))
  /\ (forall cfuel mv pre post,
         fst (projectRoot cfuel p w) = Some root ->
         EnsureCompatibility version_Version version_DevelopmentVersion cfuel
                             (pre ++ (m, mv) :: post)%list p w
         = (fst (EnsureCompatibility version_Version version_DevelopmentVersion cfuel
                                     (pre ++ post)%list p w), w)).
Proof.
intros cuePkgDir moduleDir w' Hlog Hroot Hm Horder Hlink.
assert (Hsym : lstatSymlink w moduleDir = true).
{ rewrite lstatSymlink_lookup, Hlink. reflexivity. }
split.
- unfold moduleDir in *. rewrite (at_moduleDir w cuePkgDir m Hm) in *.
  destruct (Vendor_keeps_link version_Version version_DevelopmentVersion FS
              fuel order p root m tg w Hlog Hroot Hm Horder Hlink) as [Hwd [Hend Hall]].
  fold cuePkgDir in Hwd, Hend, Hall. fold w' in Hwd, Hend, Hall.
  rewrite (at_moduleDir w' cuePkgDir m Hm), Hwd. split; assumption.
- split.
  { intros unpackDir w1 H1. apply vendorModule_skips_link with (tg := tg). exact H1. }
  split.
  { intros tool mv.
    pose proof (checkModule_symlink tool cuePkgDir m mv w Hsym) as H1.
    pose proof (checkModule_pure tool cuePkgDir (m, mv) w) as H2.
    destruct (checkModule tool cuePkgDir (m, mv) w) as [r w1].
    simpl in H1, H2. subst. reflexivity. }
  intros cfuel mv pre post Hcroot.
  pose proof (EnsureCompatibility_skips cfuel p m mv pre post w root Hcroot Hsym) as H1.
  pose proof (EnsureCompatibility_pure version_Version version_DevelopmentVersion
                cfuel (pre ++ (m, mv) :: post)%list p w) as H2.
  destruct (EnsureCompatibility version_Version version_DevelopmentVersion cfuel
                                (pre ++ (m, mv) :: post)%list p w) as [r w1].
  simpl in H1, H2. subst. reflexivity.
Qed.

End SymlinkedModule.

Lemma tableNames_all : Forall (fun m => In m tableNames) tableNames.
Proof.
constructor; [left; reflexivity|].
constructor; [right; left; reflexivity | constructor].
Qed.

Lemma vendor_cleans_up_witness :
  let w := projectWorld [] in
  Os.log w = []
  /\ Forall (fun m => In m tableNames) tableNames
  /\ let w' := snd (Vendor "0.2.36" "devel" exampleBundle 0 tableNames "/proj" w) in
     (forall name t,
         In (lockEvent name t) (Os.log w') ->
         Tree.lookup (Os.fs w') (Os.at_path w' name) = Err ENOENT
         /\ Os.held w' = Os.held w)
     /\ (forall name t,
            In (stagingEvent name t) (Os.log w') ->
            Tree.lookup (Os.fs w') (Os.at_path w' name) = Err ENOENT).
Proof.
cbv zeta. split; [reflexivity|]. split; [exact tableNames_all|].
apply (vendor_cleans_up "0.2.36" "devel" exampleBundle 0 tableNames "/proj"
         (projectWorld [])); [reflexivity | exact tableNames_all].
Defined.

Lemma symlinked_module_left_alone_witness :
  let w := worldOldTool in
  let cuePkgDir := Path.Join ["/proj"; "cue.mod"; "pkg"] in
  let moduleDir := Path.Join [cuePkgDir; UniverseModule] in
  let tg := "/src/universe.dagger.io" in
  let w' := snd (Vendor "0.2.36" "devel" exampleBundle 0 tableNames "/proj" w) in
  (Os.log w = []
   /\ fst (projectRoot 0 "/proj" w) = Some "/proj"
   /\ In UniverseModule tableNames
   /\ Tree.lookup (Os.fs w) (Os.at_path w moduleDir) = Ok (Tree.Symlink tg))
  /\ (Tree.lookup (Os.fs w') (Os.at_path w' moduleDir) = Ok (Tree.Symlink tg)
      /\ Forall (fun e => Tree.lookup (Os.after e) (Os.at_path w moduleDir)
                          = Ok (Tree.Symlink tg)) (Os.log w'))
  /\ (forall unpackDir w1,
         Tree.lookup (Os.fs w1) (Os.at_path w1 moduleDir) = Ok (Tree.Symlink tg) ->
         vendorModule "0.2.36" "devel" cuePkgDir unpackDir UniverseModule w1
         = (([], None), w1))
  /\ (forall tool mv,
         checkModule (gv := Dotted.dotted) tool cuePkgDir (UniverseModule, mv) w
         = (None, w))
  /\ (forall cfuel mv pre post,
         fst (projectRoot cfuel "/proj" w) = Some "/proj" ->
         EnsureCompatibility (gv := Dotted.dotted) "0.2.36" "devel" cfuel
                             (pre ++ (UniverseModule, mv) :: post)%list "/proj" w
         = (fst (EnsureCompatibility (gv := Dotted.dotted) "0.2.36" "devel" cfuel
                                     (pre ++ post)%list "/proj" w), w)).
Proof.
cbv zeta.
split; [repeat split; try reflexivity; right; left; reflexivity|].
apply (symlinked_module_left_alone (gv := Dotted.dotted) "0.2.36" "devel"
         exampleBundle 0 tableNames "/proj" "/proj" UniverseModule
         "/src/universe.dagger.io" worldOldTool).
- reflexivity.
- reflexivity.
- right; left; reflexivity.
- exact tableNames_all.
- reflexivity.
Defined.

(** The run on a project whose [universe.dagger.io] is a link: the other
    module is vendored with its marker, the link is as it was, and neither
    the lock file nor the staging directory is left. *)
Example vendor_run_with_link :
  let w' := snd (Vendor "0.2.36" "devel" exampleBundle 0 tableNames "/proj"
                        worldOldTool) in
  fst (Vendor "0.2.36" "devel" exampleBundle 0 tableNames "/proj" worldOldTool)
  = Return None
  /\ Tree.lookup (Os.fs w') ["proj"; "cue.mod"; "pkg"]
     = Ok (Tree.Dir 493
             [("dagger.io",
               Tree.Dir 493
                 [("cue.mod",
                   Tree.Dir 493
                     [("version.txt", Tree.File 384 "0.2.36");
                      ("module.cue", Tree.File 448 "module: dagger.io")]);
                  ("dagger",
                   Tree.Dir 493 [("plan.cue", Tree.File 448 "package dagger")])]);
              (".gitattributes",
               Tree.File 384 ("# generated by dagger" ++ newline
                              ++ "** linguist-generated=true" ++ newline));
              ("universe.dagger.io", Tree.Symlink "/src/universe.dagger.io")])
  /\ existsb (fun e => match Os.call e, Os.outcome e with
                       | Os.CLock _, None => true
                       | _, _ => false
                       end) (Os.log w') = true
  /\ existsb (fun e => match Os.call e, Os.outcome e with
                       | Os.CMkdir _ 448, None => true
                       | _, _ => false
                       end) (Os.log w') = true.
Proof. cbv zeta. repeat split; vm_compute; reflexivity. Qed.

(** A bundle without [universe.dagger.io]: the swap of that module fails,
    the error is returned, and the lock file and the staging directory are
    gone all the same; the module swapped before stays swapped. *)
Example vendor_run_failing :
  let bundle := Embed.BDir [("dagger.io",
                             Embed.BDir [("x.cue", Embed.BFile "package x")])] in
  let w' := snd (Vendor "devel" "devel" bundle 0 tableNames "/proj" (projectWorld [])) in
  fst (Vendor "devel" "devel" bundle 0 tableNames "/proj" (projectWorld []))
  = Return (Some (LinkError "rename" "/proj/cue.mod/pkg/vendor-7/universe.dagger.io"
                            "/proj/cue.mod/pkg/universe.dagger.io" ENOENT))
  /\ Tree.lookup (Os.fs w') ["proj"; "cue.mod"; "pkg"]
     = Ok (Tree.Dir 493
             [("dagger.io", Tree.Dir 493 [("x.cue", Tree.File 448 "package x")]);
              (".gitattributes",
               Tree.File 384 ("# generated by dagger" ++ newline
                              ++ "** linguist-generated=true" ++ newline))])
  /\ Os.held w' = [].
Proof. cbv zeta. repeat split; vm_compute; reflexivity. Qed.

(** ** Extraction of the bundle                                          *)

Section Shapes.

Import Tree.

Lemma lookup_app (a b : list string) :
  forall t, lookup t (a ++ b)%list =
            match lookup t a with
            | Ok n => lookup n b
            | Err e => Err e
            end.
Proof.
induction a as [|c a IH]; intros t; [reflexivity|].
destruct t as [p d|tg|p es]; try reflexivity.
rewrite <- app_comm_cons, !lookup_cons.
destruct (ents_get c es); [apply IH | reflexivity].
Qed.

Lemma shapeAt_nil (t : node) : shapeAt t [] = Some (shape t).
Proof. reflexivity. Qed.

Lemma shapeAt_cons (p : N) (es : list (string * node)) (c : string)
      (rest : list string) :
  shapeAt (Dir p es) (c :: rest) =
  match ents_get c es with
  | Some n => shapeAt n rest
  | None => None
  end.
Proof.
unfold shapeAt. rewrite lookup_cons. destruct (ents_get c es); reflexivity.
Qed.

Lemma shapeAt_leaf (t : node) (c : string) (rest : list string) :
  leaf t = true -> shapeAt t (c :: rest) = None.
Proof. destruct t; [reflexivity | reflexivity | discriminate]. Qed.

Lemma shapeAt_app_none (t : node) (a b : list string) :
  shapeAt t a = None -> shapeAt t (a ++ b)%list = None.
Proof.
unfold shapeAt. rewrite lookup_app. destruct (lookup t a); [discriminate | reflexivity].
Qed.

Lemma shapeAt_app_file (t : node) (a b : list string) (p : N) (d : string) :
  shapeAt t a = Some (File p d) -> b <> [] -> shapeAt t (a ++ b)%list = None.
Proof.
unfold shapeAt. rewrite lookup_app. intros H Hb.
destruct (lookup t a) as [n|e]; [|discriminate].
destruct n; try discriminate. destruct b; [congruence | reflexivity].
Qed.

(** Above a path that leads somewhere there are directories. *)
Lemma shapeAt_prefix_dir (t : node) (a b : list string) :
  shapeAt t (a ++ b)%list <> None -> b <> [] ->
  exists p, shapeAt t a = Some (Dir p []).
Proof.
unfold shapeAt. rewrite lookup_app. intros H Hb.
destruct (lookup t a) as [n|e]; [|congruence].
destruct n as [p d|tg|p es]; [| |exists p; reflexivity];
  destruct b; simpl in H; congruence.
Qed.

(** What [write] of a new file changes. *)
Lemma write_shape (perm : N) (data : string) (cs : list string) (x : string) :
  forall (t : node) (pd : N),
    shapeAt t cs = Some (Dir pd []) ->
    shapeAt t (cs ++ [x])%list = None ->
    exists t', write perm data t (cs ++ [x])%list = Ok t'
               /\ forall r, shapeAt t' r =
                            if path_eqb r (cs ++ [x])%list
                            then Some (File perm data) else shapeAt t r.
Proof.
induction cs as [|c cs IH]; intros t pd Hd Hx.
- destruct t as [p d|tg|p es]; try discriminate.
  simpl app in *. rewrite shapeAt_cons in Hx.
  destruct (ents_get x es) as [n|] eqn:Hg.
  { unfold shapeAt in Hx. simpl in Hx. discriminate. }
  unfold write. rewrite alter_cons1, Hg. simpl.
  eexists. split; [reflexivity|]. intros r.
  destruct r as [|y r]; [reflexivity|].
  rewrite !shapeAt_cons. unfold path_eqb. simpl.
  destruct (String.eqb y x) eqn:Hyx.
  + apply String.eqb_eq in Hyx. subst y. rewrite ents_get_set_same, Hg.
    rewrite String.eqb_refl. simpl.
    destruct r as [|z r]; reflexivity.
  + rewrite ents_get_set_other by (rewrite String.eqb_sym; exact Hyx).
    reflexivity.
- destruct t as [p d|tg|p es]; try discriminate.
  rewrite <- app_comm_cons in *. rewrite shapeAt_cons in Hd, Hx.
  destruct (ents_get c es) as [n|] eqn:Hg; [|discriminate].
  destruct (IH n pd Hd Hx) as [n' [Hw Hr]].
  unfold write in *.
  assert (Hne : exists c2 rest, (cs ++ [x])%list = c2 :: rest).
  { destruct cs; simpl; eauto. }
  destruct Hne as [c2 [rest Hne]]. rewrite Hne in *.
  rewrite alter_cons2, Hg, Hw.
  eexists. split; [reflexivity|]. intros r.
  destruct r as [|y r]; [reflexivity|].
  rewrite !shapeAt_cons. unfold path_eqb. simpl.
  destruct (String.eqb y c) eqn:Hyc.
  + apply String.eqb_eq in Hyc. subst y. rewrite ents_get_set_same, Hg.
    rewrite String.eqb_refl. simpl. rewrite Hr. reflexivity.
  + rewrite ents_get_set_other by (rewrite String.eqb_sym; exact Hyc).
    reflexivity.
Qed.

(** What [mkdirAll] changes: the missing directories of the path. *)
Lemma mkdirAll_shape (perm : N) (cs : list string) :
  forall t : node,
    (forall q, is_prefix q cs = true ->
               shapeAt t q = None \/ exists pd, shapeAt t q = Some (Dir pd [])) ->
    exists t', mkdirAll perm t cs = Ok t'
               /\ forall r, shapeAt t' r =
                            match shapeAt t r with
                            | Some s => Some s
                            | None => if is_prefix r cs then Some (Dir perm []) else None
                            end.
Proof.
induction cs as [|c cs IH]; intros t Hp.
- destruct (Hp [] eq_refl) as [H|[pd H]]; [discriminate|].
  destruct t as [p d|tg|p es]; try discriminate.
  exists (Dir p es). split; [reflexivity|]. intros r.
  destruct (shapeAt (Dir p es) r) eqn:E; [reflexivity|].
  destruct r; [discriminate | reflexivity].
- destruct (Hp [] eq_refl) as [H|[pd H]]; [discriminate|].
  destruct t as [p d|tg|p es]; try discriminate.
  simpl mkdirAll.
  set (child := match ents_get c es with Some n => n | None => Dir perm [] end).
  assert (Hchild : forall q, is_prefix q cs = true ->
             shapeAt child q = None \/ exists pd, shapeAt child q = Some (Dir pd [])).
  { intros q Hq. unfold child. destruct (ents_get c es) as [n|] eqn:Hg.
    - specialize (Hp (c :: q)). simpl in Hp. rewrite String.eqb_refl in Hp.
      specialize (Hp Hq). rewrite shapeAt_cons, Hg in Hp. exact Hp.
    - destruct q; [right; exists perm; reflexivity | left; reflexivity]. }
  destruct (IH child Hchild) as [n' [Hmk Hr]]. rewrite Hmk.
  eexists. split; [reflexivity|]. intros r.
  destruct r as [|y r]; [reflexivity|].
  rewrite !shapeAt_cons. simpl is_prefix.
  destruct (String.eqb y c) eqn:Hyc.
  + apply String.eqb_eq in Hyc. subst y. rewrite ents_get_set_same, Hr.
    unfold child. simpl. destruct (ents_get c es) as [n|]; [reflexivity|].
    destruct r; reflexivity.
  + rewrite ents_get_set_other by (rewrite String.eqb_sym; exact Hyc).
    simpl. destruct (ents_get y es) as [n|]; [|reflexivity].
    destruct (shapeAt n r); reflexivity.
Qed.

End Shapes.

Lemma dirPrefix_noslash (x : string) :
  Strings.hasSlash x = false -> Path.dirPrefix x = EmptyString.
Proof.
destruct x as [|c x]; [reflexivity|]. simpl. intros H.
apply orb_false_iff in H. destruct H as [Hc Hx]. rewrite Hx, Hc. reflexivity.
Qed.

Lemma dirPrefix_app (a x : string) :
  Strings.hasSlash x = false ->
  Path.dirPrefix (a ++ String Strings.slash x) = a ++ String Strings.slash EmptyString.
Proof.
intros Hx. induction a as [|c a IH].
- simpl. rewrite Hx. reflexivity.
- simpl. rewrite hasSlash_app. simpl. rewrite orb_true_r. rewrite IH. reflexivity.
Qed.

Lemma parse_trailing_slash (a : string) :
  a <> EmptyString ->
  Path.parse (a ++ String Strings.slash EmptyString) = Path.parse a.
Proof.
intros Ha. unfold Path.parse. rewrite (IsAbs_app a _ Ha).
rewrite SplitSlash_app. rewrite fold_left_app. reflexivity.
Qed.

Lemma simple_good (r : bool) (st : list string) :
  Forall (fun c => simple c = true) st -> good r st.
Proof.
induction 1 as [|c st Hc _ IH]; [exact I|].
destruct (simple_spec _ Hc) as [H1 [H2 [H3 H4]]].
simpl. repeat split; try assumption; contradiction.
Qed.

Lemma good_push_simple (r : bool) (names st : list string) :
  Forall (fun c => simple c = true) names -> good r st ->
  good r (rev names ++ st)%list.
Proof.
intros Hn Hst. apply Forall_rev in Hn.
induction Hn as [|c l Hc _ IH]; [exact Hst|].
destruct (simple_spec _ Hc) as [H1 [H2 [H3 H4]]].
simpl. repeat split; try assumption; contradiction.
Qed.

Lemma render_nonempty (r : bool) (cs : list string) :
  Forall (fun c => c <> EmptyString) cs -> Path.render (r, cs) <> EmptyString.
Proof.
intros H. destruct r; [discriminate|].
destruct cs as [|c cs]; [discriminate|].
inversion H as [|? ? Hc _]; subst. simpl.
destruct cs; [exact Hc|]. destruct c; [congruence | discriminate].
Qed.

(** [filepath.Dir] of a cleaned path drops its last element. *)
Lemma parse_Dir (r : bool) (cs : list string) (x : string) :
  good r (rev cs) -> Strings.hasSlash x = false ->
  Path.parse (Path.Dir (Path.render (r, (cs ++ [x])%list))) = (r, cs).
Proof.
intros Hg Hx. unfold Path.Dir. rewrite parse_Clean, render_snoc.
unfold renderPrefix. destruct cs as [|c cs'].
- destruct r.
  + change (String Strings.slash EmptyString ++ x)
      with (EmptyString ++ String Strings.slash x).
    rewrite dirPrefix_app by exact Hx. reflexivity.
  + simpl append. rewrite dirPrefix_noslash by exact Hx. reflexivity.
- rewrite append_assoc.
  change (String Strings.slash EmptyString ++ x) with (String Strings.slash x).
  rewrite dirPrefix_app by exact Hx.
  rewrite parse_trailing_slash.
  + apply parse_render. exact Hg.
  + apply render_nonempty. pose proof (good_nonempty _ _ Hg) as H.
    apply Forall_rev in H. rewrite rev_involutive in H. exact H.
Qed.

Lemma parse_walkName (cs : list string) :
  Forall (fun c => simple c = true) cs ->
  Path.parse (walkName cs) = (false, cs).
Proof.
intros H. apply parse_render. apply simple_good. apply Forall_rev. exact H.
Qed.

Lemma walkName_snoc (cs : list string) (n : string) :
  Forall (fun c => simple c = true) cs -> simple n = true ->
  Path.Join [walkName cs; n] = walkName (cs ++ [n])%list.
Proof.
intros Hcs Hn. destruct (simple_spec _ Hn) as [Hns [Hne _]].
rewrite Join_rendered.
- rewrite parse_Join2 by (rewrite (SplitSlash_noslash n Hns); repeat constructor; exact Hn).
  rewrite (SplitSlash_noslash n Hns), parse_walkName by exact Hcs.
  assert (Ha : Path.IsAbs (walkName cs) = false).
  { change (fst (Path.parse (walkName cs)) = false). rewrite parse_walkName by exact Hcs.
    reflexivity. }
  rewrite Ha. reflexivity.
- simpl. destruct (String.eqb (walkName cs) EmptyString);
    rewrite (proj2 (String.eqb_neq _ _) Hne); discriminate.
Qed.

Lemma walkName_joined (cs : list string) :
  cs <> [] -> walkName cs = Strings.JoinSlash cs.
Proof. destruct cs; [congruence | reflexivity]. Qed.

Lemma SplitSlash_walkName (cs : list string) :
  cs <> [] -> Forall (fun c => simple c = true) cs ->
  Strings.SplitSlash (walkName cs) = cs.
Proof.
intros Hne Hs. rewrite walkName_joined by exact Hne.
rewrite SplitSlash_JoinSlash by exact Hne.
apply concat_map_singleton. apply simple_noslash_all. exact Hs.
Qed.

Lemma simple_validElem (c : string) : simple c = true -> Embed.validElem c = true.
Proof.
unfold simple, Embed.validElem. intros H.
apply andb_true_iff in H. destruct H as [H H3].
apply andb_true_iff in H. destruct H as [H H2].
apply andb_true_iff in H. destruct H as [_ H1].
rewrite H1, H2, H3. reflexivity.
Qed.

Lemma elems_walkName (cs : list string) :
  Forall (fun c => simple c = true) cs ->
  Embed.elems (walkName cs) = Some cs.
Proof.
intros Hs. destruct cs as [|c cs']; [reflexivity|].
unfold Embed.elems.
assert (Hsp : Strings.SplitSlash (walkName (c :: cs')) = c :: cs')
  by (apply SplitSlash_walkName; [discriminate | exact Hs]).
destruct (String.eqb (walkName (c :: cs')) ".") eqn:E.
- apply String.eqb_eq in E. rewrite E in Hsp. simpl in Hsp.
  injection Hsp as Hc _. inversion Hs as [|? ? Hc' _]; subst. discriminate.
- rewrite Hsp.
  assert (Hv : forallb Embed.validElem (c :: cs') = true).
  { apply forallb_forall. intros y Hy. apply simple_validElem.
    rewrite Forall_forall in Hs. apply Hs. exact Hy. }
  rewrite Hv. reflexivity.
Qed.

(** Where an entry of the bundle goes, and its directory. *)
Lemma resolve_overlay (wd dest : string) (cs : list string) :
  cs <> [] -> Forall (fun c => simple c = true) cs ->
  Path.resolve wd (Path.Join [dest; walkName cs]) = (Path.resolve wd dest ++ cs)%list.
Proof.
intros Hne Hs. rewrite resolve_Join2; rewrite SplitSlash_walkName by assumption;
  [reflexivity | exact Hs].
Qed.

Lemma resolve_overlay_Dir (wd dest : string) (cs : list string) (x : string) :
  Forall (fun c => simple c = true) cs -> simple x = true ->
  Path.resolve wd (Path.Dir (Path.Join [dest; walkName (cs ++ [x])%list]))
  = (Path.resolve wd dest ++ cs)%list.
Proof.
intros Hcs Hx.
assert (Hall : Forall (fun c => simple c = true) (cs ++ [x])%list)
  by (apply Forall_app; split; [exact Hcs | repeat constructor; exact Hx]).
assert (Hne : (cs ++ [x])%list <> []) by (destruct cs; discriminate).
rewrite Join_rendered.
2:{ assert (Hw : walkName (cs ++ [x])%list <> EmptyString).
    { apply render_nonempty. eapply Forall_impl; [|exact Hall].
      intros a Ha. destruct (simple_spec _ Ha) as [_ [H _]]. exact H. }
    simpl. rewrite (proj2 (String.eqb_neq _ _) Hw).
    destruct (String.eqb dest EmptyString); discriminate. }
rewrite parse_Join2 by (rewrite SplitSlash_walkName by assumption; exact Hall).
rewrite SplitSlash_walkName by assumption.
rewrite app_assoc.
rewrite resolve_absolutize, parse_Dir.
- rewrite absolutize_snoc by exact Hcs.
  rewrite resolve_absolutize. destruct (Path.parse dest) eqn:E.
  unfold Path.parse in E. injection E as E1 E2. subst. reflexivity.
- rewrite rev_app_distr. apply good_push_simple; [exact Hcs|].
  unfold Path.parse. simpl snd. rewrite rev_involutive. apply parse_good.
- destruct (simple_spec _ Hx) as [H _]. exact H.
Qed.

Lemma nodupb_NoDup (l : list string) : nodupb l = true -> NoDup l.
Proof.
induction l as [|x r IH]; intros H; [constructor|].
simpl in H. apply andb_true_iff in H. destruct H as [Hx Hr].
constructor; [|exact (IH Hr)].
intros Hin. apply negb_true_iff in Hx.
assert (Ht : existsb (String.eqb x) r = true).
{ apply existsb_exists. exists x. split; [exact Hin | apply String.eqb_refl]. }
congruence.
Qed.

Lemma bget_In (n : string) (d : Embed.bnode) (es : list (string * Embed.bnode)) :
  NoDup (map fst es) -> In (n, d) es -> Embed.bget n es = Some d.
Proof.
induction es as [|[n1 d1] es IH]; intros Hnd Hin; [contradiction|].
simpl in Hnd. inversion Hnd as [|? ? Hnot Hnd']; subst.
unfold Embed.bget. simpl. destruct Hin as [Heq|Hin].
- injection Heq as -> ->. rewrite String.eqb_refl. reflexivity.
- destruct (String.eqb n1 n) eqn:E.
  + apply String.eqb_eq in E. subst n1. exfalso. apply Hnot.
    apply in_map_iff. exists (n, d). split; [reflexivity | exact Hin].
  + apply IH; assumption.
Qed.

Lemma bget_Some (n : string) (d : Embed.bnode) (es : list (string * Embed.bnode)) :
  Embed.bget n es = Some d -> In (n, d) es.
Proof.
unfold Embed.bget. destruct (find _ es) as [[n1 d1]|] eqn:E; [|discriminate].
intros H. injection H as <-. apply find_some in E. destruct E as [Hin Heq].
simpl in Heq. apply String.eqb_eq in Heq. subst n1. exact Hin.
Qed.

Lemma wellFormed_entry (es : list (string * Embed.bnode)) (n : string)
      (d : Embed.bnode) :
  wellFormed (Embed.BDir es) = true -> In (n, d) es ->
  simple n = true /\ wellFormed d = true /\ Embed.bget n es = Some d.
Proof.
intros H Hin. simpl in H. apply andb_true_iff in H. destruct H as [Hnd Hall].
rewrite forallb_forall in Hall. specialize (Hall (n, d) Hin). simpl in Hall.
apply andb_true_iff in Hall. destruct Hall as [Hs Hw].
split; [exact Hs|]. split; [exact Hw|].
apply bget_In; [apply nodupb_NoDup; exact Hnd | exact Hin].
Qed.

Lemma blookup_app (a b : list string) :
  forall t, Embed.blookup t (a ++ b)%list =
            match Embed.blookup t a with
            | Ok n => Embed.blookup n b
            | Err e => Err e
            end.
Proof.
induction a as [|c a IH]; intros t; [reflexivity|].
destruct t as [data|es]; [reflexivity|].
simpl. destruct (Embed.bget c es); [apply IH | reflexivity].
Qed.

Lemma blookup_file_end (t : Embed.bnode) (a b : list string) (data data' : string) :
  Embed.blookup t a = Ok (Embed.BFile data) ->
  Embed.blookup t (a ++ b)%list = Ok (Embed.BFile data') ->
  b = [] /\ data' = data.
Proof.
intros Ha Hab. rewrite blookup_app, Ha in Hab.
destruct b; [|discriminate]. simpl in Hab. injection Hab as <-. auto.
Qed.

Lemma is_prefix_app_cases (q a b : list string) :
  Tree.is_prefix q (a ++ b)%list = true ->
  (exists r, r <> [] /\ a = (q ++ r)%list)
  \/ (exists q' r, q = (a ++ q')%list /\ b = (q' ++ r)%list).
Proof.
revert q. induction a as [|c a IH]; intros q H.
- right. destruct (is_prefix_split _ _ H) as [r Hr]. exists q, r. auto.
- destruct q as [|y q0].
  + left. exists (c :: a). split; [discriminate | reflexivity].
  + simpl in H. apply andb_true_iff in H. destruct H as [Hy H].
    apply String.eqb_eq in Hy. subst y.
    destruct (IH q0 H) as [[r [Hr Ha]]|[q' [r [Hq Hb]]]].
    * left. exists r. split; [exact Hr | simpl; congruence].
    * right. exists q', r. split; [simpl; congruence | exact Hb].
Qed.

Lemma path_eqb_neq (a b : list string) : a <> b -> Tree.path_eqb a b = false.
Proof.
intros H. destruct (Tree.path_eqb a b) eqn:E; [|reflexivity].
apply path_eqb_eq in E. contradiction.
Qed.

Lemma path_eqb_refl (a : list string) : Tree.path_eqb a a = true.
Proof. apply path_eqb_eq. reflexivity. Qed.

Section Extract.

Variable FS : Embed.bnode.
Variable D : list string.

Lemma mirrored_ext (done done' : list string -> Prop) (t : Tree.node) :
  (forall c data, Embed.blookup FS c = Ok (Embed.BFile data) -> vendored c = true ->
                  (done c <-> done' c)) ->
  mirrored FS D done t -> mirrored FS D done' t.
Proof.
intros Heq [HD [Hfiles Honly]]. split; [exact HD|]. split.
- intros cs data Hd Hb Hv. apply Hfiles; try assumption.
  apply (Heq cs data Hb Hv). exact Hd.
- intros cs s Hne Hs. destruct (Honly cs s Hne Hs) as [[data [H1 [H2 [H3 H4]]]]|[H1 H2]].
  + left. exists data. repeat split; try assumption. apply (Heq cs data H2 H3). exact H4.
  + right. split; [exact H1|]. destruct H2 as [cs' [data [H2 [H3 [H4 H5]]]]].
    exists cs', data. repeat split; try assumption. apply (Heq _ data H3 H4). exact H5.
Qed.

(** One file more. *)
Lemma mirrored_step (done : list string -> Prop) (t : Tree.node)
      (cs : list string) (x data : string) :
  mirrored FS D done t ->
  Embed.blookup FS (cs ++ [x])%list = Ok (Embed.BFile data) ->
  vendored (cs ++ [x])%list = true ->
  ~ done (cs ++ [x])%list ->
  exists t1 t2,
    Tree.mkdirAll 493 t (D ++ cs)%list = Ok t1
    /\ Tree.write 448 data t1 ((D ++ cs) ++ [x])%list = Ok t2
    /\ mirrored FS D (fun c => done c \/ c = (cs ++ [x])%list) t2.
Proof.
intros [[pd HD] [Hfiles Honly]] Hb Hv Hnew.
assert (Hpre : forall q, Tree.is_prefix q (D ++ cs)%list = true ->
                 shapeAt t q = None
                 \/ exists pd', shapeAt t q = Some (Tree.Dir pd' [])).
{ intros q Hq. destruct (is_prefix_app_cases _ _ _ Hq) as [[r [Hr Ha]]|[q' [r [Hq' Hcs]]]].
  - right. apply (shapeAt_prefix_dir t q r); [|exact Hr]. rewrite <- Ha, HD. discriminate.
  - subst q. destruct q' as [|y q'].
    + right. exists pd. rewrite app_nil_r. exact HD.
    + destruct (shapeAt t (D ++ y :: q')%list) as [s|] eqn:E; [|left; reflexivity].
      destruct (Honly (y :: q') s ltac:(discriminate) E)
        as [[data' [_ [Hb' _]]]|[Hs _]].
      * exfalso. subst cs. rewrite <- app_assoc in Hb.
        destruct (blookup_file_end _ _ _ _ _ Hb' Hb) as [Hnil _].
        destruct r; discriminate.
      * right. exists 493%N. rewrite Hs. reflexivity. }
destruct (mkdirAll_shape 493 (D ++ cs)%list t Hpre) as [t1 [Hmk H1]].
assert (Hfree : shapeAt t (D ++ (cs ++ [x]))%list = None).
{ destruct (shapeAt t (D ++ (cs ++ [x]))%list) as [s|] eqn:E; [|reflexivity].
  exfalso.
  destruct (Honly (cs ++ [x])%list s ltac:(destruct cs; discriminate) E)
    as [[data' [_ [_ [_ Hd]]]]|[_ [cs' [data' [Hne [Hb' _]]]]]].
  - exact (Hnew Hd).
  - destruct (blookup_file_end _ _ _ _ _ Hb Hb') as [Hnil _]. contradiction. }
assert (Hdir : exists pd', shapeAt t1 (D ++ cs)%list = Some (Tree.Dir pd' [])).
{ rewrite H1. destruct (Hpre (D ++ cs)%list (is_prefix_refl _)) as [E|[pd' E]]; rewrite E.
  - rewrite is_prefix_refl. eauto.
  - eauto. }
destruct Hdir as [pd' Hdir].
assert (Hfree1 : shapeAt t1 ((D ++ cs) ++ [x])%list = None).
{ rewrite H1, <- app_assoc, Hfree, app_assoc, is_prefix_longer. reflexivity. }
destruct (write_shape 448 data (D ++ cs)%list x t1 pd' Hdir Hfree1) as [t2 [Hwr H2]].
exists t1, t2. split; [exact Hmk|]. split; [exact Hwr|].
split; [|split].
- exists pd. rewrite H2, path_eqb_neq.
  + rewrite H1, HD. reflexivity.
  + rewrite <- app_assoc. rewrite <- (app_nil_r D) at 1.
    intros E. apply app_inv_head in E. destruct cs; discriminate.
- intros c data' Hd Hb' Hv'. rewrite H2.
  destruct (list_string_dec c (cs ++ [x])%list) as [->|Hne].
  + rewrite app_assoc, path_eqb_refl.
    rewrite Hb in Hb'. injection Hb' as ->. reflexivity.
  + rewrite path_eqb_neq.
    * rewrite H1. destruct Hd as [Hd|Hd]; [|contradiction].
      rewrite (Hfiles c data' Hd Hb' Hv'). reflexivity.
    * rewrite <- app_assoc. intros E. apply app_inv_head in E. contradiction.
- intros c s Hc Hs. rewrite H2 in Hs.
  destruct (list_string_dec c (cs ++ [x])%list) as [->|Hne].
  + rewrite app_assoc, path_eqb_refl in Hs. injection Hs as <-.
    left. exists data. auto.
  + rewrite path_eqb_neq in Hs
      by (rewrite <- app_assoc; intros E; apply app_inv_head in E; contradiction).
    rewrite H1 in Hs. destruct (shapeAt t (D ++ c)%list) as [s0|] eqn:E.
    * injection Hs as <-.
      destruct (Honly c s0 Hc E) as [[d0 [G1 [G2 [G3 G4]]]]|[G1 [cs' [d0 [G2 [G3 [G4 G5]]]]]]].
      -- left. exists d0. auto.
      -- right. split; [exact G1|]. exists cs', d0. auto.
    * destruct (Tree.is_prefix (D ++ c)%list (D ++ cs)%list) eqn:Ep; [|discriminate].
      injection Hs as <-. right. split; [reflexivity|].
      destruct (is_prefix_split _ _ Ep) as [r Hr].
      rewrite <- app_assoc in Hr. apply app_inv_head in Hr. subst cs.
      exists (r ++ [x])%list, data. rewrite app_assoc.
      split; [destruct r; discriminate|]. auto.
Qed.

End Extract.

Lemma mutate_ok (c : Os.Call) (mk : Errno -> error)
      (f : Os.World -> result Errno Tree.node) (w : Os.World) (t' : Tree.node) :
  f w = Ok t' ->
  fst (Os.mutate c mk f w) = None
  /\ Os.fs (snd (Os.mutate c mk f w)) = t'
  /\ Os.wd (snd (Os.mutate c mk f w)) = Os.wd w.
Proof. intros H. unfold Os.mutate. rewrite H. auto. Qed.

Section ExtractRun.

Variable FS : Embed.bnode.
Variable wd0 dest : string.

Local Abbreviation St := (extracting FS wd0 dest).

Lemma extracting_ext (done done' : list string -> Prop) (w : Os.World) :
  (forall c data, Embed.blookup FS c = Ok (Embed.BFile data) -> vendored c = true ->
                  (done c <-> done' c)) ->
  St done w -> St done' w.
Proof.
intros Heq [Hwd Hm]. split; [exact Hwd|]. exact (mirrored_ext _ _ _ _ _ Heq Hm).
Qed.

Lemma extractEntry_file (done : list string -> Prop) (cs : list string)
      (x data : string) :
  Forall (fun c => simple c = true) (cs ++ [x])%list ->
  Embed.blookup FS (cs ++ [x])%list = Ok (Embed.BFile data) ->
  ~ done (cs ++ [x])%list ->
  triple (St done)
         (extractEntry FS dest (walkName (cs ++ [x])%list) (Embed.BFile data))
         (fun e w' => St (fun c => done c \/ c = (cs ++ [x])%list) w' /\ e = None).
Proof.
intros Hs Hb Hnew w [Hwd Hm]. unfold extractEntry.
change (negb (Os.IsRegular (Embed.Type_ (Embed.BFile data)))) with false.
cbv iota.
destruct (Strings.Contains (walkName (cs ++ [x])%list) "cue.mod/pkg") eqn:Hc.
- split; [|reflexivity]. split; [exact Hwd|].
  apply (mirrored_ext FS _ done); [|exact Hm].
  intros c d Hcb Hv. split; [auto|]. intros [H| ->]; [exact H|].
  unfold vendored in Hv. rewrite Hc in Hv. discriminate.
- unfold Embed.ReadFile. rewrite (elems_walkName _ Hs), Hb.
  assert (Hv : vendored (cs ++ [x])%list = true) by (unfold vendored; rewrite Hc; reflexivity).
  destruct (mirrored_step FS _ done (Os.fs w) cs x data Hm Hb Hv Hnew)
    as [t1 [t2 [Hmk [Hwr Hm2]]]].
  apply Forall_app in Hs as Hs'. destruct Hs' as [Hcs Hx].
  apply Forall_inv in Hx.
  unfold Os.bind, Os.MkdirAll.
  destruct (mutate_ok
              (Os.CMkdirAll (Path.Dir (Path.Join [dest; walkName (cs ++ [x])%list])) 493)
              (PathError "mkdir" (Path.Dir (Path.Join [dest; walkName (cs ++ [x])%list])))
              (fun w0 => Tree.mkdirAll 493 (Os.fs w0)
                           (Os.at_path w0 (Path.Dir (Path.Join [dest; walkName (cs ++ [x])%list]))))
              w t1) as [E1 [E2 E3]].
  { unfold Os.at_path. rewrite Hwd, resolve_overlay_Dir by assumption. exact Hmk. }
  destruct (Os.mutate _ _ _ w) as [e1 w1]. simpl in E1, E2, E3. subst e1.
  unfold Os.WriteFile.
  destruct (mutate_ok
              (Os.CWriteFile (Path.Join [dest; walkName (cs ++ [x])%list]) data 448)
              (PathError "open" (Path.Join [dest; walkName (cs ++ [x])%list]))
              (fun w0 => Tree.write 448 data (Os.fs w0)
                           (Os.at_path w0 (Path.Join [dest; walkName (cs ++ [x])%list])))
              w1 t2) as [F1 [F2 F3]].
  { unfold Os.at_path. rewrite E3, Hwd, resolve_overlay by (try assumption; destruct cs; discriminate).
    rewrite E2, app_assoc. exact Hwr. }
  split; [|exact F1]. split; [congruence|]. rewrite F2. exact Hm2.
Qed.

Lemma extractEntry_dir (J : Os.World -> Prop) (name : string)
      (es : list (string * Embed.bnode)) :
  triple J (extractEntry FS dest name (Embed.BDir es)) (fun e w' => J w' /\ e = None).
Proof. intros w Hw. split; [exact Hw | reflexivity]. Qed.

(** The walk of the entry at [pre] extracts the files below it. *)
Lemma walkDir_extracts (d : Embed.bnode) :
  forall (pre : list string) (done : list string -> Prop),
    Forall (fun c => simple c = true) pre ->
    Embed.blookup FS pre = Ok d ->
    wellFormed d = true ->
    (pre = [] -> exists es, d = Embed.BDir es) ->
    (forall c, done c -> Tree.is_prefix pre c = false) ->
    triple (St done)
           (Embed.walkDir (extractEntry FS dest) (walkName pre) d)
           (fun e w' => St (fun c => done c \/ Tree.is_prefix pre c = true) w'
                        /\ e = None).
Proof.
induction d as [data|es IH] using bnode_induction;
  intros pre done Hpre Hb Hwf Hroot Hdone.
- destruct (exists_last (l := pre)) as [cs [x ->]].
  { intros ->. destruct (Hroot eq_refl); discriminate. }
  simpl. eapply triple_bind.
  + apply extractEntry_file; try eassumption.
    intros Hd. specialize (Hdone _ Hd). rewrite is_prefix_refl in Hdone. discriminate.
  + intros e. apply triple_assume. intros ->. apply triple_ret.
    intros w Hw. split; [|reflexivity].
    apply (extracting_ext (fun c => done c \/ c = (cs ++ [x])%list)); [|exact Hw].
    intros c d' Hcb _. split; (intros [H|H]; [left; exact H | right]).
    * subst c. apply is_prefix_refl.
    * destruct (is_prefix_split _ _ H) as [r ->].
      destruct (blookup_file_end _ _ _ _ _ Hb Hcb) as [-> _].
      apply app_nil_r.
- simpl. eapply triple_bind; [apply extractEntry_dir | intros e].
  apply triple_assume. intros ->.
  assert (Hin : forall n d, In (n, d) es ->
            simple n = true /\ wellFormed d = true
            /\ Embed.blookup FS (pre ++ [n])%list = Ok d).
  { intros n d Hnd. destruct (wellFormed_entry es n d Hwf Hnd) as [H1 [H2 H3]].
    split; [exact H1|]. split; [exact H2|].
    rewrite blookup_app, Hb. simpl. rewrite H3. reflexivity. }
  assert (Hnd : NoDup (map fst es)).
  { simpl in Hwf. apply andb_true_iff in Hwf. apply nodupb_NoDup. apply Hwf. }
  eapply triple_weaken with
    (Pre' := St done)
    (Post' := fun e w' =>
                St (fun c => done c
                             \/ exists n, In n (map fst es)
                                          /\ Tree.is_prefix (pre ++ [n])%list c = true) w'
                /\ e = None).
  2:{ auto. }
  2:{ intros e w' [Hw He]. split; [|exact He].
      refine (extracting_ext _ _ _ _ Hw). intros c d' Hcb _.
      split; (intros [H|H]; [left; exact H | right]).
      - destruct H as [n [_ H]]. destruct (is_prefix_split _ _ H) as [r ->].
        rewrite <- app_assoc. apply is_prefix_app.
      - destruct (is_prefix_split _ _ H) as [r ->].
        rewrite blookup_app, Hb in Hcb. destruct r as [|n r]; [discriminate|].
        simpl in Hcb. destruct (Embed.bget n es) as [dn|] eqn:Hg; [|discriminate].
        exists n. split.
        + apply in_map_iff. exists (n, dn). split; [reflexivity|].
          apply bget_Some. exact Hg.
        + change (n :: r) with ([n] ++ r)%list. rewrite app_assoc. apply is_prefix_app. }
  assert (Hdone' : forall c n, done c -> In n (map fst es) ->
                               Tree.is_prefix (pre ++ [n])%list c = false).
  { intros c n Hd _. specialize (Hdone c Hd).
    destruct (Tree.is_prefix (pre ++ [n])%list c) eqn:E; [|reflexivity].
    destruct (is_prefix_split _ _ E) as [r ->].
    rewrite <- app_assoc, is_prefix_app in Hdone. discriminate. }
  clear Hb Hwf Hroot Hdone.
  revert done Hdone' Hin Hnd.
  induction IH as [|[n1 d1] es' Hd1 _ IHes]; intros done Hdone Hin Hnd.
  + apply triple_ret. intros w Hw. split; [|reflexivity].
    apply (extracting_ext done); [|exact Hw].
    intros c d' _ _. split; [auto|]. intros [H|[n [[] _]]]. exact H.
  + destruct (Hin n1 d1 (or_introl eq_refl)) as [Hs1 [Hw1 Hb1]].
    simpl in Hnd. inversion Hnd as [|? ? Hnot Hnd']; subst.
    eapply triple_bind.
    * rewrite walkName_snoc by assumption.
      apply (Hd1 (pre ++ [n1])%list done).
      -- apply Forall_app. split; [exact Hpre | repeat constructor; exact Hs1].
      -- exact Hb1.
      -- exact Hw1.
      -- intros E. destruct pre; discriminate.
      -- intros c Hd. apply Hdone; [exact Hd | left; reflexivity].
    * intros e1. apply triple_assume. intros ->.
      eapply triple_weaken.
      -- apply (IHes (fun c => done c \/ Tree.is_prefix (pre ++ [n1])%list c = true)).
         ++ intros c n [Hd|Hp] Hn.
            ** apply Hdone; [exact Hd | right; exact Hn].
            ** destruct (is_prefix_split _ _ Hp) as [r ->].
               rewrite <- app_assoc. simpl. apply is_prefix_fork.
               apply String.eqb_neq. intros ->. contradiction.
         ++ intros n d Hnd0. apply Hin. right. exact Hnd0.
         ++ exact Hnd'.
      -- auto.
      -- intros e w' [Hw He]. split; [|exact He].
         refine (extracting_ext _ _ _ _ Hw). intros c d' _ _.
         simpl. split.
         ++ intros [[H|H]|[n [Hn H]]]; [left; exact H | right; exists n1; auto
                                       | right; exists n; auto].
         ++ intros [H|[n [[<- | Hn] H]]]; [left; left; exact H | left; right; exact H
                                          | right; exists n; auto].
Qed.

End ExtractRun.

Lemma shapeAt_file (t : Tree.node) (r : list string) (p : N) (data : string) :
  shapeAt t r = Some (Tree.File p data) -> Tree.lookup t r = Ok (Tree.File p data).
Proof.
unfold shapeAt. destruct (Tree.lookup t r) as [n|e]; [|discriminate].
destruct n; simpl; congruence.
Qed.

Lemma vendored_joined (cs : list string) :
  cs <> [] ->
  vendored cs = negb (Strings.Contains (Strings.JoinSlash cs) "cue.mod/pkg").
Proof. intros H. unfold vendored. rewrite walkName_joined by exact H. reflexivity. Qed.

(** X18.  What the extraction does.  For every well-formed bundle and
    every empty destination directory, the extraction succeeds and the
    destination then holds exactly this: each regular file of the bundle
    whose slash-separated path does not contain the text [cue.mod/pkg],
    at the mirrored path, with the bundle's bytes and mode 0700; and the
    directories, of mode 0755, that lead to these files.  A directory of
    the bundle below which no file is extracted has no entry of its own.
    The test on the path is one on its text, which is where the code
    misses its comment (C8). *)
Theorem extract_mirrors_bundle (es0 : list (string * Embed.bnode)) (dest : string)
        (w : Os.World) (pd : N) :
  wellFormed (Embed.BDir es0) = true ->
  Tree.lookup (Os.fs w) (Os.at_path w dest) = Ok (Tree.Dir pd []) ->
  fst (extractModules (Embed.BDir es0) dest w) = None
  /\ (forall cs data,
         Embed.blookup (Embed.BDir es0) cs = Ok (Embed.BFile data) ->
         Strings.Contains (Strings.JoinSlash cs) "cue.mod/pkg" = false ->
         Tree.lookup (Os.fs (snd (extractModules (Embed.BDir es0) dest w)))
                     (Os.at_path w dest ++ cs)%list
         = Ok (Tree.File 448 data))
  /\ (forall cs n,
         cs <> [] ->
         Tree.lookup (Os.fs (snd (extractModules (Embed.BDir es0) dest w)))
                     (Os.at_path w dest ++ cs)%list
         = Ok n ->
         (exists data,
             n = Tree.File 448 data
             /\ Embed.blookup (Embed.BDir es0) cs = Ok (Embed.BFile data)
             /\ Strings.Contains (Strings.JoinSlash cs) "cue.mod/pkg" = false)
         \/ (exists es cs' data,
                n = Tree.Dir 493 es
                /\ cs' <> []
                /\ Embed.blookup (Embed.BDir es0) (cs ++ cs')%list = Ok (Embed.BFile data)
                /\ Strings.Contains (Strings.JoinSlash (cs ++ cs')%list) "cue.mod/pkg"
                   = false)).
Proof.
intros Hwf Hdest.
change (extractModules (Embed.BDir es0) dest)
  with (Embed.walkDir (extractEntry (Embed.BDir es0) dest) (walkName []) (Embed.BDir es0)).
assert (Hstart : extracting (Embed.BDir es0) (Os.wd w) dest (fun _ => False) w).
{ split; [reflexivity|]. unfold Os.at_path in Hdest. split; [|split].
  - exists pd. unfold shapeAt. rewrite Hdest. reflexivity.
  - intros cs data [].
  - intros cs s Hne Hs. exfalso. unfold shapeAt in Hs.
    rewrite lookup_app, Hdest in Hs. destruct cs; [congruence | discriminate]. }
pose proof (walkDir_extracts (Embed.BDir es0) (Os.wd w) dest (Embed.BDir es0) []
              (fun _ => False) (Forall_nil _) eq_refl Hwf
              (fun _ => ex_intro _ es0 eq_refl) (fun c (F : False) => match F with end)
              w Hstart) as [[_ [_ [Hfiles Honly]]] He].
split; [exact He|]. unfold Os.at_path. split.
- intros cs data Hb Hc. apply shapeAt_file. apply Hfiles; [right; reflexivity | exact Hb|].
  rewrite vendored_joined, Hc; [reflexivity|]. intros ->. discriminate.
- intros cs n Hne Hl.
  assert (Hs : shapeAt (Os.fs (snd (Embed.walkDir (extractEntry (Embed.BDir es0) dest)
                                      (walkName []) (Embed.BDir es0) w)))
                       (Path.resolve (Os.wd w) dest ++ cs)%list = Some (shape n)).
  { unfold shapeAt. rewrite Hl. reflexivity. }
  destruct (Honly cs (shape n) Hne Hs)
    as [[data [G1 [G2 [G3 _]]]]|[G1 [cs' [data [G2 [G3 [G4 _]]]]]]].
  + left. exists data. split; [destruct n; simpl in G1; congruence|].
    split; [exact G2|]. rewrite vendored_joined in G3 by exact Hne.
    apply negb_true_iff. exact G3.
  + right. destruct n as [p d|tg|p es]; try discriminate.
    simpl in G1. injection G1 as ->. exists es, cs', data.
    split; [reflexivity|]. split; [exact G2|]. split; [exact G3|].
    rewrite vendored_joined in G4 by (destruct cs; [congruence | discriminate]).
    apply negb_true_iff. exact G4.
Qed.

(** C8.  The code at the failing input.  The comment of the test says
    [Do not vendor the package's cue.mod/pkg]; the test is
    [strings.Contains(p, "cue.mod/pkg")].  The regular file
    [dagger.io/cue.mod/pkgs.cue] of this well-formed bundle is in no
    [cue.mod/pkg] directory and in no directory below one, and the
    extraction into an empty directory returns no error without it: its
    name starts with [pkg].  (Were the subtree meant [cue.mod] itself,
    [cue.mod/module.cue] is extracted.) *)
Lemma extract_misses_lookalike_file :
  wellFormed bundleWithLookalike = true
  /\ Tree.lookup (Os.fs bareWorld) (Os.at_path bareWorld "/srv/app") = Ok (Tree.Dir 493 [])
  /\ Embed.blookup bundleWithLookalike ["dagger.io"; "cue.mod"; "pkgs.cue"]
     = Ok (Embed.BFile "package pkgs")
  /\ fallsUnder ["cue.mod"; "pkg"] ["dagger.io"; "cue.mod"; "pkgs.cue"] = false
  /\ fst (extractModules bundleWithLookalike "/srv/app" bareWorld) = None
  /\ Tree.lookup (Os.fs (snd (extractModules bundleWithLookalike "/srv/app" bareWorld)))
                 ["srv"; "app"; "dagger.io"; "cue.mod"; "pkgs.cue"]
     = Err ENOENT
  /\ Tree.lookup (Os.fs (snd (extractModules bundleWithLookalike "/srv/app" bareWorld)))
                 ["srv"; "app"; "dagger.io"; "cue.mod"; "module.cue"]
     = Ok (Tree.File 448 "module: dagger.io").
Proof. repeat split; vm_compute; reflexivity. Qed.

Lemma extract_mirrors_bundle_witness :
  wellFormed bundleWithLookalike = true
  /\ Tree.lookup (Os.fs bareWorld) (Os.at_path bareWorld "/srv/app") = Ok (Tree.Dir 493 [])
  /\ fst (extractModules bundleWithLookalike "/srv/app" bareWorld) = None
  /\ Tree.lookup (Os.fs (snd (extractModules bundleWithLookalike "/srv/app" bareWorld)))
                 (Os.at_path bareWorld "/srv/app" ++ ["dagger.io"; "plan.cue"])%list
     = Ok (Tree.File 448 "package dagger").
Proof.
split; [reflexivity|]. split; [reflexivity|].
destruct (extract_mirrors_bundle
            [("dagger.io",
              Embed.BDir
                [("cue.mod",
                  Embed.BDir [("module.cue", Embed.BFile "module: dagger.io");
                              ("pkg", Embed.BDir [("a.cue", Embed.BFile "package a")]);
                              ("pkgs.cue", Embed.BFile "package pkgs")]);
                 ("docs", Embed.BDir []);
                 ("plan.cue", Embed.BFile "package dagger")])]
            "/srv/app" bareWorld 493%N eq_refl eq_refl) as [H1 [H2 _]].
split; [exact H1|]. apply H2; reflexivity.
Defined.

(** The destination after the extraction of that bundle. *)
Example extract_result :
  Tree.lookup (Os.fs (snd (extractModules bundleWithLookalike "/srv/app" bareWorld)))
              ["srv"; "app"]
  = Ok (Tree.Dir 493
          [("dagger.io",
            Tree.Dir 493
              [("plan.cue", Tree.File 448 "package dagger");
               ("cue.mod",
                Tree.Dir 493 [("module.cue", Tree.File 448 "module: dagger.io")])])]).
Proof. vm_compute. reflexivity. Qed.

(** ** Development builds                                                 *)

Lemma notMarkerPath_name (dir x data : string) (perm : N) :
  simple x = true -> x <> "version.txt" ->
  notMarkerPath (Os.CWriteFile (Path.Join [dir; x]) data perm).
Proof.
intros Hs Hx dir' d perm' Heq. injection Heq as Hname _ _.
apply (f_equal Path.parse) in Hname.
destruct (simple_spec _ Hs) as [Hns _].
rewrite parse_Join2 in Hname
  by (rewrite (SplitSlash_noslash x Hns); repeat constructor; exact Hs).
rewrite (parse_Join2 dir' versionFilePath) in Hname by (repeat constructor).
rewrite (SplitSlash_noslash x Hns) in Hname.
injection Hname as _ Hl.
change ["cue.mod"; "version.txt"] with (["cue.mod"] ++ ["version.txt"])%list in Hl.
rewrite app_assoc in Hl.
apply app_inj_tail in Hl. destruct Hl as [_ Hl].
contradiction.
Qed.

Lemma notMarkerPath_mode (c : Os.Call) : notMarkerPath c -> notMarkerWrite c.
Proof. intros H dir data. apply H. Qed.

Lemma namesFile_none (x : string) (cs : list string) :
  forall (d : Embed.bnode) (data : string),
    namesFile x d = false ->
    Embed.blookup d (cs ++ [x])%list <> Ok (Embed.BFile data).
Proof.
induction cs as [|c cs IH]; intros d data Hn Hb.
- destruct d as [d0|es]; [discriminate|]. simpl in Hb.
  destruct (Embed.bget x es) as [n|] eqn:Hg; [|discriminate].
  injection Hb as ->. apply bget_Some in Hg.
  simpl in Hn. assert (Ht : existsb (fun e => match snd e with
                        | Embed.BFile _ => String.eqb (fst e) x
                        | Embed.BDir _ => namesFile x (snd e)
                        end) es = true).
  { apply existsb_exists. exists (x, Embed.BFile data). split; [exact Hg|].
    apply String.eqb_refl. }
  congruence.
- destruct d as [d0|es]; [discriminate|]. rewrite <- app_comm_cons in Hb. simpl in Hb.
  destruct (Embed.bget c es) as [n|] eqn:Hg; [|discriminate].
  apply bget_Some in Hg. apply (IH n data); [|exact Hb].
  destruct (namesFile x n) eqn:E; [|reflexivity].
  simpl in Hn. assert (Ht : existsb (fun e => match snd e with
                        | Embed.BFile _ => String.eqb (fst e) x
                        | Embed.BDir _ => namesFile x (snd e)
                        end) es = true).
  { apply existsb_exists. exists (c, n). split; [exact Hg|]. simpl.
    destruct n; [discriminate | exact E]. }
  congruence.
Qed.

(** The walk calls its function on the entries of the bundle, under
    their names. *)
Lemma triple_walkDir_named (FS : Embed.bnode) (J : Os.World -> Prop)
      (fn : string -> Embed.bnode -> Os.M (option error)) :
  (forall cs d, Forall (fun c => simple c = true) cs -> Embed.blookup FS cs = Ok d ->
                triple J (fn (walkName cs) d) (fun _ => J)) ->
  forall d pre,
    Forall (fun c => simple c = true) pre -> Embed.blookup FS pre = Ok d ->
    wellFormed d = true ->
    triple J (Embed.walkDir fn (walkName pre) d) (fun _ => J).
Proof.
intros Hfn d. induction d as [data|es IH] using bnode_induction;
  intros pre Hpre Hb Hwf.
- simpl. eapply triple_bind; [apply Hfn; assumption | intros e].
  destruct e; apply triple_ret; auto.
- simpl. eapply triple_bind; [apply Hfn; assumption | intros e].
  destruct e as [err|]; [apply triple_ret; auto|].
  assert (Hin : forall n d, In (n, d) es ->
            simple n = true /\ wellFormed d = true
            /\ Embed.blookup FS (pre ++ [n])%list = Ok d).
  { intros n d Hnd. destruct (wellFormed_entry es n d Hwf Hnd) as [H1 [H2 H3]].
    split; [exact H1|]. split; [exact H2|].
    rewrite blookup_app, Hb. simpl. rewrite H3. reflexivity. }
  clear Hb Hwf. revert Hin.
  induction IH as [|[n1 d1] es' Hd1 _ IHes]; intros Hin; [apply triple_ret; auto|].
  destruct (Hin n1 d1 (or_introl eq_refl)) as [Hs1 [Hw1 Hb1]].
  eapply triple_bind.
  + rewrite walkName_snoc by assumption. apply Hd1; try assumption.
    apply Forall_app. split; [exact Hpre | repeat constructor; exact Hs1].
  + intros e1. destruct e1 as [err|]; [apply triple_ret; auto|].
    apply IHes. intros n d Hnd. apply Hin. right. exact Hnd.
Qed.

Section LogOnly.

Variable version_Version : string.
Variable version_DevelopmentVersion : string.
Variable FS : Embed.bnode.

(** What is to hold of every call. *)
Variable ok : Os.Call -> Prop.

Hypothesis development : String.eqb version_Version version_DevelopmentVersion = true.
Hypothesis ok_other : forall c, (forall name data perm, c <> Os.CWriteFile name data perm) -> ok c.
Hypothesis ok_name :
  forall dir x data perm,
    simple x = true -> x <> "version.txt" ->
    ok (Os.CWriteFile (Path.Join [dir; x]) data perm).
Hypothesis ok_extract :
  forall dest, triple (everyCall ok) (extractModules FS dest) (fun _ => everyCall ok).

Local Abbreviation J := (everyCall ok).

Lemma Log_mutate (c : Os.Call) (mk : Errno -> error)
      (f : Os.World -> result Errno Tree.node) :
  ok c -> triple J (Os.mutate c mk f) (fun _ => J).
Proof.
intros Hc w Hw. unfold everyCall, Os.mutate in *.
destruct (f w); simpl; apply Forall_app; split; try exact Hw;
  constructor; try constructor; exact Hc.
Qed.

Lemma Log_other (c : Os.Call) (mk : Errno -> error)
      (f : Os.World -> result Errno Tree.node) :
  (forall name data perm, c <> Os.CWriteFile name data perm) ->
  triple J (Os.mutate c mk f) (fun _ => J).
Proof. intros H. apply Log_mutate, ok_other, H. Qed.

Lemma Log_ret {A : Type} (a : A) : triple J (Os.ret a) (fun _ => J).
Proof. apply triple_ret. auto. Qed.

Lemma Log_CueModInit (p module : string) :
  triple J (CueModInit p module) (fun _ => J).
Proof.
unfold CueModInit.
eapply triple_bind; [apply triple_pure; reflexivity | intros wd].
eapply triple_bind; [apply Log_other; discriminate | intros e].
destruct (match e with Some _ => _ | None => _ end); [apply Log_ret|].
eapply triple_bind; [apply triple_pure; reflexivity | intros st].
eapply triple_bind with (Mid := fun _ => J).
{ destruct st as [fi|err]; [apply Log_ret|].
  destruct (negb _); [apply Log_ret|].
  apply Log_mutate. apply ok_name; [reflexivity | discriminate]. }
intros e2. destruct e2; [apply Log_ret|].
eapply triple_bind; [apply Log_other; discriminate | intros e3].
destruct e3 as [err|]; [destruct (negb _)|]; apply Log_ret.
Qed.

Lemma Log_runDeferred (dirs : list string) :
  triple J (runDeferred dirs) (fun _ => J).
Proof.
induction dirs as [|d dirs IH]; [apply Log_ret|].
simpl. eapply triple_bind; [apply Log_other; discriminate | intros u; exact IH].
Qed.

(** In a development build the swap step writes nothing. *)
Lemma Log_vendorModule (cuePkgDir unpackDir m : string) :
  triple J
         (vendorModule version_Version version_DevelopmentVersion cuePkgDir unpackDir m)
         (fun _ => J).
Proof.
unfold vendorModule. rewrite development. simpl negb. cbv iota.
eapply triple_bind; [apply triple_pure; reflexivity | intros fi].
destruct (match fi with Ok _ => _ | Err _ => _ end); [apply Log_ret|].
eapply triple_bind; [apply Log_ret | intros e].
destruct e; [apply Log_ret|].
eapply triple_bind; [apply Log_other; discriminate | intros e1].
destruct (match e1 with Some _ => _ | None => _ end); [apply Log_ret|].
eapply triple_bind; [apply Log_other; discriminate | intros e2].
destruct (match e2 with Some _ => _ | None => _ end); [apply Log_ret|].
eapply triple_bind; [apply Log_other; discriminate | intros e3].
apply Log_ret.
Qed.

Lemma Log_vendorModules (cuePkgDir unpackDir : string) (modules : list string) :
  triple J
         (vendorModules version_Version version_DevelopmentVersion
                        cuePkgDir unpackDir modules)
         (fun _ => J).
Proof.
induction modules as [|m modules IH]; [apply Log_ret|].
simpl. eapply triple_bind; [apply Log_vendorModule | intros r].
destruct (snd r); [apply Log_ret|].
eapply triple_bind; [exact IH | intros r'; apply Log_ret].
Qed.

Lemma Log_mkdirTemp_loop (tries : nat) (dir prefix suffix : string) :
  triple J (Os.mkdirTemp_loop tries dir prefix suffix) (fun _ => J).
Proof.
induction tries as [|tries IH]; [apply Log_ret|].
simpl. eapply triple_bind with (Mid := fun _ => J).
{ intros w Hw. exact Hw. }
intros r. eapply triple_bind; [apply Log_other; discriminate | intros e].
destruct e as [err|]; [|apply Log_ret].
destruct (Is_ErrExist err); [exact IH | apply Log_ret].
Qed.

Lemma Log_Vendor_locked (order : list string) (p cuePkgDir : string) :
  triple J
         (Vendor_locked version_Version version_DevelopmentVersion FS
                        order p cuePkgDir)
         (fun _ => J).
Proof.
unfold Vendor_locked.
eapply triple_bind; [apply Log_CueModInit | intros e].
destruct e; [apply Log_ret|].
eapply triple_bind; [apply triple_pure; reflexivity | intros contents].
eapply triple_bind with (Mid := fun _ => J).
{ destruct contents as [c|err]; [|apply Log_ret].
  destruct (Strings.HasPrefix c _); [|apply Log_ret].
  eapply triple_bind; [apply Log_other; discriminate | intros u; apply Log_ret]. }
intros u.
eapply triple_bind with (Mid := fun _ => J).
{ apply Log_mutate. apply ok_name; [reflexivity | discriminate]. }
intros e. destruct e; [apply Log_ret|].
eapply triple_bind with (Mid := fun _ => J).
{ unfold Os.MkdirTemp. destruct (Os.prefixAndSuffix "vendor-*").
  apply Log_mkdirTemp_loop. }
intros r. destruct r as [unpackDir|err]; [|apply Log_ret].
eapply triple_bind with (Mid := fun _ => J).
{ unfold Vendor_staged.
  eapply triple_bind; [apply ok_extract | intros e].
  destruct e; [apply Log_ret|].
  eapply triple_bind; [apply Log_vendorModules | intros r].
  eapply triple_bind; [apply Log_runDeferred | intros u'; apply Log_ret]. }
intros r.
eapply triple_bind; [apply Log_other; discriminate | intros u'; apply Log_ret].
Qed.

Lemma Log_Vendor (fuel : nat) (order : list string) (p : string) :
  triple J
         (Vendor version_Version version_DevelopmentVersion FS fuel order p)
         (fun _ => J).
Proof.
unfold Vendor.
eapply triple_bind; [apply triple_pure; apply projectRoot_pure | intros root].
destruct root as [root|]; [|apply Log_ret].
eapply triple_bind; [apply Log_other; discriminate | intros e].
destruct e; [apply Log_ret|].
eapply triple_bind with (Mid := fun _ => J).
{ intros w Hw. unfold Os.Lock.
  pose proof (Log_other (Os.CLock (Path.Join [Path.Join [root; "cue.mod"; "pkg"];
                                              lockFilePath]))
                (PathError "open" (Path.Join [Path.Join [root; "cue.mod"; "pkg"];
                                              lockFilePath]))
                (fun w0 => Tree.create 384 (Os.fs w0)
                             (Os.at_path w0 (Path.Join [Path.Join [root; "cue.mod"; "pkg"];
                                                        lockFilePath])))
                ltac:(discriminate) w Hw) as H.
  destruct (Os.mutate _ _ _ w) as [[err|] w1]; exact H. }
intros e. destruct e; [apply Log_ret|].
eapply triple_bind; [apply Log_Vendor_locked | intros r].
eapply triple_bind with (Mid := fun _ => J).
{ intros w Hw. unfold everyCall, Os.Unlock in *. simpl.
  apply Forall_app. split; [exact Hw|].
  constructor; [apply ok_other; discriminate | constructor]. }
intros u. eapply triple_bind; [apply Log_other; discriminate | intros u'; apply Log_ret].
Qed.

End LogOnly.

(** The files of the bundle are written with mode 0700. *)
Lemma extractModules_mode (FS : Embed.bnode) (dest : string) :
  triple (everyCall notMarkerWrite) (extractModules FS dest)
         (fun _ => everyCall notMarkerWrite).
Proof.
change (extractModules FS dest)
  with (Embed.walkDir (extractEntry FS dest) "." FS).
apply triple_walkDir. intros name d. unfold extractEntry.
destruct (negb _); [apply triple_ret; auto|].
destruct (Strings.Contains _ _); [apply triple_ret; auto|].
destruct (Embed.ReadFile FS name); [|apply triple_ret; auto].
eapply triple_bind with (Mid := fun _ => everyCall notMarkerWrite).
- apply Log_mutate. discriminate.
- intros e. destruct e; [apply triple_ret; auto|].
  apply Log_mutate. intros dir data Heq. discriminate.
Qed.

(** The files of a bundle without a file [version.txt] are written under
    other names. *)
Lemma extractModules_path (es : list (string * Embed.bnode)) (dest : string) :
  wellFormed (Embed.BDir es) = true ->
  namesFile "version.txt" (Embed.BDir es) = false ->
  triple (everyCall notMarkerPath) (extractModules (Embed.BDir es) dest)
         (fun _ => everyCall notMarkerPath).
Proof.
intros Hwf Hnone.
change (extractModules (Embed.BDir es) dest)
  with (Embed.walkDir (extractEntry (Embed.BDir es) dest) (walkName []) (Embed.BDir es)).
apply (triple_walkDir_named (Embed.BDir es)); [|constructor | reflexivity | exact Hwf].
intros cs d Hcs Hb. unfold extractEntry.
destruct (negb (Os.IsRegular (Embed.Type_ d))) eqn:Hreg; [apply triple_ret; auto|].
destruct (Strings.Contains _ _); [apply triple_ret; auto|].
destruct (Embed.ReadFile _ _) as [contents|err]; [|apply triple_ret; auto].
eapply triple_bind with (Mid := fun _ => everyCall notMarkerPath).
- apply Log_mutate. discriminate.
- intros e. destruct e; [apply triple_ret; auto|].
  apply Log_mutate. intros dir data perm Heq. injection Heq as Hname _ _.
  destruct d as [d0|es']; [|discriminate].
  destruct (exists_last (l := cs)) as [cs' [x Hx]].
  { intros ->. discriminate. }
  subst cs.
  apply (f_equal Path.parse) in Hname.
  rewrite parse_Join2 in Hname
    by (rewrite SplitSlash_walkName by (try assumption; destruct cs'; discriminate);
        exact Hcs).
  rewrite SplitSlash_walkName in Hname by (try assumption; destruct cs'; discriminate).
  rewrite (parse_Join2 dir versionFilePath) in Hname by (repeat constructor).
  injection Hname as _ Hl.
  change ["cue.mod"; "version.txt"] with (["cue.mod"] ++ ["version.txt"])%list in Hl.
  rewrite !app_assoc in Hl. apply app_inj_tail in Hl. destruct Hl as [_ ->].
  exact (namesFile_none _ _ _ _ Hnone Hb).
Qed.

(** C5.  When the tool's version equals the development pseudo-version,
    the compatibility check succeeds at once, whatever the project
    looks like and without touching it, and a run of the vendoring
    operation makes no write of a version marker: no call of its log
    writes a file [cue.mod/version.txt] with the marker's mode 0600,
    whatever the bundle; and when the bundle itself holds no file named
    [version.txt], no call writes a file [cue.mod/version.txt] at all. *)
Theorem development_build_bypass {gv : GoVersion} (ver dev : string)
        (FS : Embed.bnode) :
  String.eqb ver dev = true ->
  (forall fuel order p w,
      EnsureCompatibility ver dev fuel order p w = (Return None, w))
  /\ (forall fuel order p w,
         everyCall notMarkerWrite w ->
         everyCall notMarkerWrite (snd (Vendor ver dev FS fuel order p w)))
  /\ (forall es,
         FS = Embed.BDir es -> wellFormed FS = true ->
         namesFile "version.txt" FS = false ->
         forall fuel order p w,
           everyCall notMarkerPath w ->
           everyCall notMarkerPath (snd (Vendor ver dev FS fuel order p w))).
Proof.
intros Hdev. split; [|split].
- intros fuel order p w. unfold EnsureCompatibility. rewrite Hdev. reflexivity.
- intros fuel order p w Hw.
  apply (Log_Vendor ver dev FS notMarkerWrite Hdev); try exact Hw.
  + intros c Hc dir data. apply Hc.
  + intros dir x data perm Hs Hx. apply notMarkerPath_mode.
    apply notMarkerPath_name; assumption.
  + intros dest. apply extractModules_mode.
- intros es -> Hwf Hnone fuel order p w Hw.
  apply (Log_Vendor ver dev (Embed.BDir es) notMarkerPath Hdev); try exact Hw.
  + intros c Hc dir data perm. apply Hc.
  + intros dir x data perm Hs Hx. apply notMarkerPath_name; assumption.
  + intros dest. apply extractModules_path; assumption.
Qed.

Lemma development_build_bypass_witness :
  String.eqb "devel" "devel" = true
  /\ EnsureCompatibility (gv := Dotted.dotted) "devel" "devel" 0 dottedTable "/proj"
                         worldUnmarked
     = (Return None, worldUnmarked)
  /\ everyCall notMarkerWrite
       (snd (Vendor "devel" "devel" exampleBundle 0 tableNames "/proj" worldUnmarked))
  /\ everyCall notMarkerPath
       (snd (Vendor "devel" "devel" exampleBundle 0 tableNames "/proj" worldUnmarked)).
Proof.
split; [reflexivity|].
destruct (development_build_bypass (gv := Dotted.dotted) "devel" "devel" exampleBundle
                                   eq_refl) as [Hcheck [Hmode Hpath]].
split; [apply Hcheck|].
split; [apply Hmode; constructor|].
eapply Hpath; [reflexivity | reflexivity | reflexivity | constructor].
Defined.

(** The same run with a released tool does write the markers. *)
Example release_build_writes_marker :
  exists dir data,
    In (Os.CWriteFile (Path.Join [dir; versionFilePath]) data 384)
       (map Os.call
            (Os.log (snd (Vendor "0.2.36" "devel" exampleBundle 0 tableNames "/proj"
                                 worldUnmarked)))).
Proof.
exists "/proj/cue.mod/pkg/vendor-7/dagger.io", "0.2.36". vm_compute. tauto.
Qed.

(** ** The search for the project, further                                *)

Lemma markerMissing_present (w : Os.World) (dir : string) (n : Tree.node) :
  Tree.lookup (Os.fs w) (Os.at_path w (Path.Join [dir; "cue.mod"])) = Ok n ->
  markerMissing w dir = false.
Proof.
intros H. unfold markerMissing, Os.Stat. simpl. rewrite H. destruct n; reflexivity.
Qed.

(** X1.  The start directory, or an ancestor of it that the walk comes
    to, has an entry [cue.mod] that is a directory or a file; every
    directory probed before it reports that there is none, and none of
    them has the root directory [/] as its parent (there the loop
    returns without a probe of the root).  Then the walk answers with
    that directory and [found], and nothing is changed.  (An entry that
    is a link is left out: [os.Stat] answers for its target.) *)
Theorem locate_finds_nearest (k fuel : nat) (args : list string)
        (w : Os.World) (n : Tree.node) :
  let start := startDir w args in
  let dir := iterDir k start in
  walkReaches w start k ->
  Tree.lookup (Os.fs w) (Os.at_path w (Path.Join [dir; "cue.mod"])) = Ok n ->
  isLink n = false ->
  GetCueModParent (k + S fuel) args w = (Some (dir, true), w).
Proof.
intros start dir Hwalk Hn _.
rewrite GetCueModParent_unfold. fold start.
rewrite (GetCueModParent_loop_walk k (S fuel) (Os.wd w) start w Hwalk). fold dir.
apply GetCueModParent_loop_found. exact (markerMissing_present w dir n Hn).
Qed.

Lemma locate_finds_nearest_witness :
  walkReaches worldUnmarked (startDir worldUnmarked ["/proj/sub"]) 1
  /\ GetCueModParent (1 + 1) ["/proj/sub"] worldUnmarked
     = (Some ("/proj", true), worldUnmarked).
Proof.
assert (H : walkReaches worldUnmarked (startDir worldUnmarked ["/proj/sub"]) 1).
{ intros j Hj. assert (j = 0) as -> by lia. split; reflexivity. }
split; [exact H|].
exact (locate_finds_nearest 1 0 ["/proj/sub"] worldUnmarked
         (Tree.Dir 493 [("pkg", Tree.Dir 493 [(DaggerModule, unmarkedModule);
                                              (UniverseModule, unmarkedModule)])])
         H eq_refl eq_refl).
Defined.

(** A relative path stays relative under [filepath.Dir]. *)
Lemma IsAbs_dirPrefix (s : string) :
  Path.IsAbs s = false -> Path.IsAbs (Path.dirPrefix s) = false.
Proof.
destruct s as [|c r]; [reflexivity|]. simpl. intros H.
destruct (Strings.hasSlash r); [exact H|]. rewrite H. reflexivity.
Qed.

Lemma IsAbs_Clean (s : string) : Path.IsAbs (Path.Clean s) = Path.IsAbs s.
Proof.
unfold Path.Clean, Path.parse.
pose proof (parse_good s) as Hg.
destruct (Path.IsAbs s) eqn:E; [reflexivity|].
set (st := fold_left (Path.step false) (Strings.SplitSlash s) []) in *.
pose proof (good_noslash _ _ Hg) as H1. pose proof (good_nonempty _ _ Hg) as H2.
apply Forall_rev in H1. apply Forall_rev in H2.
destruct (rev st) as [|c cs]; [reflexivity|].
apply Forall_inv in H1. apply Forall_inv in H2.
apply IsAbs_JoinSlash; assumption.
Qed.

Lemma IsAbs_Dir (s : string) : Path.IsAbs s = false -> Path.IsAbs (Path.Dir s) = false.
Proof. intros H. unfold Path.Dir. rewrite IsAbs_Clean. apply IsAbs_dirPrefix, H. Qed.

Lemma GetCueModParent_loop_relative (fuel : nat) (cwd : string) (w : Os.World) :
  forall dir,
    Path.IsAbs dir = false ->
    (forall k, markerMissing w (iterDir k dir) = true) ->
    GetCueModParent_loop fuel cwd dir w = (None, w).
Proof.
induction fuel as [|fuel IH]; intros dir Hrel Hall; [reflexivity|].
rewrite GetCueModParent_loop_up.
- apply IH; [apply IsAbs_Dir, Hrel|]. intros k. exact (Hall (S k)).
- exact (Hall 0).
- apply String.eqb_neq. intros E. pose proof (IsAbs_Dir dir Hrel) as H.
  rewrite E in H. discriminate.
Qed.

(** X2.  From a relative starting directory the walk never comes to the
    root: [filepath.Dir] of a relative path is relative, and ends at
    [.], which is its own parent.  When neither the start nor any of
    these directories has the marker the loop has no exit: whatever
    number of steps it is given, it is still going. *)
Theorem locate_relative_diverges (fuel : nat) (args : list string) (w : Os.World) :
  Path.IsAbs (startDir w args) = false ->
  (forall k, markerMissing w (iterDir k (startDir w args)) = true) ->
  GetCueModParent fuel args w = (None, w).
Proof.
intros Hrel Hall. rewrite GetCueModParent_unfold.
apply GetCueModParent_loop_relative; assumption.
Qed.

Lemma iterDir_dot (k : nat) : iterDir k "." = ".".
Proof. induction k as [|k IH]; [reflexivity|]. simpl. exact IH. Qed.

Lemma locate_relative_diverges_witness :
  GetCueModParent 1000 ["a/b"] bareWorld = (None, bareWorld).
Proof.
apply (locate_relative_diverges 1000 ["a/b"] bareWorld).
- reflexivity.
- intros k. destruct k as [|[|k]]; [reflexivity | reflexivity|].
  change (iterDir (S (S k)) (startDir bareWorld ["a/b"])) with (iterDir k ".").
  rewrite iterDir_dot. reflexivity.
Defined.

(** ** The compatibility gate, further                                    *)

Section GateMore.

Context {gv : GoVersion}.
Variable version_Version : string.
Variable version_DevelopmentVersion : string.

Lemma checkModules_none_iff (tool : Version) (dir : string) (w : Os.World)
      (order : list (string * Version)) :
  fst (checkModules tool dir order w) = None <-> allPass tool dir w order.
Proof.
induction order as [|e rest IH].
- split; [constructor | reflexivity].
- rewrite checkModules_cons. split.
  + intros H. destruct (fst (checkModule tool dir e w)) eqn:E; [discriminate|].
    constructor; [exact E | apply IH, H].
  + intros H. inversion H as [|? ? He Hrest]; subst. rewrite He. apply IH, Hrest.
Qed.

Lemma checkModules_some (tool : Version) (dir : string) (w : Os.World)
      (order : list (string * Version)) (err : error) :
  fst (checkModules tool dir order w) = Some err ->
  exists e, In e order /\ fst (checkModule tool dir e w) = Some err.
Proof.
induction order as [|e rest IH]; [discriminate|].
rewrite checkModules_cons.
destruct (fst (checkModule tool dir e w)) as [err'|] eqn:E.
- intros H. injection H as <-. exists e. split; [left; reflexivity | exact E].
- intros H. destruct (IH H) as [e' [Hin He']]. exists e'. split; [right; exact Hin | exact He'].
Qed.

(** X3.  The check succeeds exactly when every module of the table
    passes on its own; so whether it succeeds does not depend on the
    order in which the map is visited, and an error it returns is the
    error of one of the modules. *)
Theorem check_passes_iff_all_pass (fuel : nat) (p root : string) (tool : Version)
        (order : list (string * Version)) (w : Os.World) :
  let cuePkgDir := Path.Join [root; "cue.mod"; "pkg"] in
  let check := fun o =>
    fst (EnsureCompatibility version_Version version_DevelopmentVersion fuel o p w) in
  String.eqb version_Version version_DevelopmentVersion = false ->
  NewVersion version_Version = Ok tool ->
  fst (projectRoot fuel p w) = Some root ->
  (check order = Return None
   <-> forall e, In e order -> fst (checkModule tool cuePkgDir e w) = None)
  /\ (forall order', Permutation order order' ->
                     (check order = Return None <-> check order' = Return None))
  /\ (forall err, check order = Return (Some err) ->
                  exists e, In e order
                            /\ fst (checkModule tool cuePkgDir e w) = Some err).
Proof.
intros cuePkgDir check Hdev Htool Hroot.
assert (Hrun : forall o, check o = Return (fst (checkModules tool cuePkgDir o w))).
{ intros o. unfold check.
  exact (EnsureCompatibility_run _ _ fuel o p root tool w Hdev Htool Hroot). }
assert (Hiff : forall o, check o = Return None
                         <-> forall e, In e o -> fst (checkModule tool cuePkgDir e w) = None).
{ intros o. rewrite Hrun. split.
  - intros H. injection H as H. apply checkModules_none_iff in H.
    unfold allPass in H. rewrite Forall_forall in H. exact H.
  - intros H. f_equal. apply checkModules_none_iff. unfold allPass.
    rewrite Forall_forall. exact H. }
split; [apply Hiff|]. split.
- intros order' Hperm. rewrite !Hiff. split; intros H e He; apply H.
  + apply Permutation_sym in Hperm. exact (Permutation_in e Hperm He).
  + exact (Permutation_in e Hperm He).
- intros err H. rewrite Hrun in H. injection H as H.
  exact (checkModules_some tool cuePkgDir w order err H).
Qed.

(** X4.  A marker that cannot be used: when the file is read and its
    text, of ASCII bytes, is no version once the white space around it
    is taken off, the check fails with the failed-to-parse error that
    wraps the parser's; when the path of the marker runs through no link
    and ends at none, and reading fails with an error that is not "does
    not exist" (the marker is a directory, say), it fails with the
    failed-to-read error that wraps the error of the read.  This for the
    first module that does not pass. *)
Theorem check_reports_unusable_marker (fuel : nat) (p root module : string)
        (tool mv : Version) (pre post : list (string * Version)) (w : Os.World) :
  let cuePkgDir := Path.Join [root; "cue.mod"; "pkg"] in
  let moduleDir := Path.Join [cuePkgDir; module] in
  let versionFile := Path.Join [moduleDir; versionFilePath] in
  let r := fst (EnsureCompatibility version_Version version_DevelopmentVersion fuel
                                    (pre ++ (module, mv) :: post)%list p w) in
  String.eqb version_Version version_DevelopmentVersion = false ->
  NewVersion version_Version = Ok tool ->
  fst (projectRoot fuel p w) = Some root ->
  allPass tool cuePkgDir w pre ->
  lstatSymlink w moduleDir = false ->
  (forall data err,
      fst (Os.ReadFile versionFile w) = Ok data ->
      asciiText data = true ->
      NewVersion (Strings.TrimSpace data) = Err err ->
      r = Return (Some (errFailedToParse versionFile err))
      /\ Strings.HasPrefix (Error (errFailedToParse versionFile err))
                           ("failed to parse " ++ Strings.Quote versionFile) = true)
  /\ (forall err,
         noLinkDownTo (Os.fs w) (Os.at_path w versionFile) = true ->
         fst (Os.ReadFile versionFile w) = Err err ->
         Is_ErrNotExist err = false ->
         r = Return (Some (errFailedToRead versionFile err))
         /\ Is_ErrNotExist (errFailedToRead versionFile err) = false
         /\ Strings.HasPrefix (Error (errFailedToRead versionFile err))
                              ("failed to read " ++ Strings.Quote versionFile) = true).
Proof.
intros cuePkgDir moduleDir versionFile r Hdev Htool Hroot Hpre Hsym.
assert (Hr : r = Return (fst (checkModules tool cuePkgDir
                                (pre ++ (module, mv) :: post)%list w))).
{ unfold r. exact (EnsureCompatibility_run _ _ fuel _ p root tool w Hdev Htool Hroot). }
pose proof (checkModule_read tool cuePkgDir module mv w Hsym) as Hstep.
cbv zeta in Hstep. fold moduleDir in Hstep. fold versionFile in Hstep.
split.
- intros data err Hread _ Hparse. rewrite Hread, Hparse in Hstep.
  split.
  + rewrite Hr. f_equal.
    exact (checkModules_first_failure tool cuePkgDir w pre post _ _ Hpre Hstep).
  + unfold errFailedToParse, Error. rewrite <- append_assoc. apply HasPrefix_app.
- intros err _ Hread Hne. rewrite Hread, Hne in Hstep.
  change (negb false) with true in Hstep. cbv iota in Hstep.
  split; [|split].
  + rewrite Hr. f_equal.
    exact (checkModules_first_failure tool cuePkgDir w pre post _ _ Hpre Hstep).
  + exact Hne.
  + unfold errFailedToRead, Error. rewrite <- append_assoc. apply HasPrefix_app.
Qed.

End GateMore.

Lemma check_passes_iff_all_pass_witness :
  String.eqb "0.3.0" "devel" = false
  /\ fst (EnsureCompatibility (gv := Dotted.dotted) "0.3.0" "devel" 0
                              (rev dottedTable) "/proj" worldNewerModule)
     = Return None.
Proof.
split; [reflexivity|].
destruct (check_passes_iff_all_pass (gv := Dotted.dotted) "0.3.0" "devel" 0 "/proj"
            "/proj" [0; 3; 0]%N dottedTable worldNewerModule
            eq_refl eq_refl eq_refl) as [_ [Hperm _]].
apply (Hperm (rev dottedTable)); [apply Permutation_rev | reflexivity].
Defined.

Lemma check_reports_unusable_marker_witness :
  let check := fun order =>
    fst (EnsureCompatibility (gv := Dotted.dotted) "0.2.36" "devel" 0 order "/proj"
                             worldBadMarkers) in
  let daggerMarker := "/proj/cue.mod/pkg/dagger.io/cue.mod/version.txt" in
  let universeMarker := "/proj/cue.mod/pkg/universe.dagger.io/cue.mod/version.txt" in
  lstatSymlink worldBadMarkers "/proj/cue.mod/pkg/dagger.io" = false
  /\ asciiText "latest" = true
  /\ check dottedTable
     = Return (Some (errFailedToParse daggerMarker
                       (ErrorString "Malformed version: latest")))
  /\ noLinkDownTo (Os.fs worldBadMarkers) (Os.at_path worldBadMarkers universeMarker)
     = true
  /\ check (rev dottedTable)
     = Return (Some (errFailedToRead universeMarker
                       (PathError "read" universeMarker EISDIR))).
Proof.
cbv zeta. split; [reflexivity|]. split; [reflexivity|].
destruct (check_reports_unusable_marker (gv := Dotted.dotted) "0.2.36" "devel" 0
            "/proj" "/proj" DaggerModule [0; 2; 36]%N [0; 2; 11]%N []
            [(UniverseModule, [0; 2; 9]%N)] worldBadMarkers
            eq_refl eq_refl eq_refl (Forall_nil _) eq_refl) as [Hparse _].
split.
{ exact (proj1 (Hparse "latest" (ErrorString "Malformed version: latest")
                       eq_refl eq_refl eq_refl)). }
split; [reflexivity|].
destruct (check_reports_unusable_marker (gv := Dotted.dotted) "0.2.36" "devel" 0
            "/proj" "/proj" UniverseModule [0; 2; 36]%N [0; 2; 9]%N []
            [(DaggerModule, [0; 2; 11]%N)] worldBadMarkers
            eq_refl eq_refl eq_refl (Forall_nil _) eq_refl) as [_ Hread].
exact (proj1 (Hread (PathError "read"
                       "/proj/cue.mod/pkg/universe.dagger.io/cue.mod/version.txt" EISDIR)
                    eq_refl eq_refl eq_refl)).
Defined.

(** A marker that is a directory is reported as not readable. *)
Example check_marker_is_directory :
  fst (EnsureCompatibility (gv := Dotted.dotted) "0.2.36" "devel" 0
                           (rev dottedTable) "/proj" worldBadMarkers)
  = Return (Some (errFailedToRead
                    "/proj/cue.mod/pkg/universe.dagger.io/cue.mod/version.txt"
                    (PathError "read"
                       "/proj/cue.mod/pkg/universe.dagger.io/cue.mod/version.txt"
                       EISDIR))).
Proof. reflexivity. Qed.

Section GateAbsent.

Context {gv : GoVersion}.
Variable version_Version : string.
Variable version_DevelopmentVersion : string.

(** X5.  A module of the table that is not in the package directory at
    all is reported like one without marker: the first such module the
    loop comes to gives the missing-marker error. *)
Theorem check_reports_absent_module (fuel : nat) (p root module : string)
        (tool mv : Version) (pre post : list (string * Version)) (w : Os.World) :
  let cuePkgDir := Path.Join [root; "cue.mod"; "pkg"] in
  let moduleDir := Path.Join [cuePkgDir; module] in
  String.eqb version_Version version_DevelopmentVersion = false ->
  NewVersion version_Version = Ok tool ->
  fst (projectRoot fuel p w) = Some root ->
  allPass tool cuePkgDir w pre ->
  Tree.lookup (Os.fs w) (Os.at_path w moduleDir) = Err ENOENT ->
  fst (EnsureCompatibility version_Version version_DevelopmentVersion fuel
                           (pre ++ (module, mv) :: post)%list p w)
  = Return (Some (errMissingVersionMarker module mv)).
Proof.
intros cuePkgDir moduleDir Hdev Htool Hroot Hpre Habsent.
rewrite (EnsureCompatibility_run _ _ fuel _ p root tool w Hdev Htool Hroot).
fold cuePkgDir. f_equal.
apply (checkModules_first_failure tool cuePkgDir w pre post _ _ Hpre).
assert (Hsym : lstatSymlink w moduleDir = false).
{ rewrite lstatSymlink_lookup, Habsent. reflexivity. }
rewrite (checkModule_read tool cuePkgDir module mv w Hsym). cbv zeta.
fold moduleDir.
assert (Hread : fst (Os.ReadFile (Path.Join [moduleDir; versionFilePath]) w)
                = Err (PathError "open" (Path.Join [moduleDir; versionFilePath]) ENOENT)).
{ unfold Os.ReadFile. simpl fst. unfold Os.at_path in *.
  rewrite resolve_Join2 by (repeat constructor).
  rewrite lookup_app, Habsent. reflexivity. }
rewrite Hread. reflexivity.
Qed.

End GateAbsent.

Lemma check_reports_absent_module_witness :
  fst (EnsureCompatibility (gv := Dotted.dotted) "0.2.36" "devel" 0
                           ([] ++ (DaggerModule, [0; 2; 11]%N)
                               :: [(UniverseModule, [0; 2; 9]%N)])%list
                           "/proj" (projectWorld []))
  = Return (Some (errMissingVersionMarker (gv := Dotted.dotted)
                                          DaggerModule [0; 2; 11]%N)).
Proof.
apply (check_reports_absent_module (gv := Dotted.dotted) "0.2.36" "devel" 0 "/proj"
         "/proj" DaggerModule [0; 2; 36]%N [0; 2; 11]%N []
         [(UniverseModule, [0; 2; 9]%N)] (projectWorld []));
  try reflexivity. constructor.
Defined.

(** X6.  The check and the search only look: whatever they return, the
    file tree, the working directory, the locks and the log of calls
    are as before. *)
Theorem queries_change_nothing {gv : GoVersion} (ver dev : string) (fuel : nat)
        (order : list (string * Version)) (p : string) (args : list string)
        (w : Os.World) :
  snd (EnsureCompatibility ver dev fuel order p w) = w
  /\ snd (GetCueModParent fuel args w) = w.
Proof.
split; [apply EnsureCompatibility_pure | apply GetCueModParent_pure].
Qed.

(** ** The file tree, further                                             *)

Section TreeMore.

Import Tree.

Lemma mkdirAll_ok_shape (perm : N) (cs : list string) :
  forall t t' : node,
    mkdirAll perm t cs = Ok t' ->
    forall r, shapeAt t' r =
              match shapeAt t r with
              | Some s => Some s
              | None => if is_prefix r cs then Some (Dir perm []) else None
              end.
Proof.
induction cs as [|c cs IH]; intros t t' Hmk r.
- destruct t as [p d|tg|p es]; try discriminate. simpl in Hmk. injection Hmk as <-.
  destruct (shapeAt (Dir p es) r) eqn:E; [reflexivity|].
  destruct r; [discriminate | reflexivity].
- destruct t as [p d|tg|p es]; try discriminate. simpl in Hmk.
  set (child := match ents_get c es with Some n => n | None => Dir perm [] end) in *.
  destruct (mkdirAll perm child cs) as [n'|e] eqn:Hc; [|discriminate].
  injection Hmk as <-. specialize (IH child n' Hc).
  destruct r as [|y r]; [reflexivity|].
  rewrite !shapeAt_cons. simpl is_prefix.
  destruct (String.eqb y c) eqn:Hyc.
  + apply String.eqb_eq in Hyc. subst y. rewrite ents_get_set_same, IH.
    unfold child. simpl. destruct (ents_get c es) as [n|]; [reflexivity|].
    destruct r; reflexivity.
  + rewrite ents_get_set_other by (rewrite String.eqb_sym; exact Hyc).
    simpl. destruct (ents_get y es) as [n|]; [|reflexivity].
    destruct (shapeAt n r); reflexivity.
Qed.

Lemma mkdirAll_through_file (perm : N) (q : list string) :
  forall (t : node) (cs : list string) (pm : N) (d : string),
    lookup t q = Ok (File pm d) -> is_prefix q cs = true ->
    mkdirAll perm t cs = Err ENOTDIR.
Proof.
induction q as [|x q IH]; intros t cs pm d Hl Hp.
- simpl in Hl. injection Hl as ->. destruct cs; reflexivity.
- destruct cs as [|c cs]; [discriminate|]. simpl in Hp.
  apply andb_true_iff in Hp. destruct Hp as [Hxc Hp].
  apply String.eqb_eq in Hxc. subst c.
  destruct t as [p0 d0|tg|p0 es]; try discriminate.
  rewrite lookup_cons in Hl. simpl.
  destruct (ents_get x es) as [n|]; [|discriminate].
  rewrite (IH n cs pm d Hl Hp). reflexivity.
Qed.

Lemma alter_keeps_dir (f : option node -> result Errno (option node)) (root : Errno)
      (p : N) (es : list (string * node)) (cs : list string) (t' : node) :
  alter f root (Dir p es) cs = Ok t' -> exists es', t' = Dir p es'.
Proof.
destruct cs as [|c [|c2 rest]]; [discriminate| |].
- rewrite alter_cons1. destruct (f (ents_get c es)) as [[n|]|e]; try discriminate;
    intros H; injection H as <-; eauto.
- rewrite alter_cons2. destruct (ents_get c es) as [n|]; [|discriminate].
  destruct (alter f root n (c2 :: rest)) as [n'|e]; [|discriminate].
  intros H; injection H as <-; eauto.
Qed.

(** [alter] leaves what is not below its path as it is, but for the
    entries of the directories above it. *)
Lemma alter_shape_frame (f : option node -> result Errno (option node)) (root : Errno)
      (cs : list string) :
  forall (t t' : node) (r : list string),
    alter f root t cs = Ok t' -> is_prefix cs r = false ->
    shapeAt t' r = shapeAt t r.
Proof.
induction cs as [|c rest IH]; intros t t' r Halt Hr; [discriminate|].
destruct t as [p d|tg|p es]; try (destruct rest; discriminate).
destruct r as [|y r].
{ destruct (alter_keeps_dir f root p es (c :: rest) t' Halt) as [es' ->]. reflexivity. }
simpl in Hr. destruct (String.eqb c y) eqn:Hcy.
- apply String.eqb_eq in Hcy. subst y. simpl in Hr.
  destruct rest as [|c2 rest']; [discriminate|].
  rewrite alter_cons2 in Halt.
  destruct (ents_get c es) as [n|] eqn:Hg; [|discriminate].
  destruct (alter f root n (c2 :: rest')) as [n'|e] eqn:Ha; [|discriminate].
  injection Halt as <-. rewrite !shapeAt_cons, ents_get_set_same, Hg.
  exact (IH n n' r Ha Hr).
- destruct rest as [|c2 rest'].
  + rewrite alter_cons1 in Halt.
    destruct (f (ents_get c es)) as [[n|]|e]; try discriminate;
      injection Halt as <-; rewrite !shapeAt_cons.
    * rewrite ents_get_set_other by exact Hcy. reflexivity.
    * rewrite ents_get_del_other by exact Hcy. reflexivity.
  + rewrite alter_cons2 in Halt.
    destruct (ents_get c es) as [n|]; [|discriminate].
    destruct (alter f root n (c2 :: rest')) as [n'|e]; [|discriminate].
    injection Halt as <-. rewrite !shapeAt_cons.
    rewrite ents_get_set_other by exact Hcy. reflexivity.
Qed.

Lemma alter_existing_err (f : option node -> result Errno (option node))
      (root : Errno) (cs : list string) :
  forall (t n : node) (e : Errno),
    lookup t cs = Ok n -> cs <> [] -> f (Some n) = Err e ->
    alter f root t cs = Err e.
Proof.
induction cs as [|c rest IH]; intros t n e Hl Hne Hf; [congruence|].
destruct t as [p d|tg|p es]; try discriminate.
rewrite lookup_cons in Hl.
destruct (ents_get c es) as [n0|] eqn:Hg; [|discriminate].
destruct rest as [|c2 rest'].
- simpl in Hl. injection Hl as ->. rewrite alter_cons1, Hg, Hf. reflexivity.
- rewrite alter_cons2, Hg. rewrite (IH n0 n e Hl ltac:(discriminate) Hf). reflexivity.
Qed.

(** A new entry that has nothing below it. *)
Lemma alter_fresh_shape (f : option node -> result Errno (option node))
      (root : Errno) (new : node) (cs : list string) (x : string) :
  f None = Ok (Some new) ->
  (forall z r, shapeAt new (z :: r) = None) ->
  forall (t : node) (pd : N),
    shapeAt t cs = Some (Dir pd []) ->
    shapeAt t (cs ++ [x])%list = None ->
    exists t', alter f root t (cs ++ [x])%list = Ok t'
               /\ forall r, shapeAt t' r =
                            if path_eqb r (cs ++ [x])%list
                            then Some (shape new) else shapeAt t r.
Proof.
intros Hf Hnew.
induction cs as [|c cs IH]; intros t pd Hd Hx.
- destruct t as [p d|tg|p es]; try discriminate.
  simpl app in *. rewrite shapeAt_cons in Hx.
  destruct (ents_get x es) as [n|] eqn:Hg.
  { unfold shapeAt in Hx. simpl in Hx. discriminate. }
  rewrite alter_cons1, Hg, Hf.
  eexists. split; [reflexivity|]. intros r.
  destruct r as [|y r]; [reflexivity|].
  rewrite !shapeAt_cons. unfold path_eqb. simpl.
  destruct (String.eqb y x) eqn:Hyx.
  + apply String.eqb_eq in Hyx. subst y. rewrite ents_get_set_same, Hg.
    rewrite String.eqb_refl. simpl.
    destruct r as [|z r]; [reflexivity | apply Hnew].
  + rewrite ents_get_set_other by (rewrite String.eqb_sym; exact Hyx).
    reflexivity.
- destruct t as [p d|tg|p es]; try discriminate.
  rewrite <- app_comm_cons in *. rewrite shapeAt_cons in Hd, Hx.
  destruct (ents_get c es) as [n|] eqn:Hg; [|discriminate].
  destruct (IH n pd Hd Hx) as [n' [Hw Hr]].
  assert (Hne : exists c2 rest, (cs ++ [x])%list = c2 :: rest).
  { destruct cs; simpl; eauto. }
  destruct Hne as [c2 [rest Hne]]. rewrite Hne in *.
  rewrite alter_cons2, Hg, Hw.
  eexists. split; [reflexivity|]. intros r.
  destruct r as [|y r]; [reflexivity|].
  rewrite !shapeAt_cons. unfold path_eqb. simpl.
  destruct (String.eqb y c) eqn:Hyc.
  + apply String.eqb_eq in Hyc. subst y. rewrite ents_get_set_same, Hg.
    rewrite String.eqb_refl. simpl. rewrite Hr. reflexivity.
  + rewrite ents_get_set_other by (rewrite String.eqb_sym; exact Hyc).
    reflexivity.
Qed.

Lemma shapeAt_lookup_dir (t : node) (r : list string) (pd : N) :
  shapeAt t r = Some (Dir pd []) -> exists es, lookup t r = Ok (Dir pd es).
Proof.
unfold shapeAt. destruct (lookup t r) as [n|e]; [|discriminate].
destruct n as [p d|tg|p es]; simpl; try discriminate.
intros H. injection H as ->. eauto.
Qed.

Lemma shapeAt_exists (t : node) (r : list string) (s : node) :
  shapeAt t r = Some s -> exists n, lookup t r = Ok n /\ shape n = s.
Proof.
unfold shapeAt. destruct (lookup t r) as [n|e]; [|discriminate].
intros H. injection H as <-. eauto.
Qed.

Lemma shapeAt_of_lookup (t : node) (r : list string) (n : node) :
  lookup t r = Ok n -> shapeAt t r = Some (shape n).
Proof. intros H. unfold shapeAt. rewrite H. reflexivity. Qed.

End TreeMore.

(** ** The initialisation of the module directory                         *)

Lemma mutate_err (c : Os.Call) (mk : Errno -> error)
      (f : Os.World -> result Errno Tree.node) (w : Os.World) (e : Errno) :
  f w = Err e ->
  fst (Os.mutate c mk f w) = Some (mk e)
  /\ Os.fs (snd (Os.mutate c mk f w)) = Os.fs w
  /\ Os.wd (snd (Os.mutate c mk f w)) = Os.wd w.
Proof. intros H. unfold Os.mutate. rewrite H. auto. Qed.

Lemma resolve_Clean (wd s : string) : Path.resolve wd (Path.Clean s) = Path.resolve wd s.
Proof.
rewrite !resolve_absolutize, parse_Clean. reflexivity.
Qed.

(** [filepath.Abs] names the same place. *)
Lemma resolve_Abs (wd s : string) :
  Path.IsAbs wd = true -> Path.resolve wd (Path.Abs wd s) = Path.resolve wd s.
Proof.
intros Hwd. unfold Path.Abs. destruct (Path.IsAbs s) eqn:Hs; [apply resolve_Clean|].
assert (Hne : wd <> EmptyString) by (intros ->; discriminate).
unfold Path.Join. simpl filter.
rewrite (proj2 (String.eqb_neq _ _) Hne). simpl negb. cbv iota.
destruct (String.eqb s EmptyString) eqn:Es.
- apply String.eqb_eq in Es. subst s. simpl negb. cbv iota.
  simpl Strings.JoinSlash. rewrite resolve_Clean.
  unfold Path.resolve. rewrite Hwd. simpl. unfold Path.parse. rewrite Hwd. reflexivity.
- simpl negb. cbv iota. rewrite resolve_Clean.
  change (Strings.JoinSlash [wd; s]) with (wd ++ String Strings.slash s).
  unfold Path.resolve. rewrite (IsAbs_app wd _ Hne), Hwd, Hs.
  unfold Path.parse. rewrite (IsAbs_app wd _ Hne), Hwd. simpl snd.
  rewrite SplitSlash_app, fold_left_app. reflexivity.
Qed.

Section Init.

Variable parentDir module : string.
Variable w : Os.World.
Hypothesis wd_abs : Path.IsAbs (Os.wd w) = true.

Local Abbreviation P := (Path.resolve (Os.wd w) parentDir).
Local Abbreviation modDir := (Path.Join [Path.Abs (Os.wd w) parentDir; "cue.mod"]).
Local Abbreviation modFile :=
  (Path.Join [Path.Join [Path.Abs (Os.wd w) parentDir; "cue.mod"]; "module.cue"]).
Local Abbreviation pkgDir :=
  (Path.Join [Path.Join [Path.Abs (Os.wd w) parentDir; "cue.mod"]; "pkg"]).

Lemma resolve_modDir : Path.resolve (Os.wd w) modDir = (P ++ ["cue.mod"])%list.
Proof. rewrite resolve_Join2 by (repeat constructor). rewrite resolve_Abs by exact wd_abs. reflexivity. Qed.

Lemma resolve_modFile :
  Path.resolve (Os.wd w) modFile = ((P ++ ["cue.mod"]) ++ ["module.cue"])%list.
Proof. rewrite resolve_Join2 by (repeat constructor). rewrite resolve_modDir. reflexivity. Qed.

Lemma resolve_pkgDir :
  Path.resolve (Os.wd w) pkgDir = ((P ++ ["cue.mod"]) ++ ["pkg"])%list.
Proof. rewrite resolve_Join2 by (repeat constructor). rewrite resolve_modDir. reflexivity. Qed.

(** The steps of [CueModInit], one after the other. *)
Lemma CueModInit_steps :
  CueModInit parentDir module w =
  let (e, w1) := Os.MkdirAll modDir 493 w in
  match (match e with
         | Some err => if negb (Is_ErrExist err) then Some err else None
         | None => None
         end) with
  | Some err => (Some err, w1)
  | None =>
      let (e2, w2) :=
        match fst (Os.Stat modFile w1) with
        | Err err =>
            if negb (is_PathError err) then (Some err, w1)
            else Os.WriteFile modFile
                   ("module: " ++ String Strings.dquote
                                    (module ++ String Strings.dquote EmptyString))
                   384 w1
        | Ok _ => (None, w1)
        end in
      match e2 with
      | Some err => (Some err, w2)
      | None =>
          let (e3, w3) := Os.Mkdir pkgDir 493 w2 in
          match e3 with
          | Some err => if negb (Is_ErrExist err) then (Some err, w3) else (None, w3)
          | None => (None, w3)
          end
      end
  end.
Proof.
unfold CueModInit, Os.bind, Os.Getwd.
destruct (Os.MkdirAll modDir 493 w) as [e w1].
destruct (match e with Some _ => _ | None => _ end); [reflexivity|].
pose proof (Stat_pure modFile w1) as Hs.
destruct (Os.Stat modFile w1) as [st w1']. simpl in Hs. subst w1'. simpl fst.
destruct st as [fi|err].
- unfold Os.ret. destruct (Os.Mkdir pkgDir 493 w1) as [e3 w3].
  destruct e3 as [err|]; [destruct (negb _)|]; reflexivity.
- destruct (negb (is_PathError err)); [reflexivity|].
  destruct (Os.WriteFile _ _ _ w1) as [e2 w2].
  destruct e2; [reflexivity|].
  destruct (Os.Mkdir pkgDir 493 w2) as [e3 w3].
  destruct e3 as [err'|]; [destruct (negb _)|]; reflexivity.
Qed.

(** X7.  In a directory that has no [cue.mod] the initialisation makes
    the directory [cue.mod], in it the file [module.cue] with the module
    line and mode 0600 and the empty directory [pkg], both directories
    with mode 0755; it returns no error and changes nothing else. *)
Theorem init_creates_layout (pd : N) :
  shapeAt (Os.fs w) P = Some (Tree.Dir pd []) ->
  shapeAt (Os.fs w) (P ++ ["cue.mod"])%list = None ->
  let w' := snd (CueModInit parentDir module w) in
  fst (CueModInit parentDir module w) = None
  /\ shapeAt (Os.fs w') (P ++ ["cue.mod"])%list = Some (Tree.Dir 493 [])
  /\ Tree.lookup (Os.fs w') (P ++ ["cue.mod"; "module.cue"])%list
     = Ok (Tree.File 384 ("module: " ++ String Strings.dquote
                                        (module ++ String Strings.dquote EmptyString)))
  /\ Tree.lookup (Os.fs w') (P ++ ["cue.mod"; "pkg"])%list = Ok (Tree.Dir 493 [])
  /\ (forall r, Tree.is_prefix (P ++ ["cue.mod"])%list r = false ->
                shapeAt (Os.fs w') r = shapeAt (Os.fs w) r).
Proof.
intros HP Hnone. cbv zeta. rewrite CueModInit_steps.
(* MkdirAll *)
assert (Hpre : forall q, Tree.is_prefix q (P ++ ["cue.mod"])%list = true ->
                 shapeAt (Os.fs w) q = None
                 \/ exists pd', shapeAt (Os.fs w) q = Some (Tree.Dir pd' [])).
{ intros q Hq. destruct (is_prefix_app_cases _ _ _ Hq) as [[r [Hr Ha]]|[q' [r [Hq' Hcs]]]].
  - right. apply (shapeAt_prefix_dir (Os.fs w) q r); [|exact Hr]. rewrite <- Ha, HP. discriminate.
  - subst q. destruct q' as [|y q'].
    + right. exists pd. rewrite app_nil_r. exact HP.
    + left. destruct q'; [|destruct q'; discriminate].
      simpl in Hcs. injection Hcs as <- _. exact Hnone. }
destruct (mkdirAll_shape 493 _ _ Hpre) as [t1 [Hmk H1]].
unfold Os.MkdirAll.
destruct (mutate_ok (Os.CMkdirAll modDir 493) (PathError "mkdir" modDir)
            (fun w0 => Tree.mkdirAll 493 (Os.fs w0) (Os.at_path w0 modDir)) w t1)
  as [E1 [E2 E3]].
{ unfold Os.at_path. rewrite resolve_modDir. exact Hmk. }
destruct (Os.mutate _ _ _ w) as [e1 w1]. simpl in E1, E2, E3. subst e1.
(* Stat *)
assert (Hstat1 : shapeAt t1 ((P ++ ["cue.mod"]) ++ ["module.cue"])%list = None).
{ rewrite H1, (shapeAt_app_none _ _ _ Hnone), is_prefix_longer. reflexivity. }
assert (Hst : exists e, fst (Os.Stat modFile w1) = Err (PathError "stat" modFile e)).
{ unfold Os.Stat, Os.at_path. simpl fst. rewrite E3, resolve_modFile, E2.
  unfold shapeAt in Hstat1.
  destruct (Tree.lookup t1 _) as [n|e]; [discriminate | eauto]. }
destruct Hst as [e0 Hst]. rewrite Hst. simpl is_PathError. simpl negb. cbv iota.
(* WriteFile *)
assert (Hdir1 : shapeAt t1 (P ++ ["cue.mod"])%list = Some (Tree.Dir 493 [])).
{ rewrite H1, Hnone, is_prefix_refl. reflexivity. }
set (contents := "module: " ++ String Strings.dquote
                                  (module ++ String Strings.dquote EmptyString)).
destruct (write_shape 384 contents _ "module.cue" t1 493 Hdir1 Hstat1) as [t2 [Hwr H2]].
unfold Os.WriteFile.
destruct (mutate_ok (Os.CWriteFile modFile contents 384) (PathError "open" modFile)
            (fun w0 => Tree.write 384 contents (Os.fs w0) (Os.at_path w0 modFile)) w1 t2)
  as [F1 [F2 F3]].
{ unfold Os.at_path. rewrite E3, resolve_modFile, E2. exact Hwr. }
destruct (Os.mutate _ _ _ w1) as [e2 w2]. simpl in F1, F2, F3. subst e2.
(* Mkdir *)
assert (Hdir2 : shapeAt t2 (P ++ ["cue.mod"])%list = Some (Tree.Dir 493 [])).
{ rewrite H2, path_eqb_neq; [exact Hdir1|].
  rewrite <- (app_nil_r (P ++ ["cue.mod"])%list) at 1.
  intros E. apply app_inv_head in E. discriminate. }
assert (Hfree2 : shapeAt t2 ((P ++ ["cue.mod"]) ++ ["pkg"])%list = None).
{ rewrite H2, path_eqb_neq.
  - rewrite H1, (shapeAt_app_none _ _ _ Hnone), is_prefix_longer. reflexivity.
  - intros E. apply app_inv_head in E. discriminate. }
destruct (alter_fresh_shape (Tree.f_mkdir 493) EEXIST (Tree.Dir 493 []) _ "pkg"
            eq_refl (fun z r => eq_refl) t2 493 Hdir2 Hfree2) as [t3 [Hmd H3]].
unfold Os.Mkdir.
destruct (mutate_ok (Os.CMkdir pkgDir 493) (PathError "mkdir" pkgDir)
            (fun w0 => Tree.mkdir 493 (Os.fs w0) (Os.at_path w0 pkgDir)) w2 t3)
  as [G1 [G2 G3]].
{ unfold Os.at_path. rewrite F3, E3, resolve_pkgDir, F2. exact Hmd. }
destruct (Os.mutate _ _ _ w2) as [e3 w3]. simpl in G1, G2, G3. subst e3.
simpl fst. simpl snd. rewrite G2.
assert (Hne12 : ((P ++ ["cue.mod"]) ++ ["module.cue"])%list
                <> ((P ++ ["cue.mod"]) ++ ["pkg"])%list).
{ intros E. apply app_inv_head in E. discriminate. }
split; [reflexivity|]. split; [|split; [|split]].
- rewrite H3, path_eqb_neq; [exact Hdir2|].
  rewrite <- (app_nil_r (P ++ ["cue.mod"])%list) at 1.
  intros E. apply app_inv_head in E. discriminate.
- apply shapeAt_file.
  change (P ++ ["cue.mod"; "module.cue"])%list
    with (P ++ (["cue.mod"] ++ ["module.cue"]))%list.
  rewrite app_assoc, H3, (path_eqb_neq _ _ Hne12), H2, path_eqb_refl. reflexivity.
- change (P ++ ["cue.mod"; "pkg"])%list with (P ++ (["cue.mod"] ++ ["pkg"]))%list.
  rewrite app_assoc.
  pose proof (H3 ((P ++ ["cue.mod"]) ++ ["pkg"])%list) as H3p.
  rewrite path_eqb_refl in H3p.
  simpl in H3p. destruct (shapeAt_lookup_dir _ _ _ H3p) as [es Hl].
  rewrite Hl. f_equal. f_equal.
  destruct es as [|[k n] es]; [reflexivity|]. exfalso.
  assert (Hsub : shapeAt t3 (((P ++ ["cue.mod"]) ++ ["pkg"]) ++ [k])%list = None).
  { rewrite H3, path_eqb_neq.
    - apply shapeAt_app_none. exact Hfree2.
    - rewrite <- (app_nil_r ((P ++ ["cue.mod"]) ++ ["pkg"])%list) at 2.
      intros E. apply app_inv_head in E. discriminate. }
  unfold shapeAt in Hsub. rewrite lookup_app, Hl in Hsub.
  rewrite lookup_cons, ents_get_cons, String.eqb_refl in Hsub. discriminate.
- intros r Hr. rewrite H3, path_eqb_neq.
  + rewrite H2, path_eqb_neq.
    * rewrite H1. destruct (shapeAt (Os.fs w) r) eqn:E; [reflexivity|].
      destruct (Tree.is_prefix r (P ++ ["cue.mod"])%list) eqn:Ep; [|reflexivity].
      exfalso. destruct (Hpre r Ep) as [_|[pd' E']]; [|congruence].
      destruct (is_prefix_app_cases _ _ _ Ep) as [[r' [Hr' Ha]]|[q' [r' [Hq' Hcs]]]].
      -- destruct (shapeAt_prefix_dir (Os.fs w) r r') as [pd' E']; [|exact Hr'|congruence].
         rewrite <- Ha, HP. discriminate.
      -- subst r. destruct q' as [|y q'].
         ++ rewrite app_nil_r in E. congruence.
         ++ destruct q'; [|destruct q'; discriminate].
            simpl in Hcs. injection Hcs as <- _.
            rewrite is_prefix_refl in Hr. discriminate.
    * intros ->. rewrite is_prefix_app in Hr. discriminate.
  + intros ->. rewrite is_prefix_app in Hr. discriminate.
Qed.

Lemma mkdirAll_existing_shape (perm pc : N) (t : Tree.node) (cs : list string) :
  shapeAt t cs = Some (Tree.Dir pc []) ->
  exists t1, Tree.mkdirAll perm t cs = Ok t1 /\ forall r, shapeAt t1 r = shapeAt t r.
Proof.
intros Hcs.
assert (Hpre : forall q, Tree.is_prefix q cs = true ->
                 shapeAt t q = None \/ exists pd', shapeAt t q = Some (Tree.Dir pd' [])).
{ intros q Hq. right. destruct (is_prefix_split _ _ Hq) as [rest ->].
  destruct rest as [|x rest].
  - rewrite app_nil_r in Hcs. eauto.
  - apply (shapeAt_prefix_dir t q (x :: rest)); [rewrite Hcs|]; discriminate. }
destruct (mkdirAll_shape perm cs t Hpre) as [t1 [Hmk H1]].
exists t1. split; [exact Hmk|]. intros r. rewrite H1.
destruct (shapeAt t r) eqn:E; [reflexivity|].
destruct (Tree.is_prefix r cs) eqn:Ep; [|reflexivity].
destruct (Hpre r Ep) as [_|[pd' E']]; [|congruence].
exfalso. destruct (is_prefix_split _ _ Ep) as [rest ->].
rewrite (shapeAt_app_none _ _ _ E) in Hcs. discriminate.
Qed.

(** X8.  Where [cue.mod] is a directory that has an entry [module.cue]
    (a file or a directory) and an entry [pkg] (whatever it is), the
    initialisation returns no error and leaves every file and directory
    as it is: the module file is not written again, and that [pkg]
    exists is not an error. *)
Theorem init_keeps_existing (pc : N) (n s : Tree.node) :
  shapeAt (Os.fs w) (P ++ ["cue.mod"])%list = Some (Tree.Dir pc []) ->
  Tree.lookup (Os.fs w) (P ++ ["cue.mod"; "module.cue"])%list = Ok n ->
  (forall tg, n <> Tree.Symlink tg) ->
  shapeAt (Os.fs w) (P ++ ["cue.mod"; "pkg"])%list = Some s ->
  fst (CueModInit parentDir module w) = None
  /\ (forall r, shapeAt (Os.fs (snd (CueModInit parentDir module w))) r
                = shapeAt (Os.fs w) r).
Proof.
intros Hdir Hfile Hnolink Hpkg. rewrite CueModInit_steps.
destruct (mkdirAll_existing_shape 493 pc _ _ Hdir) as [t1 [Hmk H1]].
unfold Os.MkdirAll.
destruct (mutate_ok (Os.CMkdirAll modDir 493) (PathError "mkdir" modDir)
            (fun w0 => Tree.mkdirAll 493 (Os.fs w0) (Os.at_path w0 modDir)) w t1)
  as [E1 [E2 E3]].
{ unfold Os.at_path. rewrite resolve_modDir. exact Hmk. }
destruct (Os.mutate _ _ _ w) as [e1 w1]. simpl in E1, E2, E3. subst e1.
assert (Hst : exists fi, fst (Os.Stat modFile w1) = Ok fi).
{ unfold Os.Stat, Os.at_path. simpl fst. rewrite E3, resolve_modFile, E2.
  pose proof (H1 ((P ++ ["cue.mod"]) ++ ["module.cue"])%list) as Hs.
  rewrite <- app_assoc in Hs. simpl app in Hs.
  rewrite (shapeAt_of_lookup _ _ _ Hfile) in Hs.
  destruct (shapeAt_exists _ _ _ Hs) as [n1 [Hl1 Hn1]].
  rewrite <- app_assoc. simpl app. rewrite Hl1.
  destruct n1 as [p d|tg|p es]; eauto.
  exfalso. destruct n as [p d|tg'|p es]; try discriminate.
  exact (Hnolink tg' eq_refl). }
destruct Hst as [fi Hst]. rewrite Hst.
destruct (shapeAt_exists _ _ _ Hpkg) as [n2 [Hl2 _]].
assert (Hl2' : exists n2', Tree.lookup t1 ((P ++ ["cue.mod"]) ++ ["pkg"])%list = Ok n2').
{ pose proof (H1 ((P ++ ["cue.mod"]) ++ ["pkg"])%list) as Hs.
  rewrite <- app_assoc in Hs. simpl app in Hs. rewrite Hpkg in Hs.
  destruct (shapeAt_exists _ _ _ Hs) as [n2' [Hl _]].
  rewrite <- app_assoc. simpl app. eauto. }
destruct Hl2' as [n2' Hl2'].
unfold Os.Mkdir.
destruct (mutate_err (Os.CMkdir pkgDir 493) (PathError "mkdir" pkgDir)
            (fun w0 => Tree.mkdir 493 (Os.fs w0) (Os.at_path w0 pkgDir)) w1 EEXIST)
  as [G1 [G2 G3]].
{ unfold Os.at_path. rewrite E3, resolve_pkgDir, E2.
  apply (alter_existing_err (Tree.f_mkdir 493) EEXIST _ t1 n2' EEXIST Hl2');
    [destruct P; discriminate | reflexivity]. }
destruct (Os.mutate _ _ _ w1) as [e3 w3]. simpl in G1, G2, G3. subst e3.
simpl. split; [reflexivity|]. intros r. rewrite G2, E2. apply H1.
Qed.

(** X9.  Where a regular file is in the way, at [cue.mod] or above it,
    the initialisation returns the error of [os.MkdirAll], which is
    neither "exists" nor "does not exist", and the file tree is as
    before. *)
Theorem init_fails_through_file (q : list string) (pm : N) (d : string) :
  Tree.lookup (Os.fs w) q = Ok (Tree.File pm d) ->
  Tree.is_prefix q (P ++ ["cue.mod"])%list = true ->
  (exists err, fst (CueModInit parentDir module w) = Some err
               /\ Is_ErrExist err = false /\ Is_ErrNotExist err = false)
  /\ Os.fs (snd (CueModInit parentDir module w)) = Os.fs w.
Proof.
intros Hq Hp. rewrite CueModInit_steps.
unfold Os.MkdirAll.
destruct (mutate_err (Os.CMkdirAll modDir 493) (PathError "mkdir" modDir)
            (fun w0 => Tree.mkdirAll 493 (Os.fs w0) (Os.at_path w0 modDir)) w ENOTDIR)
  as [E1 [E2 E3]].
{ unfold Os.at_path. rewrite resolve_modDir.
  exact (mkdirAll_through_file 493 q _ _ pm d Hq Hp). }
destruct (Os.mutate _ _ _ w) as [e1 w1]. simpl in E1, E2, E3. subst e1.
simpl. split; [|exact E2]. eexists. split; [reflexivity|]. split; reflexivity.
Qed.

End Init.

Lemma init_creates_layout_witness :
  fst (CueModInit "proj" "example.com/m" worldEmptyProject) = None
  /\ Tree.lookup (Os.fs (snd (CueModInit "proj" "example.com/m" worldEmptyProject)))
                 ["proj"; "cue.mod"; "pkg"]
     = Ok (Tree.Dir 493 []).
Proof.
destruct (init_creates_layout "proj" "example.com/m" worldEmptyProject eq_refl 493
                              eq_refl eq_refl) as [H1 [_ [_ [H4 _]]]].
split; [exact H1 | exact H4].
Defined.

Lemma init_keeps_existing_witness :
  fst (CueModInit "proj" "other" worldInitialised) = None
  /\ Tree.lookup (Os.fs (snd (CueModInit "proj" "other" worldInitialised)))
                 ["proj"; "cue.mod"; "module.cue"]
     = Ok (Tree.File 420 "module: mine").
Proof.
destruct (init_keeps_existing "proj" "other" worldInitialised eq_refl 493
            (Tree.File 420 "module: mine") (Tree.Dir 493 [])
            eq_refl eq_refl ltac:(discriminate) eq_refl) as [H1 H2].
split; [exact H1|]. apply shapeAt_file.
rewrite H2. reflexivity.
Defined.

Lemma init_fails_through_file_witness :
  Os.fs (snd (CueModInit "notes" EmptyString worldEmptyProject))
  = Os.fs worldEmptyProject.
Proof.
exact (proj2 (init_fails_through_file "notes" EmptyString worldEmptyProject eq_refl
                ["notes"] 420 "x" eq_refl eq_refl)).
Defined.

Example init_run :
  Os.fs (snd (CueModInit "proj" "example.com/m" worldEmptyProject))
  = Tree.Dir 493
      [("proj",
        Tree.Dir 493
          [("cue.mod",
            Tree.Dir 493
              [("pkg", Tree.Dir 493 []);
               ("module.cue",
                Tree.File 384 ("module: " ++ String Strings.dquote
                                 ("example.com/m" ++ String Strings.dquote EmptyString)))])]);
       ("notes", Tree.File 420 "x")].
Proof. vm_compute. reflexivity. Qed.

(** ** Extraction, further                                                *)

Lemma is_prefix_trans_app (D cs r : list string) :
  Tree.is_prefix D r = false -> Tree.is_prefix (D ++ cs)%list r = false.
Proof.
intros H. destruct (Tree.is_prefix (D ++ cs)%list r) eqn:E; [|reflexivity].
destruct (is_prefix_split _ _ E) as [rest ->].
rewrite <- app_assoc, is_prefix_app in H. discriminate.
Qed.

Section ExtractFrame.

Variable FS : Embed.bnode.
Variable wd0 dest : string.
Variable pd : N.
Variable t0 : Tree.node.

Local Abbreviation D := (Path.resolve wd0 dest).
Local Abbreviation J := (outsideKept wd0 (Path.resolve wd0 dest) pd t0).

Lemma J_mkdirAll (name : string) (cs : list string) :
  Path.resolve wd0 name = (D ++ cs)%list ->
  triple J (Os.MkdirAll name 493) (fun _ => J).
Proof.
intros Hname w [Hwd [HD Hout]]. unfold Os.MkdirAll.
destruct (Tree.mkdirAll 493 (Os.fs w) (Os.at_path w name)) as [t1|e] eqn:Hmk.
- destruct (mutate_ok (Os.CMkdirAll name 493) (PathError "mkdir" name)
              (fun w0 => Tree.mkdirAll 493 (Os.fs w0) (Os.at_path w0 name)) w t1 Hmk)
    as [_ [E2 E3]].
  unfold Os.at_path in Hmk. rewrite Hwd, Hname in Hmk.
  pose proof (mkdirAll_ok_shape 493 _ _ _ Hmk) as H1.
  split; [congruence|]. rewrite E2. split.
  + rewrite H1, HD. reflexivity.
  + intros r Hr. rewrite H1, <- (Hout r Hr).
    destruct (shapeAt (Os.fs w) r) eqn:E; [reflexivity|].
    destruct (Tree.is_prefix r (D ++ cs)%list) eqn:Ep; [|reflexivity].
    exfalso.
    destruct (is_prefix_app_cases _ _ _ Ep) as [[r' [Hr' Ha]]|[q' [r' [Hq' _]]]].
    * destruct (shapeAt_prefix_dir (Os.fs w) r r') as [pd' E']; [|exact Hr'|congruence].
      rewrite <- Ha, HD. discriminate.
    * subst r. rewrite is_prefix_app in Hr. discriminate.
- destruct (mutate_err (Os.CMkdirAll name 493) (PathError "mkdir" name)
              (fun w0 => Tree.mkdirAll 493 (Os.fs w0) (Os.at_path w0 name)) w e Hmk)
    as [_ [E2 E3]].
  split; [congruence|]. rewrite E2. split; assumption.
Qed.

Lemma J_WriteFile (name data : string) (perm : N) (cs : list string) :
  Path.resolve wd0 name = (D ++ cs)%list -> cs <> [] ->
  triple J (Os.WriteFile name data perm) (fun _ => J).
Proof.
intros Hname Hne w [Hwd [HD Hout]]. unfold Os.WriteFile.
destruct (Tree.write perm data (Os.fs w) (Os.at_path w name)) as [t1|e] eqn:Hwr.
- destruct (mutate_ok (Os.CWriteFile name data perm) (PathError "open" name)
              (fun w0 => Tree.write perm data (Os.fs w0) (Os.at_path w0 name)) w t1 Hwr)
    as [_ [E2 E3]].
  unfold Os.at_path in Hwr. rewrite Hwd, Hname in Hwr.
  split; [congruence|]. rewrite E2. split.
  + rewrite (alter_shape_frame _ _ _ _ _ D Hwr); [exact HD|].
    destruct cs; [congruence | apply is_prefix_longer].
  + intros r Hr. rewrite (alter_shape_frame _ _ _ _ _ r Hwr); [exact (Hout r Hr)|].
    apply is_prefix_trans_app. exact Hr.
- destruct (mutate_err (Os.CWriteFile name data perm) (PathError "open" name)
              (fun w0 => Tree.write perm data (Os.fs w0) (Os.at_path w0 name)) w e Hwr)
    as [_ [E2 E3]].
  split; [congruence|]. rewrite E2. split; assumption.
Qed.

Lemma J_extractEntry (cs : list string) (d : Embed.bnode) :
  (cs = [] -> exists es, d = Embed.BDir es) ->
  Forall (fun c => simple c = true) cs ->
  triple J (extractEntry FS dest (walkName cs) d) (fun _ => J).
Proof.
intros Hroot Hcs. unfold extractEntry.
destruct d as [data|es]; [|apply triple_ret; auto].
destruct (exists_last (l := cs)) as [cs' [x ->]].
{ intros ->. destruct (Hroot eq_refl); discriminate. }
change (negb (Os.IsRegular (Embed.Type_ (Embed.BFile data)))) with false. cbv iota.
destruct (Strings.Contains _ _); [apply triple_ret; auto|].
destruct (Embed.ReadFile _ _) as [contents|err]; [|apply triple_ret; auto].
apply Forall_app in Hcs as Hcs'. destruct Hcs' as [Hcs1 Hx]. apply Forall_inv in Hx.
eapply triple_bind.
- apply (J_mkdirAll _ cs'). apply resolve_overlay_Dir; assumption.
- intros e. destruct e; [apply triple_ret; auto|].
  apply (J_WriteFile _ _ _ (cs' ++ [x])%list).
  + apply resolve_overlay; [destruct cs'; discriminate | exact Hcs].
  + destruct cs'; discriminate.
Qed.

End ExtractFrame.

(** X10.  Into a destination that is a directory and holds no link, the
    extraction of a well-formed bundle writes below the destination
    only: whether it succeeds or stops at an error, every path that is
    not below the destination leads to what it led to before, and the
    destination is still the directory it was. *)
Theorem extract_stays_below_dest (es0 : list (string * Embed.bnode)) (dest : string)
        (w : Os.World) (pd : N) (es : list (string * Tree.node)) :
  wellFormed (Embed.BDir es0) = true ->
  Tree.lookup (Os.fs w) (Os.at_path w dest) = Ok (Tree.Dir pd es) ->
  linkFree (Tree.Dir pd es) = true ->
  Os.wd (snd (extractModules (Embed.BDir es0) dest w)) = Os.wd w
  /\ shapeAt (Os.fs (snd (extractModules (Embed.BDir es0) dest w))) (Os.at_path w dest)
     = Some (Tree.Dir pd [])
  /\ (forall r,
         Tree.is_prefix (Os.at_path w dest) r = false ->
         shapeAt (Os.fs (snd (extractModules (Embed.BDir es0) dest w))) r
         = shapeAt (Os.fs w) r).
Proof.
intros Hwf HD _. apply shapeAt_of_lookup in HD. simpl shape in HD.
change (extractModules (Embed.BDir es0) dest)
  with (Embed.walkDir (extractEntry (Embed.BDir es0) dest) (walkName []) (Embed.BDir es0)).
apply (triple_walkDir_named (Embed.BDir es0)
         (outsideKept (Os.wd w) (Path.resolve (Os.wd w) dest) pd (Os.fs w))
         (extractEntry (Embed.BDir es0) dest)).
- intros cs d Hcs Hb. apply J_extractEntry; [|exact Hcs].
  intros ->. simpl in Hb. injection Hb as <-. eauto.
- constructor.
- reflexivity.
- exact Hwf.
- split; [reflexivity|]. split; [exact HD | reflexivity].
Qed.

Lemma extract_stays_below_dest_witness :
  fst (extractModules bundleWithLookalike "out" worldBlockedDest) <> None
  /\ shapeAt (Os.fs (snd (extractModules bundleWithLookalike "out" worldBlockedDest)))
             ["keep"]
     = Some (Tree.File 420 "k").
Proof.
split; [vm_compute; discriminate|].
destruct (extract_stays_below_dest
            [("dagger.io",
              Embed.BDir
                [("cue.mod",
                  Embed.BDir [("module.cue", Embed.BFile "module: dagger.io");
                              ("pkg", Embed.BDir [("a.cue", Embed.BFile "package a")]);
                              ("pkgs.cue", Embed.BFile "package pkgs")]);
                 ("docs", Embed.BDir []);
                 ("plan.cue", Embed.BFile "package dagger")])]
            "out" worldBlockedDest 448 [("dagger.io", Tree.File 420 "in the way")]
            eq_refl eq_refl eq_refl) as [_ [_ H]].
exact (H ["keep"] eq_refl).
Defined.

(** ** Removal and renaming in the tree                                   *)

Section TreeMoves.

Import Tree.

Lemma apart_sym (a b : list string) : apart a b -> apart b a.
Proof. intros [H1 H2]. split; assumption. Qed.

Lemma apart_siblings (d : list string) (x y : string) :
  String.eqb x y = false -> apart (d ++ [x])%list (d ++ [y])%list.
Proof.
intros H. split; apply is_prefix_fork; [exact H|].
rewrite String.eqb_sym. exact H.
Qed.

Lemma apart_below (a b q : list string) :
  apart a b -> is_prefix b (a ++ q)%list = false.
Proof.
intros [H1 H2]. destruct (is_prefix b (a ++ q)%list) eqn:E; [|reflexivity].
destruct (is_prefix_app_cases _ _ _ E) as [[r [_ Ha]]|[q' [r [Hb _]]]].
- subst a. rewrite is_prefix_app in H2. discriminate.
- subst b. rewrite is_prefix_app in H1. discriminate.
Qed.

Lemma apart_under (a b q : list string) :
  apart a b -> apart (a ++ q)%list b.
Proof.
intros H. split; [|apply apart_below; exact H].
destruct H as [H1 H2].
destruct (is_prefix (a ++ q)%list b) eqn:E; [|reflexivity].
destruct (is_prefix_split _ _ E) as [r ->].
rewrite <- app_assoc, is_prefix_app in H1. discriminate.
Qed.

Lemma lookup_in_dir (t : node) (d : list string) (y : string) (pm : N) :
  shapeAt t d = Some (Dir pm []) ->
  lookup t (d ++ [y])%list = Err ENOENT \/ exists n, lookup t (d ++ [y])%list = Ok n.
Proof.
intros H. destruct (shapeAt_lookup_dir _ _ _ H) as [es Hl].
rewrite lookup_app, Hl, lookup_cons. destruct (ents_get y es); simpl; eauto.
Qed.

(** [os.RemoveAll] of an entry of a directory. *)
Lemma removeAll_shape (t : node) (d : list string) (y : string) (pm : N) :
  shapeAt t d = Some (Dir pm []) ->
  exists t', removeAll t (d ++ [y])%list = Ok t'
             /\ forall r, shapeAt t' r =
                          if is_prefix (d ++ [y])%list r then None else shapeAt t r.
Proof.
intros Hd. destruct (shapeAt_lookup_dir _ _ _ Hd) as [es Hl].
destruct (alter_in_dir f_removeAll EBUSY d t pm es y None Hl eq_refl) as [t' Halt].
exists t'. unfold removeAll. rewrite Halt. split; [reflexivity|].
intros r. destruct (is_prefix (d ++ [y])%list r) eqn:E.
- destruct (is_prefix_split _ _ E) as [q ->].
  destruct (alter_at _ _ _ _ _ Halt) as [o [Ho Hl']].
  unfold f_removeAll in Ho. injection Ho as <-. simpl in Hl'.
  unfold shapeAt. rewrite lookup_app, Hl'. reflexivity.
- exact (alter_shape_frame _ _ _ _ _ r Halt E).
Qed.

(** rename(2) of an entry to a name that is free, in a directory that
    exists: the entry moves with all that is below it. *)
Lemma rename_shape (same : bool) (t n : node) (a d : list string) (y : string) (pm : N) :
  lookup t a = Ok n ->
  shapeAt t d = Some (Dir pm []) ->
  shapeAt t (d ++ [y])%list = None ->
  apart a (d ++ [y])%list ->
  exists t', rename same t a (d ++ [y])%list = Ok t'
             /\ (forall q, lookup t' ((d ++ [y]) ++ q)%list = lookup t (a ++ q)%list)
             /\ (forall q, shapeAt t' (a ++ q)%list = None)
             /\ (forall r, is_prefix a r = false -> is_prefix (d ++ [y])%list r = false ->
                           shapeAt t' r = shapeAt t r).
Proof.
intros Ha Hd Hb [Hab Hba].
assert (Hane : a <> []) by (intros ->; discriminate).
assert (Hbl : exists e, lookup t (d ++ [y])%list = Err e).
{ unfold shapeAt in Hb. destruct (lookup t (d ++ [y])%list); [discriminate | eauto]. }
destruct Hbl as [eb Hbl].
destruct (alter_existing f_removeAll EBUSY a t n None Ha Hane eq_refl) as [t1 H1].
assert (Hd1 : shapeAt t1 d = Some (Dir pm [])).
{ rewrite (alter_shape_frame _ _ _ _ _ d H1); [exact Hd|].
  destruct (is_prefix a d) eqn:E; [|reflexivity].
  destruct (is_prefix_split _ _ E) as [q ->].
  rewrite <- app_assoc, is_prefix_app in Hab. discriminate. }
destruct (shapeAt_lookup_dir _ _ _ Hd1) as [es1 Hl1].
destruct (alter_in_dir (f_put n) EBUSY d t1 pm es1 y (Some n) Hl1 eq_refl) as [t' H2].
exists t'. split.
- unfold rename. rewrite Hbl. unfold rename2. rewrite Ha.
  rewrite (path_eqb_neq a (d ++ [y])%list)
    by (intros E; rewrite E, is_prefix_refl in Hab; discriminate).
  rewrite Hab, H1. unfold put. rewrite H2, Hbl. destruct n; reflexivity.
- split; [|split].
  + intros q. destruct (alter_at _ _ _ _ _ H2) as [o [Ho Hl']].
    unfold f_put in Ho. injection Ho as <-. simpl in Hl'.
    rewrite (lookup_app (d ++ [y])%list q), Hl', (lookup_app a q), Ha. reflexivity.
  + intros q. rewrite (alter_shape_frame _ _ _ _ _ (a ++ q)%list H2).
    * destruct (alter_at _ _ _ _ _ H1) as [o [Ho Hl']].
      unfold f_removeAll in Ho. injection Ho as <-. simpl in Hl'.
      unfold shapeAt. rewrite lookup_app, Hl'. reflexivity.
    * apply apart_below. split; assumption.
  + intros r Hra Hrb.
    rewrite (alter_shape_frame _ _ _ _ _ r H2 Hrb).
    exact (alter_shape_frame _ _ _ _ _ r H1 Hra).
Qed.

End TreeMoves.

(** ** The swap of one module                                             *)

Lemma path_eqb_app_head (a q q' : list string) :
  Tree.path_eqb (a ++ q)%list (a ++ q')%list = Tree.path_eqb q q'.
Proof.
destruct (Tree.path_eqb q q') eqn:E.
- apply path_eqb_eq in E. subst. apply path_eqb_refl.
- apply path_eqb_neq. intros H. apply app_inv_head in H. subst.
  rewrite path_eqb_refl in E. discriminate.
Qed.

Lemma length_append (a b : string) :
  String.length (a ++ b) = String.length a + String.length b.
Proof. induction a as [|c a IH]; simpl; [reflexivity | rewrite IH; reflexivity]. Qed.

Lemma backup_name_differs (m : string) : String.eqb m (m ++ ".old") = false.
Proof.
apply String.eqb_neq. intros H. apply (f_equal String.length) in H.
rewrite length_append in H. simpl in H. lia.
Qed.

Section Swap.

Variable version_Version version_DevelopmentVersion : string.
Variable cuePkgDir unpackDir m : string.
Variable w : Os.World.

Hypothesis m_simple : simple m = true.
Hypothesis old_simple : simple (m ++ ".old") = true.

Local Abbreviation D := (Path.resolve (Os.wd w) cuePkgDir).
Local Abbreviation U := (Path.resolve (Os.wd w) unpackDir).
Local Abbreviation live := (Path.resolve (Os.wd w) cuePkgDir ++ [m])%list.
Local Abbreviation backup := (Path.resolve (Os.wd w) cuePkgDir ++ [(m ++ ".old")%string])%list.
Local Abbreviation new := (Path.resolve (Os.wd w) unpackDir ++ [m])%list.
Local Abbreviation moduleDir := (Path.Join [cuePkgDir; m]).
Local Abbreviation newModuleDir := (Path.Join [unpackDir; m]).
Local Abbreviation markerFile := (Path.Join [Path.Join [unpackDir; m]; versionFilePath]).

Lemma resolve_live (wd : string) :
  Path.resolve wd moduleDir = (Path.resolve wd cuePkgDir ++ [m])%list.
Proof.
destruct (simple_spec _ m_simple) as [Hs _].
rewrite resolve_Join2; rewrite (SplitSlash_noslash m Hs);
  [reflexivity | repeat constructor; exact m_simple].
Qed.

Lemma resolve_new (wd : string) :
  Path.resolve wd newModuleDir = (Path.resolve wd unpackDir ++ [m])%list.
Proof.
destruct (simple_spec _ m_simple) as [Hs _].
rewrite resolve_Join2; rewrite (SplitSlash_noslash m Hs);
  [reflexivity | repeat constructor; exact m_simple].
Qed.

Lemma resolve_backup (wd : string) :
  Path.resolve wd (moduleDir ++ ".old")
  = (Path.resolve wd cuePkgDir ++ [(m ++ ".old")%string])%list.
Proof. apply resolve_Join2_suffix; assumption. Qed.

Lemma resolve_marker (wd : string) :
  Path.resolve wd markerFile
  = (((Path.resolve wd unpackDir ++ [m]) ++ ["cue.mod"]) ++ ["version.txt"])%list.
Proof.
rewrite resolve_Join2 by (repeat constructor). rewrite resolve_new.
rewrite <- !app_assoc. reflexivity.
Qed.

(** The steps of the loop body for a module that is no link. *)
Lemma vendorModule_steps :
  lstatSymlink w moduleDir = false ->
  vendorModule version_Version version_DevelopmentVersion cuePkgDir unpackDir m w =
  let (e1, w1) :=
    if negb (String.eqb version_Version version_DevelopmentVersion)
    then Os.WriteFile markerFile version_Version 384 w
    else (None, w) in
  match e1 with
  | Some err => (([], Some err), w1)
  | None =>
      let (e3, w3) :=
        (let (e2, w2) := Os.RemoveAll (moduleDir ++ ".old") w1 in
         match (match e2 with
                | Some err => if negb (Is_ErrNotExist err) then Some err else None
                | None => None
                end) with
         | Some err => (Some err, w2)
         | None =>
             let (e3, w3) := Os.Rename moduleDir (moduleDir ++ ".old") w2 in
             (match e3 with
              | Some err => if negb (Is_ErrNotExist err) then Some err else None
              | None => None
              end, w3)
         end) in
      match e3 with
      | Some err => (([], Some err), w3)
      | None =>
          let (e4, w4) := Os.Rename newModuleDir moduleDir w3 in
          (([moduleDir ++ ".old"], e4), w4)
      end
  end.
Proof.
intros Hsym. unfold vendorModule, Os.bind.
unfold lstatSymlink in Hsym.
pose proof (Lstat_pure moduleDir w) as Hp.
destruct (Os.Lstat moduleDir w) as [fi w0]. simpl in Hp, Hsym. subst w0.
rewrite Hsym.
destruct (negb (String.eqb version_Version version_DevelopmentVersion)).
- destruct (Os.WriteFile _ _ _ w) as [e1 w1]. destruct e1; [reflexivity|].
  destruct (Os.RemoveAll _ w1) as [e2 w2].
  destruct (match e2 with Some _ => _ | None => _ end); [reflexivity|].
  destruct (Os.Rename _ _ w2) as [e3 w3].
  destruct (match e3 with Some _ => _ | None => _ end); [reflexivity|].
  destruct (Os.Rename _ _ w3) as [e4 w4]. reflexivity.
- unfold Os.ret. destruct (Os.RemoveAll _ w) as [e2 w2].
  destruct (match e2 with Some _ => _ | None => _ end); [reflexivity|].
  destruct (Os.Rename _ _ w2) as [e3 w3].
  destruct (match e3 with Some _ => _ | None => _ end); [reflexivity|].
  destruct (Os.Rename _ _ w3) as [e4 w4]. reflexivity.
Qed.

(** The old backup goes, the module becomes the backup: from a tree with
    the package directory, whatever the module is (there or not). *)
Lemma swap_out (w1 : Os.World) (pdD : N) :
  Os.wd w1 = Os.wd w ->
  shapeAt (Os.fs w1) D = Some (Tree.Dir pdD []) ->
  exists w3,
    (let (e2, w2) := Os.RemoveAll (moduleDir ++ ".old") w1 in
     match (match e2 with
            | Some err => if negb (Is_ErrNotExist err) then Some err else None
            | None => None
            end) with
     | Some err => (Some err, w2)
     | None =>
         let (e3, w3) := Os.Rename moduleDir (moduleDir ++ ".old") w2 in
         (match e3 with
          | Some err => if negb (Is_ErrNotExist err) then Some err else None
          | None => None
          end, w3)
     end) = (None, w3)
    /\ Os.wd w3 = Os.wd w
    /\ (forall q, shapeAt (Os.fs w3) (backup ++ q)%list = shapeAt (Os.fs w1) (live ++ q)%list)
    /\ (forall q, shapeAt (Os.fs w3) (live ++ q)%list = None)
    /\ (forall r, Tree.is_prefix live r = false -> Tree.is_prefix backup r = false ->
                  shapeAt (Os.fs w3) r = shapeAt (Os.fs w1) r).
Proof.
intros Hwd HD.
pose proof (apart_siblings D m (m ++ ".old") (backup_name_differs m)) as Hlb.
destruct (removeAll_shape (Os.fs w1) D (m ++ ".old") pdD HD) as [t2 [Hrm S2]].
unfold Os.RemoveAll.
destruct (mutate_ok (Os.CRemoveAll (moduleDir ++ ".old"))
            (PathError "unlinkat" (moduleDir ++ ".old"))
            (fun w0 => Tree.removeAll (Os.fs w0) (Os.at_path w0 (moduleDir ++ ".old")))
            w1 t2) as [E1 [E2 E3]].
{ unfold Os.at_path. rewrite Hwd, resolve_backup. exact Hrm. }
destruct (Os.mutate _ _ _ w1) as [e2 w2]. simpl in E1, E2, E3. subst e2.
assert (HD2 : shapeAt t2 D = Some (Tree.Dir pdD [])).
{ rewrite S2, is_prefix_longer. exact HD. }
assert (Hb2 : shapeAt t2 backup = None).
{ rewrite S2, is_prefix_refl. reflexivity. }
assert (Hlive2 : forall q, shapeAt t2 (live ++ q)%list = shapeAt (Os.fs w1) (live ++ q)%list).
{ intros q. rewrite S2, (apart_below live backup q Hlb). reflexivity. }
unfold Os.Rename.
destruct (lookup_in_dir t2 D m pdD HD2) as [Hno|[n Hn]].
- (* no module *)
  destruct (mutate_err (Os.CRename moduleDir (moduleDir ++ ".old"))
              (LinkError "rename" moduleDir (moduleDir ++ ".old"))
              (fun w0 => Tree.rename (String.eqb (moduleDir ++ ".old") moduleDir)
                           (Os.fs w0) (Os.at_path w0 moduleDir)
                           (Os.at_path w0 (moduleDir ++ ".old")))
              w2 ENOENT) as [F1 [F2 F3]].
  { unfold Os.at_path. rewrite E3, Hwd, resolve_live, resolve_backup, E2.
    unfold Tree.rename. unfold shapeAt in Hb2.
    destruct (Tree.lookup t2 backup) as [nb|eb]; [discriminate|].
    unfold Tree.rename2. rewrite Hno. reflexivity. }
  destruct (Os.mutate _ _ _ w2) as [e3 w3]. simpl in F1, F2, F3. subst e3.
  exists w3. simpl. split; [reflexivity|]. split; [congruence|]. rewrite F2, E2.
  assert (Hnone : forall q, shapeAt t2 (live ++ q)%list = None).
  { intros q. apply shapeAt_app_none. unfold shapeAt. rewrite Hno. reflexivity. }
  split; [|split].
  + intros q. rewrite <- Hlive2, Hnone. apply shapeAt_app_none. exact Hb2.
  + exact Hnone.
  + intros r _ Hr. rewrite S2, Hr. reflexivity.
- destruct (rename_shape (String.eqb (moduleDir ++ ".old") moduleDir) t2 n live D
              (m ++ ".old") pdD Hn HD2 Hb2 Hlb) as [t3 [Hrn [L3 [A3 F3']]]].
  destruct (mutate_ok (Os.CRename moduleDir (moduleDir ++ ".old"))
              (LinkError "rename" moduleDir (moduleDir ++ ".old"))
              (fun w0 => Tree.rename (String.eqb (moduleDir ++ ".old") moduleDir)
                           (Os.fs w0) (Os.at_path w0 moduleDir)
                           (Os.at_path w0 (moduleDir ++ ".old")))
              w2 t3) as [F1 [F2 F3]].
  { unfold Os.at_path. rewrite E3, Hwd, resolve_live, resolve_backup, E2. exact Hrn. }
  destruct (Os.mutate _ _ _ w2) as [e3 w3]. simpl in F1, F2, F3. subst e3.
  exists w3. simpl. split; [reflexivity|]. split; [congruence|]. rewrite F2.
  split; [|split].
  + intros q. rewrite <- Hlive2. unfold shapeAt. rewrite L3. reflexivity.
  + exact A3.
  + intros r Hr1 Hr2. rewrite (F3' r Hr1 Hr2), S2, Hr2. reflexivity.
Qed.

Lemma not_marker_outside (a : list string) (r : list string) :
  Tree.is_prefix a r = false ->
  Tree.path_eqb r ((a ++ ["cue.mod"]) ++ ["version.txt"])%list = false.
Proof.
intros H. apply path_eqb_neq. intros ->.
rewrite <- !app_assoc, is_prefix_app in H. discriminate.
Qed.

(** X11.  The swap of a module in a release build, where the staged
    module has its directory [cue.mod] and no marker yet: the step
    returns no error and defers the removal of the backup; the module
    directory then holds what was staged, with the marker that reads the
    tool's version; what the module directory held before is under the
    backup name; the staged module is gone from the staging directory;
    everything else is as before. *)
Theorem swap_installs_module (pdD pc : N) :
  String.eqb version_Version version_DevelopmentVersion = false ->
  lstatSymlink w moduleDir = false ->
  apart new live -> apart new backup ->
  shapeAt (Os.fs w) D = Some (Tree.Dir pdD []) ->
  shapeAt (Os.fs w) (new ++ ["cue.mod"])%list = Some (Tree.Dir pc []) ->
  shapeAt (Os.fs w) ((new ++ ["cue.mod"]) ++ ["version.txt"])%list = None ->
  let r := vendorModule version_Version version_DevelopmentVersion
                        cuePkgDir unpackDir m w in
  fst r = ([moduleDir ++ ".old"], None)
  /\ (forall q, shapeAt (Os.fs (snd r)) (live ++ q)%list =
                if Tree.path_eqb q ["cue.mod"; "version.txt"]
                then Some (Tree.File 384 version_Version)
                else shapeAt (Os.fs w) (new ++ q)%list)
  /\ (forall q, shapeAt (Os.fs (snd r)) (backup ++ q)%list
                = shapeAt (Os.fs w) (live ++ q)%list)
  /\ (forall q, shapeAt (Os.fs (snd r)) (new ++ q)%list = None)
  /\ (forall r0, Tree.is_prefix live r0 = false -> Tree.is_prefix backup r0 = false ->
                 Tree.is_prefix new r0 = false ->
                 shapeAt (Os.fs (snd r)) r0 = shapeAt (Os.fs w) r0).
Proof.
intros Hdev Hsym Hnl Hnb HD Hcm Hfree. cbv zeta.
rewrite (vendorModule_steps Hsym), Hdev. simpl negb. cbv iota.
pose proof (apart_siblings D m (m ++ ".old") (backup_name_differs m)) as Hlb.
destruct (write_shape 384 version_Version _ "version.txt" (Os.fs w) pc Hcm Hfree)
  as [t1 [Hwr S1]].
unfold Os.WriteFile.
destruct (mutate_ok (Os.CWriteFile markerFile version_Version 384)
            (PathError "open" markerFile)
            (fun w0 => Tree.write 384 version_Version (Os.fs w0)
                         (Os.at_path w0 markerFile)) w t1) as [E1 [E2 E3]].
{ unfold Os.at_path. rewrite resolve_marker. exact Hwr. }
destruct (Os.mutate _ _ _ w) as [e1 w1]. simpl in E1, E2, E3. subst e1.
assert (HnD : Tree.is_prefix new D = false).
{ destruct (Tree.is_prefix new D) eqn:E; [|reflexivity].
  destruct (is_prefix_split _ _ E) as [q Hq]. destruct Hnl as [Hnl _].
  rewrite Hq, <- app_assoc, is_prefix_app in Hnl. discriminate. }
assert (HD1 : shapeAt (Os.fs w1) D = Some (Tree.Dir pdD [])).
{ rewrite E2, S1, (not_marker_outside _ _ HnD). exact HD. }
destruct (swap_out w1 pdD E3 HD1) as [w3 [Heq [Hwd3 [B3 [A3 F3]]]]].
rewrite Heq. clear Heq.
(* the staged module *)
assert (Hnew1 : forall q, shapeAt (Os.fs w3) (new ++ q)%list
                          = shapeAt t1 (new ++ q)%list).
{ intros q. rewrite F3, E2; [reflexivity | |].
  - apply apart_below. exact Hnl.
  - apply apart_below. exact Hnb. }
assert (Hn3 : exists n1, Tree.lookup (Os.fs w3) new = Ok n1).
{ pose proof (Hnew1 []) as H. rewrite app_nil_r in H.
  destruct (shapeAt_prefix_dir (Os.fs w) new ["cue.mod"]) as [pn Hpn];
    [rewrite Hcm; discriminate | discriminate |].
  rewrite S1, path_eqb_neq, Hpn in H.
  - destruct (shapeAt_exists _ _ _ H) as [n1 [Hl _]]. eauto.
  - rewrite <- app_assoc. rewrite <- (app_nil_r new) at 1.
    intros E. apply app_inv_head in E. discriminate. }
destruct Hn3 as [n1 Hn1].
assert (HD3 : shapeAt (Os.fs w3) D = Some (Tree.Dir pdD [])).
{ rewrite F3; [exact HD1 | apply is_prefix_longer | apply is_prefix_longer]. }
assert (Hl3 : shapeAt (Os.fs w3) live = None).
{ pose proof (A3 []) as H. rewrite app_nil_r in H. exact H. }
destruct (rename_shape (String.eqb moduleDir newModuleDir) (Os.fs w3) n1 new D m pdD
            Hn1 HD3 Hl3 Hnl) as [t4 [Hrn [L4 [A4 F4]]]].
unfold Os.Rename.
destruct (mutate_ok (Os.CRename newModuleDir moduleDir)
            (LinkError "rename" newModuleDir moduleDir)
            (fun w0 => Tree.rename (String.eqb moduleDir newModuleDir)
                         (Os.fs w0) (Os.at_path w0 newModuleDir)
                         (Os.at_path w0 moduleDir))
            w3 t4) as [G1 [G2 G3]].
{ unfold Os.at_path. rewrite Hwd3, resolve_new, resolve_live. exact Hrn. }
destruct (Os.mutate _ _ _ w3) as [e4 w4]. simpl in G1, G2, G3. subst e4.
simpl fst. simpl snd. rewrite G2.
split; [reflexivity|]. split; [|split; [|split]].
- intros q. unfold shapeAt at 1. rewrite L4. fold (shapeAt (Os.fs w3) (new ++ q)%list).
  rewrite Hnew1, S1.
  change ["cue.mod"; "version.txt"] with (["cue.mod"] ++ ["version.txt"])%list.
  rewrite <- (app_assoc new ["cue.mod"] ["version.txt"]), path_eqb_app_head.
  reflexivity.
- intros q. rewrite F4.
  + rewrite B3, E2, S1, not_marker_outside; [reflexivity|].
    apply apart_below. apply apart_sym. exact Hnl.
  + apply apart_below. apply apart_sym. exact Hnb.
  + apply apart_below. apply apart_sym. exact Hlb.
- exact A4.
- intros r0 H1 H2 H3. rewrite F4 by assumption. rewrite F3 by assumption.
  rewrite E2, S1, (not_marker_outside _ _ H3). reflexivity.
Qed.



(** X13.  In a development build no marker is written, so a module that
    is missing from the staging directory is noticed only when it is
    renamed into place: by then the module directory has been moved to
    the backup name, the step returns the error of the rename, and the
    removal of the backup that it deferred deletes what the module
    directory held.  Neither the module nor its backup is there
    afterwards. *)
Theorem failed_swap_loses_module (pdD pdU : N) :
  String.eqb version_Version version_DevelopmentVersion = true ->
  lstatSymlink w moduleDir = false ->
  apart new live -> apart new backup ->
  shapeAt (Os.fs w) D = Some (Tree.Dir pdD []) ->
  shapeAt (Os.fs w) U = Some (Tree.Dir pdU []) ->
  shapeAt (Os.fs w) new = None ->
  let r := vendorModule version_Version version_DevelopmentVersion
                        cuePkgDir unpackDir m w in
  let w' := snd (runDeferred (rev (fst (fst r))) (snd r)) in
  fst r = ([moduleDir ++ ".old"],
           Some (LinkError "rename" newModuleDir moduleDir ENOENT))
  /\ (forall q, shapeAt (Os.fs w') (live ++ q)%list = None)
  /\ (forall q, shapeAt (Os.fs w') (backup ++ q)%list = None)
  /\ (forall r0, Tree.is_prefix live r0 = false -> Tree.is_prefix backup r0 = false ->
                 shapeAt (Os.fs w') r0 = shapeAt (Os.fs w) r0).
Proof.
intros Hdev Hsym Hnl Hnb HD HU Hnone. cbv zeta.
rewrite (vendorModule_steps Hsym), Hdev. simpl negb. cbv iota.
destruct (swap_out w pdD eq_refl HD) as [w3 [Heq [Hwd3 [B3 [A3 F3]]]]].
rewrite Heq. clear Heq.
assert (HU3 : shapeAt (Os.fs w3) U = Some (Tree.Dir pdU [])).
{ rewrite F3; [exact HU| |].
  - destruct (Tree.is_prefix live U) eqn:E; [|reflexivity].
    destruct (is_prefix_split _ _ E) as [q Hq]. destruct Hnl as [_ Hnl].
    rewrite Hq, <- app_assoc, is_prefix_app in Hnl. discriminate.
  - destruct (Tree.is_prefix backup U) eqn:E; [|reflexivity].
    destruct (is_prefix_split _ _ E) as [q Hq]. destruct Hnb as [_ Hnb].
    rewrite Hq, <- app_assoc, is_prefix_app in Hnb. discriminate. }
assert (Hnew3 : Tree.lookup (Os.fs w3) new = Err ENOENT).
{ destruct (lookup_in_dir (Os.fs w3) U m pdU HU3) as [H|[n Hn]]; [exact H|].
  exfalso. assert (Hs : shapeAt (Os.fs w3) new = None).
  { rewrite F3; [exact Hnone | apply Hnl | apply Hnb]. }
  unfold shapeAt in Hs. rewrite Hn in Hs. discriminate. }
unfold Os.Rename.
destruct (mutate_err (Os.CRename newModuleDir moduleDir)
            (LinkError "rename" newModuleDir moduleDir)
            (fun w0 => Tree.rename (String.eqb moduleDir newModuleDir)
                         (Os.fs w0) (Os.at_path w0 newModuleDir)
                         (Os.at_path w0 moduleDir))
            w3 ENOENT) as [G1 [G2 G3]].
{ unfold Os.at_path. rewrite Hwd3, resolve_new, resolve_live.
  unfold Tree.rename. pose proof (A3 []) as Hl. rewrite app_nil_r in Hl.
  unfold shapeAt in Hl. destruct (Tree.lookup (Os.fs w3) live) as [n|e]; [discriminate|].
  unfold Tree.rename2. rewrite Hnew3. reflexivity. }
destruct (Os.mutate _ _ _ w3) as [e4 w4]. simpl in G1, G2, G3. subst e4.
simpl fst. simpl snd. simpl rev. simpl runDeferred.
assert (HD4 : shapeAt (Os.fs w4) D = Some (Tree.Dir pdD [])).
{ rewrite G2, F3; [exact HD | apply is_prefix_longer | apply is_prefix_longer]. }
destruct (removeAll_shape (Os.fs w4) D (m ++ ".old") pdD HD4) as [t5 [Hrm S5]].
unfold Os.bind, Os.RemoveAll.
destruct (mutate_ok (Os.CRemoveAll (moduleDir ++ ".old"))
            (PathError "unlinkat" (moduleDir ++ ".old"))
            (fun w0 => Tree.removeAll (Os.fs w0) (Os.at_path w0 (moduleDir ++ ".old")))
            w4 t5) as [K1 [K2 K3]].
{ unfold Os.at_path. rewrite G3, Hwd3, resolve_backup. exact Hrm. }
destruct (Os.mutate _ _ _ w4) as [e5 w5]. simpl in K1, K2, K3. subst e5.
simpl. rewrite K2.
pose proof (apart_siblings D m (m ++ ".old") (backup_name_differs m)) as Hlb.
split; [reflexivity|]. split; [|split].
- intros q. rewrite S5, (apart_below live backup q Hlb), G2. apply A3.
- intros q. rewrite S5, is_prefix_app. reflexivity.
- intros r0 H1 H2. rewrite S5, H2, G2. apply F3; assumption.
Qed.

End Swap.

Lemma swap_installs_module_witness :
  let r := vendorModule "0.2.36" "devel" "/proj/cue.mod/pkg" "/proj/cue.mod/pkg/vendor-1"
                        DaggerModule worldStaged in
  fst r = (["/proj/cue.mod/pkg/dagger.io.old"], None)
  /\ shapeAt (Os.fs (snd r))
             ["proj"; "cue.mod"; "pkg"; "dagger.io"; "cue.mod"; "version.txt"]
     = Some (Tree.File 384 "0.2.36")
  /\ shapeAt (Os.fs (snd r)) ["proj"; "cue.mod"; "pkg"; "dagger.io.old"; "old.cue"]
     = Some (Tree.File 420 "old").
Proof.
cbv zeta.
destruct (swap_installs_module "0.2.36" "devel" "/proj/cue.mod/pkg"
            "/proj/cue.mod/pkg/vendor-1" DaggerModule worldStaged eq_refl eq_refl
            493 493 eq_refl eq_refl (conj eq_refl eq_refl) (conj eq_refl eq_refl)
            eq_refl eq_refl eq_refl) as [H1 [H2 [H3 _]]].
split; [exact H1|]. split.
- exact (H2 ["cue.mod"; "version.txt"]).
- exact (H3 ["old.cue"]).
Defined.


Lemma failed_swap_loses_module_witness :
  let r := vendorModule "devel" "devel" "/proj/cue.mod/pkg" "/proj/cue.mod/pkg/vendor-2"
                        DaggerModule worldStaged in
  let w' := snd (runDeferred (rev (fst (fst r))) (snd r)) in
  shapeAt (Os.fs worldStaged) ["proj"; "cue.mod"; "pkg"; "dagger.io"; "old.cue"]
  = Some (Tree.File 420 "old")
  /\ snd (fst r)
     = Some (LinkError "rename" "/proj/cue.mod/pkg/vendor-2/dagger.io"
                       "/proj/cue.mod/pkg/dagger.io" ENOENT)
  /\ shapeAt (Os.fs w') ["proj"; "cue.mod"; "pkg"; "dagger.io"] = None
  /\ shapeAt (Os.fs w') ["proj"; "cue.mod"; "pkg"; "dagger.io.old"] = None.
Proof.
cbv zeta. split; [reflexivity|].
destruct (failed_swap_loses_module "devel" "devel" "/proj/cue.mod/pkg"
            "/proj/cue.mod/pkg/vendor-2" DaggerModule worldStaged eq_refl eq_refl
            493 448 eq_refl eq_refl (conj eq_refl eq_refl) (conj eq_refl eq_refl)
            eq_refl eq_refl eq_refl) as [H1 [H2 [H3 _]]].
split; [rewrite H1; reflexivity|]. split.
- exact (H2 []).
- exact (H3 []).
Defined.

(** The package directory after the swap of [dagger.io] from
    [vendor-1] in a release build. *)
Example swap_run :
  Tree.lookup
    (Os.fs (snd (vendorModule "0.2.36" "devel" "/proj/cue.mod/pkg"
                              "/proj/cue.mod/pkg/vendor-1" DaggerModule worldStaged)))
    ["proj"; "cue.mod"; "pkg"; "dagger.io"]
  = Ok (Tree.Dir 493
          [("cue.mod",
            Tree.Dir 493 [("version.txt", Tree.File 384 "0.2.36");
                          ("module.cue", Tree.File 448 "module: dagger.io")]);
           ("plan.cue", Tree.File 448 "package dagger")]).
Proof. vm_compute. reflexivity. Qed.

(** ** What a call leaves alone                                           *)

Section Frames.

Import Tree.

Lemma removeAll_frame (t t' : node) (p r : list string) :
  removeAll t p = Ok t' -> is_prefix p r = false -> shapeAt t' r = shapeAt t r.
Proof.
unfold removeAll. intros H Hr.
destruct (alter f_removeAll EBUSY t p) as [t1|e] eqn:Ha.
- injection H as <-. exact (alter_shape_frame _ _ _ _ _ r Ha Hr).
- destruct e; try discriminate. injection H as <-. reflexivity.
Qed.

Lemma rename2_frame (t t' : node) (a b r : list string) :
  rename2 t a b = Ok t' ->
  is_prefix a r = false -> is_prefix b r = false ->
  shapeAt t' r = shapeAt t r.
Proof.
unfold rename2. intros H Ha Hb.
destruct (lookup t a) as [n|e]; [|discriminate].
destruct (path_eqb a b); [injection H as <-; reflexivity|].
destruct (is_prefix a b); [discriminate|].
set (move := match alter f_removeAll EBUSY t a with
             | Ok t1 => put n t1 b
             | Err e => Err e
             end) in H.
assert (Hmove : move = Ok t' -> shapeAt t' r = shapeAt t r).
{ unfold move. intros Hm.
  destruct (alter f_removeAll EBUSY t a) as [t1|e] eqn:H1; [|discriminate].
  rewrite (alter_shape_frame _ _ _ _ _ r Hm Hb).
  exact (alter_shape_frame _ _ _ _ _ r H1 Ha). }
destruct (lookup t b) as [nb|eb].
- destruct nb as [pb db|tb|pb [|e0 esb]]; destruct n as [pn dn|tn|pn esn];
    try discriminate; apply Hmove; exact H.
- destruct n; apply Hmove; exact H.
Qed.

Lemma rename_frame (same : bool) (t t' : node) (a b r : list string) :
  rename same t a b = Ok t' ->
  is_prefix a r = false -> is_prefix b r = false ->
  shapeAt t' r = shapeAt t r.
Proof.
unfold rename. intros H Ha Hb.
destruct (lookup t b) as [nb|eb]; [destruct nb as [pb db|tb|pb esb]|];
  try exact (rename2_frame _ _ _ _ _ H Ha Hb).
destruct (lookup t a); [|discriminate].
destruct (same || negb (path_eqb a b)); [discriminate|].
exact (rename2_frame _ _ _ _ _ H Ha Hb).
Qed.

End Frames.

Section Watch.

Variable wd0 : string.
Variable r : list string.
Variable s : option Tree.node.

Local Abbreviation W := (watched wd0 r s).

Lemma W_ret {A : Type} (a : A) : triple W (Os.ret a) (fun _ => W).
Proof. apply triple_ret. auto. Qed.

(** A call that changes one entry. *)
Lemma W_alter (c : Os.Call) (mk : Errno -> error)
      (f : option Tree.node -> result Errno (option Tree.node)) (root : Errno)
      (name : string) (p : list string) :
  Path.resolve wd0 name = p -> Tree.is_prefix p r = false ->
  triple W (Os.mutate c mk (fun w => Tree.alter f root (Os.fs w) (Os.at_path w name)))
         (fun _ => W).
Proof.
intros Hname Hp w [Hwd Hs]. unfold Os.mutate, Os.at_path. rewrite Hwd, Hname.
destruct (Tree.alter f root (Os.fs w) p) as [t'|e] eqn:Ha; unfold watched; simpl.
- split; [reflexivity|]. rewrite (alter_shape_frame _ _ _ _ _ r Ha Hp). exact Hs.
- split; [reflexivity | exact Hs].
Qed.

Lemma W_WriteFile (name data : string) (perm : N) (p : list string) :
  Path.resolve wd0 name = p -> Tree.is_prefix p r = false ->
  triple W (Os.WriteFile name data perm) (fun _ => W).
Proof. intros H1 H2. exact (W_alter _ _ _ _ name p H1 H2). Qed.

Lemma W_Mkdir (name : string) (perm : N) (p : list string) :
  Path.resolve wd0 name = p -> Tree.is_prefix p r = false ->
  triple W (Os.Mkdir name perm) (fun _ => W).
Proof. intros H1 H2. exact (W_alter _ _ _ _ name p H1 H2). Qed.

Lemma W_Remove (name : string) (p : list string) :
  Path.resolve wd0 name = p -> Tree.is_prefix p r = false ->
  triple W (Os.Remove name) (fun _ => W).
Proof. intros H1 H2. exact (W_alter _ _ _ _ name p H1 H2). Qed.

Lemma W_RemoveAll (name : string) (p : list string) :
  Path.resolve wd0 name = p -> Tree.is_prefix p r = false ->
  triple W (Os.RemoveAll name) (fun _ => W).
Proof.
intros Hname Hp w [Hwd Hs]. unfold Os.RemoveAll, Os.mutate, Os.at_path.
rewrite Hwd, Hname.
destruct (Tree.removeAll (Os.fs w) p) as [t'|e] eqn:Ha; unfold watched; simpl.
- split; [reflexivity|]. rewrite (removeAll_frame _ _ _ r Ha Hp). exact Hs.
- split; [reflexivity | exact Hs].
Qed.

Lemma W_Rename (old new : string) (a b : list string) :
  Path.resolve wd0 old = a -> Path.resolve wd0 new = b ->
  Tree.is_prefix a r = false -> Tree.is_prefix b r = false ->
  triple W (Os.Rename old new) (fun _ => W).
Proof.
intros Ho Hn Ha Hb w [Hwd Hs]. unfold Os.Rename, Os.mutate, Os.at_path.
rewrite Hwd, Ho, Hn.
destruct (Tree.rename _ (Os.fs w) a b) as [t'|e] eqn:Hr; unfold watched; simpl.
- split; [reflexivity|]. rewrite (rename_frame _ _ _ _ _ r Hr Ha Hb). exact Hs.
- split; [reflexivity | exact Hs].
Qed.

(** [os.MkdirAll] changes nothing that exists, and makes only
    directories of its path. *)
Lemma W_MkdirAll (name : string) (perm : N) (p : list string) :
  Path.resolve wd0 name = p -> (s = None -> Tree.is_prefix r p = false) ->
  triple W (Os.MkdirAll name perm) (fun _ => W).
Proof.
intros Hname Hp w [Hwd Hs]. unfold Os.MkdirAll, Os.mutate, Os.at_path.
rewrite Hwd, Hname.
destruct (Tree.mkdirAll perm (Os.fs w) p) as [t'|e] eqn:Ha; unfold watched; simpl.
- split; [reflexivity|]. rewrite (mkdirAll_ok_shape _ _ _ _ Ha), Hs.
  destruct s as [n|]; [reflexivity|]. rewrite (Hp eq_refl). reflexivity.
- split; [reflexivity | exact Hs].
Qed.

Lemma W_Lock (name : string) (p : list string) :
  Path.resolve wd0 name = p -> Tree.is_prefix p r = false ->
  triple W (Os.Lock name) (fun _ => W).
Proof.
intros Hname Hp w Hw. unfold Os.Lock.
pose proof (W_alter (Os.CLock name) (PathError "open" name) (Tree.f_create 384) EISDIR
              name p Hname Hp w Hw) as H.
change (fun w0 : Os.World => Tree.alter (Tree.f_create 384) EISDIR (Os.fs w0)
                               (Os.at_path w0 name))
  with (fun w0 : Os.World => Tree.create 384 (Os.fs w0) (Os.at_path w0 name)) in H.
destruct (Os.mutate _ _ _ w) as [[err|] w1]; exact H.
Qed.

Lemma W_Unlock (name : string) : triple W (Os.Unlock name) (fun _ => W).
Proof. intros w Hw. exact Hw. Qed.

Lemma W_nextRandom : triple W Os.nextRandom (fun _ => W).
Proof. intros w Hw. exact Hw. Qed.

Lemma W_runDeferred (dirs : list string) :
  Forall (fun d => Tree.is_prefix (Path.resolve wd0 d) r = false) dirs ->
  triple W (runDeferred dirs) (fun _ => W).
Proof.
induction 1 as [|d dirs Hd _ IH]; [apply W_ret|].
simpl. eapply triple_bind; [exact (W_RemoveAll d _ eq_refl Hd) | intros u; exact IH].
Qed.

End Watch.

(** ** What the swap loop and the deferred calls leave alone              *)

Section WatchTail.

Variable wd0 : string.
Variable r : list string.
Variable s : option Tree.node.
Variable version_Version version_DevelopmentVersion : string.
Variable cuePkgDir unpackDir : string.

Local Abbreviation W := (watched wd0 r s).
Local Abbreviation D := (Path.resolve wd0 cuePkgDir).
Local Abbreviation U := (Path.resolve wd0 unpackDir).

Local Abbreviation swapOff := (swapOffPath wd0 r cuePkgDir unpackDir).

Lemma W_vendorModule (m : string) :
  swapOff m ->
  triple W (vendorModule version_Version version_DevelopmentVersion
                         cuePkgDir unpackDir m)
         (fun res w' => W w'
                        /\ Forall (fun d => d = Path.Join [cuePkgDir; m] ++ ".old")
                                  (fst res)).
Proof.
intros [Hm [Hold [Hlive [Hback Hnew]]]]. unfold vendorModule.
eapply triple_bind; [apply triple_pure; apply Lstat_pure | intros fi].
destruct (match fi with Ok _ => _ | Err _ => _ end);
  [apply triple_ret; intros w Hw; split; [exact Hw | constructor]|].
eapply triple_bind with (Mid := fun _ => W).
{ destruct (negb _); [|apply W_ret].
  apply (W_WriteFile wd0 r s _ _ _ _ (resolve_marker unpackDir m Hm wd0)).
  apply is_prefix_trans_app, is_prefix_trans_app. exact Hnew. }
intros e. destruct e;
  [apply triple_ret; intros w Hw; split; [exact Hw | constructor]|].
eapply triple_bind;
  [exact (W_RemoveAll wd0 r s _ _ (resolve_backup cuePkgDir m Hm Hold wd0) Hback)
  | intros e1].
destruct (match e1 with Some _ => _ | None => _ end);
  [apply triple_ret; intros w Hw; split; [exact Hw | constructor]|].
eapply triple_bind;
  [exact (W_Rename wd0 r s _ _ _ _ (resolve_live cuePkgDir m Hm wd0)
            (resolve_backup cuePkgDir m Hm Hold wd0) Hlive Hback)
  | intros e2].
destruct (match e2 with Some _ => _ | None => _ end);
  [apply triple_ret; intros w Hw; split; [exact Hw | constructor]|].
eapply triple_bind;
  [exact (W_Rename wd0 r s _ _ _ _ (resolve_new unpackDir m Hm wd0)
            (resolve_live cuePkgDir m Hm wd0) Hnew Hlive)
  | intros e3].
apply triple_ret. intros w Hw. split; [exact Hw | repeat constructor].
Qed.

Lemma W_vendorModules (modules : list string) :
  Forall swapOff modules ->
  triple W (vendorModules version_Version version_DevelopmentVersion
                          cuePkgDir unpackDir modules)
         (fun res w' =>
            W w'
            /\ Forall (fun d => exists m, In m modules
                                          /\ d = Path.Join [cuePkgDir; m] ++ ".old")
                      (fst res)).
Proof.
induction 1 as [|m modules Hm _ IH].
- apply triple_ret. intros w Hw. split; [exact Hw | constructor].
- simpl. eapply triple_bind; [exact (W_vendorModule m Hm) | intros res].
  assert (Hfst : forall w, (W w /\ Forall (fun d => d = Path.Join [cuePkgDir; m] ++ ".old")
                                         (fst res)) ->
                           Forall (fun d => exists m', In m' (m :: modules)
                                              /\ d = Path.Join [cuePkgDir; m'] ++ ".old")
                                  (fst res)).
  { intros w [_ H]. eapply Forall_impl; [|exact H].
    intros d ->. exists m. split; [left; reflexivity | reflexivity]. }
  destruct (snd res).
  + apply triple_ret. intros w Hw. split; [apply Hw | exact (Hfst w Hw)].
  + intros w Hw. pose proof (Hfst w Hw) as Hf. destruct Hw as [Hw _].
    unfold Os.bind. specialize (IH w Hw).
    destruct (vendorModules _ _ _ _ modules w) as [res' w']. simpl in IH |- *.
    destruct IH as [Hw' Hf']. split; [exact Hw'|].
    apply Forall_app. split; [exact Hf|].
    eapply Forall_impl; [|exact Hf'].
    intros d [m' [Hin Hd]]. exists m'. split; [right; exact Hin | exact Hd].
Qed.

(** The removals that the loop deferred. *)
Lemma W_deferred (modules dirs : list string) :
  Forall swapOff modules ->
  Forall (fun d => exists m, In m modules /\ d = Path.Join [cuePkgDir; m] ++ ".old") dirs ->
  triple W (runDeferred (rev dirs)) (fun _ => W).
Proof.
intros Hoff Hdirs. apply W_runDeferred. apply Forall_rev.
eapply Forall_impl; [|exact Hdirs].
intros d [m [Hin ->]]. rewrite Forall_forall in Hoff.
destruct (Hoff m Hin) as [Hm [Hold [_ [Hback _]]]].
rewrite (resolve_backup cuePkgDir m Hm Hold wd0). exact Hback.
Qed.

(** The loop with the removals it deferred. *)
Lemma W_swaps (modules : list string) :
  Forall swapOff modules ->
  triple W
         (res <- vendorModules version_Version version_DevelopmentVersion
                               cuePkgDir unpackDir modules ;;
          runDeferred (rev (fst res)) ;;;
          Os.ret (snd res))
         (fun _ => W).
Proof.
intros Hoff. eapply triple_bind; [exact (W_vendorModules modules Hoff) | intros res].
apply triple_assume. intros Hdirs.
eapply triple_bind; [exact (W_deferred modules (fst res) Hoff Hdirs) | intros u].
apply W_ret.
Qed.

End WatchTail.

(** ** From vendoring to the check                                        *)

Lemma rename_ok_moves (same : bool) (t t' : Tree.node) (a b : list string) :
  Tree.rename same t a b = Ok t' -> apart a b ->
  forall q, Tree.lookup t' (b ++ q)%list = Tree.lookup t (a ++ q)%list.
Proof.
intros H [Hab Hba] q.
assert (H2 : Tree.rename2 t a b = Ok t').
{ unfold Tree.rename in H.
  destruct (Tree.lookup t b) as [nb|eb]; [destruct nb as [pb db|tb|pb esb]|];
    try exact H.
  destruct (Tree.lookup t a); [|discriminate].
  destruct (same || negb (Tree.path_eqb a b)); [discriminate | exact H]. }
clear H. unfold Tree.rename2 in H2.
destruct (Tree.lookup t a) as [n|e] eqn:Ha; [|discriminate].
rewrite (path_eqb_neq a b) in H2
  by (intros E; rewrite E, is_prefix_refl in Hab; discriminate).
rewrite Hab in H2.
set (move := match Tree.alter Tree.f_removeAll EBUSY t a with
             | Ok t1 => Tree.put n t1 b
             | Err e => Err e
             end) in H2.
assert (Hmove : move = Ok t' ->
                Tree.lookup t' (b ++ q)%list = Tree.lookup t (a ++ q)%list).
{ unfold move. intros Hm.
  destruct (Tree.alter Tree.f_removeAll EBUSY t a) as [t1|e] eqn:H1; [|discriminate].
  destruct (alter_at _ _ _ _ _ Hm) as [o [Ho Hl]].
  unfold Tree.f_put in Ho. injection Ho as <-. simpl in Hl.
  rewrite (lookup_app b q), Hl, (lookup_app a q), Ha. reflexivity. }
destruct (Tree.lookup t b) as [nb|eb].
- destruct nb as [pb db|tb|pb [|e0 esb]]; destruct n as [pn dn|tn|pn esn];
    try discriminate; apply Hmove; exact H2.
- destruct n; apply Hmove; exact H2.
Qed.

Section WdOnly.

Variable wd0 : string.

Local Abbreviation J := (wdIs wd0).

Lemma Wd_mutate (c : Os.Call) (mk : Errno -> error)
      (f : Os.World -> result Errno Tree.node) :
  triple J (Os.mutate c mk f) (fun _ => J).
Proof. intros w Hw. unfold wdIs, Os.mutate in *. destruct (f w); exact Hw. Qed.

Lemma Wd_ret {A : Type} (a : A) : triple J (Os.ret a) (fun _ => J).
Proof. apply triple_ret. auto. Qed.

Lemma Wd_CueModInit (p module : string) : triple J (CueModInit p module) (fun _ => J).
Proof.
unfold CueModInit.
eapply triple_bind; [apply triple_pure; reflexivity | intros wd].
eapply triple_bind; [apply Wd_mutate | intros e].
destruct (match e with Some _ => _ | None => _ end); [apply Wd_ret|].
eapply triple_bind; [apply triple_pure; reflexivity | intros st].
eapply triple_bind with (Mid := fun _ => J).
{ destruct st as [fi|err]; [apply Wd_ret|].
  destruct (negb _); [apply Wd_ret | apply Wd_mutate]. }
intros e2. destruct e2; [apply Wd_ret|].
eapply triple_bind; [apply Wd_mutate | intros e3].
destruct e3 as [err|]; [destruct (negb _)|]; apply Wd_ret.
Qed.

Lemma Wd_extractModules (FS : Embed.bnode) (dest : string) :
  triple J (extractModules FS dest) (fun _ => J).
Proof.
change (extractModules FS dest) with (Embed.walkDir (extractEntry FS dest) "." FS).
apply triple_walkDir. intros name d. unfold extractEntry.
destruct (negb _); [apply Wd_ret|].
destruct (Strings.Contains _ _); [apply Wd_ret|].
destruct (Embed.ReadFile FS name); [|apply Wd_ret].
eapply triple_bind; [apply Wd_mutate | intros e].
destruct e; [apply Wd_ret | apply Wd_mutate].
Qed.

Lemma Wd_mkdirTemp_loop (tries : nat) (dir prefix suffix : string) :
  triple J (Os.mkdirTemp_loop tries dir prefix suffix)
         (fun res w' => J w'
                        /\ match res with
                           | Ok U => exists n, U = prefix ++ Strings.Uitoa n ++ suffix
                           | Err _ => True
                           end).
Proof.
induction tries as [|tries IH]; [apply triple_ret; intros w Hw; split; [exact Hw | exact I]|].
simpl.
eapply triple_bind with (Mid := fun r0 w' => J w' /\ exists n, r0 = Strings.Uitoa n).
{ intros w Hw. split; [exact Hw | eexists; reflexivity]. }
intros r0. apply triple_assume. intros [n ->].
eapply triple_bind; [apply Wd_mutate | intros e].
destruct e as [err|].
- destruct (Is_ErrExist err); [exact IH|].
  apply triple_ret. intros w Hw. split; [exact Hw | exact I].
- apply triple_ret. intros w Hw. split; [exact Hw | eexists; reflexivity].
Qed.

(** The staging directory is an entry [vendor-N] of the package
    directory. *)
Lemma Wd_MkdirTemp (p : string) :
  triple J (Os.MkdirTemp (Path.Join [p; "cue.mod"; "pkg"]) "vendor-*")
         (fun res w' =>
            J w'
            /\ match res with
               | Ok U => exists n,
                   Path.resolve wd0 U
                   = (Path.resolve wd0 (Path.Join [p; "cue.mod"; "pkg"])
                        ++ [("vendor-" ++ Strings.Uitoa n ++ EmptyString)%string])%list
               | Err _ => True
               end).
Proof.
destruct (cuePkgDir_spelled p) as [pre Hpre].
unfold Os.MkdirTemp.
assert (Hne : Path.Join [p; "cue.mod"; "pkg"] <> EmptyString).
{ rewrite Hpre. destruct pre; discriminate. }
rewrite (proj2 (String.eqb_neq _ _) Hne).
change (Os.prefixAndSuffix "vendor-*") with ("vendor-", EmptyString).
cbv iota.
eapply triple_weaken; [apply Wd_mkdirTemp_loop | auto |].
intros res w. destruct res as [U|e]; [|auto].
intros [HJ [n HU]]. split; [exact HJ|]. exists n.
rewrite HU. rewrite Hpre at 1. rewrite joinPath_pkg, <- Hpre.
rewrite append_assoc. simpl append at 2.
rewrite resolve_under; [|exact Hne|].
- rewrite SplitSlash_noslash; [reflexivity|].
  destruct (simple_spec _ (simple_vendor _ (Uitoa_noslash n))) as [H _]. exact H.
- rewrite SplitSlash_noslash.
  + repeat constructor. apply simple_vendor, Uitoa_noslash.
  + destruct (simple_spec _ (simple_vendor _ (Uitoa_noslash n))) as [H _]. exact H.
Qed.

End WdOnly.

Section Swapped.

Variable wd0 : string.
Variable version_Version version_DevelopmentVersion : string.
Variable cuePkgDir unpackDir : string.

Local Abbreviation J := (wdIs wd0).
Local Abbreviation D := (Path.resolve wd0 cuePkgDir).
Local Abbreviation U := (Path.resolve wd0 unpackDir).
Local Abbreviation good := (vendoredAt (Path.resolve wd0 cuePkgDir) version_Version).

Lemma Wd_vendorModule (m : string) :
  triple J (vendorModule version_Version version_DevelopmentVersion
                         cuePkgDir unpackDir m)
         (fun res w' => J w'
                        /\ Forall (fun d => d = Path.Join [cuePkgDir; m] ++ ".old")
                                  (fst res)).
Proof.
assert (Hret : forall e, triple J (Os.ret (@nil string, e))
                           (fun (res : list string * option error) w' => J w'
                              /\ Forall (fun d => d = Path.Join [cuePkgDir; m] ++ ".old")
                                        (fst res))).
{ intros e. apply triple_ret. intros w Hw. split; [exact Hw | constructor]. }
unfold vendorModule.
eapply triple_bind; [apply triple_pure; apply Lstat_pure | intros fi].
destruct (match fi with Ok _ => _ | Err _ => _ end); [apply Hret|].
eapply triple_bind with (Mid := fun _ => J).
{ destruct (negb _); [apply Wd_mutate | apply Wd_ret]. }
intros e. destruct e; [apply Hret|].
eapply triple_bind; [apply Wd_mutate | intros e2].
destruct (match e2 with Some _ => _ | None => _ end); [apply Hret|].
eapply triple_bind; [apply Wd_mutate | intros e3].
destruct (match e3 with Some _ => _ | None => _ end); [apply Hret|].
eapply triple_bind; [apply Wd_mutate | intros e4].
apply triple_ret. intros w Hw. split; [exact Hw | repeat constructor].
Qed.

Lemma Wd_vendorModules (modules : list string) :
  triple J (vendorModules version_Version version_DevelopmentVersion
                          cuePkgDir unpackDir modules)
         (fun res w' =>
            J w'
            /\ Forall (fun d => exists m, In m modules
                                          /\ d = Path.Join [cuePkgDir; m] ++ ".old")
                      (fst res)).
Proof.
induction modules as [|m modules IH].
- apply triple_ret. intros w Hw. split; [exact Hw | constructor].
- simpl. eapply triple_bind; [exact (Wd_vendorModule m) | intros res].
  apply triple_assume. intros Hres.
  assert (Hres' : Forall (fun d => exists m0, In m0 (m :: modules)
                                            /\ d = Path.Join [cuePkgDir; m0] ++ ".old")
                         (fst res)).
  { eapply Forall_impl; [|exact Hres]. intros d ->. exists m. split; [left|]; reflexivity. }
  destruct (snd res).
  + apply triple_ret. intros w Hw. split; [exact Hw | exact Hres'].
  + eapply triple_bind; [exact IH | intros res2].
    apply triple_ret. intros w [Hw H2]. split; [exact Hw|]. simpl.
    apply Forall_app. split; [exact Hres'|].
    eapply Forall_impl; [|exact H2].
    intros d [m0 [Hin ->]]. exists m0. split; [right; exact Hin | reflexivity].
Qed.

(** A swap that returns no error in a release build leaves the module
    as the check wants it. *)
Lemma vendorModule_good (m : string) :
  simple m = true -> simple (m ++ ".old") = true ->
  String.eqb version_Version version_DevelopmentVersion = false ->
  apart (U ++ [m])%list (D ++ [m])%list ->
  apart (U ++ [m])%list (D ++ [(m ++ ".old")%string])%list ->
  triple J (vendorModule version_Version version_DevelopmentVersion
                         cuePkgDir unpackDir m)
         (fun res w' => snd res = None -> good m (Os.fs w')).
Proof.
intros Hm Hold Hdev Hnl Hnb w Hwd. unfold wdIs in Hwd.
destruct (lstatSymlink w (Path.Join [cuePkgDir; m])) eqn:Hsym.
- rewrite lstatSymlink_lookup in Hsym. unfold Os.at_path in Hsym.
  destruct (Tree.lookup (Os.fs w) (Path.resolve (Os.wd w) (Path.Join [cuePkgDir; m])))
    as [n|e] eqn:Hl; [|discriminate].
  destruct n as [p d|tg|p es]; try discriminate.
  rewrite (vendorModule_skips_link _ _ _ _ _ tg) by exact Hl.
  intros _. left. exists tg. simpl.
  rewrite Hwd, (resolve_live cuePkgDir m Hm) in Hl.
  unfold shapeAt. rewrite Hl. reflexivity.
- rewrite (vendorModule_steps _ _ _ _ _ _ Hsym), Hdev. simpl negb. cbv iota.
  unfold Os.WriteFile.
  destruct (Tree.write 384 version_Version (Os.fs w)
              (Os.at_path w (Path.Join [Path.Join [unpackDir; m]; versionFilePath])))
    as [t1|e] eqn:Hwr.
  2:{ destruct (mutate_err (Os.CWriteFile (Path.Join [Path.Join [unpackDir; m]; versionFilePath]) version_Version 384)
                  (PathError "open" (Path.Join [Path.Join [unpackDir; m]; versionFilePath]))
                  (fun w0 => Tree.write 384 version_Version (Os.fs w0)
                               (Os.at_path w0 (Path.Join [Path.Join [unpackDir; m];
                                                          versionFilePath]))) w e Hwr)
        as [E1 _].
      destruct (Os.mutate _ _ _ w) as [e1 w1]. simpl in E1. subst e1.
      simpl. discriminate. }
  destruct (mutate_ok (Os.CWriteFile (Path.Join [Path.Join [unpackDir; m]; versionFilePath]) version_Version 384)
              (PathError "open" (Path.Join [Path.Join [unpackDir; m]; versionFilePath]))
              (fun w0 => Tree.write 384 version_Version (Os.fs w0)
                           (Os.at_path w0 (Path.Join [Path.Join [unpackDir; m];
                                                      versionFilePath]))) w t1 Hwr)
    as [E1 [E2 E3]].
  destruct (Os.mutate _ _ _ w) as [e1 w1]. simpl in E1, E2, E3. subst e1.
  unfold Os.at_path in Hwr.
  rewrite (resolve_marker unpackDir m Hm), Hwd in Hwr.
  destruct (alter_at _ _ _ _ _ Hwr) as [o [Ho Hlo]].
  assert (Hmark : exists pm, shapeAt t1 (((U ++ [m]) ++ ["cue.mod"]) ++ ["version.txt"])%list
                             = Some (Tree.File pm version_Version)).
  { unfold shapeAt. rewrite Hlo.
    destruct (optOf _) as [n|]; [destruct n as [p d|tg|p es]|];
      simpl in Ho; try discriminate; injection Ho as <-; eexists; reflexivity. }
  destruct Hmark as [pm Hmark].
  set (M := (((U ++ [m]) ++ ["cue.mod"]) ++ ["version.txt"])%list) in *.
  assert (HW1 : watched wd0 M (Some (Tree.File pm version_Version)) w1).
  { split; [congruence | rewrite E2; exact Hmark]. }
  assert (HoffB : Tree.is_prefix (D ++ [(m ++ ".old")%string])%list M = false).
  { unfold M. rewrite <- (app_assoc (U ++ [m])%list). apply apart_below. exact Hnb. }
  assert (HoffL : Tree.is_prefix (D ++ [m])%list M = false).
  { unfold M. rewrite <- (app_assoc (U ++ [m])%list). apply apart_below. exact Hnl. }
  pose proof (W_RemoveAll wd0 M _ (Path.Join [cuePkgDir; m] ++ ".old") _
                (resolve_backup cuePkgDir m Hm Hold wd0) HoffB w1 HW1) as HW2.
  destruct (Os.RemoveAll _ w1) as [e2 w2]. simpl in HW2.
  destruct (match e2 with Some _ => _ | None => _ end); [simpl; discriminate|].
  pose proof (W_Rename wd0 M _ (Path.Join [cuePkgDir; m])
                (Path.Join [cuePkgDir; m] ++ ".old") _ _
                (resolve_live cuePkgDir m Hm wd0)
                (resolve_backup cuePkgDir m Hm Hold wd0) HoffL HoffB w2 HW2) as HW3.
  destruct (Os.Rename _ _ w2) as [e3 w3]. simpl in HW3.
  destruct (match e3 with Some _ => _ | None => _ end); [simpl; discriminate|].
  destruct HW3 as [Hwd3 HM3].
  unfold Os.Rename.
  destruct (Tree.rename (String.eqb (Path.Join [cuePkgDir; m]) (Path.Join [unpackDir; m]))
              (Os.fs w3) (Os.at_path w3 (Path.Join [unpackDir; m]))
              (Os.at_path w3 (Path.Join [cuePkgDir; m]))) as [t4|e] eqn:Hrn.
  2:{ destruct (mutate_err (Os.CRename (Path.Join [unpackDir; m]) (Path.Join [cuePkgDir; m]))
                  (LinkError "rename" (Path.Join [unpackDir; m]) (Path.Join [cuePkgDir; m]))
                  (fun w0 => Tree.rename (String.eqb (Path.Join [cuePkgDir; m])
                                                     (Path.Join [unpackDir; m]))
                               (Os.fs w0) (Os.at_path w0 (Path.Join [unpackDir; m]))
                               (Os.at_path w0 (Path.Join [cuePkgDir; m]))) w3 e Hrn)
        as [G1 _].
      destruct (Os.mutate _ _ _ w3) as [e4 w4]. simpl in G1. subst e4.
      simpl. discriminate. }
  destruct (mutate_ok (Os.CRename (Path.Join [unpackDir; m]) (Path.Join [cuePkgDir; m]))
              (LinkError "rename" (Path.Join [unpackDir; m]) (Path.Join [cuePkgDir; m]))
              (fun w0 => Tree.rename (String.eqb (Path.Join [cuePkgDir; m])
                                                 (Path.Join [unpackDir; m]))
                           (Os.fs w0) (Os.at_path w0 (Path.Join [unpackDir; m]))
                           (Os.at_path w0 (Path.Join [cuePkgDir; m]))) w3 t4 Hrn)
    as [G1 [G2 G3]].
  destruct (Os.mutate _ _ _ w3) as [e4 w4]. simpl in G1, G2, G3. subst e4.
  simpl. intros _. rewrite G2.
  unfold Os.at_path in Hrn.
  rewrite Hwd3, (resolve_new unpackDir m Hm), (resolve_live cuePkgDir m Hm) in Hrn.
  pose proof (rename_ok_moves _ _ _ _ _ Hrn Hnl) as Hmv.
  assert (Hmk4 : shapeAt t4 (D ++ [m; "cue.mod"; "version.txt"])%list
                 = Some (Tree.File pm version_Version)).
  { change [m; "cue.mod"; "version.txt"] with ([m] ++ ["cue.mod"; "version.txt"])%list.
    rewrite app_assoc. unfold shapeAt. rewrite Hmv.
    unfold shapeAt, M in HM3. rewrite <- (app_assoc (U ++ [m])) in HM3. exact HM3. }
  right. split; [|exists pm; exact Hmk4].
  apply (shapeAt_prefix_dir t4 (D ++ [m])%list ["cue.mod"; "version.txt"]);
    [|discriminate].
  rewrite <- app_assoc. simpl app. rewrite Hmk4. discriminate.
Qed.

End Swapped.

Lemma triple_both {A : Type} (P1 P2 : Os.World -> Prop) (m : Os.M A)
      (Q1 Q2 : A -> Os.World -> Prop) :
  triple P1 m Q1 -> triple P2 m Q2 ->
  triple (fun w => P1 w /\ P2 w) m (fun a w => Q1 a w /\ Q2 a w).
Proof. intros H1 H2 w [Hw1 Hw2]. split; [apply H1, Hw1 | apply H2, Hw2]. Qed.

Lemma tableNames_swapNames (n : N) (order : list string) :
  NoDup order -> Forall (fun m => In m tableNames) order ->
  swapNames ("vendor-" ++ Strings.Uitoa n ++ EmptyString) order.
Proof.
intros Hnd Hall. split; [exact Hnd|].
apply Forall_forall. intros m Hm. rewrite Forall_forall in Hall.
pose proof (Hall m Hm) as Htm.
split; [apply tableNames_simple, Htm|].
split; [destruct Htm as [<-|[<-|[]]]; reflexivity|].
split; [destruct Htm as [<-|[<-|[]]]; reflexivity|].
split; [destruct Htm as [<-|[<-|[]]]; reflexivity|].
split; [destruct Htm as [<-|[<-|[]]]; reflexivity|].
apply Forall_forall. intros m' Hm'.
destruct (Hall m' Hm') as [<-|[<-|[]]]; destruct Htm as [<-|[<-|[]]]; reflexivity.
Qed.

Lemma swapNames_tail (vn m : string) (rest : list string) :
  swapNames vn (m :: rest) -> swapNames vn rest.
Proof.
intros [Hnd Hall]. split; [inversion Hnd; assumption|].
apply Forall_inv_tail in Hall. eapply Forall_impl; [|exact Hall].
intros m0 [H1 [H2 [H3 [H4 [H5 H6]]]]]. repeat (split; [assumption|]).
apply Forall_inv_tail in H6. exact H6.
Qed.

Section Kept.

Variable wd0 : string.
Variable version_Version version_DevelopmentVersion : string.
Variable FS : Embed.bnode.
Variable cuePkgDir : string.

Local Abbreviation J := (wdIs wd0).
Local Abbreviation D := (Path.resolve wd0 cuePkgDir).
Local Abbreviation good := (vendoredAt (Path.resolve wd0 cuePkgDir) version_Version).

(** What holds for the modules is kept by a run that keeps every path
    below their directories. *)
Lemma good_kept {A : Type} (c : Prop) (prog : Os.M A) (modules : list string) :
  (forall m q s, In m modules ->
                 triple (watched wd0 (D ++ m :: q)%list s) prog
                        (fun _ => watched wd0 (D ++ m :: q)%list s)) ->
  triple (fun w => J w /\ (c -> Forall (fun m => good m (Os.fs w)) modules)) prog
         (fun _ w' => c -> Forall (fun m => good m (Os.fs w')) modules).
Proof.
intros H w [Hwd Hg] Hc. specialize (Hg Hc).
rewrite Forall_forall in *. intros m Hm.
destruct (Hg m Hm) as [[tg Hl]|[[pd Hd] [pm Hmk]]].
- left. exists tg. exact (proj2 (H m [] _ Hm w (conj Hwd Hl))).
- right. split.
  + exists pd. exact (proj2 (H m [] _ Hm w (conj Hwd Hd))).
  + exists pm. exact (proj2 (H m ["cue.mod"; "version.txt"] _ Hm w (conj Hwd Hmk))).
Qed.

Section Staged.

Variable unpackDir vn : string.
Hypothesis HU : Path.resolve wd0 unpackDir = (D ++ [vn])%list.

Lemma swapOff_of_names (modules : list string) (m m' : string) (q : list string) :
  swapNames vn modules -> In m modules -> In m' modules -> m <> m' ->
  swapOffPath wd0 (D ++ m :: q)%list cuePkgDir unpackDir m'.
Proof.
intros [_ Hall] Hm Hm' Hne. rewrite Forall_forall in Hall.
destruct (Hall m' Hm') as [S1 [S2 _]].
destruct (Hall m Hm) as [_ [_ [V1 [_ [_ Hold]]]]].
rewrite Forall_forall in Hold.
split; [exact S1|]. split; [exact S2|]. split; [|split].
- apply is_prefix_fork. apply String.eqb_neq. congruence.
- apply is_prefix_fork. apply Hold, Hm'.
- rewrite HU, <- app_assoc. apply is_prefix_fork. exact V1.
Qed.

Lemma staged_apart (modules : list string) (m : string) :
  swapNames vn modules -> In m modules ->
  apart (Path.resolve wd0 unpackDir ++ [m])%list (D ++ [m])%list
  /\ apart (Path.resolve wd0 unpackDir ++ [m])%list (D ++ [(m ++ ".old")%string])%list.
Proof.
intros [_ Hall] Hm. rewrite Forall_forall in Hall.
destruct (Hall m Hm) as [_ [_ [V1 [V2 _]]]].
rewrite HU, <- app_assoc. simpl app.
split; split; apply is_prefix_fork; try assumption; rewrite String.eqb_sym; assumption.
Qed.

Lemma vendorModules_good (modules : list string) :
  String.eqb version_Version version_DevelopmentVersion = false ->
  swapNames vn modules ->
  triple J (vendorModules version_Version version_DevelopmentVersion
                          cuePkgDir unpackDir modules)
         (fun res w' => snd res = None -> Forall (fun m => good m (Os.fs w')) modules).
Proof.
intros Hdev. induction modules as [|m rest IH]; intros Hn.
- apply triple_ret. intros w _ _. constructor.
- pose proof (swapNames_tail _ _ _ Hn) as Hn'.
  destruct (staged_apart (m :: rest) m Hn (or_introl eq_refl)) as [Hnl Hnb].
  assert (Hm : simple m = true /\ simple (m ++ ".old") = true).
  { destruct Hn as [_ Hall]. apply Forall_inv in Hall. tauto. }
  assert (Hnotin : ~ In m rest) by (destruct Hn as [Hnd _]; inversion Hnd; assumption).
  simpl.
  eapply triple_bind with
    (Mid := fun r w' => J w' /\ (snd r = None -> good m (Os.fs w'))).
  { intros w Hw. split.
    - exact (proj1 (Wd_vendorModule wd0 _ _ cuePkgDir unpackDir m w Hw)).
    - exact (vendorModule_good wd0 _ _ cuePkgDir unpackDir m (proj1 Hm) (proj2 Hm)
               Hdev Hnl Hnb w Hw). }
  intros r. destruct (snd r) as [err|] eqn:Hr.
  + apply triple_ret. intros w _ H. rewrite Hr in H. discriminate.
  + eapply triple_bind with
      (Mid := fun r' w' => good m (Os.fs w')
                           /\ (snd r' = None -> Forall (fun m0 => good m0 (Os.fs w')) rest)).
    * intros w [Hw Hg]. split.
      -- assert (Hk : Forall (fun m0 => good m0
                                (Os.fs (snd (vendorModules version_Version
                                               version_DevelopmentVersion cuePkgDir
                                               unpackDir rest w)))) [m]).
         { apply (good_kept True _ [m]); [|split; [exact Hw|]|exact I].
           - intros m0 q s [<-|[]].
             eapply triple_weaken;
               [apply W_vendorModules | intros w0 H; exact H
                | intros a w0 H; exact (proj1 H)].
             apply Forall_forall. intros m' Hm'.
             apply (swapOff_of_names (m :: rest)); [exact Hn | left; reflexivity
                                                     | right; exact Hm' |].
             intros ->. contradiction.
           - intros _. constructor; [exact (Hg eq_refl) | constructor]. }
         apply Forall_inv in Hk. exact Hk.
      -- exact (IH Hn' w Hw).
    * intros r'. apply triple_ret. intros w [Hg Hrest] H. simpl in H.
      constructor; [exact Hg | exact (Hrest H)].
Qed.

(** The removal of the backups and of the staging directory. *)
Lemma good_through_cleanup (c : Prop) (modules dirs : list string) :
  swapNames vn modules ->
  Forall (fun d => exists m, In m modules /\ d = Path.Join [cuePkgDir; m] ++ ".old") dirs ->
  triple (fun w => J w /\ (c -> Forall (fun m => good m (Os.fs w)) modules))
         (runDeferred (rev dirs))
         (fun _ w' => c -> Forall (fun m => good m (Os.fs w')) modules).
Proof.
intros Hn Hdirs. apply good_kept. intros m q s Hm.
apply W_runDeferred. apply Forall_rev.
eapply Forall_impl; [|exact Hdirs].
intros d [m' [Hm' ->]].
destruct Hn as [Hnd Hall]. rewrite Forall_forall in Hall.
destruct (Hall m' Hm') as [S1 [S2 _]].
destruct (Hall m Hm) as [_ [_ [_ [_ [_ Hold]]]]]. rewrite Forall_forall in Hold.
rewrite (resolve_backup cuePkgDir m' S1 S2 wd0).
apply is_prefix_fork. apply Hold, Hm'.
Qed.

Lemma Wd_runDeferred (dirs : list string) :
  triple J (runDeferred dirs) (fun _ => J).
Proof.
induction dirs as [|d dirs IH]; [apply Wd_ret|].
simpl. eapply triple_bind; [apply Wd_mutate | intros u; exact IH].
Qed.

Lemma Vendor_staged_good (order : list string) :
  String.eqb version_Version version_DevelopmentVersion = false ->
  swapNames vn order ->
  triple J (Vendor_staged version_Version version_DevelopmentVersion FS
                          order cuePkgDir unpackDir)
         (fun e w' => J w' /\ (e = None -> Forall (fun m => good m (Os.fs w')) order)).
Proof.
intros Hdev Hn. unfold Vendor_staged.
eapply triple_bind; [apply Wd_extractModules | intros e].
destruct e as [err|].
{ apply triple_ret. intros w Hw. split; [exact Hw | discriminate]. }
eapply triple_bind with
  (Mid := fun r w' =>
            (J w' /\ (snd r = None -> Forall (fun m => good m (Os.fs w')) order))
            /\ Forall (fun d => exists m, In m order
                                          /\ d = Path.Join [cuePkgDir; m] ++ ".old")
                      (fst r)).
{ intros w Hw.
  pose proof (Wd_vendorModules wd0 version_Version version_DevelopmentVersion
                cuePkgDir unpackDir order w Hw) as [H1 H2].
  split; [split; [exact H1|] | exact H2].
  exact (vendorModules_good order Hdev Hn w Hw). }
intros r. apply triple_assume. intros Hdirs.
eapply triple_bind with
  (Mid := fun _ w' => J w' /\ (snd r = None -> Forall (fun m => good m (Os.fs w')) order)).
{ intros w Hw. split.
  - exact (Wd_runDeferred _ w (proj1 Hw)).
  - exact (good_through_cleanup _ order (fst r) Hn Hdirs w Hw). }
intros u. apply triple_ret. auto.
Qed.

End Staged.

End Kept.

Section VendorThenCheck.

Context {gv : GoVersion}.
Variable version_Version version_DevelopmentVersion : string.
Variable FS : Embed.bnode.

Lemma Vendor_locked_good (wd0 : string) (order : list string) (p : string) :
  let cuePkgDir := Path.Join [p; "cue.mod"; "pkg"] in
  String.eqb version_Version version_DevelopmentVersion = false ->
  NoDup order -> Forall (fun m => In m tableNames) order ->
  triple (wdIs wd0)
         (Vendor_locked version_Version version_DevelopmentVersion FS order p cuePkgDir)
         (fun e w' =>
            wdIs wd0 w'
            /\ (e = None ->
                Forall (fun m => vendoredAt (Path.resolve wd0 cuePkgDir) version_Version m
                                            (Os.fs w')) order)).
Proof.
intros cuePkgDir Hdev Hnd Hall. unfold Vendor_locked.
eapply triple_bind; [apply Wd_CueModInit | intros e].
destruct e as [err|].
{ apply triple_ret. intros w Hw. split; [exact Hw | discriminate]. }
eapply triple_bind; [apply triple_pure; reflexivity | intros contents].
eapply triple_bind with (Mid := fun _ => wdIs wd0).
{ destruct contents as [contents|err]; [|apply Wd_ret].
  destruct (Strings.HasPrefix _ _); [|apply Wd_ret].
  eapply triple_bind; [apply Wd_mutate | intros u; apply Wd_ret]. }
intros u.
eapply triple_bind; [apply Wd_mutate | intros e].
destruct e as [err|].
{ apply triple_ret. intros w Hw. split; [exact Hw | discriminate]. }
eapply triple_bind; [apply (Wd_MkdirTemp wd0 p) | intros res].
destruct res as [unpackDir|err].
2:{ apply triple_ret. intros w [Hw _]. split; [exact Hw | discriminate]. }
apply triple_assume. intros [n HU]. fold cuePkgDir in HU.
pose proof (tableNames_swapNames n order Hnd Hall) as Hn.
eapply triple_bind;
  [exact (Vendor_staged_good wd0 _ _ FS cuePkgDir unpackDir _ HU order Hdev Hn)
  | intros r].
eapply triple_bind with
  (Mid := fun _ w' =>
            wdIs wd0 w'
            /\ (r = None ->
                Forall (fun m => vendoredAt (Path.resolve wd0 cuePkgDir) version_Version m
                                            (Os.fs w')) order)).
{ intros w Hw. split.
  - exact (Wd_mutate wd0 _ _ _ w (proj1 Hw)).
  - revert w Hw. apply good_kept. intros m q s Hm.
    apply (W_RemoveAll wd0 _ s unpackDir _ HU).
    apply is_prefix_fork.
    destruct Hn as [_ Hn]. rewrite Forall_forall in Hn.
    destruct (Hn m Hm) as [_ [_ [V _]]]. exact V. }
intros u2. apply triple_ret. auto.
Qed.


(** A module that is vendored for a tool passes the check of that tool. *)
Lemma vendoredAt_passes (cuePkgDir m : string) (mv tool v : Version) (w : Os.World) :
  simple m = true ->
  NewVersion (Strings.TrimSpace version_Version) = Ok v ->
  GreaterThan v tool = false -> LessThan v mv = false ->
  vendoredAt (Path.resolve (Os.wd w) cuePkgDir) version_Version m (Os.fs w) ->
  fst (checkModule tool cuePkgDir (m, mv) w) = None.
Proof.
intros Hm Hv Hgt Hlt [[tg Hl]|[[pd Hd] [pm Hmk]]].
- apply checkModule_symlink. rewrite lstatSymlink_lookup. unfold Os.at_path.
  rewrite (resolve_live cuePkgDir m Hm).
  destruct (shapeAt_exists _ _ _ Hl) as [n [Hn Hs]]. rewrite Hn.
  destruct n; try discriminate. reflexivity.
- rewrite checkModule_read.
  + cbv zeta. unfold Os.ReadFile, Os.at_path. simpl fst.
    rewrite (resolve_marker cuePkgDir m Hm), <- !app_assoc. simpl app.
    destruct (shapeAt_exists _ _ _ Hmk) as [n [Hn Hs]]. rewrite Hn.
    destruct n as [p d| |]; try discriminate. simpl in Hs. injection Hs as _ ->.
    rewrite Hv, Hlt, Hgt. reflexivity.
  + rewrite lstatSymlink_lookup. unfold Os.at_path.
    rewrite (resolve_live cuePkgDir m Hm).
    destruct (shapeAt_exists _ _ _ Hd) as [n [Hn Hs]]. rewrite Hn.
    destruct n; try discriminate. reflexivity.
Qed.

(** X14.  Vendoring, then the check.  In a release build, with the
    project directory given, when [Vendor] returns no error for a list
    of modules of the table without repetition, [EnsureCompatibility] on
    the file tree it leaves returns no error either, for every table
    over those modules, in any order, whose minimum versions are not
    above the version the marker text parses to, that version being not
    above the tool's. *)
Theorem vendor_then_check (fuel : nat) (order : list string)
        (table : list (string * Version)) (p : string) (tool v : Version)
        (w : Os.World) :
  let ran := Vendor version_Version version_DevelopmentVersion FS fuel order p w in
  String.eqb version_Version version_DevelopmentVersion = false ->
  String.eqb p EmptyString = false ->
  NoDup order ->
  Forall (fun m => In m tableNames) order ->
  NewVersion version_Version = Ok tool ->
  NewVersion (Strings.TrimSpace version_Version) = Ok v ->
  GreaterThan v tool = false ->
  Forall (fun e => In (fst e) order /\ LessThan v (snd e) = false) table ->
  fst ran = Return None ->
  fst (EnsureCompatibility version_Version version_DevelopmentVersion fuel table p
                           (snd ran))
  = Return None.
Proof.
intros ran Hdev Hp Hnd Hall Htool Hv Hgt Hlt Hran.
assert (Hroot : forall w0, fst (projectRoot fuel p w0) = Some p).
{ intros w0. unfold projectRoot. rewrite Hp. reflexivity. }
rewrite (EnsureCompatibility_run _ _ fuel table p p tool _ Hdev Htool (Hroot _)).
f_equal. apply checkModules_none_iff.
set (cuePkgDir := Path.Join [p; "cue.mod"; "pkg"]).
set (lockFile := Path.Join [cuePkgDir; lockFilePath]).
set (wd0 := Os.wd w).
assert (Hfinal : Os.wd (snd ran) = wd0
                 /\ Forall (fun m => vendoredAt (Path.resolve wd0 cuePkgDir)
                                                version_Version m (Os.fs (snd ran)))
                           order).
{ unfold ran in *. rewrite (Vendor_stages _ _ _ _ _ _ _ _ (Hroot w)) in *.
  fold cuePkgDir in Hran |- *. fold lockFile in Hran |- *.
  pose proof (proj1 (MkdirAll_world cuePkgDir 493 w)) as Hwd1.
  destruct (Os.MkdirAll cuePkgDir 493 w) as [[err|] w1]; [discriminate|].
  pose proof (proj1 (Lock_world lockFile w1)) as Hwd2.
  destruct (Os.Lock lockFile w1) as [[err|] w2]; [discriminate|].
  simpl in Hwd1, Hwd2, Hran. injection Hran as Hran.
  assert (Hw2 : wdIs wd0 w2) by (unfold wdIs, wd0; rewrite Hwd2, Hwd1; reflexivity).
  destruct (Vendor_locked_good wd0 order p Hdev Hnd Hall w2 Hw2) as [HJ Hgood].
  fold cuePkgDir in HJ, Hgood. specialize (Hgood Hran).
  set (wL := snd (Vendor_locked version_Version version_DevelopmentVersion FS
                                order p cuePkgDir w2)) in *.
  simpl snd.
  assert (HJu : wdIs wd0 (snd (Os.Unlock lockFile wL))) by exact HJ.
  split.
  - exact (Wd_mutate wd0 _ _ _ _ HJu).
  - apply (good_kept wd0 version_Version cuePkgDir True (Os.Remove lockFile) order);
      [|split; [exact HJu | intros _; exact Hgood] | exact I].
    intros m q s Hm.
    apply (W_Remove wd0 _ s lockFile (Path.resolve wd0 cuePkgDir ++ [lockFilePath])%list).
    + unfold lockFile. rewrite resolve_Join2 by (repeat constructor). reflexivity.
    + apply is_prefix_fork. rewrite Forall_forall in Hall.
      destruct (Hall m Hm) as [<-|[<-|[]]]; reflexivity. }
destruct Hfinal as [HwdF HgoodF]. rewrite <- HwdF in HgoodF.
unfold allPass. rewrite Forall_forall in *.
intros [m mv] He. destruct (Hlt _ He) as [Hm Hmv]. simpl in Hm, Hmv.
apply (vendoredAt_passes cuePkgDir m mv tool v).
- apply tableNames_simple, Hall, Hm.
- exact Hv.
- exact Hgt.
- exact Hmv.
- exact (HgoodF m Hm).
Qed.

End VendorThenCheck.

Lemma vendor_then_check_witness :
  let ran := Vendor "0.2.36" "devel" exampleBundle 0 tableNames "/proj" worldOldTool in
  fst ran = Return None
  /\ fst (EnsureCompatibility (gv := Dotted.dotted) "0.2.36" "devel" 0 dottedTable
                              "/proj" worldOldTool)
     <> Return None
  /\ fst (EnsureCompatibility (gv := Dotted.dotted) "0.2.36" "devel" 0
                              (rev dottedTable) "/proj" (snd ran))
     = Return None.
Proof.
cbv zeta. split; [vm_compute; reflexivity|]. split; [vm_compute; discriminate|].
apply (vendor_then_check (gv := Dotted.dotted) "0.2.36" "devel" exampleBundle
         0 tableNames (rev dottedTable) "/proj" [0; 2; 36]%N [0; 2; 36]%N worldOldTool).
- reflexivity.
- reflexivity.
- repeat constructor; simpl; intuition discriminate.
- exact tableNames_all.
- reflexivity.
- reflexivity.
- reflexivity.
- constructor; [split; [right; left; reflexivity | reflexivity]|].
  constructor; [split; [left; reflexivity | reflexivity] | constructor].
- vm_compute. reflexivity.
Defined.

(** ** What [Vendor] leaves alone                                         *)

Lemma resolve_staging (wd0 p : string) (n : N) :
  Path.resolve wd0 (Os.joinPath (Path.Join [p; "cue.mod"; "pkg"]) "vendor-"
                    ++ Strings.Uitoa n ++ EmptyString)
  = (Path.resolve wd0 (Path.Join [p; "cue.mod"; "pkg"]) ++ [stagingName n])%list.
Proof.
unfold stagingName.
destruct (cuePkgDir_spelled p) as [pre Hpre].
assert (Hne : Path.Join [p; "cue.mod"; "pkg"] <> EmptyString).
{ rewrite Hpre. destruct pre; discriminate. }
rewrite Hpre at 1. rewrite joinPath_pkg, <- Hpre.
rewrite append_assoc. simpl append at 2.
rewrite resolve_under; [|exact Hne|].
- rewrite SplitSlash_noslash; [reflexivity|].
  destruct (simple_spec _ (simple_vendor _ (Uitoa_noslash n))) as [H _]. exact H.
- rewrite SplitSlash_noslash.
  + repeat constructor. apply simple_vendor, Uitoa_noslash.
  + destruct (simple_spec _ (simple_vendor _ (Uitoa_noslash n))) as [H _]. exact H.
Qed.

(** [Mkdir] makes an empty directory or nothing: below its path nothing
    changes. *)
Lemma mkdir_below (perm : N) (t t' : Tree.node) (p : list string) (y : string)
      (rest : list string) :
  Tree.mkdir perm t p = Ok t' ->
  shapeAt t' (p ++ y :: rest)%list = shapeAt t (p ++ y :: rest)%list.
Proof.
intros H. destruct (alter_at _ _ _ _ _ H) as [o [Ho Hl]].
unfold shapeAt. rewrite !(lookup_app p (y :: rest)), Hl.
destruct (Tree.lookup t p) as [n|e]; simpl in Ho; [discriminate|].
injection Ho as <-. reflexivity.
Qed.

Lemma W_Mkdir_below (wd0 : string) (r : list string) (s : option Tree.node)
      (name : string) (perm : N) (p : list string) (y : string) (rest : list string) :
  Path.resolve wd0 name = p -> r = (p ++ y :: rest)%list ->
  triple (watched wd0 r s) (Os.Mkdir name perm) (fun _ => watched wd0 r s).
Proof.
intros Hname -> w [Hwd Hs]. unfold Os.Mkdir, Os.mutate, Os.at_path.
rewrite Hwd, Hname.
destruct (Tree.mkdir perm (Os.fs w) p) as [t'|e] eqn:Ha; unfold watched; simpl.
- split; [reflexivity|]. rewrite (mkdir_below _ _ _ _ _ _ Ha). exact Hs.
- split; [reflexivity | exact Hs].
Qed.

(** From the staging directory on: what is watched is apart from the
    staging directories, the modules and their backups. *)
Section VendorTail.

Variable wd0 : string.
Variable r : list string.
Variable s : option Tree.node.
Variable p : string.

Local Abbreviation W := (watched wd0 r s).
Local Abbreviation cuePkgDir := (Path.Join [p; "cue.mod"; "pkg"]).
Local Abbreviation D := (Path.resolve wd0 (Path.Join [p; "cue.mod"; "pkg"])).

Hypothesis staging_off :
  forall n cs, Tree.is_prefix (D ++ stagingName n :: cs)%list r = false.
Hypothesis staging_fresh :
  s = None -> forall n cs, Tree.is_prefix r (D ++ stagingName n :: cs)%list = false.
Hypothesis modules_off :
  forall m, In m tableNames ->
            Tree.is_prefix (D ++ [m])%list r = false
            /\ Tree.is_prefix (D ++ [(m ++ ".old")%string])%list r = false.

Lemma W_mkdirTemp_loop (tries : nat) :
  triple W (Os.mkdirTemp_loop tries cuePkgDir (Os.joinPath cuePkgDir "vendor-")
                              EmptyString)
         (fun _ => W).
Proof.
induction tries as [|tries IH]; [apply W_ret|].
simpl.
eapply triple_bind with (Mid := fun r0 w' => W w' /\ exists n, r0 = Strings.Uitoa n).
{ intros w Hw. split; [exact Hw | eexists; reflexivity]. }
intros r0. apply triple_assume. intros [n ->].
eapply triple_bind.
{ apply (W_Mkdir wd0 r s _ 448 _ (resolve_staging wd0 p n)). apply staging_off. }
intros e. destruct e as [err|]; [|apply W_ret].
destruct (Is_ErrExist err); [exact IH | apply W_ret].
Qed.

Lemma W_MkdirTemp :
  triple W (Os.MkdirTemp cuePkgDir "vendor-*")
         (fun res w' =>
            W w' /\ match res with
                    | Ok U => exists n, Path.resolve wd0 U = (D ++ [stagingName n])%list
                    | Err _ => True
                    end).
Proof.
intros w Hw. split; [|exact (proj2 (Wd_MkdirTemp wd0 p w (proj1 Hw)))].
revert w Hw.
destruct (cuePkgDir_spelled p) as [pre Hpre].
unfold Os.MkdirTemp.
assert (Hne : cuePkgDir <> EmptyString).
{ rewrite Hpre. destruct pre; discriminate. }
rewrite (proj2 (String.eqb_neq _ _) Hne).
change (Os.prefixAndSuffix "vendor-*") with ("vendor-", EmptyString).
cbv iota. apply W_mkdirTemp_loop.
Qed.

Section Staging.

Variable es0 : list (string * Embed.bnode).
Variable unpackDir : string.
Variable n : N.
Hypothesis HU : Path.resolve wd0 unpackDir = (D ++ [stagingName n])%list.
Hypothesis FS_wf : wellFormed (Embed.BDir es0) = true.

Lemma W_extractEntry (cs : list string) (d : Embed.bnode) :
  (cs = [] -> exists es, d = Embed.BDir es) ->
  Forall (fun c => simple c = true) cs ->
  triple W (extractEntry (Embed.BDir es0) unpackDir (walkName cs) d) (fun _ => W).
Proof.
intros Hroot Hcs. unfold extractEntry.
destruct d as [data|es]; [|apply W_ret].
destruct (exists_last (l := cs)) as [cs' [x ->]].
{ intros ->. destruct (Hroot eq_refl); discriminate. }
change (negb (Os.IsRegular (Embed.Type_ (Embed.BFile data)))) with false. cbv iota.
destruct (Strings.Contains _ _); [apply W_ret|].
destruct (Embed.ReadFile _ _) as [contents|err]; [|apply W_ret].
apply Forall_app in Hcs as Hcs'. destruct Hcs' as [Hcs1 Hx]. apply Forall_inv in Hx.
eapply triple_bind.
- apply (W_MkdirAll wd0 r s _ 493 (D ++ stagingName n :: cs')%list).
  + rewrite resolve_overlay_Dir by assumption. rewrite HU, <- app_assoc. reflexivity.
  + intros Hs. apply staging_fresh. exact Hs.
- intros e. destruct e; [apply W_ret|].
  apply (W_WriteFile wd0 r s _ _ _ (D ++ stagingName n :: cs' ++ [x])%list).
  + rewrite resolve_overlay; [|destruct cs'; discriminate | exact Hcs].
    rewrite HU, <- app_assoc. reflexivity.
  + apply staging_off.
Qed.

Lemma W_extractModules :
  triple W (extractModules (Embed.BDir es0) unpackDir) (fun _ => W).
Proof.
change (extractModules (Embed.BDir es0) unpackDir)
  with (Embed.walkDir (extractEntry (Embed.BDir es0) unpackDir) (walkName [])
                      (Embed.BDir es0)).
apply (triple_walkDir_named (Embed.BDir es0) W
         (extractEntry (Embed.BDir es0) unpackDir)).
- intros cs d Hcs Hb. apply W_extractEntry; [|exact Hcs].
  intros ->. simpl in Hb. injection Hb as <-. eauto.
- constructor.
- reflexivity.
- exact FS_wf.
Qed.

Lemma W_Vendor_staged (version_Version version_DevelopmentVersion : string)
      (order : list string) :
  Forall (fun m => In m tableNames) order ->
  triple W (Vendor_staged version_Version version_DevelopmentVersion (Embed.BDir es0)
                          order cuePkgDir unpackDir)
         (fun _ => W).
Proof.
intros Hall. unfold Vendor_staged.
eapply triple_bind; [apply W_extractModules | intros e].
destruct e as [err|]; [apply W_ret|].
apply (W_swaps wd0 r s). eapply Forall_impl; [|exact Hall].
intros m Hm. destruct (modules_off m Hm) as [Hlive Hback].
assert (Hs : simple m = true /\ simple (m ++ ".old") = true)
  by (destruct Hm as [<-|[<-|[]]]; split; reflexivity).
unfold swapOffPath.
split; [exact (proj1 Hs)|]. split; [exact (proj2 Hs)|].
split; [exact Hlive|]. split; [exact Hback|].
rewrite HU, <- app_assoc. apply staging_off.
Qed.

End Staging.

(** [Vendor] from the staging directory to its removal. *)
Lemma W_Vendor_unpack (version_Version version_DevelopmentVersion : string)
      (es0 : list (string * Embed.bnode)) (order : list string) :
  wellFormed (Embed.BDir es0) = true ->
  Forall (fun m => In m tableNames) order ->
  triple W
         (u <- Os.MkdirTemp cuePkgDir "vendor-*" ;;
          match u with
          | Err err => Os.ret (Some err)
          | Ok unpackDir =>
              r <- Vendor_staged version_Version version_DevelopmentVersion
                                 (Embed.BDir es0) order cuePkgDir unpackDir ;;
              Os.RemoveAll unpackDir ;;;
              Os.ret r
          end)
         (fun _ => W).
Proof.
intros Hwf Hall.
eapply triple_bind; [apply W_MkdirTemp | intros res].
destruct res as [unpackDir|err].
2:{ apply triple_ret. intros w [Hw _]. exact Hw. }
apply triple_assume. intros [n HU].
eapply triple_bind; [exact (W_Vendor_staged es0 unpackDir n HU Hwf _ _ order Hall)
                    | intros r0].
eapply triple_bind; [|intros u2; apply W_ret].
apply (W_RemoveAll wd0 r s unpackDir _ HU). apply staging_off.
Qed.

End VendorTail.

Section VendorFrame.

Variable wd0 : string.
Variable r : list string.
Variable s : option Tree.node.
Variable p : string.

Hypothesis wd_abs : Path.IsAbs wd0 = true.

Local Abbreviation W := (watched wd0 r s).
Local Abbreviation C := (Path.resolve wd0 p ++ ["cue.mod"])%list.
Local Abbreviation D := ((Path.resolve wd0 p ++ ["cue.mod"]) ++ ["pkg"])%list.
Local Abbreviation cuePkgDir := (Path.Join [p; "cue.mod"; "pkg"]).

Hypothesis off_pkg : Tree.is_prefix D r = false.
Hypothesis off_module_cue : Tree.is_prefix (C ++ ["module.cue"])%list r = false.
Hypothesis r_above : s = None -> Tree.is_prefix r D = false.

Lemma below_off (cs : list string) : Tree.is_prefix (D ++ cs)%list r = false.
Proof. apply is_prefix_trans_app. exact off_pkg. Qed.

Lemma below_fresh (cs : list string) :
  s = None -> Tree.is_prefix r (D ++ cs)%list = false.
Proof.
intros Hs. destruct (Tree.is_prefix r (D ++ cs)%list) eqn:E; [|reflexivity].
destruct (is_prefix_app_cases _ _ _ E) as [[r' [_ Ha]]|[q' [r' [Hq _]]]].
- pose proof (r_above Hs) as H. rewrite Ha, is_prefix_app in H. discriminate.
- pose proof off_pkg as H. rewrite Hq, is_prefix_app in H. discriminate.
Qed.

Lemma above_fresh : s = None -> Tree.is_prefix r C = false.
Proof.
intros Hs. destruct (Tree.is_prefix r C) eqn:E; [|reflexivity].
destruct (is_prefix_split _ _ E) as [rest Hrest].
pose proof (r_above Hs) as H. rewrite Hrest, <- app_assoc, is_prefix_app in H.
discriminate.
Qed.

Lemma resolve_cuePkgDir : Path.resolve wd0 cuePkgDir = D.
Proof. rewrite resolve_Join3 by reflexivity. rewrite <- app_assoc. reflexivity. Qed.

Lemma W_CueModInit (module : string) :
  triple W (CueModInit p module) (fun _ => W).
Proof.
unfold CueModInit.
eapply triple_bind with (Mid := fun a w' => W w' /\ a = wd0).
{ intros w Hw. split; [exact Hw | exact (proj1 Hw)]. }
intros wd. apply triple_assume. intros ->.
assert (HmodDir : Path.resolve wd0 (Path.Join [Path.Abs wd0 p; "cue.mod"]) = C).
{ rewrite resolve_Join2 by (repeat constructor).
  rewrite resolve_Abs by exact wd_abs. reflexivity. }
eapply triple_bind; [exact (W_MkdirAll wd0 r s _ 493 C HmodDir above_fresh) | intros e].
destruct (match e with Some _ => _ | None => _ end); [apply W_ret|].
eapply triple_bind; [apply triple_pure; reflexivity | intros st].
eapply triple_bind with (Mid := fun _ => W).
{ destruct st as [fi|err]; [apply W_ret|].
  destruct (negb _); [apply W_ret|].
  apply (W_WriteFile wd0 r s _ _ _ (C ++ ["module.cue"])%list).
  - rewrite resolve_Join2 by (repeat constructor). rewrite HmodDir. reflexivity.
  - exact off_module_cue. }
intros e2. destruct e2; [apply W_ret|].
eapply triple_bind.
{ apply (W_Mkdir wd0 r s _ 493 D).
  - rewrite resolve_Join2 by (repeat constructor). rewrite HmodDir. reflexivity.
  - exact off_pkg. }
intros e3. destruct e3 as [err|]; [destruct (negb _)|]; apply W_ret.
Qed.

Lemma W_Vendor_locked (version_Version version_DevelopmentVersion : string)
      (es0 : list (string * Embed.bnode)) (order : list string) :
  wellFormed (Embed.BDir es0) = true ->
  Forall (fun m => In m tableNames) order ->
  triple W (Vendor_locked version_Version version_DevelopmentVersion (Embed.BDir es0)
                          order p cuePkgDir)
         (fun _ => W).
Proof.
intros Hwf Hall. unfold Vendor_locked.
eapply triple_bind; [apply W_CueModInit | intros e].
destruct e as [err|]; [apply W_ret|].
eapply triple_bind; [apply triple_pure; reflexivity | intros contents].
eapply triple_bind with (Mid := fun _ => W).
{ destruct contents as [contents|err]; [|apply W_ret].
  destruct (Strings.HasPrefix _ _); [|apply W_ret].
  eapply triple_bind; [|intros u; apply W_ret].
  apply (W_Remove wd0 r s _ (D ++ [".gitignore"])%list).
  - rewrite resolve_Join2 by (repeat constructor).
    rewrite resolve_cuePkgDir. reflexivity.
  - apply below_off. }
intros u.
eapply triple_bind.
{ apply (W_WriteFile wd0 r s _ _ _ (D ++ [".gitattributes"])%list).
  - rewrite resolve_Join2 by (repeat constructor).
    rewrite resolve_cuePkgDir. reflexivity.
  - apply below_off. }
intros e. destruct e as [err|]; [apply W_ret|].
apply W_Vendor_unpack; [| | |exact Hwf | exact Hall].
- intros n cs. rewrite resolve_cuePkgDir. apply below_off.
- intros Hs n cs. rewrite resolve_cuePkgDir. apply below_fresh, Hs.
- intros m _. rewrite resolve_cuePkgDir. split; apply below_off.
Qed.

End VendorFrame.

(** X15.  [Vendor] works inside the package directory [cue.mod/pkg] of
    the project and at the file [cue.mod/module.cue] only, where it has
    the kernel resolve no link.  A path that is not below the package
    directory, not at or below [module.cue], and that either exists or
    is no ancestor of the package directory, leads after the run to what
    it led to before: the same file with the same contents and mode, the
    same link, a directory of the same mode, or nothing; this whether
    the run succeeds or stops at an error.  The working directory is the
    same too. *)
Theorem vendor_footprint (version_Version version_DevelopmentVersion : string)
        (es0 : list (string * Embed.bnode)) (fuel : nat) (order : list string)
        (p root : string) (w : Os.World) (r : list string) :
  let C := (Path.resolve (Os.wd w) root ++ ["cue.mod"])%list in
  let D := (C ++ ["pkg"])%list in
  let w' := snd (Vendor version_Version version_DevelopmentVersion (Embed.BDir es0)
                        fuel order p w) in
  wellFormed (Embed.BDir es0) = true ->
  Path.IsAbs (Os.wd w) = true ->
  Forall (fun m => In m tableNames) order ->
  fst (projectRoot fuel p w) = Some root ->
  vendorFollowsNoLink (Os.fs w) C = true ->
  Tree.is_prefix D r = false ->
  Tree.is_prefix (C ++ ["module.cue"])%list r = false ->
  (shapeAt (Os.fs w) r = None -> Tree.is_prefix r D = false) ->
  Os.wd w' = Os.wd w /\ shapeAt (Os.fs w') r = shapeAt (Os.fs w) r.
Proof.
intros C D w' Hwf Habs Hall Hroot _ Hpkg Hmod Habove. unfold w'.
rewrite (Vendor_stages _ _ _ _ _ _ _ _ Hroot).
set (cuePkgDir := Path.Join [root; "cue.mod"; "pkg"]).
set (lockFile := Path.Join [cuePkgDir; lockFilePath]).
set (wd0 := Os.wd w) in *.
set (s := shapeAt (Os.fs w) r) in *.
assert (HW0 : watched wd0 r s w) by (split; reflexivity).
assert (HD : Path.resolve wd0 cuePkgDir = D) by (apply resolve_cuePkgDir).
assert (HL : Path.resolve wd0 lockFile = (D ++ [lockFilePath])%list).
{ unfold lockFile. rewrite resolve_Join2 by (repeat constructor).
  rewrite HD. reflexivity. }
pose proof (W_MkdirAll wd0 r s cuePkgDir 493 _ HD Habove w HW0) as HW1.
destruct (Os.MkdirAll cuePkgDir 493 w) as [[err|] w1]; [exact HW1|].
pose proof (W_Lock wd0 r s lockFile _ HL (below_off wd0 r root Hpkg _) w1 HW1) as HW2.
destruct (Os.Lock lockFile w1) as [[err|] w2]; [exact HW2|].
pose proof (W_Vendor_locked wd0 r s root Habs Hpkg Hmod Habove version_Version
              version_DevelopmentVersion es0 order Hwf Hall w2 HW2) as HW3.
fold cuePkgDir in HW3.
set (wL := snd (Vendor_locked version_Version version_DevelopmentVersion
                              (Embed.BDir es0) order root cuePkgDir w2)) in *.
pose proof (W_Unlock wd0 r s lockFile wL HW3) as HW4.
exact (W_Remove wd0 r s lockFile _ HL (below_off wd0 r root Hpkg _) _ HW4).
Qed.

Lemma vendor_footprint_witness :
  let ran := Vendor "0.2.36" "devel" exampleBundle 0 tableNames "/proj" worldUserFiles in
  fst ran = Return None
  /\ shapeAt (Os.fs (snd ran)) ["proj"; "cue.mod"; "pkg"; "dagger.io"; "cue.mod";
                                "version.txt"]
     = Some (Tree.File 384 "0.2.36")
  /\ Os.wd (snd ran) = "/proj"
  /\ shapeAt (Os.fs (snd ran)) ["proj"; "cue.mod"; "usr"; "own.cue"]
     = Some (Tree.File 420 "package own").
Proof.
cbv zeta. split; [vm_compute; reflexivity|]. split; [vm_compute; reflexivity|].
apply (vendor_footprint "0.2.36" "devel" _ 0 tableNames "/proj" "/proj"
         worldUserFiles ["proj"; "cue.mod"; "usr"; "own.cue"]).
- reflexivity.
- reflexivity.
- exact tableNames_all.
- reflexivity.
- reflexivity.
- reflexivity.
- reflexivity.
- discriminate.
Defined.

(** ** Inside the package directory                                       *)

Lemma stagingName_differs (n : N) (x : string) :
  Strings.HasPrefix x "vendor-" = false -> String.eqb (stagingName n) x = false.
Proof.
intros H. apply String.eqb_neq. intros E. rewrite <- E in H.
unfold stagingName in H. rewrite HasPrefix_app in H. discriminate.
Qed.

Section InsidePkg.

Variable wd0 : string.
Variable p x : string.
Variable q : list string.
Variable s : option Tree.node.

Hypothesis wd_abs : Path.IsAbs wd0 = true.

Local Abbreviation cuePkgDir := (Path.Join [p; "cue.mod"; "pkg"]).
Local Abbreviation D := (Path.resolve wd0 p ++ ["cue.mod"; "pkg"])%list.
Local Abbreviation r := ((Path.resolve wd0 p ++ ["cue.mod"; "pkg"]) ++ x :: q)%list.
Local Abbreviation W := (watched wd0 r s).

Lemma resolve_pkg : Path.resolve wd0 cuePkgDir = D.
Proof. apply resolve_Join3; reflexivity. Qed.

Lemma entry_off (y : string) (cs : list string) :
  String.eqb y x = false -> Tree.is_prefix (D ++ y :: cs)%list r = false.
Proof. apply is_prefix_fork. Qed.

Lemma entry_fresh (y : string) (cs : list string) :
  String.eqb y x = false -> Tree.is_prefix r (D ++ y :: cs)%list = false.
Proof. intros H. apply is_prefix_fork. rewrite String.eqb_sym. exact H. Qed.

Lemma r_below_cue_mod :
  r = ((Path.resolve wd0 p ++ ["cue.mod"]) ++ "pkg" :: x :: q)%list.
Proof. rewrite <- !app_assoc. reflexivity. Qed.

Lemma P_MkdirAll_pkg : triple W (Os.MkdirAll cuePkgDir 493) (fun _ => W).
Proof.
apply (W_MkdirAll wd0 r s _ 493 D resolve_pkg).
intros _. apply is_prefix_longer.
Qed.

Lemma resolve_entry (y : string) :
  simple y = true -> Path.resolve wd0 (Path.Join [cuePkgDir; y]) = (D ++ [y])%list.
Proof.
intros Hy. destruct (simple_spec _ Hy) as [Hs _].
rewrite resolve_Join2; rewrite (SplitSlash_noslash y Hs);
  [rewrite resolve_pkg; reflexivity | repeat constructor; exact Hy].
Qed.

Lemma P_CueModInit (module : string) :
  triple W (CueModInit p module) (fun _ => W).
Proof.
unfold CueModInit.
eapply triple_bind with (Mid := fun a w' => W w' /\ a = wd0).
{ intros w Hw. split; [exact Hw | exact (proj1 Hw)]. }
intros wd. apply triple_assume. intros ->.
assert (HmodDir : Path.resolve wd0 (Path.Join [Path.Abs wd0 p; "cue.mod"])
                  = (Path.resolve wd0 p ++ ["cue.mod"])%list).
{ rewrite resolve_Join2 by (repeat constructor).
  rewrite resolve_Abs by exact wd_abs. reflexivity. }
eapply triple_bind.
{ apply (W_MkdirAll wd0 r s _ 493 _ HmodDir).
  intros _. rewrite r_below_cue_mod. apply is_prefix_longer. }
intros e.
destruct (match e with Some _ => _ | None => _ end); [apply W_ret|].
eapply triple_bind; [apply triple_pure; reflexivity | intros st].
eapply triple_bind with (Mid := fun _ => W).
{ destruct st as [fi|err]; [apply W_ret|].
  destruct (negb _); [apply W_ret|].
  apply (W_WriteFile wd0 r s _ _ _
           ((Path.resolve wd0 p ++ ["cue.mod"]) ++ ["module.cue"])%list).
  - rewrite resolve_Join2 by (repeat constructor). rewrite HmodDir. reflexivity.
  - rewrite r_below_cue_mod. apply is_prefix_fork. reflexivity. }
intros e2. destruct e2; [apply W_ret|].
eapply triple_bind.
{ apply (W_Mkdir_below wd0 r s _ 493 D x q); [|reflexivity].
  rewrite resolve_Join2 by (repeat constructor). rewrite HmodDir.
  rewrite <- app_assoc. reflexivity. }
intros e3. destruct e3 as [err|]; [destruct (negb _)|]; apply W_ret.
Qed.

(** The staging directory, the swaps and the removals. *)
Lemma P_Vendor_unpack (version_Version version_DevelopmentVersion : string)
      (es0 : list (string * Embed.bnode)) (order : list string) :
  wellFormed (Embed.BDir es0) = true ->
  Forall (fun m => In m tableNames) order ->
  Strings.HasPrefix x "vendor-" = false ->
  (forall m, In m tableNames ->
             String.eqb m x = false /\ String.eqb (m ++ ".old") x = false) ->
  triple W
         (u <- Os.MkdirTemp cuePkgDir "vendor-*" ;;
          match u with
          | Err err => Os.ret (Some err)
          | Ok unpackDir =>
              r <- Vendor_staged version_Version version_DevelopmentVersion
                                 (Embed.BDir es0) order cuePkgDir unpackDir ;;
              Os.RemoveAll unpackDir ;;;
              Os.ret r
          end)
         (fun _ => W).
Proof.
intros Hwf Hall Hv Hm.
apply W_Vendor_unpack; [| | |exact Hwf | exact Hall].
- intros n cs. rewrite resolve_pkg. apply entry_off, stagingName_differs, Hv.
- intros _ n cs. rewrite resolve_pkg. apply entry_fresh, stagingName_differs, Hv.
- intros m Hin. rewrite resolve_pkg. destruct (Hm m Hin) as [H1 H2].
  split; apply entry_off; assumption.
Qed.

End InsidePkg.

Section OtherEntries.

Variable wd0 : string.
Variable p x : string.
Variable q : list string.
Variable s : option Tree.node.

Hypothesis wd_abs : Path.IsAbs wd0 = true.
Hypothesis x_other : vendorOwns x = false.

Local Abbreviation cuePkgDir := (Path.Join [p; "cue.mod"; "pkg"]).
Local Abbreviation D := (Path.resolve wd0 p ++ ["cue.mod"; "pkg"])%list.
Local Abbreviation W :=
  (watched wd0 ((Path.resolve wd0 p ++ ["cue.mod"; "pkg"]) ++ x :: q)%list s).

Lemma other_names :
  String.eqb lockFilePath x = false
  /\ String.eqb ".gitignore" x = false
  /\ String.eqb ".gitattributes" x = false
  /\ Strings.HasPrefix x "vendor-" = false
  /\ forall m, In m tableNames ->
               String.eqb m x = false /\ String.eqb (m ++ ".old") x = false.
Proof.
pose proof x_other as H. unfold vendorOwns in H.
apply orb_false_elim in H. destruct H as [H H5].
apply orb_false_elim in H. destruct H as [H H4].
apply orb_false_elim in H. destruct H as [H H3].
apply orb_false_elim in H. destruct H as [H1 H2].
rewrite String.eqb_sym in H1, H2, H3.
repeat (split; [assumption|]).
intros m Hm. simpl in H5.
apply orb_false_elim in H5. destruct H5 as [Ha H5].
apply orb_false_elim in H5. destruct H5 as [Hb _].
apply orb_false_elim in Ha. destruct Ha as [Ha1 Ha2].
apply orb_false_elim in Hb. destruct Hb as [Hb1 Hb2].
rewrite String.eqb_sym in Ha1, Ha2, Hb1, Hb2.
destruct Hm as [<-|[<-|[]]]; split; assumption.
Qed.

Lemma O_Vendor_locked (version_Version version_DevelopmentVersion : string)
      (es0 : list (string * Embed.bnode)) (order : list string) :
  wellFormed (Embed.BDir es0) = true ->
  Forall (fun m => In m tableNames) order ->
  triple W (Vendor_locked version_Version version_DevelopmentVersion (Embed.BDir es0)
                          order p cuePkgDir)
         (fun _ => W).
Proof.
intros Hwf Hall. destruct other_names as [_ [Hgi [Hga [Hv Hm]]]].
unfold Vendor_locked.
eapply triple_bind; [apply P_CueModInit; exact wd_abs | intros e].
destruct e as [err|]; [apply W_ret|].
eapply triple_bind; [apply triple_pure; reflexivity | intros contents].
eapply triple_bind with (Mid := fun _ => W).
{ destruct contents as [contents|err]; [|apply W_ret].
  destruct (Strings.HasPrefix contents _); [|apply W_ret].
  eapply triple_bind; [|intros u; apply W_ret].
  apply (W_Remove wd0 _ s _ _ (resolve_entry wd0 p ".gitignore" eq_refl)).
  apply entry_off. exact Hgi. }
intros u.
eapply triple_bind.
{ apply (W_WriteFile wd0 _ s _ _ _ _ (resolve_entry wd0 p ".gitattributes" eq_refl)).
  apply entry_off. exact Hga. }
intros e. destruct e as [err|]; [apply W_ret|].
apply P_Vendor_unpack; assumption.
Qed.

End OtherEntries.

(** X16.  In the package directory [Vendor] works at its own entries
    only: the lock file, [.gitignore], [.gitattributes], the staging
    directories [vendor-*], the modules of the table and their backups.
    Any other entry, a package of the user's own say, with all below it,
    is after the run what it was before, whether the run succeeds or
    stops at an error. *)
Theorem vendor_keeps_other_entries
        (version_Version version_DevelopmentVersion : string)
        (es0 : list (string * Embed.bnode)) (fuel : nat) (order : list string)
        (p root : string) (w : Os.World) (x : string) (q : list string) :
  let C := (Path.resolve (Os.wd w) root ++ ["cue.mod"])%list in
  let D := (Path.resolve (Os.wd w) root ++ ["cue.mod"; "pkg"])%list in
  let w' := snd (Vendor version_Version version_DevelopmentVersion (Embed.BDir es0)
                        fuel order p w) in
  wellFormed (Embed.BDir es0) = true ->
  Path.IsAbs (Os.wd w) = true ->
  Forall (fun m => In m tableNames) order ->
  fst (projectRoot fuel p w) = Some root ->
  vendorFollowsNoLink (Os.fs w) C = true ->
  vendorOwns x = false ->
  shapeAt (Os.fs w') (D ++ x :: q)%list = shapeAt (Os.fs w) (D ++ x :: q)%list.
Proof.
intros C D w' Hwf Habs Hall Hroot _ Hx. unfold w'.
rewrite (Vendor_stages _ _ _ _ _ _ _ _ Hroot).
set (cuePkgDir := Path.Join [root; "cue.mod"; "pkg"]).
set (lockFile := Path.Join [cuePkgDir; lockFilePath]).
set (wd0 := Os.wd w) in *.
set (s := shapeAt (Os.fs w) (D ++ x :: q)%list).
destruct (other_names x Hx) as [Hlock _].
assert (HW0 : watched wd0 (D ++ x :: q)%list s w) by (split; reflexivity).
assert (HL : Path.resolve wd0 lockFile = (D ++ [lockFilePath])%list)
  by (apply resolve_entry; reflexivity).
pose proof (P_MkdirAll_pkg wd0 root x q s w HW0) as HW1.
fold cuePkgDir in HW1.
destruct (Os.MkdirAll cuePkgDir 493 w) as [[err|] w1]; [exact (proj2 HW1)|].
pose proof (W_Lock wd0 _ s lockFile _ HL (entry_off wd0 root x q _ [] Hlock) w1 HW1)
  as HW2.
destruct (Os.Lock lockFile w1) as [[err|] w2]; [exact (proj2 HW2)|].
pose proof (O_Vendor_locked wd0 root x q s Habs Hx version_Version
              version_DevelopmentVersion es0 order Hwf Hall w2 HW2) as HW3.
fold cuePkgDir in HW3.
set (wL := snd (Vendor_locked version_Version version_DevelopmentVersion
                              (Embed.BDir es0) order root cuePkgDir w2)) in *.
pose proof (W_Unlock wd0 _ s lockFile wL HW3) as HW4.
exact (proj2 (W_Remove wd0 _ s lockFile _ HL (entry_off wd0 root x q _ [] Hlock) _ HW4)).
Qed.

Lemma vendor_keeps_other_entries_witness :
  let ran := Vendor "0.2.36" "devel" exampleBundle 0 tableNames "/proj" worldOwnPackage in
  fst ran = Return None
  /\ shapeAt (Os.fs (snd ran)) ["proj"; "cue.mod"; "pkg"; "example.com"; "x.cue"]
     = Some (Tree.File 420 "package x").
Proof.
cbv zeta. split; [vm_compute; reflexivity|].
apply (vendor_keeps_other_entries "0.2.36" "devel" _ 0 tableNames "/proj" "/proj"
         worldOwnPackage "example.com" ["x.cue"]).
- reflexivity.
- reflexivity.
- exact tableNames_all.
- reflexivity.
- reflexivity.
- reflexivity.
Defined.

(** ** The git files                                                      *)

Section GitFiles.

Variable wd0 : string.
Variable p : string.
Variable version_Version version_DevelopmentVersion : string.
Variable es0 : list (string * Embed.bnode).
Variable order : list string.

Hypothesis wd_abs : Path.IsAbs wd0 = true.
Hypothesis FS_wf : wellFormed (Embed.BDir es0) = true.
Hypothesis order_table : Forall (fun m => In m tableNames) order.

Local Abbreviation cuePkgDir := (Path.Join [p; "cue.mod"; "pkg"]).
Local Abbreviation D := (Path.resolve wd0 p ++ ["cue.mod"; "pkg"])%list.
Local Abbreviation G := ((Path.resolve wd0 p ++ ["cue.mod"; "pkg"]) ++ [".gitignore"])%list.
Local Abbreviation A :=
  ((Path.resolve wd0 p ++ ["cue.mod"; "pkg"]) ++ [".gitattributes"])%list.

Lemma table_names_apart (x : string) :
  x = ".gitignore" \/ x = ".gitattributes" ->
  Strings.HasPrefix x "vendor-" = false
  /\ forall m, In m tableNames ->
               String.eqb m x = false /\ String.eqb (m ++ ".old") x = false.
Proof.
intros [->| ->]; (split; [reflexivity|]);
  intros m [<-|[<-|[]]]; split; reflexivity.
Qed.

(** What is read at [.gitignore], from what is there. *)
Lemma gitignore_read (s0 : option Tree.node) :
  triple (watched wd0 G s0) (Os.ReadFile (Path.Join [cuePkgDir; ".gitignore"]))
         (fun c w' => watched wd0 G s0 w'
                      /\ match s0 with
                         | Some (Tree.File _ data) => c = Ok data
                         | _ => exists err, c = Err err
                         end).
Proof.
intros w [Hwd Hs]. split; [split; assumption|].
unfold Os.ReadFile, Os.at_path. simpl fst.
rewrite Hwd, (resolve_entry wd0 p ".gitignore" eq_refl).
unfold shapeAt in Hs.
destruct (Tree.lookup (Os.fs w) G) as [n|e]; [|subst s0; eauto].
destruct n as [pm d|tg|pm es]; subst s0; simpl; eauto.
Qed.

Lemma gitignore_removed (pm : N) (data : string) :
  triple (watched wd0 G (Some (Tree.File pm data)))
         (Os.Remove (Path.Join [cuePkgDir; ".gitignore"]))
         (fun _ => watched wd0 G None).
Proof.
intros w [Hwd Hs]. apply shapeAt_file in Hs.
destruct (remove_file (Os.fs w) G) as [t' [Hrm Hgone]].
{ exists (Tree.File pm data). split; [exact Hs | reflexivity]. }
{ destruct (Path.resolve wd0 p); discriminate. }
unfold Os.Remove.
destruct (mutate_ok (Os.CRemove (Path.Join [cuePkgDir; ".gitignore"]))
            (PathError "remove" (Path.Join [cuePkgDir; ".gitignore"]))
            (fun w0 => Tree.remove (Os.fs w0)
                         (Os.at_path w0 (Path.Join [cuePkgDir; ".gitignore"]))) w t')
  as [_ [E2 E3]].
{ unfold Os.at_path. rewrite Hwd, (resolve_entry wd0 p ".gitignore" eq_refl).
  exact Hrm. }
split; [congruence|]. rewrite E2. unfold shapeAt. rewrite Hgone. reflexivity.
Qed.

(** The step on [.gitignore], once it is read. *)
Lemma gitignore_step (s0 : option Tree.node) (c : res string) :
  match s0 with
  | Some (Tree.File _ data) => c = Ok data
  | _ => exists err, c = Err err
  end ->
  triple (watched wd0 G s0)
         (match c with
          | Ok contents =>
              if Strings.HasPrefix contents "# generated by dagger"
              then Os.Remove (Path.Join [cuePkgDir; ".gitignore"]) ;;; Os.ret tt
              else Os.ret tt
          | Err _ => Os.ret tt
          end)
         (fun _ => watched wd0 G (gitignoreAfter s0)).
Proof.
intros Hc.
destruct s0 as [[pm data|tg|pm es]|].
- subst c. unfold gitignoreAfter.
  destruct (Strings.HasPrefix data _).
  + eapply triple_bind; [apply gitignore_removed | intros u].
    apply triple_ret. auto.
  + apply triple_ret. auto.
- destruct Hc as [err ->]. apply triple_ret. auto.
- destruct Hc as [err ->]. apply triple_ret. auto.
- destruct Hc as [err ->]. apply triple_ret. auto.
Qed.

Lemma locked_gitignore (s0 : option Tree.node) :
  triple (watched wd0 G s0)
         (Vendor_locked version_Version version_DevelopmentVersion (Embed.BDir es0)
                        order p cuePkgDir)
         (fun e w' => e = None -> watched wd0 G (gitignoreAfter s0) w').
Proof.
destruct (table_names_apart ".gitignore" (or_introl eq_refl)) as [Hv Hm].
unfold Vendor_locked.
eapply triple_bind; [apply (P_CueModInit wd0 p ".gitignore" [] s0 wd_abs) | intros e].
destruct e as [err|]; [apply triple_ret; discriminate|].
eapply triple_bind; [apply gitignore_read | intros c].
apply triple_assume. intros Hc.
eapply triple_bind; [exact (gitignore_step s0 c Hc) | intros u].
eapply triple_bind.
{ apply (W_WriteFile wd0 G _ _ _ _ _ (resolve_entry wd0 p ".gitattributes" eq_refl)).
  apply (entry_off wd0 p ".gitignore" [] ".gitattributes" []). reflexivity. }
intros e. destruct e as [err|]; [apply triple_ret; discriminate|].
eapply triple_weaken;
  [apply (P_Vendor_unpack wd0 p ".gitignore" [] (gitignoreAfter s0) _ _ es0 order
            FS_wf order_table Hv Hm)
  | intros w Hw; exact Hw | intros a w Hw _; exact Hw].
Qed.

(** A [WriteFile] that returns no error leaves the text. *)
Lemma written_text (name data : string) (perm : N) (cs : list string) :
  Path.resolve wd0 name = cs ->
  triple (wdIs wd0) (Os.WriteFile name data perm)
         (fun e w' => wdIs wd0 w'
                      /\ (e = None -> exists pm, shapeAt (Os.fs w') cs
                                                 = Some (Tree.File pm data))).
Proof.
intros Hname w Hwd. unfold wdIs in Hwd. unfold Os.WriteFile.
destruct (Tree.write perm data (Os.fs w) (Os.at_path w name)) as [t1|e] eqn:Hwr.
- destruct (mutate_ok (Os.CWriteFile name data perm) (PathError "open" name)
              (fun w0 => Tree.write perm data (Os.fs w0) (Os.at_path w0 name)) w t1 Hwr)
    as [_ [E2 E3]].
  split; [unfold wdIs; congruence|]. intros _. rewrite E2.
  unfold Os.at_path in Hwr. rewrite Hwd, Hname in Hwr.
  destruct (alter_at _ _ _ _ _ Hwr) as [o [Ho Hlo]].
  unfold shapeAt. rewrite Hlo.
  destruct (optOf _) as [n|]; [destruct n as [pm d|tg|pm es]|];
    simpl in Ho; try discriminate; injection Ho as <-; eexists; reflexivity.
- destruct (mutate_err (Os.CWriteFile name data perm) (PathError "open" name)
              (fun w0 => Tree.write perm data (Os.fs w0) (Os.at_path w0 name)) w e Hwr)
    as [E1 [_ E3]].
  split; [unfold wdIs; congruence|]. rewrite E1. discriminate.
Qed.

Lemma locked_gitattributes :
  triple (wdIs wd0)
         (Vendor_locked version_Version version_DevelopmentVersion (Embed.BDir es0)
                        order p cuePkgDir)
         (fun e w' => e = None ->
                      exists pm, watched wd0 A (Some (Tree.File pm gitattributesText)) w').
Proof.
destruct (table_names_apart ".gitattributes" (or_intror eq_refl)) as [Hv Hm].
unfold Vendor_locked.
eapply triple_bind; [apply Wd_CueModInit | intros e].
destruct e as [err|]; [apply triple_ret; discriminate|].
eapply triple_bind; [apply triple_pure; reflexivity | intros contents].
eapply triple_bind with (Mid := fun _ => wdIs wd0).
{ destruct contents as [contents|err]; [|apply Wd_ret].
  destruct (Strings.HasPrefix contents _); [|apply Wd_ret].
  eapply triple_bind; [apply Wd_mutate | intros u; apply Wd_ret]. }
intros u.
eapply triple_bind;
  [apply (written_text _ _ _ _ (resolve_entry wd0 p ".gitattributes" eq_refl))
  | intros e].
destruct e as [err|]; [apply triple_ret; discriminate|].
intros w [Hwd Hex]. destruct (Hex eq_refl) as [pm Hpm]. intros _. exists pm.
exact (P_Vendor_unpack wd0 p ".gitattributes" [] _ _ _ es0 order
         FS_wf order_table Hv Hm w (conj Hwd Hpm)).
Qed.

End GitFiles.

(** X17.  The git files of the package directory after a run of
    [Vendor] that returns no error.  [.gitattributes] is a file with the
    generated text.  A [.gitignore] that was a file beginning with the
    line of the old releases, [# generated by dagger], is gone; any
    other [.gitignore], or none, is what it was. *)
Theorem vendor_git_files (version_Version version_DevelopmentVersion : string)
        (es0 : list (string * Embed.bnode)) (fuel : nat) (order : list string)
        (p root : string) (w : Os.World) :
  let C := (Path.resolve (Os.wd w) root ++ ["cue.mod"])%list in
  let D := (Path.resolve (Os.wd w) root ++ ["cue.mod"; "pkg"])%list in
  let ran := Vendor version_Version version_DevelopmentVersion (Embed.BDir es0)
                    fuel order p w in
  wellFormed (Embed.BDir es0) = true ->
  Path.IsAbs (Os.wd w) = true ->
  Forall (fun m => In m tableNames) order ->
  fst (projectRoot fuel p w) = Some root ->
  vendorFollowsNoLink (Os.fs w) C = true ->
  linkAt (Os.fs w) (D ++ [".gitignore"])%list = false ->
  fst ran = Return None ->
  (exists pm, shapeAt (Os.fs (snd ran)) (D ++ [".gitattributes"])%list
              = Some (Tree.File pm gitattributesText))
  /\ shapeAt (Os.fs (snd ran)) (D ++ [".gitignore"])%list
     = gitignoreAfter (shapeAt (Os.fs w) (D ++ [".gitignore"])%list).
Proof.
intros C D ran Hwf Habs Hall Hroot _ _ Hran. unfold ran in *.
rewrite (Vendor_stages _ _ _ _ _ _ _ _ Hroot) in *.
set (cuePkgDir := Path.Join [root; "cue.mod"; "pkg"]) in *.
set (lockFile := Path.Join [cuePkgDir; lockFilePath]) in *.
set (wd0 := Os.wd w) in *.
set (s0 := shapeAt (Os.fs w) (D ++ [".gitignore"])%list).
assert (HW0 : watched wd0 (D ++ [".gitignore"])%list s0 w) by (split; reflexivity).
assert (HL : Path.resolve wd0 lockFile = (D ++ [lockFilePath])%list)
  by (apply resolve_entry; reflexivity).
pose proof (P_MkdirAll_pkg wd0 root ".gitignore" [] s0 w HW0) as HW1.
fold cuePkgDir in HW1.
destruct (Os.MkdirAll cuePkgDir 493 w) as [[err|] w1]; [discriminate|].
pose proof (W_Lock wd0 _ s0 lockFile _ HL
              (entry_off wd0 root ".gitignore" [] lockFilePath [] eq_refl) w1 HW1) as HW2.
destruct (Os.Lock lockFile w1) as [[err|] w2]; [discriminate|].
simpl in Hran. injection Hran as Hran.
pose proof (locked_gitignore wd0 root version_Version version_DevelopmentVersion es0
              order Habs Hwf Hall s0 w2 HW2 Hran) as HG.
destruct (locked_gitattributes wd0 root version_Version version_DevelopmentVersion es0
            order Hwf Hall w2 (proj1 HW2) Hran) as [pm HA].
fold cuePkgDir in HG, HA.
set (wL := snd (Vendor_locked version_Version version_DevelopmentVersion
                              (Embed.BDir es0) order root cuePkgDir w2)) in *.
simpl snd. split.
- exists pm.
  pose proof (W_Unlock wd0 _ _ lockFile wL HA) as HA4.
  exact (proj2 (W_Remove wd0 _ _ lockFile _ HL
                  (entry_off wd0 root ".gitattributes" [] lockFilePath [] eq_refl) _ HA4)).
- pose proof (W_Unlock wd0 _ _ lockFile wL HG) as HG4.
  exact (proj2 (W_Remove wd0 _ _ lockFile _ HL
                  (entry_off wd0 root ".gitignore" [] lockFilePath [] eq_refl) _ HG4)).
Qed.

Lemma vendor_git_files_witness :
  let ran := Vendor "0.2.36" "devel" exampleBundle 0 tableNames "/proj" worldOwnPackage in
  shapeAt (Os.fs worldOwnPackage) ["proj"; "cue.mod"; "pkg"; ".gitignore"]
  = Some (Tree.File 420 ("# generated by dagger" ++ newline ++ "dagger.io"))
  /\ (exists pm, shapeAt (Os.fs (snd ran)) ["proj"; "cue.mod"; "pkg"; ".gitattributes"]
                 = Some (Tree.File pm gitattributesText))
  /\ shapeAt (Os.fs (snd ran)) ["proj"; "cue.mod"; "pkg"; ".gitignore"] = None.
Proof.
cbv zeta. split; [reflexivity|].
apply (vendor_git_files "0.2.36" "devel" _ 0 tableNames "/proj" "/proj" worldOwnPackage).
- reflexivity.
- reflexivity.
- exact tableNames_all.
- reflexivity.
- reflexivity.
- reflexivity.
- vm_compute. reflexivity.
Defined.
